(* ===== verification/_CoqProject ===== *)
-Q . S2P
Prelude.v
LatteC.v
LatteCModel.v
KvStore.v
State.v
Db.v
ObjectDict.v
DictTypes.v
Reply.v
Protocol.v
CommandManager.v
Module.v
ModuleApi.v
StringModule.v
Commands.v
Client.v
Service.v
Streams.v
Sessions.v
Metric.v
MetricTest.v
Slowlog.v
EventLoop.v
Connections.v
Histories.v
Evict.v
Expire.v
Server.v
Main.v
Program.v
Benchmark.v
