(* ===== verification/Prelude.v ===== *)
(** * latte_redis_server: a verification library

    latte_redis_server is a Redis-compatible server in C on top of the library
    latte_c.  A connection delivers bytes to the query buffer of a client; the
    parser turns them into an argument vector; the command table finds the
    procedure of the first argument; the procedure, built in or registered by a
    module, reads and writes a database and appends its reply to the output of
    the client; then the slow log and the command counter are updated and the
    client is reset for the next request.  Start-up builds the command table,
    the shared reply objects, the databases and loads modules as the
    configuration says.  This library models that path from the first byte to
    the last, from the source under src/src, and proves what it does.

    ** How C is modelled

    Machine integers are [Z] with the wrap-around of their width written out
    ([u64], [i64], [i32], ...; [checked_i64] where the C overflow is undefined).
    Byte strings are lists of [ascii].  An execution that stops being defined
    (a failed [latte_assert], a [redis_panic], a NULL dereference, an access out
    of bounds, a signed overflow, an invalid free, ...) is the value [Fault] of [outcome], so a
    theorem that concludes [Done] also shows the absence of all of these.
    Reference counted objects live in a store ([heap], locations to objects),
    because the argument vector, the keyspace, the slow log and the shared
    replies alias them; reference counts are part of the statements.  A request
    handler is a function of the state-and-failure monad [M] over [world]: the
    store, the server, the client being served, the shared objects and the
    clock.  An uninitialised local variable is an argument ([garbage]) over
    which theorems quantify.

    ** Files

    - Prelude: outcomes, machine integers, C strings, the hint database and the
      tactics of the library, generic lemmas.
    - LatteC: the interface to latte_c (a git submodule whose code is not in the
      repository): a class of operations and a class of laws per library module
      (sds, dict, list, object, client, rax, vector, utilities), the laws being
      the documented behaviour the server relies on.  LatteCModel: one
      implementation with the proofs of all laws; concrete runs use it.
    - KvStore (redis/db.c, the kv_store_ functions): the array of dictionaries
      created on demand, its counters and the binary indexed tree of cumulative
      sizes; the specification is a finite map per shard.
    - State (the header files): the records, [world] and the monad.
    - Db (redis/db.c, the rest): [lookup_key], [db_add_key_value],
      [db_delete_key], [db_set_expire], [expire_if_needed], the LRU and LFU
      clocks, [init_redis_server_dbs]; a database is specified by two maps.
    - ObjectDict (redis/db.c): hash and comparison of dictionaries whose keys are
      objects, with the references that decoding takes and gives up.  DictTypes
      (redis/db.c, redis/module.c, redis/server.c, commands/command_manager.c,
      experiment/metric.c): the tables of callbacks of the other dictionaries.
    - Reply (redis/client_reply.c, shared/shared.c): shared objects, every reply
      function, deferred lengths ([set_deferred_reply] and its two gluing
      branches on the list of reply blocks).
    - Protocol (redis/client.c): [process_inline_buffer],
      [process_multibulk_buffer], [reset_redis_client]; the specification is a
      parser on bytes alone.
    - CommandManager (commands/command_manager.c): flags, identifiers, the table.
    - Module (redis/module.c): the functions offered to modules, loading.
      ModuleApi (redis/redis_module.h, redis/module.c): every name a module asks
      for is registered, and the functions for memory.
    - StringModule (modules/string.c, modules/latte.c, module_demo/hello.c):
      SET, GET and the registration of modules.
    - Commands (commands/command_manager.c, commands/info.c, commands/module.c):
      QUIT, PING, INFO, EXPIRE, MODULE and the table of procedures.
    - Client (redis/client.c): [process_command], [command_processed],
      [redis_process_input_buffer], [redis_client_handle], creation and closing.
    - Service: the sequential specification of the server (a map of values, a map
      of expiry times, the clock; SET, GET, PING, EXPIRE, INFO, QUIT and MODULE
      with any arguments in any spelling, and unknown commands) and that each
      request implements it.  Streams: what the bytes of one connection ask for,
      specified on bytes alone (requests, protocol errors, the phases of a
      connection).  Sessions: any number of clients whose bytes arrive in pieces
      and interleaved; the schedule of what they ask for.  EventLoop
      (redis/crons.c, redis/client.c): the same with the ends of commands and the
      cron jobs in between.  Connections (redis/client.c, redis/server.c): the
      same with clients that connect and disconnect, and what memory a new client
      may be made of.  Histories: what clients may rely on, over all requests of a
      run.
    - Metric (experiment/metric.c, redis/crons.c) with its test program in
      MetricTest (experiment/metric_test.c, testhelp.h, testassert.h), Slowlog
      (redis/slowlog.c), Evict (redis/evict.c): rings of rates, the log of slow
      commands, the pool of eviction candidates with the string buffers its
      entries point to.  Expire (redis/expire.c): the active expire cycle, as far
      as it is written.
    - Server (redis_config/config.c, redis/server.c): paths, the configuration
      and the start of the server.  Main (main.c, help.c, version.c, env.c): the
      program.  Program: from the command line to the replies.
    - Benchmark (benchmark.c): the separate benchmark client, with its calls of
      the event library recorded.

    ** What the theorems show

    - The server (Program, Connections, EventLoop, Sessions, Server): any number
      of clients send multibulk requests or bytes that break that protocol, cut
      and interleaved in any way, with ends of commands and cron jobs between
      them; what is in scope and what is not is said under Scope below.  Unless a
      byte follows an unknown command, the server completes without a fault and
      acts as the sequential specification on the schedule in which each request
      is executed when its last byte arrives ([event_loop_linearizable]).  In
      this scope the server stops exactly when a byte follows an unknown command
      ([unknown_command_stops_server]).  No object is lost: the store holds what
      it held before, the values of the keys and the arguments being received
      ([event_loop_no_leaks]).  As long as nobody stops the server, no request of
      a client that sends encoded requests is lost ([event_loop_answers_all]).
      One call of the input loop from any parser state
      ([redis_process_input_buffer_refines]).  Clients that connect and
      disconnect at any moments do not disturb the others
      ([connections_linearizable]), but what they had sent of a request is lost
      for ever ([disconnections_leak_arguments]), and the memory of such a client,
      used again for a new one, stops the server ([recycled_memory]).  A server started
      with the string module is in the initial state of these theorems
      ([start_redis_server_serves]), so that they hold of the program from its
      command line to any later moment of its life ([program_serves]).
    - Its clients (Histories): a GET sees the last SET of its key by anybody
      ([get_sees_last_set]), and a key whose time has come is gone
      ([expired_key_is_gone]).
    - The parser (Protocol): it refines a parser on bytes from every parser
      state and on every input; encoded requests in pieces of any sizes are
      parsed into their arguments; a reset gives up exactly the references the
      arguments own.
    - Storage (KvStore, Db): any sequence of additions, replacements and deletions
      acts as finite maps and keeps the number of keys, the number of dictionaries
      and the cumulative index exact; the counter of non-empty dictionaries
      drifts, and the specification says by how much; expiry deletes exactly what
      is due; every branch of the database operations.
    - Commands (StringModule, Commands, CommandManager): each command on each
      branch, with replies, references and the state that must not change; the
      command table up to letter case; stability of identifiers.
    - Replies (Reply): one-line errors, equal headers from the table and from
      formatting, deferred lengths at the right place within block sizes.
    - Object keys (ObjectDict): comparison is equality of texts, agrees with the
      hash and leaves all references as they were.
    - Supporting parts (Slowlog, Metric, Evict, Expire, Server, Main): what each
      keeps.  The slow log takes entries until it is full and cannot delete one
      (an invalid free); the eviction pool never lets two entries share a buffer;
      the expire cycle visits the databases in turn and expires nothing itself;
      half of the configured modules are lost.
    - The benchmark client never reads an answer (Benchmark).
    - Some theorems state a behaviour that differs from the intention of the
      code (an unknown command wedges its client, an empty inline line may loop,
      half of the configured modules are moved, ...); their comments say so.

    ** Scope of the theorems on the server

    The schedule theorems (Sessions, EventLoop, Connections, Histories, Program)
    have three restrictions, which are hypotheses of theirs.  The files show what
    happens outside.
    - Bytes ([item_ok], Service): no inline requests, whose effect depends on an
      uninitialised variable (Protocol has the theorem on their words; an empty
      line may be read for ever, [inline_empty_line]); no MODULE without a
      subcommand (it reads out of bounds, Service); no MODULE LOAD of a file that
      is a module (it changes the command table; StringModule has the theorem on
      loading); no NUL in a command name or in a key of SET (the key would be
      stored under a shorter name); no EXPIRE of 2^62 milliseconds or more (the
      time of death may overflow).
    - Ends of commands ([may_run], EventLoop): when the library calls the callback
      at the end of a command is not in the sources.  A command within the time
      limit may end at any moment, a slow one between two requests of its client,
      after the client has had a command and while the slow log has room; a slow
      end without a command dereferences NULL, with a full log it is an invalid
      free ([redis_client_command_end_correct]).
    - Memory of new clients ([usable_memory], Connections): [create_redis_client]
      leaves members as the allocator returns them.  Clear blocks and blocks of
      former clients without arguments are covered; a block with arguments stops
      the server at the first byte ([recycled_memory]).

    ** Fuel

    Loops that are not structural take fuel and return [Fault OutOfFuel] without
    it; the theorems give enough, so they include termination.  [bulk_loop] gets
    [multi_bulk_len], which each full iteration decreases; [fenwick_loop] gets
    one more than the number of shards, since the index grows in each step;
    [input_loop] takes any fuel above the number of bytes in the query buffer,
    since an iteration that goes on consumes some (an empty inline line, outside
    the scope above, is the exception), and [drain], its
    specification, gets that number; [expire_loop] gets the number of databases;
    [trim_entries] the length of the log; [scan_slash] and [resolve_dots] get the
    length of the path, [move_modules] and [pop_args] the size of the vector.

    ** Not modelled

    latte_c itself (event loop, sockets, hash tables, cron and configuration
    managers) is behind classes; the operating system side of loading a module
    and the sampling of a dictionary are parameters, and so are the names
    expire.c uses and no file declares.  Log lines and functions that only free
    memory are left out; crons/cron_expire.c is an unfinished declaration without
    a function.  A connection that is accepted or ends is the call of the
    registered callback and nothing else.  The C types of the functions a module
    fetches are declarations without behaviour and are left out.

    A string object is its text: the model reads the text of an object wherever
    the code treats its pointer as an sds.  A comment in [process_command]
    (redis/client.c:46) warns that an object created with the text inside it
    (EMBSTR) may not have a complete sds behind its pointer; what such a pointer
    looks like is decided in the object module of latte_c.  The clock is a
    sequence of readings; the lookup for a module takes one reading per call,
    also for keys without a time to live, where the code reads no clock: since
    the readings are arbitrary this only numbers them differently. *)

From stdpp Require Export base gmap strings list numbers sorting.
From Stdlib Require Export Ascii ZArith Lia.
From Stdlib Require Import DecimalString DecimalZ DecimalPos.

Declare Scope latte_scope.
Delimit Scope latte_scope with latte.
Open Scope Z_scope.
Open Scope latte_scope.

(** ** Outcomes: C statements that may fail

    [Fault] is the value of an execution that stops being defined: a failed
    [latte_assert], a [redis_panic] (which ends in [__builtin_unreachable]),
    a NULL dereference, an access outside an array, a read of an
    uninitialised cell, a division by zero, a signed overflow, the release of
    memory the allocator has not given out. *)
Inductive fault :=
  | AssertFailed (msg : string)
  | Panicked (msg : string)
  | NullDeref
  | OutOfBounds
  | UninitRead
  | DivByZero
  | SignedOverflow
  | InvalidFree
  | OutOfFuel.

Inductive outcome (A : Type) :=
  | Done (a : A)
  | Fault (f : fault).

Arguments Done {A} a.
Arguments Fault {A} f.

#[export] Instance fault_eq_dec : EqDecision fault.
Proof. solve_decision. Defined.

#[export] Instance outcome_ret : MRet outcome := fun A a => Done a.
#[export] Instance outcome_bind : MBind outcome := fun A B f m =>
  match m with Done a => f a | Fault e => Fault e end.

(** [latte_assert_with_info(cond, msg)]. *)
Definition latte_assert (cond : bool) (msg : string) : outcome unit :=
  if cond then Done tt else Fault (AssertFailed msg).

(** Dereference of a pointer that may be NULL. *)
Definition deref {A} (p : option A) : outcome A :=
  match p with Some a => Done a | None => Fault NullDeref end.

(** [a[i]]: reading an array cell, outside the array there is no value. *)
Definition array_get {A} (a : list A) (i : Z) : outcome A :=
  if decide (i < 0) then Fault OutOfBounds
  else match a !! Z.to_nat i with Some x => Done x | None => Fault OutOfBounds end.

(** [a[i] = x]. *)
Definition array_set {A} (a : list A) (i : Z) (x : A) : outcome (list A) :=
  if decide (0 <= i < Z.of_nat (length a)) then Done (<[Z.to_nat i := x]> a)
  else Fault OutOfBounds.

(** ** Machine integers: a w-bit integer is a [Z], wrap-around is explicit. *)
Definition wrap_u (w z : Z) : Z := z mod 2 ^ w.
Definition wrap_s (w z : Z) : Z :=
  let r := z mod 2 ^ w in if r <? 2 ^ (w - 1) then r else r - 2 ^ w.

Abbreviation u32 := (wrap_u 32).
Abbreviation u64 := (wrap_u 64).
Abbreviation i32 := (wrap_s 32).
Abbreviation i64 := (wrap_s 64).

(** A signed 64-bit expression: overflow has no defined value. *)
Definition checked_i64 (z : Z) : outcome Z :=
  if decide (- 2 ^ 63 <= z < 2 ^ 63) then Done z else Fault SignedOverflow.

(** The same for [int]. *)
Definition checked_i32 (z : Z) : outcome Z :=
  if decide (- 2 ^ 31 <= z < 2 ^ 31) then Done z else Fault SignedOverflow.

(** Division of unsigned integers. *)
Definition checked_div (a b : Z) : outcome Z := if b =? 0 then Fault DivByZero else Done (a / b).
Definition checked_mod (a b : Z) : outcome Z := if b =? 0 then Fault DivByZero else Done (a mod b).

(** [(x & mask) != 0] for flag words. *)
Definition has_flag (x mask : Z) : bool := negb (Z.land x mask =? 0).

(** ** Bytes and C strings *)
Abbreviation bytes := (list ascii).

Definition bs (s : string) : bytes := String.list_ascii_of_string s.

Definition NUL : ascii := "000"%char.
Definition CR : ascii := "013"%char.
Definition LF : ascii := "010"%char.
Definition SP : ascii := " "%char.
Definition CRLF : bytes := [CR; LF].

Definition zlen {A} (l : list A) : Z := Z.of_nat (length l).

(** Sum of a list of integers. *)
Definition zsum (l : list Z) : Z := foldr Z.add 0 l.

(** The C string that starts at the first byte: what [strlen], [strchr] and
    [%s] see, i.e. the bytes before the first NUL (the terminator that follows
    every sds buffer is implicit). *)
Fixpoint cstr (s : bytes) : bytes :=
  match s with
  | [] => []
  | c :: s' => if bool_decide (c = NUL) then [] else c :: cstr s'
  end.

Definition strlen (s : bytes) : Z := zlen (cstr s).

(** Offset of the first [c] of a list of bytes. *)
Fixpoint find_byte (c : ascii) (s : bytes) : option nat :=
  match s with
  | [] => None
  | x :: s' => if bool_decide (x = c) then Some 0%nat else S <$> find_byte c s'
  end.

(** [strchr(s, c)] for [c <> 0], as the offset of the match. *)
Definition strchr (s : bytes) (c : ascii) : option nat := find_byte c (cstr s).

Definition tolower (c : ascii) : ascii :=
  let n := nat_of_ascii c in
  if ((65 <=? n) && (n <=? 90))%nat then ascii_of_nat (n + 32) else c.

Definition lower (s : bytes) : bytes := map tolower s.

(** [strcmp(a, b) == 0] and [strcasecmp(a, b) == 0]. *)
Definition strcmp_eq (a b : bytes) : bool := bool_decide (cstr a = cstr b).
Definition strcasecmp_eq (a b : bytes) : bool :=
  bool_decide (lower (cstr a) = lower (cstr b)).

(** Decimal text of an integer: [%d], [%ld], [%lld], [%lu]. *)
Definition dec (z : Z) : bytes := bs (NilZero.string_of_int (Z.to_int z)).

(** Bytes that may appear inside one line of the protocol. *)
Definition line_byte (c : ascii) : Prop := c <> CR /\ c <> LF.

(** ** Hint database and tactics of the development *)
Create HintDb latte discriminated.
Create Rewrite HintDb latte.

Ltac deex :=
  repeat match goal with
  | H : exists x, _ |- _ => let y := fresh x in destruct H as [y H]
  | H : _ /\ _ |- _ => destruct H
  end.

(** Step through a monadic computation that is known to be [Done]. *)
Ltac outcome_step :=
  match goal with
  | H : mbind _ ?m = Done _ |- _ =>
      let E := fresh "E" in
      destruct m eqn:E; unfold mbind, outcome_bind in H; cbn beta iota in H;
      [ | discriminate H ]
  | H : Done _ = Done _ |- _ => injection H; clear H; intros; subst
  | H : mret _ = Done _ |- _ => unfold mret, outcome_ret in H
  | H : Fault _ = Done _ |- _ => discriminate H
  | H : Done _ = Fault _ |- _ => discriminate H
  end.
Ltac outcome_inv := repeat outcome_step.

(** Case analysis on every [if] and [match] scrutinee of the goal. *)
Ltac split_ifs :=
  repeat match goal with
  | |- context [if ?b then _ else _] => destruct b eqn:?
  end.

(** Boolean comparisons of hypotheses as propositions. *)
Ltac zify_bools :=
  repeat match goal with
  | H : (_ && _)%bool = true |- _ => apply andb_prop in H; destruct H
  | H : (_ || _)%bool = false |- _ => apply orb_false_elim in H; destruct H
  | H : (_ =? _) = true |- _ => apply Z.eqb_eq in H
  | H : (_ =? _) = false |- _ => apply Z.eqb_neq in H
  | H : (_ <? _) = true |- _ => apply Z.ltb_lt in H
  | H : (_ <? _) = false |- _ => apply Z.ltb_ge in H
  | H : (_ <=? _) = true |- _ => apply Z.leb_le in H
  | H : (_ <=? _) = false |- _ => apply Z.leb_gt in H
  | H : negb _ = true |- _ => apply negb_true_iff in H
  | H : negb _ = false |- _ => apply negb_false_iff in H
  | H : bool_decide _ = true |- _ => apply bool_decide_eq_true in H
  | H : bool_decide _ = false |- _ => apply bool_decide_eq_false in H
  end.

(** ** Generic lemmas *)

Lemma outcome_bind_Done {A B} (a : A) (f : A -> outcome B) : (Done a ≫= f) = f a.
Proof. reflexivity. Qed.

Lemma outcome_bind_Fault {A B} (e : fault) (f : A -> outcome B) :
  (Fault e ≫= f) = Fault e.
Proof. reflexivity. Qed.

Lemma outcome_bind_inv {A B} (m : outcome A) (f : A -> outcome B) (b : B) :
  (m ≫= f) = Done b -> exists a, m = Done a /\ f a = Done b.
Proof. destruct m; [eauto | discriminate]. Qed.

Lemma checked_i64_Done (z : Z) : - 2 ^ 63 <= z < 2 ^ 63 -> checked_i64 z = Done z.
Proof. intros H. unfold checked_i64. by rewrite decide_True. Qed.

Lemma checked_i32_Done (z : Z) : - 2 ^ 31 <= z < 2 ^ 31 -> checked_i32 z = Done z.
Proof. intros H. unfold checked_i32. by rewrite decide_True. Qed.

Lemma zlen_nonneg {A} (l : list A) : 0 <= zlen l.
Proof. unfold zlen; lia. Qed.

Lemma zlen_app {A} (l k : list A) : zlen (l ++ k) = zlen l + zlen k.
Proof. unfold zlen; rewrite length_app; lia. Qed.

Lemma zlen_cons {A} (x : A) (l : list A) : zlen (x :: l) = 1 + zlen l.
Proof. unfold zlen; simpl; lia. Qed.

Lemma zlen_nil {A} : zlen (@nil A) = 0.
Proof. reflexivity. Qed.

Lemma zsum_app (l k : list Z) : zsum (l ++ k) = zsum l + zsum k.
Proof. induction l as [|x l IH]; simpl; [done|]. fold (zsum (l ++ k)) (zsum l). lia. Qed.

Lemma zlen_insert {A} (i : nat) (x : A) (l : list A) : zlen (<[i := x]> l) = zlen l.
Proof. unfold zlen; by rewrite length_insert. Qed.

Lemma zlen_drop {A} (n : nat) (l : list A) :
  (n <= length l)%nat -> zlen (drop n l) = zlen l - Z.of_nat n.
Proof. unfold zlen; rewrite length_drop; lia. Qed.

Lemma array_get_Done {A} (a : list A) (i : Z) (x : A) :
  0 <= i -> a !! Z.to_nat i = Some x -> array_get a i = Done x.
Proof. intros ? E. unfold array_get. case_decide; [lia|]. by rewrite E. Qed.

Lemma array_set_Done {A} (a : list A) (i : Z) (x : A) :
  0 <= i < zlen a -> array_set a i x = Done (<[Z.to_nat i := x]> a).
Proof. intros ?. unfold array_set. unfold zlen in *. case_decide; [done|lia]. Qed.

Lemma wrap_u_small (w z : Z) : 0 <= z < 2 ^ w -> wrap_u w z = z.
Proof. apply Z.mod_small. Qed.

Lemma wrap_u_range (w z : Z) : 0 <= w -> 0 <= wrap_u w z < 2 ^ w.
Proof. intros; apply Z.mod_pos_bound, Z.pow_pos_nonneg; lia. Qed.

Lemma wrap_s_small (w z : Z) :
  0 < w -> - 2 ^ (w - 1) <= z < 2 ^ (w - 1) -> wrap_s w z = z.
Proof.
  intros Hw Hz. unfold wrap_s.
  assert (E : 2 ^ w = 2 * 2 ^ (w - 1)).
  { rewrite <- Z.pow_succ_r by lia. f_equal. lia. }
  destruct (Z.ltb_spec z 0).
  - assert (Hm : z mod 2 ^ w = z + 2 ^ w).
    { symmetry. apply Z.mod_unique with (q := -1); lia. }
    rewrite Hm. destruct (Z.ltb_spec (z + 2 ^ w) (2 ^ (w - 1))); lia.
  - rewrite Z.mod_small by lia.
    destruct (Z.ltb_spec z (2 ^ (w - 1))); lia.
Qed.

Lemma land_le_r (a b : Z) : 0 <= b -> Z.land a b <= b.
Proof.
  intros Hb. assert (E : Z.ldiff (Z.land a b) b = 0).
  { apply Z.bits_inj'. intros n Hn. rewrite Z.ldiff_spec, Z.land_spec, Z.bits_0.
    by destruct (Z.testbit a n), (Z.testbit b n). }
  apply Z.sub_nocarry_ldiff in E.
  assert (0 <= Z.ldiff b (Z.land a b)) by (apply Z.ldiff_nonneg; by left). lia.
Qed.

Lemma cstr_line (s : bytes) : NUL ∉ s -> cstr s = s.
Proof.
  induction s as [|c s IH]; simpl; [done|]. intros Hn.
  rewrite not_elem_of_cons in Hn. destruct Hn as [Hc Hs].
  rewrite bool_decide_false by congruence. by rewrite IH.
Qed.

Lemma cstr_no_NUL (s : bytes) : NUL ∉ cstr s.
Proof.
  induction s as [|c s IH]; simpl; [apply not_elem_of_nil|].
  case_bool_decide; [apply not_elem_of_nil|]. rewrite not_elem_of_cons. naive_solver.
Qed.

Lemma cstr_idemp (s : bytes) : cstr (cstr s) = cstr s.
Proof. apply cstr_line, cstr_no_NUL. Qed.

Lemma cstr_app_line (s t : bytes) : NUL ∉ s -> cstr (s ++ t) = s ++ cstr t.
Proof.
  induction s as [|c s IH]; simpl; [done|]. intros Hn.
  rewrite not_elem_of_cons in Hn. destruct Hn as [Hc Hs].
  rewrite bool_decide_false by congruence. by rewrite IH.
Qed.

Lemma cstr_prefix (s : bytes) : cstr s `prefix_of` s.
Proof.
  induction s as [|c s IH]; simpl; [done|].
  case_bool_decide; [by apply prefix_nil|]. by apply prefix_cons.
Qed.

Lemma find_byte_Some (c : ascii) (s : bytes) (n : nat) :
  find_byte c s = Some n <-> exists p q, s = p ++ (c :: q) /\ (c ∉ p) /\ length p = n.
Proof.
  revert n. induction s as [|x s IH]; intros n; simpl.
  - split; [done|]. intros (p & q & E & _). by destruct p.
  - case_bool_decide as Hx.
    + subst. split.
      * intros [= <-]. exists [], s. split; [done|]. split; [|done]. apply not_elem_of_nil.
      * intros (p & q & E & Hp & Hl). destruct p as [|y p]; simpl in *; [congruence|].
        injection E as -> ->. rewrite not_elem_of_cons in Hp. naive_solver.
    + split.
      * intros E. destruct (find_byte c s) as [m|] eqn:F; [|done].
        injection E as <-. destruct (proj1 (IH m) eq_refl) as (p & q & -> & Hp & <-).
        exists (x :: p), q. rewrite not_elem_of_cons. naive_solver.
      * intros (p & q & E & Hp & Hl). destruct p as [|y p]; simpl in *.
        { injection E; intros; congruence. }
        injection E as -> ->. rewrite not_elem_of_cons in Hp.
        destruct n as [|n]; [done|].
        rewrite (proj2 (IH n)); [done|]. exists p, q. naive_solver.
Qed.

Lemma find_byte_None (c : ascii) (s : bytes) : find_byte c s = None <-> c ∉ s.
Proof.
  induction s as [|x s IH]; simpl.
  - split; [intros _; apply not_elem_of_nil | done].
  - rewrite not_elem_of_cons. case_bool_decide as Hx.
    + naive_solver.
    + rewrite fmap_None, IH. naive_solver.
Qed.

Lemma find_byte_app_Some (c : ascii) (s t : bytes) (n : nat) :
  find_byte c s = Some n -> find_byte c (s ++ t) = Some n.
Proof.
  rewrite !find_byte_Some. intros (p & q & -> & Hp & Hl).
  exists p, (q ++ t). by rewrite <- app_assoc.
Qed.

Lemma strchr_app_line (s t : bytes) (c : ascii) :
  c <> NUL -> NUL ∉ s -> c ∉ s -> strchr (s ++ (c :: t)) c = Some (length s).
Proof.
  intros Hc Hs Hcs. unfold strchr. rewrite cstr_app_line by done. simpl.
  rewrite bool_decide_false by done.
  apply find_byte_Some. eauto.
Qed.

Lemma strchr_Some (s : bytes) (c : ascii) (n : nat) :
  strchr s c = Some n ->
  exists p q, s = p ++ (c :: q) /\ (c ∉ p) /\ (NUL ∉ p) /\ length p = n.
Proof.
  unfold strchr. rewrite find_byte_Some. intros (p & q & E & Hp & Hl).
  destruct (cstr_prefix s) as [r Hr].
  exists p, (q ++ r). split_and!; [|done| |done].
  - rewrite Hr, E. by rewrite <- app_assoc.
  - assert (Hn : NUL ∉ cstr s).
    { clear. induction s as [|c s IH]; simpl; [apply not_elem_of_nil|].
      case_bool_decide; [apply not_elem_of_nil|]. rewrite not_elem_of_cons. naive_solver. }
    rewrite E, elem_of_app in Hn. naive_solver.
Qed.

Lemma lower_idemp (s : bytes) : lower (lower s) = lower s.
Proof.
  unfold lower. rewrite map_map. apply map_ext. intros [a b c d e f g h].
  destruct a, b, c, d, e, f, g, h; reflexivity.
Qed.

(** Decimal texts consist of digits and a sign. *)
Definition dec_byte (c : ascii) : Prop :=
  c = "-"%char \/ (48 <= nat_of_ascii c <= 57)%nat.

Lemma dec_byte_line (c : ascii) : dec_byte c -> c <> CR /\ c <> LF /\ c <> NUL.
Proof.
  unfold dec_byte, CR, LF, NUL.
  intros [->|H]; [done|].
  split_and!; intros ->; compute in H; lia.
Qed.

Lemma string_of_uint_digits (d : Decimal.uint) :
  Forall dec_byte (bs (NilEmpty.string_of_uint d)).
Proof.
  induction d; simpl; try (constructor; [right; compute; lia|assumption]).
  constructor.
Qed.

Lemma dec_bytes (z : Z) : Forall dec_byte (dec z).
Proof.
  unfold dec, NilZero.string_of_int, NilZero.string_of_uint.
  destruct (Z.to_int z) as [d|d]; simpl.
  - destruct d; simpl; try (constructor; [right; compute; lia|]); try constructor;
      try apply string_of_uint_digits.
  - constructor; [by left|].
    destruct d; simpl; try (constructor; [right; compute; lia|]); try constructor;
      try apply string_of_uint_digits.
Qed.

Lemma dec_not_elem (z : Z) (c : ascii) : ~ dec_byte c -> c ∉ dec z.
Proof. intros H Hc. apply H. by eapply Forall_forall in Hc; [|apply dec_bytes]. Qed.

Lemma dec_no_NUL (z : Z) : NUL ∉ dec z.
Proof. apply dec_not_elem. intros H; apply dec_byte_line in H; naive_solver. Qed.

Lemma dec_no_CR (z : Z) : CR ∉ dec z.
Proof. apply dec_not_elem. intros H; apply dec_byte_line in H; naive_solver. Qed.

Lemma dec_no_LF (z : Z) : LF ∉ dec z.
Proof. apply dec_not_elem. intros H; apply dec_byte_line in H; naive_solver. Qed.

(** Reading back a decimal text; used to show that the assumptions on
    [string2ll] can be met. *)
Definition undec (s : bytes) : option Z :=
  Z.of_int <$> NilZero.int_of_string (String.string_of_list_ascii s).

Lemma undec_dec (z : Z) : undec (dec z) = Some z.
Proof.
  unfold undec, dec, bs. rewrite String.string_of_list_ascii_of_string.
  rewrite NilZero.isi.
  - simpl. by rewrite DecimalZ.of_to.
  - destruct z as [|p|p]; simpl; try done;
      intros E; injection E; apply DecimalPos.Unsigned.to_uint_nonnil.
  - destruct z as [|p|p]; simpl; try done;
      intros E; injection E; apply DecimalPos.Unsigned.to_uint_nonnil.
Qed.

Lemma little_double_length (d : Decimal.uint) :
  (Decimal.nb_digits (Decimal.Little.double d) <= S (Decimal.nb_digits d))%nat
  /\ (Decimal.nb_digits (Decimal.Little.succ_double d) <= S (Decimal.nb_digits d))%nat.
Proof. induction d; simpl in *; lia. Qed.

Lemma nb_digits_revapp (d e : Decimal.uint) :
  Decimal.nb_digits (Decimal.revapp d e) = (Decimal.nb_digits d + Decimal.nb_digits e)%nat.
Proof. revert e. induction d; intros e; simpl; rewrite ?IHd; simpl; lia. Qed.

Lemma to_uint_length (p : positive) :
  (Decimal.nb_digits (Pos.to_uint p) <= Pos.size_nat p)%nat.
Proof.
  unfold Pos.to_uint, Decimal.rev. rewrite nb_digits_revapp. simpl. rewrite Nat.add_0_r.
  induction p as [p IH|p IH|]; simpl; [| |lia];
    destruct (little_double_length (Pos.to_little_uint p)); lia.
Qed.

Lemma string_of_uint_length (d : Decimal.uint) :
  length (bs (NilEmpty.string_of_uint d)) = Decimal.nb_digits d.
Proof. induction d; simpl; congruence. Qed.

Lemma string_of_uint_length' (d : Decimal.uint) :
  (length (bs (NilZero.string_of_uint d)) <= S (Decimal.nb_digits d))%nat.
Proof.
  destruct d; [simpl; lia|..]; unfold NilZero.string_of_uint; rewrite string_of_uint_length; lia.
Qed.

(** A decimal text has at most two bytes more than the number has bits. *)
Lemma dec_length (z : Z) (n : nat) : Z.abs z < 2 ^ Z.of_nat n -> zlen (dec z) <= Z.of_nat n + 2.
Proof.
  intros Hz. assert (Hp : forall p, Z.pos p < 2 ^ Z.of_nat n -> (Pos.size_nat p <= n)%nat).
  { clear. intros p. revert n. induction p as [p IH|p IH|]; intros n Hn; destruct n as [|n]; simpl; try lia.
    all: apply le_n_S, IH; rewrite Nat2Z.inj_succ, Z.pow_succ_r in Hn; lia. }
  unfold zlen, dec, NilZero.string_of_int.
  destruct z as [|p|p]; simpl Z.to_int; cbv iota beta.
  - simpl. lia.
  - pose proof (string_of_uint_length' (Pos.to_uint p)). pose proof (to_uint_length p).
    specialize (Hp p). lia.
  - simpl. fold (bs (NilZero.string_of_uint (Pos.to_uint p))).
    pose proof (string_of_uint_length' (Pos.to_uint p)). pose proof (to_uint_length p).
    specialize (Hp p). lia.
Qed.

Lemma of_nat_S_eqb (n : nat) : (Z.of_nat (S n) =? 0) = false.
Proof. apply Z.eqb_neq. lia. Qed.

Lemma of_nat_S_ltb (n : nat) : (0 <? Z.of_nat (S n)) = true.
Proof. apply Z.ltb_lt. lia. Qed.

Lemma mjoin_cons {A} (x : list A) (ls : list (list A)) : mjoin (x :: ls) = x ++ mjoin ls.
Proof. reflexivity. Qed.

#[export] Hint Resolve zlen_nonneg dec_no_CR dec_no_LF dec_no_NUL : latte.
#[export] Hint Rewrite @zlen_app @zlen_cons @zlen_nil @zlen_insert : latte.
