(* ===== verification/LatteC.v ===== *)
(** * The interface to the latte_c library

    The server is written against latte_c (git submodule deps/latte_c): sds
    strings, dict hash tables, adlist lists, reference counted objects, the
    network client of server/client.h and a few utilities.  Their code is not
    part of this repository, so each library module is a class of operations
    (a parameter of every definition that uses it) and a class of laws (the
    documented behaviour the server relies on).  LatteCModel.v shows that the
    laws can be met together. *)

From S2P Require Import Prelude.

(** ** sds (sds/sds.h): an sds value is modelled by its contents. *)
Class SdsOps := {
  sds_len : bytes -> Z;
  sds_empty : bytes;
  (** copy of the NUL-terminated string at a pointer *)
  sds_new : bytes -> bytes;
  (** copy of the first [n] bytes at a pointer *)
  sds_new_len : bytes -> Z -> bytes;
  sds_dup : bytes -> bytes;
  (** append text already formatted by printf *)
  sds_cat_printf : bytes -> bytes -> bytes;
  sds_cat : bytes -> bytes -> bytes;
  sds_cat_sds : bytes -> bytes -> bytes;
  sds_trim : bytes -> bytes -> bytes;
  sds_map_chars : bytes -> bytes -> bytes -> bytes;
  sds_range : bytes -> Z -> Z -> bytes;
  sds_incr_len : bytes -> Z -> bytes;
  sds_clear : bytes -> bytes;
  sds_make_room_for : bytes -> Z -> bytes;
  sds_to_lower : bytes -> bytes;
  sds_to_upper : bytes -> bytes;
  (** split a line into arguments, NULL for unbalanced quotes *)
  sds_split_args : bytes -> option (list bytes);
  (** split at every occurrence of a separator *)
  sds_split_len : bytes -> bytes -> list bytes
}.

Definition toupper (c : ascii) : ascii :=
  let n := nat_of_ascii c in
  if ((97 <=? n) && (n <=? 122))%nat then ascii_of_nat (n - 32) else c.

(** What [sds_map_chars(s, from, to, n)] does to one byte. *)
Fixpoint map_char (from to : bytes) (c : ascii) : ascii :=
  match from, to with
  | f :: from', t :: to' => if bool_decide (c = f) then t else map_char from' to' c
  | _, _ => c
  end.

(** Words that [sds_split_args] leaves alone: no blank, no quote, no
    backslash, no NUL. *)
Definition plain_byte (c : ascii) : bool :=
  let n := nat_of_ascii c in
  ((33 <=? n) && (n <=? 126))%nat && negb (bool_decide (n = 34%nat))
  && negb (bool_decide (n = 39%nat)) && negb (bool_decide (n = 92%nat)).

Definition plain_word (w : bytes) : bool := bool_decide (w <> []) && forallb plain_byte w.

Fixpoint join_sp (ws : list bytes) : bytes :=
  match ws with
  | [] => []
  | [w] => w
  | w :: ws' => w ++ SP :: join_sp ws'
  end.

Class SdsLaws {Sds : SdsOps} : Prop := {
  sds_len_spec : forall s, sds_len s = zlen s;
  sds_empty_spec : sds_empty = [];
  sds_new_spec : forall p, sds_new p = cstr p;
  sds_new_len_spec : forall p n, 0 <= n <= zlen p -> sds_new_len p n = take (Z.to_nat n) p;
  sds_dup_spec : forall s, sds_dup s = s;
  sds_cat_printf_spec : forall s t, sds_cat_printf s t = s ++ t;
  sds_cat_spec : forall s t, sds_cat s t = s ++ cstr t;
  sds_cat_sds_spec : forall s t, sds_cat_sds s t = s ++ t;
  (** the bytes of the set are removed from both ends and only there *)
  sds_trim_spec : forall s cs, exists p q,
    s = p ++ sds_trim s cs ++ q /\ Forall (fun c => c ∈ cs) p /\ Forall (fun c => c ∈ cs) q
    /\ (forall c, head (sds_trim s cs) = Some c -> c ∉ cs)
    /\ (forall c, last (sds_trim s cs) = Some c -> c ∉ cs);
  sds_map_chars_spec : forall s from to, sds_map_chars s from to = map (map_char from to) s;
  (** [sds_range(s, start, -1)] keeps the suffix *)
  sds_range_suffix : forall s a, 0 <= a <= zlen s -> sds_range s a (-1) = drop (Z.to_nat a) s;
  (** [sds_range(s, 0, -k)] drops the last [k-1] bytes *)
  sds_range_prefix : forall s k, 1 <= k <= zlen s ->
    sds_range s 0 (- k) = take (Z.to_nat (zlen s - k + 1)) s;
  (** shrinking: the string loses its last bytes *)
  sds_incr_len_spec : forall s n, 0 <= n <= zlen s ->
    sds_incr_len s (- n) = take (Z.to_nat (zlen s - n)) s;
  sds_clear_spec : forall s, sds_clear s = [];
  sds_make_room_for_spec : forall s n, sds_make_room_for s n = s;
  sds_to_lower_spec : forall s, sds_to_lower s = lower s;
  sds_to_upper_spec : forall s, sds_to_upper s = map toupper s;
  sds_split_args_plain : forall ws, forallb plain_word ws = true ->
    sds_split_args (join_sp ws) = Some ws;
  sds_split_len_plain : forall ws, ws <> [] -> forallb plain_word ws = true ->
    sds_split_len (join_sp ws) [SP] = ws
}.

(** ** Utilities (utils/utils.h, time/localtime.h, zmalloc/zmalloc.h) *)
Class UtilOps := {
  (** [string2ll(s, len, &ll)]: the [len] bytes as a long long, or 0 *)
  string2ll : bytes -> option Z;
  ll2string : Z -> bytes;
  (** successive readings of the system clock *)
  mstime : nat -> Z;
  ustime : nat -> Z;
  (** usable size of a block allocated with a given size *)
  zmalloc_usable : Z -> Z
}.

Class UtilLaws {Util : UtilOps} : Prop := {
  string2ll_dec : forall z, - 2 ^ 63 <= z < 2 ^ 63 -> string2ll (dec z) = Some z;
  string2ll_range : forall s z, string2ll s = Some z -> - 2 ^ 63 <= z < 2 ^ 63;
  ll2string_spec : forall z, - 2 ^ 63 <= z < 2 ^ 63 -> ll2string z = dec z;
  (** milliseconds since 1970 *)
  mstime_range : forall n, 0 <= mstime n < 2 ^ 62;
  (** microseconds since 1970 *)
  ustime_range : forall n, 0 < ustime n < 2 ^ 63;
  zmalloc_usable_ge : forall n, n <= zmalloc_usable n;
  zmalloc_usable_lt : forall n, n < 2 ^ 62 -> zmalloc_usable n < 2 ^ 63
}.

(** ** dict (dict/dict.h, dict/dict_plugins.h)

    The comparison callback of a dict's type decides which keys are equal;
    the three callbacks used by the server are named here. *)
Inductive key_cmp :=
  | SdsCompare       (* dict_sds_key_compare *)
  | SdsCaseCompare   (* dict_sds_key_case_compare *)
  | CStringCompare.  (* dict_cstring_key_compare, dict_char_key_compare *)

(** Representative of a key's equality class. *)
Definition key_norm (c : key_cmp) (k : bytes) : bytes :=
  match c with
  | SdsCompare => k
  | SdsCaseCompare => lower (cstr k)
  | CStringCompare => cstr k
  end.

(** Keys for which hash and comparison agree: [dict_sds_case_hash] takes all the
    bytes of an sds, [dict_sds_key_case_compare] stops at the first NUL. *)
Definition key_ok (c : key_cmp) (k : bytes) : Prop :=
  match c with SdsCaseCompare => NUL ∉ k | _ => True end.

Class DictOps := {
  dict_t : key_cmp -> Type -> Type;
  dict_entry_t : Type;
  DICT_OK : Z;
  DICT_ERR : Z;
  dict_new : forall {c V}, dict_t c V;
  dict_size : forall {c V}, dict_t c V -> Z;
  dict_find : forall {c V}, dict_t c V -> bytes -> option dict_entry_t;
  (** the value cell of an entry *)
  dict_get_entry_val : forall {c V}, dict_t c V -> dict_entry_t -> option V;
  dict_set_val : forall {c V}, dict_t c V -> dict_entry_t -> V -> dict_t c V;
  (** put another key into an entry *)
  dict_set_key : forall {c V}, dict_t c V -> dict_entry_t -> bytes -> dict_t c V;
  (** returned entry, [*existing], and the dict; the value of a new entry is
      not set *)
  dict_add_raw : forall {c V} `{Inhabited V}, dict_t c V -> bytes ->
    option dict_entry_t * option dict_entry_t * dict_t c V;
  dict_add : forall {c V}, dict_t c V -> bytes -> V -> Z * dict_t c V;
  dict_fetch_value : forall {c V}, dict_t c V -> bytes -> option V;
  (** delete a key; the type's value destructor runs on the value, on a state
      of the caller *)
  dict_delete_key : forall {c V S}, (V -> S -> S) -> dict_t c V -> bytes -> S ->
    Z * dict_t c V * S;
  (** contents of the table, for specifications *)
  dict_map : forall {c V}, dict_t c V -> gmap bytes V;
  (** key of an entry of the table, for specifications *)
  dict_entry_key : forall {c V}, dict_t c V -> dict_entry_t -> option bytes
}.

Class DictLaws {Dict : DictOps} : Prop := {
  DICT_OK_ERR : DICT_OK <> DICT_ERR;
  dict_new_map : forall c V, dict_map (@dict_new _ c V) = ∅;
  dict_size_spec : forall c V (d : dict_t c V), dict_size d = Z.of_nat (size (dict_map d));
  dict_find_None : forall c V (d : dict_t c V) k, key_ok c k ->
    dict_find d k = None <-> dict_map d !! key_norm c k = None;
  dict_find_Some : forall c V (d : dict_t c V) k e, key_ok c k ->
    dict_find d k = Some e -> dict_entry_key d e = Some (key_norm c k);
  dict_get_entry_val_spec : forall c V (d : dict_t c V) e k,
    dict_entry_key d e = Some k -> dict_get_entry_val d e = dict_map d !! k;
  dict_entry_key_in : forall c V (d : dict_t c V) e k,
    dict_entry_key d e = Some k -> is_Some (dict_map d !! k);
  dict_set_val_spec : forall c V (d : dict_t c V) e k v,
    dict_entry_key d e = Some k ->
    dict_map (dict_set_val d e v) = <[k := v]> (dict_map d)
    /\ dict_entry_key (dict_set_val d e v) e = Some k;
  (** an equal key takes the place of the old one *)
  dict_set_key_spec : forall c V (d : dict_t c V) e k, key_ok c k ->
    dict_entry_key d e = Some (key_norm c k) ->
    dict_map (dict_set_key d e k) = dict_map d
    /\ dict_entry_key (dict_set_key d e k) e = Some (key_norm c k);
  dict_add_raw_new : forall c V `{Inhabited V} (d : dict_t c V) k, key_ok c k ->
    dict_map d !! key_norm c k = None ->
    exists e d' v0, dict_add_raw d k = (Some e, None, d')
      /\ dict_map d' = <[key_norm c k := v0]> (dict_map d)
      /\ dict_entry_key d' e = Some (key_norm c k);
  dict_add_raw_existing : forall c V `{Inhabited V} (d : dict_t c V) k, key_ok c k ->
    is_Some (dict_map d !! key_norm c k) ->
    exists e, dict_add_raw d k = (None, Some e, d)
      /\ dict_entry_key d e = Some (key_norm c k);
  dict_add_new : forall c V (d : dict_t c V) k v, key_ok c k ->
    dict_map d !! key_norm c k = None ->
    exists d', dict_add d k v = (DICT_OK, d')
      /\ dict_map d' = <[key_norm c k := v]> (dict_map d);
  dict_add_existing : forall c V (d : dict_t c V) k v, key_ok c k ->
    is_Some (dict_map d !! key_norm c k) -> dict_add d k v = (DICT_ERR, d);
  dict_fetch_value_spec : forall c V (d : dict_t c V) k, key_ok c k ->
    dict_fetch_value d k = dict_map d !! key_norm c k;
  dict_delete_key_present : forall c V S (f : V -> S -> S) (d : dict_t c V) k v s, key_ok c k ->
    dict_map d !! key_norm c k = Some v ->
    exists d', dict_delete_key f d k s = (DICT_OK, d', f v s)
      /\ dict_map d' = delete (key_norm c k) (dict_map d);
  dict_delete_key_absent : forall c V S (f : V -> S -> S) (d : dict_t c V) k s, key_ok c k ->
    dict_map d !! key_norm c k = None -> dict_delete_key f d k s = (DICT_ERR, d, s)
}.

(** ** Lists (list/list.h) *)
Class ListOps := {
  list_t : Type -> Type;
  list_node_t : Type;
  list_new : forall {A}, list_t A;
  list_length : forall {A}, list_t A -> Z;
  list_add_node_tail : forall {A}, list_t A -> A -> list_t A;
  list_last : forall {A}, list_t A -> option list_node_t;
  list_node_prev : forall {A}, list_t A -> list_node_t -> option list_node_t;
  list_node_next : forall {A}, list_t A -> list_node_t -> option list_node_t;
  list_node_value : forall {A}, list_t A -> list_node_t -> option A;
  list_node_set : forall {A}, list_t A -> list_node_t -> A -> list_t A;
  (** search by value *)
  list_search_key : forall {A} `{EqDecision A}, list_t A -> A -> option list_node_t;
  (** unlink a node; the list's free method runs on its value *)
  list_del_node : forall {A S}, (A -> S -> S) -> list_t A -> list_node_t -> S -> list_t A * S;
  (** release the list; the free method runs on every value, from the head *)
  list_delete : forall {A S}, (A -> S -> S) -> list_t A -> S -> S;
  (** elements, and the position of a node, for specifications *)
  list_elems : forall {A}, list_t A -> list A;
  list_node_pos : forall {A}, list_t A -> list_node_t -> option nat
}.

Class ListLaws {Lst : ListOps} : Prop := {
  list_new_elems : forall A, list_elems (@list_new _ A) = [];
  list_length_spec : forall A (l : list_t A), list_length l = zlen (list_elems l);
  list_add_node_tail_elems : forall A (l : list_t A) x,
    list_elems (list_add_node_tail l x) = list_elems l ++ [x];
  list_last_spec : forall A (l : list_t A),
    match list_last l with
    | Some n => list_node_pos l n = Some (pred (length (list_elems l))) /\ list_elems l <> []
    | None => list_elems l = []
    end;
  list_node_pos_lt : forall A (l : list_t A) n i,
    list_node_pos l n = Some i -> (i < length (list_elems l))%nat;
  list_node_value_spec : forall A (l : list_t A) n i,
    list_node_pos l n = Some i -> list_node_value l n = list_elems l !! i;
  list_node_prev_spec : forall A (l : list_t A) n i,
    list_node_pos l n = Some i ->
    match list_node_prev l n with
    | Some m => exists j, i = S j /\ list_node_pos l m = Some j
    | None => i = 0%nat
    end;
  list_node_next_spec : forall A (l : list_t A) n i,
    list_node_pos l n = Some i ->
    match list_node_next l n with
    | Some m => list_node_pos l m = Some (S i)
    | None => S i = length (list_elems l)
    end;
  list_node_set_spec : forall A (l : list_t A) n i x,
    list_node_pos l n = Some i ->
    list_elems (list_node_set l n x) = <[i := x]> (list_elems l);
  (** nodes keep their place when a value changes or a node is appended *)
  list_node_set_pos : forall A (l : list_t A) n m i x,
    list_node_pos l n = Some i -> list_node_pos (list_node_set l m x) n = Some i;
  list_add_node_tail_pos : forall A (l : list_t A) n i x,
    list_node_pos l n = Some i -> list_node_pos (list_add_node_tail l x) n = Some i;
  list_search_key_spec : forall A `{EqDecision A} (l : list_t A) x,
    match list_search_key l x with
    | Some n => exists i, list_node_pos l n = Some i /\ list_elems l !! i = Some x
                  /\ (forall j, (j < i)%nat -> list_elems l !! j <> Some x)
    | None => x ∉ list_elems l
    end;
  list_del_node_spec : forall A S (f : A -> S -> S) (l : list_t A) n i x s,
    list_node_pos l n = Some i -> list_elems l !! i = Some x ->
    exists l', list_del_node f l n s = (l', f x s)
      /\ list_elems l' = delete i (list_elems l);
  list_delete_spec : forall A S (f : A -> S -> S) (l : list_t A) s,
    list_delete f l s = fold_left (fun s x => f x s) (list_elems l) s
}.

(** ** Reference counted objects (object/object.h, object/string.h)

    Objects are shared between the argument vector of a client, the keyspace
    and the slow log, so they live in a store addressed by locations. *)
Inductive obj_ptr :=
  | PSds (s : bytes)   (* string contents, raw or embedded *)
  | PInt (n : Z)       (* OBJ_ENCODING_INT: the pointer is the number *)
  | POther.            (* any other representation *)

Record latte_object_t := mk_object {
  obj_type : Z;
  encoding : Z;
  refcount : Z;
  lru : Z;
  ptr : obj_ptr
}.

Abbreviation loc := positive.
Abbreviation heap := (gmap loc latte_object_t).

Definition set_refcount (o : latte_object_t) (n : Z) : latte_object_t :=
  mk_object (obj_type o) (encoding o) n (lru o) (ptr o).

Definition set_lru (o : latte_object_t) (n : Z) : latte_object_t :=
  mk_object (obj_type o) (encoding o) (refcount o) n (ptr o).

Class ObjectOps := {
  OBJ_STRING : Z;
  OBJ_ENCODING_INT : Z;
  OBJ_SHARED_REFCOUNT : Z;
  OBJ_STATIC_REFCOUNT : Z;
  LRU_CLOCK_MAX : Z;
  sds_encoded_object : latte_object_t -> bool;
  string_object_len : latte_object_t -> Z;
  (** the sds of a string object; failure for any other object *)
  get_sds_from_object : latte_object_t -> option bytes;
  latte_object_new : Z -> bytes -> heap -> loc * heap;
  string_object_new : bytes -> Z -> heap -> loc * heap;
  dup_string_object : loc -> heap -> loc * heap;
  latte_object_incr_ref_count : loc -> heap -> heap;
  latte_object_decr_ref_count : loc -> heap -> heap
}.

(** A string object with contents [s]. *)
Definition string_obj {Obj : ObjectOps} (o : latte_object_t) (s : bytes) : Prop :=
  obj_type o = OBJ_STRING /\ sds_encoded_object o = true /\ ptr o = PSds s.

(** A reference count that is really counted (neither shared nor static). *)
Definition counted {Obj : ObjectOps} (n : Z) : Prop :=
  0 < n /\ n + 1 < OBJ_SHARED_REFCOUNT /\ n + 1 < OBJ_STATIC_REFCOUNT.

Class ObjectLaws {Obj : ObjectOps} : Prop := {
  special_refcounts : 3 < OBJ_SHARED_REFCOUNT /\ 3 < OBJ_STATIC_REFCOUNT;
  string_object_len_spec : forall o s, string_obj o s -> string_object_len o = zlen s;
  get_sds_from_object_spec : forall o s, string_obj o s -> get_sds_from_object o = Some s;
  (** decided by the encoding alone *)
  sds_encoded_encoding : forall o o', encoding o' = encoding o ->
    sds_encoded_object o' = sds_encoded_object o;
  latte_object_new_spec : forall s h, exists l o,
    latte_object_new OBJ_STRING s h = (l, <[l := o]> h)
    /\ h !! l = None /\ string_obj o s /\ refcount o = 1;
  string_object_new_spec : forall p n h, 0 <= n <= zlen p -> exists l o,
    string_object_new p n h = (l, <[l := o]> h)
    /\ h !! l = None /\ string_obj o (take (Z.to_nat n) p) /\ refcount o = 1;
  dup_string_object_spec : forall l o s h, h !! l = Some o -> string_obj o s ->
    exists l' o', dup_string_object l h = (l', <[l' := o']> h)
    /\ h !! l' = None /\ string_obj o' s /\ refcount o' = 1;
  incr_ref_count_spec : forall l o h, h !! l = Some o -> counted (refcount o) ->
    latte_object_incr_ref_count l h = <[l := set_refcount o (refcount o + 1)]> h;
  decr_ref_count_free : forall l o h, h !! l = Some o -> refcount o = 1 ->
    latte_object_decr_ref_count l h = delete l h;
  decr_ref_count_spec : forall l o h, h !! l = Some o -> 1 < refcount o ->
    counted (refcount o - 1) ->
    latte_object_decr_ref_count l h = <[l := set_refcount o (refcount o - 1)]> h
}.

(** ** The network client (server/client.h)

    [latte_client_t] lists the members the server reads or writes; the rest
    of the structure (the static output buffer in particular) is private to
    the library. *)
Record client_reply_block_t := mk_block {
  crb_size : Z;
  crb_used : Z;
  crb_buf : bytes
}.

Record latte_client_t {Lst : ListOps} (P : Type) := mk_latte_client {
  querybuf : bytes;
  qb_pos : Z;
  cflags : Z;
  reply : list_t (option client_reply_block_t);
  conn : bool;
  start_time : Z;
  end_time : Z;
  client_priv : P
}.

Arguments mk_latte_client {Lst P} _ _ _ _ _ _ _ _.
Arguments querybuf {Lst P} _.
Arguments qb_pos {Lst P} _.
Arguments cflags {Lst P} _.
Arguments reply {Lst P} _.
Arguments conn {Lst P} _.
Arguments start_time {Lst P} _.
Arguments end_time {Lst P} _.
Arguments client_priv {Lst P} _.

Class ClientOps {Lst : ListOps} := {
  client_priv_t : Type;
  CLIENT_CLOSE_AFTER_REPLY : Z;
  CLIENT_CLOSE_ASAP : Z;
  PROTO_MBULK_BIG_ARG : Z;
  PROTO_REPLY_CHUNK_BYTES : Z;
  sizeof_list_node : Z;
  sizeof_reply_block : Z;
  (** append protocol text to the client's output *)
  add_reply_proto : latte_client_t client_priv_t -> bytes -> latte_client_t client_priv_t;
  client_get_name : latte_client_t client_priv_t -> option bytes;
  client_get_peer_id : latte_client_t client_priv_t -> bytes;
  (** contents of the private output buffer, for specifications *)
  priv_out : client_priv_t -> bytes
}.

(** Output of a client: the private buffer, then the blocks of [reply]; an
    entry NULL of the list is a hole to be filled by [set_deferred_reply], so
    the output is a sequence of texts separated by holes. *)
Fixpoint segs (cur : bytes) (r : list (option client_reply_block_t)) : list bytes :=
  match r with
  | [] => [cur]
  | Some b :: r' => segs (cur ++ crb_buf b) r'
  | None :: r' => cur :: segs [] r'
  end.

Definition client_segs `{Cli : ClientOps} (c : latte_client_t client_priv_t) : list bytes :=
  segs (priv_out (client_priv c)) (list_elems (reply c)).

Fixpoint append_last (ss : list bytes) (s : bytes) : list bytes :=
  match ss with
  | [] => [s]
  | [x] => [x ++ s]
  | x :: ss' => x :: append_last ss' s
  end.

Definition block_ok (b : client_reply_block_t) : Prop :=
  crb_used b = zlen (crb_buf b) /\ crb_used b <= crb_size b /\ crb_size b < 2 ^ 63.

Definition reply_ok (r : list (option client_reply_block_t)) : Prop :=
  Forall (fun ob => match ob with Some b => block_ok b | None => True end) r.

(** How appending may change the list: the last block grows, blocks are
    added at the tail, nothing else moves. *)
Definition reply_grows (r r' : list (option client_reply_block_t)) : Prop :=
  (exists bs, r' = r ++ map Some bs)
  \/ (exists r0 b b' bs, r = r0 ++ [Some b] /\ r' = r0 ++ [Some b'] ++ map Some bs).

Class ClientLaws `{Cli : ClientOps} : Prop := {
  big_arg_pos : 0 < PROTO_MBULK_BIG_ARG;
  chunk_bytes_pos : 0 < PROTO_REPLY_CHUNK_BYTES < 2 ^ 60;
  reply_sizes : 0 <= sizeof_reply_block < 2 ^ 32 /\ 0 <= sizeof_list_node < 2 ^ 32;
  close_flags_distinct : Z.land CLIENT_CLOSE_AFTER_REPLY CLIENT_CLOSE_ASAP = 0;
  close_flags_nonzero : CLIENT_CLOSE_AFTER_REPLY <> 0 /\ CLIENT_CLOSE_ASAP <> 0;
  add_reply_proto_segs : forall c s,
    client_segs (add_reply_proto c s) = append_last (client_segs c) s;
  add_reply_proto_grows : forall c s,
    reply_grows (list_elems (reply c)) (list_elems (reply (add_reply_proto c s)));
  add_reply_proto_ok : forall c s,
    reply_ok (list_elems (reply c)) -> reply_ok (list_elems (reply (add_reply_proto c s)));
  add_reply_proto_nodes : forall c s n i,
    list_node_pos (reply c) n = Some i ->
    list_node_pos (reply (add_reply_proto c s)) n = Some i;
  add_reply_proto_frame : forall c s,
    let c' := add_reply_proto c s in
    querybuf c' = querybuf c /\ qb_pos c' = qb_pos c /\ cflags c' = cflags c
    /\ conn c' = conn c /\ start_time c' = start_time c /\ end_time c' = end_time c
}.

(** ** Radix tree (rax/rax.h), used for command identifiers *)
Class RaxOps := {
  rax_t : Type;
  raxNew : rax_t;
  raxFind : rax_t -> bytes -> option Z;
  raxInsert : rax_t -> bytes -> Z -> rax_t;
  rax_map : rax_t -> gmap bytes Z
}.

Class RaxLaws {Rax : RaxOps} : Prop := {
  raxNew_map : rax_map raxNew = ∅;
  raxFind_spec : forall r k, raxFind r k = rax_map r !! k;
  raxInsert_spec : forall r k v, rax_map (raxInsert r k v) = <[k := v]> (rax_map r)
}.

(** ** Vectors (vector/vector.h) *)
Class VectorOps := {
  vector_t : Type -> Type;
  vector_new : forall {A}, vector_t A;
  vector_size : forall {A}, vector_t A -> Z;
  vector_get : forall {A}, vector_t A -> Z -> option A;
  vector_push : forall {A}, vector_t A -> A -> vector_t A;
  (** removes and returns the last element *)
  vector_pop : forall {A}, vector_t A -> option A * vector_t A;
  vector_elems : forall {A}, vector_t A -> list A
}.

Class VectorLaws {Vec : VectorOps} : Prop := {
  vector_new_elems : forall A, vector_elems (@vector_new _ A) = [];
  vector_size_spec : forall A (v : vector_t A), vector_size v = zlen (vector_elems v);
  vector_get_spec : forall A (v : vector_t A) i, 0 <= i -> vector_get v i = vector_elems v !! Z.to_nat i;
  vector_push_elems : forall A (v : vector_t A) x, vector_elems (vector_push v x) = vector_elems v ++ [x];
  vector_pop_spec : forall A (v : vector_t A) l x, vector_elems v = l ++ [x] ->
    fst (vector_pop v) = Some x /\ vector_elems (snd (vector_pop v)) = l
}.

(** ** The whole library *)
Class LatteC := {
  latte_sds :: SdsOps;
  latte_util :: UtilOps;
  latte_dict :: DictOps;
  latte_list :: ListOps;
  latte_rax :: RaxOps;
  latte_vector :: VectorOps;
  latte_object :: ObjectOps;
  latte_client :: ClientOps (Lst := latte_list)
}.

Class LatteCLaws {L : LatteC} : Prop := {
  latte_sds_laws :: SdsLaws;
  latte_util_laws :: UtilLaws;
  latte_dict_laws :: DictLaws;
  latte_list_laws :: ListLaws;
  latte_rax_laws :: RaxLaws;
  latte_vector_laws :: VectorLaws;
  latte_object_laws :: ObjectLaws;
  latte_client_laws :: ClientLaws (Cli := latte_client)
}.

(** ** Lemmas on outputs *)

Lemma segs_nonempty (r : list (option client_reply_block_t)) (cur : bytes) : segs cur r <> [].
Proof. revert cur. induction r as [|[b|] r IH]; intros cur; simpl; auto. Qed.

Lemma append_last_cons (x : bytes) (ss : list bytes) (s : bytes) :
  ss <> [] -> append_last (x :: ss) s = x :: append_last ss s.
Proof. by destruct ss. Qed.

Lemma append_last_app (ss : list bytes) (s t : bytes) :
  ss <> [] -> append_last (append_last ss s) t = append_last ss (s ++ t).
Proof.
  induction ss as [|x ss IH]; [done|]. intros _. destruct ss as [|y ss].
  - simpl. by rewrite <- app_assoc.
  - assert (append_last (y :: ss) s <> []) by (by destruct ss).
    rewrite (append_last_cons x (y :: ss)) by done.
    rewrite append_last_cons, IH by done. by rewrite (append_last_cons x (y :: ss)).
Qed.

Lemma append_last_nil (ss : list bytes) : ss <> [] -> append_last ss [] = ss.
Proof.
  induction ss as [|x ss IH]; [done|]. intros _. destruct ss as [|y ss]; simpl.
  - by rewrite app_nil_r.
  - f_equal. by apply IH.
Qed.

Lemma append_last_nonempty (ss : list bytes) (s : bytes) : append_last ss s <> [].
Proof. destruct ss as [|x [|y ss]]; done. Qed.

Lemma segs_app_blocks (r : list (option client_reply_block_t)) (cur : bytes)
    (l : list client_reply_block_t) :
  segs cur (r ++ map Some l) = append_last (segs cur r) (mjoin (crb_buf <$> l)).
Proof.
  revert cur. induction r as [|[b|] r IH]; intros cur; simpl.
  - revert cur. induction l as [|b l IHb]; intros cur; simpl; [by rewrite app_nil_r|].
    rewrite IHb. simpl. by rewrite <- app_assoc.
  - apply IH.
  - rewrite IH. pose proof (segs_nonempty r []) as Hn. by destruct (segs [] r).
Qed.

Lemma client_segs_nonempty `{Cli : ClientOps} (c : latte_client_t client_priv_t) :
  client_segs c <> [].
Proof. apply segs_nonempty. Qed.

#[export] Hint Resolve segs_nonempty client_segs_nonempty append_last_nonempty : latte.
