(* ===== verification/LatteCModel.v ===== *)
(** * A model of the latte_c interface

    One implementation of every operation of LatteC.v, with proofs of all the
    laws: the assumptions of the development are consistent, and the concrete
    runs that accompany the theorems are computed with it. *)

From S2P Require Import Prelude LatteC.

(** ** sds *)
Fixpoint split_sp_aux (cur s : bytes) : list bytes :=
  match s with
  | [] => [cur]
  | c :: s' => if bool_decide (c = SP) then cur :: split_sp_aux [] s'
               else split_sp_aux (cur ++ [c]) s'
  end.

Definition split_sp (s : bytes) : list bytes := split_sp_aux [] s.

Fixpoint drop_while (f : ascii -> bool) (s : bytes) : bytes :=
  match s with
  | [] => []
  | c :: s' => if f c then drop_while f s' else s
  end.

Definition trim_both (cs s : bytes) : bytes :=
  rev (drop_while (fun c => bool_decide (c ∈ cs)) (rev (drop_while (fun c => bool_decide (c ∈ cs)) s))).

#[local] Instance model_sds : SdsOps := {|
  sds_len s := zlen s;
  sds_empty := [];
  sds_new := cstr;
  sds_new_len p n := take (Z.to_nat n) p;
  sds_dup s := s;
  sds_cat_printf s t := s ++ t;
  sds_cat s t := s ++ cstr t;
  sds_cat_sds s t := s ++ t;
  sds_trim s cs := trim_both cs s;
  sds_map_chars s from to := map (map_char from to) s;
  sds_range s a b :=
    if decide (b < 0) then drop (Z.to_nat a) (take (Z.to_nat (zlen s + b + 1)) s)
    else drop (Z.to_nat a) (take (Z.to_nat (b + 1)) s);
  sds_incr_len s n := take (Z.to_nat (zlen s + n)) s;
  sds_clear _ := [];
  sds_make_room_for s _ := s;
  sds_to_lower := lower;
  sds_to_upper := map toupper;
  sds_split_args s := Some (filter (fun w => w <> []) (split_sp s));
  sds_split_len s _ := split_sp s
|}.

(** ** Utilities *)
#[local] Instance model_util : UtilOps := {|
  string2ll s := match undec s with
                 | Some z => if decide (- 2 ^ 63 <= z < 2 ^ 63) then Some z else None
                 | None => None
                 end;
  ll2string := dec;
  mstime n := Z.min (1700000000000 + Z.of_nat n) (2 ^ 62 - 1);
  ustime n := Z.min (1700000000000000 + Z.of_nat n) (2 ^ 63 - 1);
  zmalloc_usable n := n
|}.

(** ** dict *)
#[local] Instance model_dict : DictOps := {|
  dict_t _ V := gmap bytes V;
  dict_entry_t := bytes;
  DICT_OK := 0;
  DICT_ERR := 1;
  dict_new _ _ := ∅;
  dict_size _ _ d := Z.of_nat (size d);
  dict_find c _ d k := match d !! key_norm c k with Some _ => Some (key_norm c k) | None => None end;
  dict_get_entry_val _ _ d e := d !! e;
  dict_set_val _ _ d e v := <[e := v]> d;
  dict_set_key _ _ d _ _ := d;
  dict_add_raw c _ _ d k :=
    match d !! key_norm c k with
    | Some _ => (None, Some (key_norm c k), d)
    | None => (Some (key_norm c k), None, <[key_norm c k := inhabitant]> d)
    end;
  dict_add c _ d k v :=
    match d !! key_norm c k with
    | Some _ => (1, d)
    | None => (0, <[key_norm c k := v]> d)
    end;
  dict_fetch_value c _ d k := d !! key_norm c k;
  dict_delete_key c _ _ f d k s :=
    match d !! key_norm c k with
    | Some v => (0, delete (key_norm c k) d, f v s)
    | None => (1, d, s)
    end;
  dict_map _ _ d := d;
  dict_entry_key _ _ d e := match d !! e with Some _ => Some e | None => None end
|}.

(** ** Lists: a node is its position. *)
Fixpoint find_index {A} `{EqDecision A} (x : A) (l : list A) : option nat :=
  match l with
  | [] => None
  | y :: l' => if bool_decide (y = x) then Some 0%nat else S <$> find_index x l'
  end.

#[local] Instance model_list : ListOps := {|
  list_t A := list A;
  list_node_t := nat;
  list_new _ := [];
  list_length _ l := zlen l;
  list_add_node_tail _ l x := l ++ [x];
  list_last _ l := match l with [] => None | _ => Some (pred (length l)) end;
  list_node_prev _ l n := match n with 0%nat => None | S m => Some m end;
  list_node_next _ l n := if bool_decide (S n < length l)%nat then Some (S n) else None;
  list_node_value _ l n := l !! n;
  list_node_set _ l n x := <[n := x]> l;
  list_search_key _ _ l x := find_index x l;
  list_del_node _ _ f l n s :=
    match l !! n with Some x => (delete n l, f x s) | None => (l, s) end;
  list_delete _ _ f l s := fold_left (fun s x => f x s) l s;
  list_elems _ l := l;
  list_node_pos _ l n := if bool_decide (n < length l)%nat then Some n else None
|}.

(** ** Objects: a fresh location is chosen outside the domain. *)
#[local] Instance model_object : ObjectOps := {|
  OBJ_STRING := 0;
  OBJ_ENCODING_INT := 1;
  OBJ_SHARED_REFCOUNT := 2147483647;
  OBJ_STATIC_REFCOUNT := 2147483646;
  LRU_CLOCK_MAX := 16777215;
  sds_encoded_object o := bool_decide (encoding o = 0);
  string_object_len o := match ptr o with
    | PSds s => zlen s | PInt n => zlen (dec n) | POther => 0 end;
  get_sds_from_object o := match ptr o with PSds s => Some s | _ => None end;
  latte_object_new ty s h :=
    let l := fresh (dom h) in (l, <[l := mk_object ty 0 1 0 (PSds s)]> h);
  string_object_new p n h :=
    let l := fresh (dom h) in (l, <[l := mk_object 0 0 1 0 (PSds (take (Z.to_nat n) p))]> h);
  dup_string_object l h :=
    let l' := fresh (dom h) in
    match h !! l with
    | Some o => (l', <[l' := mk_object (obj_type o) (encoding o) 1 (lru o) (ptr o)]> h)
    | None => (l', h)
    end;
  latte_object_incr_ref_count l h :=
    match h !! l with
    | Some o => if decide (refcount o < 2147483646) then
                  <[l := set_refcount o (refcount o + 1)]> h else h
    | None => h
    end;
  latte_object_decr_ref_count l h :=
    match h !! l with
    | Some o => if decide (refcount o = 1) then delete l h
                else if decide (refcount o < 2147483646) then
                  <[l := set_refcount o (refcount o - 1)]> h else h
    | None => h
    end
|}.

(** ** Clients: the private part is the static output buffer. *)
#[local] Instance model_client : ClientOps := {|
  client_priv_t := bytes;
  CLIENT_CLOSE_AFTER_REPLY := 64;
  CLIENT_CLOSE_ASAP := 1024;
  PROTO_MBULK_BIG_ARG := 32768;
  PROTO_REPLY_CHUNK_BYTES := 16384;
  sizeof_list_node := 24;
  sizeof_reply_block := 16;
  add_reply_proto c s :=
    match reply c with
    | [] => mk_latte_client (querybuf c) (qb_pos c) (cflags c) (reply c) (conn c)
              (start_time c) (end_time c) (client_priv c ++ s)
    | r => mk_latte_client (querybuf c) (qb_pos c) (cflags c)
              (r ++ map (fun b => Some (mk_block 1 1 [b])) s) (conn c)
              (start_time c) (end_time c) (client_priv c)
    end;
  client_get_name _ := None;
  client_get_peer_id _ := bs "127.0.0.1:5000";
  priv_out p := p
|}.

(** ** The laws hold in the model *)

Lemma drop_while_spec (f : ascii -> bool) (s : bytes) :
  exists p, s = p ++ drop_while f s /\ Forall (fun c => f c = true) p
    /\ (forall c, head (drop_while f s) = Some c -> f c = false).
Proof.
  induction s as [|c s IH]; simpl.
  - exists []; split_and!; [done|constructor|done].
  - destruct (f c) eqn:E.
    + destruct IH as (p & Hp & Hf & Hh). exists (c :: p).
      split_and!; [simpl; by rewrite <- Hp|by constructor|done].
    + exists []; split_and!; [done|constructor|]. intros ? [= <-]. done.
Qed.

Lemma last_rev (s : bytes) : last (rev s) = head s.
Proof. destruct s; simpl; [done|]. by rewrite last_snoc. Qed.

Lemma head_rev_snoc (s : bytes) : head (rev s) = last s.
Proof. rewrite <- (rev_involutive s) at 2. by rewrite last_rev. Qed.

Lemma trim_both_spec (s cs : bytes) : exists p q,
  s = p ++ trim_both cs s ++ q /\ Forall (fun c => c ∈ cs) p /\ Forall (fun c => c ∈ cs) q
  /\ (forall c, head (trim_both cs s) = Some c -> c ∉ cs)
  /\ (forall c, last (trim_both cs s) = Some c -> c ∉ cs).
Proof.
  unfold trim_both. set (f := fun c => bool_decide (c ∈ cs)).
  destruct (drop_while_spec f s) as (p & Hp & Hpf & Hph).
  destruct (drop_while_spec f (rev (drop_while f s))) as (q & Hq & Hqf & Hqh).
  set (m := drop_while f s) in *. set (r := drop_while f (rev m)) in *.
  assert (Hm : m = rev r ++ rev q).
  { rewrite <- (rev_involutive m), Hq. by rewrite rev_app_distr. }
  assert (HF : forall l, Forall (fun c => f c = true) l -> Forall (fun c => c ∈ cs) l).
  { intros l Hl. eapply Forall_impl; [exact Hl|]. intros c. apply bool_decide_eq_true. }
  exists p, (rev q). split_and!.
  - by rewrite <- Hm.
  - by apply HF.
  - apply HF. by apply Forall_rev.
  - intros c Hc. specialize (Hph c). rewrite Hm in Hph.
    destruct (rev r); [done|]. simpl in *. specialize (Hph Hc).
    by apply bool_decide_eq_false in Hph.
  - intros c Hc. rewrite last_rev in Hc. specialize (Hqh c Hc).
    by apply bool_decide_eq_false in Hqh.
Qed.

Lemma plain_word_no_sp (w : bytes) : plain_word w = true -> (SP ∉ w) /\ w <> [].
Proof.
  unfold plain_word. rewrite andb_true_iff, bool_decide_eq_true.
  intros [Hn Hf]. split; [|done]. intros Hs. apply Is_true_true, forallb_True in Hf.
  rewrite Forall_forall in Hf. by specialize (Hf _ Hs).
Qed.

Lemma split_sp_aux_word (w cur s : bytes) :
  SP ∉ w -> split_sp_aux cur (w ++ s) = split_sp_aux (cur ++ w) s.
Proof.
  revert cur. induction w as [|c w IH]; intros cur Hw; simpl.
  - by rewrite app_nil_r.
  - rewrite not_elem_of_cons in Hw. destruct Hw as [Hc Hw].
    rewrite bool_decide_false by congruence. rewrite IH by done.
    by rewrite <- app_assoc.
Qed.

Lemma split_sp_join (ws : list bytes) :
  ws <> [] -> Forall (fun w => SP ∉ w) ws -> split_sp (join_sp ws) = ws.
Proof.
  unfold split_sp. induction ws as [|w ws IH]; [done|]. intros _ Hf.
  inversion Hf as [|?? Hw Hws]; subst. destruct ws as [|w' ws]; simpl.
  - rewrite <- (app_nil_r w) at 1. by rewrite split_sp_aux_word.
  - rewrite split_sp_aux_word by done. simpl.
    f_equal. by apply IH.
Qed.

Lemma plain_words_Forall (ws : list bytes) :
  forallb plain_word ws = true -> Forall (fun w => (SP ∉ w) /\ w <> []) ws.
Proof.
  intros H. apply Is_true_true, forallb_True in H.
  eapply Forall_impl; [exact H|]. intros w Hw.
  apply plain_word_no_sp. by apply Is_true_true.
Qed.

#[local] Instance model_sds_laws : SdsLaws.
Proof.
  split; simpl; try done.
  - intros s cs. apply trim_both_spec.
  - intros s a Ha. f_equal. rewrite take_ge; [done|]. unfold zlen in *. lia.
  - intros s k Hk. rewrite decide_True by lia. simpl. by f_equal.
  - intros ws Hw. f_equal. apply plain_words_Forall in Hw.
    destruct ws as [|w ws]; [done|]. rewrite split_sp_join; [|done|].
    + clear -Hw. induction Hw as [|x l [Hs Hx] Hl IH]; [done|].
      rewrite filter_cons_True by done. by rewrite IH.
    + eapply Forall_impl; [exact Hw|]. naive_solver.
  - intros ws Hn Hw. apply split_sp_join; [done|].
    eapply Forall_impl; [by apply plain_words_Forall|]. naive_solver.
Qed.

#[local] Instance model_util_laws : UtilLaws.
Proof.
  split; simpl.
  - intros z Hz. rewrite undec_dec. by rewrite decide_True.
  - intros s z. destruct (undec s); [|done]. case_decide; [|done]. intros [= <-]. done.
  - done.
  - intros n. pose proof (Zle_0_nat n). lia.
  - intros n. pose proof (Zle_0_nat n). lia.
  - lia.
  - lia.
Qed.

#[local] Instance model_dict_laws : DictLaws.
Proof.
  split; simpl.
  - done.
  - done.
  - done.
  - intros c V d k _. by destruct (d !! key_norm c k).
  - intros c V d k e _. destruct (d !! key_norm c k) eqn:E; [|done].
    intros [= <-]. by rewrite E.
  - intros c V d e k. destruct (d !! e) eqn:E; [|done]. intros [= <-]. done.
  - intros c V d e k. destruct (d !! e) eqn:E; [|done]. intros [= <-]. by rewrite E.
  - intros c V d e k v. destruct (d !! e) eqn:E; [|done]. intros [= <-].
    split; [done|]. by rewrite lookup_insert_eq.
  - intros c V d e k _ E. by split.
  - intros c V ? d k _ E. rewrite E. eexists _, _, _. split; [done|]. split; [done|].
    by rewrite lookup_insert_eq.
  - intros c V ? d k _ [v E]. rewrite E. eexists. split; [done|]. by rewrite E.
  - intros c V d k v _ E. rewrite E. eauto.
  - intros c V d k v _ [w E]. by rewrite E.
  - done.
  - intros c V S f d k v s _ E. rewrite E. eauto.
  - intros c V S f d k s _ E. by rewrite E.
Qed.

Lemma find_index_spec {A} `{EqDecision A} (x : A) (l : list A) :
  match find_index x l with
  | Some i => l !! i = Some x /\ (forall j, (j < i)%nat -> l !! j <> Some x)
  | None => x ∉ l
  end.
Proof.
  induction l as [|y l IH]; simpl; [apply not_elem_of_nil|].
  case_bool_decide as Hy; [subst; split; [done|]; lia|].
  destruct (find_index x l) as [i|]; simpl.
  - destruct IH as [Hi Hj]. split; [done|]. intros [|j] Hlt; simpl; [congruence|].
    apply Hj. lia.
  - rewrite not_elem_of_cons. naive_solver.
Qed.

#[local] Instance model_list_laws : ListLaws.
Proof.
  split; simpl; try done.
  - intros A l. destruct l as [|x l]; [done|]. simpl. rewrite bool_decide_true by lia. done.
  - intros A l n i. case_bool_decide; [|done]. intros [= <-]. done.
  - intros A l n i. case_bool_decide; [|done]. by intros [= <-].
  - intros A l n i. case_bool_decide as Hn; [|done]. intros [= <-]. destruct n; [done|].
    exists n. rewrite bool_decide_true by lia. done.
  - intros A l n i. case_bool_decide as Hn; [|done]. intros [= <-].
    case_bool_decide as Hs; [by rewrite bool_decide_true|]. lia.
  - intros A l n i x. case_bool_decide; [|done]. by intros [= <-].
  - intros A l n m i x. rewrite length_insert. done.
  - intros A l n i x. rewrite length_app; simpl. do 2 case_bool_decide; try done. lia.
  - intros A ? l x. pose proof (find_index_spec x l) as H.
    destruct (find_index x l) as [i|]; [|done]. destruct H as [Hi Hj].
    exists i. rewrite bool_decide_true; [done|]. by eapply lookup_lt_Some.
  - intros A S f l n i x s. case_bool_decide; [|done]. intros [= <-] E.
    rewrite E. eauto.
Qed.

#[local] Instance model_object_laws : ObjectLaws.
Proof.
  assert (Hf : forall h : heap, h !! fresh (dom h) = None).
  { intros h. apply not_elem_of_dom. apply is_fresh. }
  split; simpl; try done.
  - intros o s (? & ? & ->). done.
  - intros o s (? & ? & ->). done.
  - intros o o' E. by rewrite E.
  - intros s h. eexists _, _. split; [reflexivity|]. split; [apply Hf|]. done.
  - intros p n h _. eexists _, _. split; [reflexivity|]. split; [apply Hf|]. done.
  - intros l o s h E (Ht & He & Hp). rewrite E. eexists _, _.
    split; [reflexivity|]. split; [apply Hf|]. split; [|done].
    split_and!; simpl in *; done.
  - intros l o h E [? [? ?]]. rewrite E. unfold OBJ_STATIC_REFCOUNT in *. simpl in *.
    rewrite decide_True by lia. done.
  - intros l o h E Hr. rewrite E. by rewrite decide_True.
  - intros l o h E Hr [? [? ?]]. rewrite E. simpl in *. rewrite decide_False by lia.
    by rewrite decide_True by lia.
Qed.

Definition byte_block (b : ascii) : client_reply_block_t := mk_block 1 1 [b].

Lemma byte_blocks_map (s : bytes) :
  map (fun b => Some (mk_block 1 1 [b])) s = map Some (map byte_block s).
Proof. by rewrite map_map. Qed.

Lemma byte_blocks_content (s : bytes) : mjoin (crb_buf <$> map byte_block s) = s.
Proof. induction s as [|b s IH]; [done|]. exact (f_equal (cons b) IH). Qed.

#[local] Instance model_client_laws : ClientLaws.
Proof.
  split; simpl; try done.
  - intros c s. unfold client_segs. simpl. destruct (reply c) as [|x r] eqn:E; simpl; [done|].
    pose proof (segs_app_blocks (x :: r) (client_priv c) (map byte_block s)) as H.
    rewrite byte_blocks_content, <- byte_blocks_map in H. exact H.
  - intros c s. destruct (reply c) as [|x r] eqn:E; simpl; left.
    + exists []. done.
    + exists (map byte_block s). by rewrite <- byte_blocks_map.
  - intros c s. destruct (reply c) as [|x r] eqn:E; simpl.
    + try rewrite E; done.
    + intros H. rewrite app_comm_cons. apply Forall_app. split; [done|].
      apply Forall_forall. intros ob Hob. apply list_elem_of_In, in_map_iff in Hob.
      destruct Hob as (b & <- & _). split_and!; simpl; try done.
  - intros c s n i. destruct (reply c) as [|x r] eqn:E; simpl.
    + try rewrite E; done.
    + rewrite length_app. do 2 case_bool_decide; try done. lia.
  - intros c s. destruct (reply c); done.
Qed.

(** ** The radix tree and the whole library *)
#[local] Instance model_rax : RaxOps := {|
  rax_t := gmap bytes Z;
  raxNew := ∅;
  raxFind r k := r !! k;
  raxInsert r k v := <[k := v]> r;
  rax_map r := r
|}.

#[local] Instance model_rax_laws : RaxLaws.
Proof. split; done. Qed.

#[local] Instance model_vector : VectorOps := {|
  vector_t A := list A;
  vector_new _ := [];
  vector_size _ v := zlen v;
  vector_get _ v i := v !! Z.to_nat i;
  vector_push _ v x := v ++ [x];
  vector_pop _ v := (last v, take (length v - 1) v);
  vector_elems _ v := v
|}.

#[local] Instance model_vector_laws : VectorLaws.
Proof.
  split; simpl; try done. intros A v l x ->. rewrite last_snoc, length_app. split; [done|].
  apply take_app_length'. simpl. lia.
Qed.

#[local] Instance model_latte : LatteC := {|
  latte_sds := model_sds;
  latte_util := model_util;
  latte_dict := model_dict;
  latte_list := model_list;
  latte_rax := model_rax;
  latte_vector := model_vector;
  latte_object := model_object;
  latte_client := model_client
|}.

#[local] Instance model_latte_laws : LatteCLaws.
Proof. split; apply _. Qed.
