(* ===== verification/KvStore.v ===== *)
(** * kv_store_t: the sharded key/value table (src/redis/db.c, src/redis/db.h)

    A kv_store is an array of [num_dicts] dictionaries, created on demand,
    with a counter of keys and, when there is more than one dictionary, a
    binary indexed tree ([dict_size_index]) of cumulative dictionary sizes. *)

From S2P Require Import Prelude LatteC LatteCModel.

(** ** Data *)

(** The members of [dict_func_t] the kv_store depends on: the value destructor
    (it runs on a state [St] of the caller, the object store) and whether
    [dictEntryMetadataBytes] is [kv_store_dict_meta_data_size]. *)
Record dict_func_t (V St : Type) := mk_dict_func {
  valDestructor : option (V -> St -> St);
  kv_metadata : bool
}.
Arguments mk_dict_func {V St} _ _.
Arguments valDestructor {V St} _.
Arguments kv_metadata {V St} _.

Definition run_destructor {V St} (t : dict_func_t V St) (v : V) (s : St) : St :=
  match valDestructor t with Some f => f v s | None => s end.

Definition KVSTORE_ALLOCATE_DICTS_ON_DEMAND : Z := 1.

Section KvStore.
Context {Dict : DictOps}.
Context {V St : Type} `{Inhabited V}.

Abbreviation kdict := (dict_t SdsCompare V).

Record kv_store_t := mk_kv {
  kv_flags : Z;
  dtype : dict_func_t V St;
  dicts : list (option kdict);
  num_dicts : Z;
  num_dicts_bits : Z;
  resize_cursor : Z;
  allocated_dicts : Z;
  non_empty_dicts : Z;
  key_count : Z;
  bucket_count : Z;
  dict_size_index : option (list Z)
}.

Definition set_dicts (kvs : kv_store_t) (ds : list (option kdict)) : kv_store_t :=
  mk_kv (kv_flags kvs) (dtype kvs) ds (num_dicts kvs) (num_dicts_bits kvs) (resize_cursor kvs)
    (allocated_dicts kvs) (non_empty_dicts kvs) (key_count kvs) (bucket_count kvs)
    (dict_size_index kvs).

Definition set_counts (kvs : kv_store_t) (alloc ne kc : Z) (idx : option (list Z)) : kv_store_t :=
  mk_kv (kv_flags kvs) (dtype kvs) (dicts kvs) (num_dicts kvs) (num_dicts_bits kvs)
    (resize_cursor kvs) alloc ne kc (bucket_count kvs) idx.

(** ** Operations *)

(** [kvs->dicts[didx]] *)
Definition kv_store_get_dict (kvs : kv_store_t) (didx : Z) : outcome (option kdict) :=
  array_get (dicts kvs) didx.

Definition put_dict (kvs : kv_store_t) (didx : Z) (d : kdict) : outcome kv_store_t :=
  ds ← array_set (dicts kvs) didx (Some d); Done (set_dicts kvs ds).

Definition kv_store_create_dict_if_needed (kvs : kv_store_t) (didx : Z)
    : outcome (kdict * kv_store_t) :=
  od ← kv_store_get_dict kvs didx;
  match od with
  | Some d => Done (d, kvs)
  | None =>
      let d := dict_new in
      kvs ← put_dict kvs didx d;
      Done (d, set_counts kvs (i32 (allocated_dicts kvs + 1)) (non_empty_dicts kvs)
                 (key_count kvs) (dict_size_index kvs))
  end.

Definition kv_store_dict_find (kvs : kv_store_t) (didx : Z) (key : bytes)
    : outcome (option dict_entry_t) :=
  od ← kv_store_get_dict kvs didx;
  match od with
  | None => Done None
  | Some d => Done (dict_find d key)
  end.

(** The update loop of the binary indexed tree: [idx += (idx & -idx)]. *)
Fixpoint fenwick_loop (fuel : nat) (n idx delta : Z) (t : list Z) : outcome (list Z) :=
  match fuel with
  | O => Fault OutOfFuel
  | S fuel =>
      if idx <=? n then
        x ← array_get t idx;
        _ ← (if delta <? 0
             then latte_assert (Z.abs delta <=? x) "dict_size_index[idx] is less than labs(delta)"
             else Done tt);
        t ← array_set t idx (u64 (x + delta));
        fenwick_loop fuel n (i32 (idx + Z.land idx (i32 (- idx)))) delta t
      else Done t
  end.

Definition cumulative_key_count_add (kvs : kv_store_t) (didx delta : Z) : outcome kv_store_t :=
  let kc := u64 (key_count kvs + delta) in
  od ← kv_store_get_dict kvs didx;
  d ← deref od;
  let dsize := dict_size d in
  let non_empty_dicts_delta := if dsize =? 1 then 1 else if dsize =? 0 then -1 else 0 in
  let ne := i32 (non_empty_dicts kvs + non_empty_dicts_delta) in
  let kvs := set_counts kvs (allocated_dicts kvs) ne kc (dict_size_index kvs) in
  if num_dicts kvs =? 1 then Done kvs
  else
    t ← deref (dict_size_index kvs);
    t ← fenwick_loop (S (Z.to_nat (num_dicts kvs))) (num_dicts kvs) (i32 (didx + 1)) delta t;
    Done (set_counts kvs (allocated_dicts kvs) (non_empty_dicts kvs) (key_count kvs) (Some t)).

Definition kv_store_dict_delete_key (kvs : kv_store_t) (didx : Z) (key : bytes) (s : St)
    : outcome (Z * kv_store_t * St) :=
  od ← kv_store_get_dict kvs didx;
  match od with
  | None => Done (DICT_ERR, kvs, s)
  | Some d =>
      let '(ret, d, s) := dict_delete_key (run_destructor (dtype kvs)) d key s in
      kvs ← put_dict kvs didx d;
      if ret =? DICT_OK then
        kvs ← cumulative_key_count_add kvs didx (-1);
        Done (ret, kvs, s)
      else Done (ret, kvs, s)
  end.

(** Returned entry, [*existing], and the store. *)
Definition kv_store_dict_add_raw (kvs : kv_store_t) (didx : Z) (key : bytes)
    : outcome (option dict_entry_t * option dict_entry_t * kv_store_t) :=
  '(d, kvs) ← kv_store_create_dict_if_needed kvs didx;
  let '(ret, existing, d) := dict_add_raw d key in
  kvs ← put_dict kvs didx d;
  match ret with
  | Some _ =>
      kvs ← cumulative_key_count_add kvs didx 1;
      Done (ret, existing, kvs)
  | None => Done (ret, existing, kvs)
  end.

Definition kv_store_dict_set_val (kvs : kv_store_t) (didx : Z) (de : dict_entry_t) (val : V)
    : outcome kv_store_t :=
  od ← kv_store_get_dict kvs didx;
  d ← deref od;
  put_dict kvs didx (dict_set_val d de val).

Definition kv_store_dict_set_key (kvs : kv_store_t) (didx : Z) (de : dict_entry_t) (key : bytes)
    : outcome (Z * kv_store_t) :=
  od ← kv_store_get_dict kvs didx;
  d ← deref od;
  kvs ← put_dict kvs didx (dict_set_key d de key);
  Done (0, kvs).

(** The value cell of an entry of a store. *)
Definition kv_entry_val (kvs : kv_store_t) (didx : Z) (de : dict_entry_t) : outcome V :=
  od ← kv_store_get_dict kvs didx;
  d ← deref od;
  deref (dict_get_entry_val d de).

(** [for (i = 0; i < num_dicts; i++) kv_store_create_dict_if_needed(kvs, i)] *)
Fixpoint create_dicts_from (n : nat) (i : Z) (kvs : kv_store_t) : outcome kv_store_t :=
  match n with
  | O => Done kvs
  | S n =>
      '(_, kvs) ← kv_store_create_dict_if_needed kvs i;
      create_dicts_from n (i + 1) kvs
  end.

Definition kv_store_create (type : dict_func_t V St) (bits fl : Z) : outcome kv_store_t :=
  _ ← latte_assert (bits <=? 16) "num_dicts_bits is too large";
  _ ← latte_assert (kv_metadata type) "dictEntryMetadataBytes is not kv_store_dict_meta_data_size";
  let n := Z.shiftl 1 bits in
  let kvs := mk_kv fl type (replicate (Z.to_nat n) None) n bits 0 0 0 0 0 None in
  kvs ← (if has_flag fl KVSTORE_ALLOCATE_DICTS_ON_DEMAND then Done kvs
         else create_dicts_from (Z.to_nat n) 0 kvs);
  Done (set_counts kvs (allocated_dicts kvs) 0 0
          (if 1 <? n then Some (replicate (Z.to_nat (n + 1)) 0) else None)).

(** ** Specification *)

(** A store is, for its clients, a list of finite maps. *)
Definition dict_view (od : option kdict) : gmap bytes V :=
  match od with Some d => dict_map d | None => ∅ end.

Definition kv_view (kvs : kv_store_t) : list (gmap bytes V) := dict_view <$> dicts kvs.

(** The map of one shard. *)
Definition kv_shard (kvs : kv_store_t) (didx : Z) : gmap bytes V :=
  default ∅ (kv_view kvs !! Z.to_nat didx).

Definition shard_sizes (kvs : kv_store_t) : list Z :=
  (fun m : gmap bytes V => Z.of_nat (size m)) <$> kv_view kvs.

Definition lowbit (i : Z) : Z := Z.land i (- i).

(** Node [j] of the tree summarises the shards [j - lowbit j + 1 .. j]. *)
Definition covers (j i : Z) : Prop := j - lowbit j < i <= j.

Definition range_sum (l : list Z) (a b : Z) : Z :=
  zsum (take (Z.to_nat b) l) - zsum (take (Z.to_nat a) l).

Definition fenwick_ok (l t : list Z) : Prop :=
  zlen t = zlen l + 1 /\
  forall j, 1 <= j <= zlen l -> t !! Z.to_nat j = Some (range_sum l (j - lowbit j) j).

Definition count_some (ds : list (option kdict)) : Z :=
  zsum ((fun od => match od with Some _ => 1 | None => 0 end) <$> ds).

(** A well-formed store: every counter and the index agree with the shards, but
    for [non_empty_dicts], which the code does not keep exact
    ([non_empty_dicts_drifts]) and which the theorems follow on its own. *)
Record kv_wf (kvs : kv_store_t) : Prop := {
  wf_bits : 0 <= num_dicts_bits kvs <= 16;
  wf_num : num_dicts kvs = 2 ^ num_dicts_bits kvs;
  wf_dicts : zlen (dicts kvs) = num_dicts kvs;
  wf_alloc : allocated_dicts kvs = count_some (dicts kvs);
  wf_total : zsum (shard_sizes kvs) < 2 ^ 64;
  wf_key_count : key_count kvs = zsum (shard_sizes kvs);
  wf_index : if num_dicts kvs =? 1 then True
             else exists t, dict_size_index kvs = Some t /\ fenwick_ok (shard_sizes kvs) t
}.

(** Number of shards with at least one key. *)
Definition count_non_empty (kvs : kv_store_t) : Z :=
  zsum ((fun n => if n =? 0 then 0 else 1) <$> shard_sizes kvs).

(** Entry [e] of shard [didx] holds key [k]. *)
Definition kv_entry_at (kvs : kv_store_t) (didx : Z) (e : dict_entry_t) (k : bytes) : Prop :=
  exists d, dicts kvs !! Z.to_nat didx = Some (Some d) /\ dict_entry_key d e = Some k.

Definition in_range (kvs : kv_store_t) (didx : Z) : Prop := 0 <= didx < num_dicts kvs.

End KvStore.

Arguments kv_store_t {Dict} V St.

(** ** Binary indexed trees: arithmetic *)

Lemma land_double (a b : Z) : Z.land (2 * a) (2 * b) = 2 * Z.land a b.
Proof.
  rewrite !(Z.mul_comm 2), <- !(Z.shiftl_mul_pow2 _ 1) by lia.
  by rewrite Z.shiftl_land.
Qed.

Lemma land_double_succ (a b : Z) : Z.land (2 * a + 1) (2 * b + 1) = 2 * Z.land a b + 1.
Proof.
  apply Z.bits_inj'. intros n Hn. rewrite Z.land_spec.
  destruct (Z.eq_dec n 0) as [->|Hn0].
  - by rewrite !Z.testbit_odd_0.
  - replace n with (Z.succ (n - 1)) by lia.
    rewrite !Z.testbit_odd_succ by lia. by rewrite Z.land_spec.
Qed.

Lemma lowbit_odd (m : Z) : lowbit (2 * m + 1) = 1.
Proof.
  unfold lowbit. replace (- (2 * m + 1)) with (2 * Z.lnot m + 1).
  - rewrite land_double_succ, Z.land_lnot_diag. lia.
  - pose proof (Z.add_lnot_diag m). lia.
Qed.

Lemma lowbit_even (m : Z) : lowbit (2 * m) = 2 * lowbit m.
Proof. unfold lowbit. replace (- (2 * m)) with (2 * (- m)) by lia. apply land_double. Qed.

(** [i & -i] is the largest power of two dividing [i]. *)
Lemma lowbit_spec (i : Z) : 0 < i ->
  exists k m, 0 <= k /\ 0 <= m /\ i = 2 ^ k * (2 * m + 1) /\ lowbit i = 2 ^ k.
Proof.
  revert i. apply (well_founded_ind (Z.lt_wf 0)
    (fun i => 0 < i -> exists k m, 0 <= k /\ 0 <= m /\ i = 2 ^ k * (2 * m + 1) /\ lowbit i = 2 ^ k)).
  intros i IH Hi. destruct (Z.Even_or_Odd i) as [[m ->]|[m ->]].
  - destruct (IH m) as (k & q & Hk & Hq & E & L); [lia|lia|].
    exists (k + 1), q. rewrite lowbit_even, L, Z.pow_add_r, Z.pow_1_r by lia.
    split_and!; lia.
  - exists 0, m. rewrite lowbit_odd. split_and!; lia.
Qed.

Lemma lowbit_bounds (i : Z) : 0 < i -> 0 < lowbit i <= i.
Proof.
  intros Hi. destruct (lowbit_spec i Hi) as (k & m & Hk & Hm & E & L).
  assert (0 < 2 ^ k) by (apply Z.pow_pos_nonneg; lia). nia.
Qed.

Lemma covers_refl (i : Z) : 0 < i -> covers i i.
Proof. intros Hi. pose proof (lowbit_bounds i Hi). unfold covers. lia. Qed.

(** The step of the update loop: the nodes above [i] that cover [i] are those
    that cover [i + lowbit i]. *)
Lemma covers_next (i j : Z) : 0 < i < j -> covers j i <-> covers j (i + lowbit i).
Proof.
  intros Hij. unfold covers.
  destruct (lowbit_spec i) as (k & m & Hk & Hm & Ei & Li); [lia|].
  destruct (lowbit_spec j) as (t & s & Ht & Hs & Ej & Lj); [lia|].
  rewrite Li, Lj.
  assert (0 < 2 ^ k) by (apply Z.pow_pos_nonneg; lia).
  assert (0 < 2 ^ t) by (apply Z.pow_pos_nonneg; lia).
  destruct (Z.lt_trichotomy t k) as [Hlt|[->|Hgt]].
  - assert (E : 2 ^ k = 2 ^ t * (2 * 2 ^ (k - t - 1))).
    { rewrite <- Z.pow_succ_r, <- Z.pow_add_r by lia. f_equal. lia. }
    set (Q := 2 ^ (k - t - 1)) in *. set (R := 2 ^ t) in *.
    rewrite E in *. subst i j.
    replace (R * (2 * Q) * (2 * m + 1)) with (R * (2 * (Q * (2 * m + 1)))) by lia.
    replace (R * (2 * (Q * (2 * m + 1))) + R * (2 * Q)) with (R * (2 * (Q * (2 * m + 2)))) by lia.
    assert (Hno : forall W, ~ (R * (2 * s + 1) - R < R * (2 * W) <= R * (2 * s + 1))).
    { intros W [H1 H2]. assert (s < W) by nia. nia. }
    split; intros [? ?]; exfalso; eapply Hno; split; eassumption.
  - subst i j. assert (m < s) by nia.
    assert (2 ^ k * (2 * m + 2) <= 2 ^ k * (2 * s)) by (apply Z.mul_le_mono_nonneg_l; lia).
    split; intros [? ?]; lia.
  - assert (E : 2 ^ t = 2 ^ k * (2 * 2 ^ (t - k - 1))).
    { rewrite <- Z.pow_succ_r, <- Z.pow_add_r by lia. f_equal. lia. }
    set (Q := 2 ^ (t - k - 1)) in *. set (P := 2 ^ k) in *.
    rewrite E in *. subst i j.
    replace (P * (2 * Q) * (2 * s + 1)) with (P * (2 * (Q * (2 * s + 1)))) by lia.
    replace (P * (2 * (Q * (2 * s + 1))) - P * (2 * Q)) with (P * (2 * (2 * (Q * s)))) by lia.
    replace (P * (2 * m + 1) + P) with (P * (2 * m + 2)) by lia.
    generalize (Q * (2 * s + 1)) (Q * s). intros Y X.
    rewrite <- !Z.mul_lt_mono_pos_l, <- !Z.mul_le_mono_pos_l by done. lia.
Qed.

#[export] Instance covers_dec (j i : Z) : Decision (covers j i).
Proof. unfold covers. apply _. Defined.

Lemma i32_small (z : Z) : - 2 ^ 31 <= z < 2 ^ 31 -> i32 z = z.
Proof. intros Hz. apply wrap_s_small; [lia|]. change (32 - 1) with 31. lia. Qed.

Lemma fenwick_step_i32 (n idx : Z) : 0 < idx <= n -> n <= 65536 ->
  i32 (idx + Z.land idx (i32 (- idx))) = idx + lowbit idx.
Proof.
  intros Hi Hn. rewrite (i32_small (- idx)) by lia. fold (lowbit idx).
  pose proof (lowbit_bounds idx). apply i32_small. lia.
Qed.

(** The loop terminates within [n - idx + 2] iterations, never fails its
    assertion, and adds [delta] to exactly the nodes that cover [idx]. *)
Lemma fenwick_loop_ok (fuel : nat) (n idx delta : Z) (t : list Z) :
  0 < idx -> n <= 65536 -> Z.max 1 (n - idx + 2) <= Z.of_nat fuel -> zlen t = n + 1 ->
  (delta < 0 -> forall j x, covers j idx -> j <= n -> t !! Z.to_nat j = Some x -> - delta <= x) ->
  exists t', fenwick_loop fuel n idx delta t = Done t' /\ zlen t' = n + 1 /\
    forall j, 0 <= j <= n ->
      t' !! Z.to_nat j
      = (fun x => if decide (covers j idx) then u64 (x + delta) else x) <$> t !! Z.to_nat j.
Proof.
  revert idx t. induction fuel as [|fuel IH]; intros idx t Hidx Hn Hfuel Ht Hneg; [lia|].
  simpl. destruct (Z.leb_spec idx n) as [Hle|Hgt].
  2:{ exists t. split_and!; [done|done|]. intros j Hj.
      destruct (t !! Z.to_nat j); simpl; [|done].
      by rewrite decide_False by (unfold covers; lia). }
  assert (exists x, t !! Z.to_nat idx = Some x) as [x Hx].
  { apply lookup_lt_is_Some. unfold zlen in Ht. lia. }
  rewrite (array_get_Done t idx x) by (done || lia). cbn [mbind outcome_bind].
  assert (Ha : (if delta <? 0 then latte_assert (Z.abs delta <=? x)
            "dict_size_index[idx] is less than labs(delta)" else Done tt) = Done tt).
  { destruct (Z.ltb_spec delta 0) as [Hd|]; [|done]. unfold latte_assert.
    specialize (Hneg Hd idx x (covers_refl idx Hidx) Hle Hx).
    by rewrite (proj2 (Z.leb_le _ _)) by lia. }
  rewrite Ha. cbn [mbind outcome_bind].
  rewrite array_set_Done by lia. cbn [mbind outcome_bind].
  rewrite (fenwick_step_i32 n) by lia.
  pose proof (lowbit_bounds idx Hidx) as Hlb.
  destruct (IH (idx + lowbit idx) (<[Z.to_nat idx := u64 (x + delta)]> t)) as (t' & E & Hl & Hj).
  - lia.
  - done.
  - lia.
  - by rewrite zlen_insert.
  - intros Hd j y Hc Hjn Hy. unfold covers in Hc.
    rewrite list_lookup_insert_ne in Hy by lia.
    apply (Hneg Hd j y); [|done|done]. apply covers_next; [lia|done].
  - exists t'. split_and!; [done|done|]. intros j Hjn. rewrite Hj by lia.
    destruct (Z.lt_trichotomy j idx) as [Hlt|[->|Hgt]].
    + rewrite list_lookup_insert_ne by lia. destruct (t !! Z.to_nat j); simpl; [|done].
      by rewrite !decide_False by (unfold covers; lia).
    + rewrite list_lookup_insert_eq by (unfold zlen in Ht; lia).
      rewrite Hx. simpl. rewrite decide_False by (unfold covers; lia).
      by rewrite decide_True by (by apply covers_refl).
    + rewrite list_lookup_insert_ne by lia. destruct (t !! Z.to_nat j); [|done]. simpl.
      f_equal. apply decide_ext. symmetry. apply covers_next. lia.
Qed.

(** ** Sums of shard sizes *)

Lemma zsum_take_insert (l : list Z) (i k : nat) (x y : Z) :
  l !! i = Some y ->
  zsum (take k (<[i := x]> l)) = zsum (take k l) + (if (i <? k)%nat then x - y else 0).
Proof.
  revert i k. induction l as [|z l IH]; intros [|i] [|k] Hi; simpl in *; try done.
  - injection Hi as ->. lia.
  - fold (zsum (take k (<[i:=x]> l))) (zsum (take k l)). rewrite (IH i k Hi).
    change (S i <? S k)%nat with (i <? k)%nat. lia.
Qed.

Lemma zsum_insert (l : list Z) (i : nat) (x y : Z) :
  l !! i = Some y -> zsum (<[i := x]> l) = zsum l + (x - y).
Proof.
  intros Hi. pose proof (zsum_take_insert l i (length l) x y Hi) as H.
  apply lookup_lt_Some in Hi. rewrite (proj2 (Nat.ltb_lt _ _)) in H by done.
  rewrite !take_ge in H by (rewrite ?length_insert; lia). done.
Qed.

Lemma zsum_nonneg (l : list Z) : Forall (fun x => 0 <= x) l -> 0 <= zsum l.
Proof.
  induction 1 as [|x l ? ? IH]; simpl; [lia|]. fold (zsum l). lia.
Qed.

Lemma zsum_take_mono (l : list Z) (a b : nat) :
  Forall (fun x => 0 <= x) l -> (a <= b)%nat -> zsum (take a l) <= zsum (take b l).
Proof.
  intros Hl Hab. replace b with (a + (b - a))%nat by lia.
  rewrite <- take_take_drop, zsum_app.
  assert (Forall (fun x => 0 <= x) (take (b - a) (drop a l))) as Hf
    by (by apply Forall_take, Forall_drop).
  pose proof (zsum_nonneg _ Hf). lia.
Qed.

Lemma zsum_take_le (l : list Z) (k : nat) :
  Forall (fun x => 0 <= x) l -> 0 <= zsum (take k l) <= zsum l.
Proof.
  intros Hl. pose proof (zsum_take_mono l 0 k Hl ltac:(lia)).
  pose proof (zsum_take_mono l k (Nat.max k (length l)) Hl ltac:(lia)) as H2.
  rewrite (take_ge l (Nat.max k (length l))) in H2 by lia. simpl in *. lia.
Qed.

Lemma range_sum_bounds (l : list Z) (a b : Z) :
  Forall (fun x => 0 <= x) l -> a <= b -> 0 <= range_sum l a b <= zsum l.
Proof.
  intros Hl Hab. unfold range_sum.
  pose proof (zsum_take_mono l (Z.to_nat a) (Z.to_nat b) Hl ltac:(lia)).
  pose proof (zsum_take_le l (Z.to_nat a) Hl). pose proof (zsum_take_le l (Z.to_nat b) Hl). lia.
Qed.

(** Changing the size of shard [i] changes the sums that cover it. *)
Lemma range_sum_insert (l : list Z) (i : nat) (x y j : Z) :
  l !! i = Some y -> 0 < j ->
  range_sum (<[i := x]> l) (j - lowbit j) j
  = range_sum l (j - lowbit j) j + (if decide (covers j (Z.of_nat i + 1)) then x - y else 0).
Proof.
  intros Hi Hj. pose proof (lowbit_bounds j Hj). unfold range_sum.
  rewrite !(zsum_take_insert _ _ _ _ _ Hi). unfold covers.
  destruct (Nat.ltb_spec i (Z.to_nat j)), (Nat.ltb_spec i (Z.to_nat (j - lowbit j)));
    case_decide; lia.
Qed.

(** A covering sum is at least the size of the shard it covers. *)
Lemma range_sum_covers (l : list Z) (i : nat) (y j : Z) :
  Forall (fun x => 0 <= x) l -> l !! i = Some y -> 0 < j -> covers j (Z.of_nat i + 1) ->
  y <= range_sum l (j - lowbit j) j.
Proof.
  intros Hl Hi Hj Hc.
  pose proof (range_sum_insert l i 0 y j Hi Hj) as E. rewrite decide_True in E by done.
  assert (Forall (fun x => 0 <= x) (<[i := 0]> l)) as Hl'.
  { apply Forall_insert; [done|lia]. }
  pose proof (lowbit_bounds j Hj).
  pose proof (range_sum_bounds _ (j - lowbit j) j Hl' ltac:(lia)). lia.
Qed.

(** The update of one shard by [delta], on the tree. *)
Lemma fenwick_update_ok (l t : list Z) (i : nat) (y delta : Z) :
  fenwick_ok l t -> zlen l <= 65536 -> Forall (fun x => 0 <= x) l ->
  l !! i = Some y -> 0 <= y + delta -> delta = 1 \/ delta = -1 ->
  zsum l + delta < 2 ^ 64 ->
  exists t', fenwick_loop (S (Z.to_nat (zlen l))) (zlen l) (i32 (Z.of_nat i + 1)) delta t = Done t'
    /\ fenwick_ok (<[i := y + delta]> l) t'.
Proof.
  intros [Hlen Hok] Hn Hl Hi Hy Hd Hsum.
  assert (Hi' : Z.of_nat i < zlen l) by (apply lookup_lt_Some in Hi; unfold zlen; lia).
  rewrite i32_small by lia.
  destruct (fenwick_loop_ok (S (Z.to_nat (zlen l))) (zlen l) (Z.of_nat i + 1) delta t)
    as (t' & E & Hl' & Hj); [lia|done|lia|done| |].
  { intros Hneg j x Hc Hjn Hx. assert (0 < j) by (unfold covers in Hc; lia).
    rewrite Hok in Hx by lia. injection Hx as <-.
    pose proof (range_sum_covers l i y j Hl Hi ltac:(lia) Hc). lia. }
  exists t'. split; [done|]. split; [by rewrite zlen_insert|].
  intros j Hjr. rewrite zlen_insert in Hjr. rewrite Hj, Hok by lia. simpl. f_equal.
  rewrite (range_sum_insert l i (y + delta) y j Hi) by lia.
  case_decide as Hc; [|lia].
  assert (Forall (fun x => 0 <= x) (<[i := y + delta]> l)) as Hl2 by (apply Forall_insert; [done|lia]).
  pose proof (lowbit_bounds j). 
  pose proof (range_sum_bounds _ (j - lowbit j) j Hl2 ltac:(lia)) as Hb.
  rewrite (range_sum_insert l i (y + delta) y j Hi), decide_True in Hb by (done || lia).
  rewrite (zsum_insert l i (y + delta) y Hi) in Hb.
  rewrite wrap_u_small by lia. lia.
Qed.

(** ** Correctness of the operations *)
Section KvStoreCorrect.
Context {Dict : DictOps} {DictL : DictLaws}.
Context {V St : Type} `{Inhabited V}.

Implicit Types kvs : kv_store_t V St.
Abbreviation kdict := (dict_t SdsCompare V).

Lemma shard_sizes_nonneg kvs : Forall (fun x => 0 <= x) (shard_sizes kvs).
Proof. unfold shard_sizes. apply Forall_fmap, Forall_true. intros; simpl; lia. Qed.

Lemma zlen_shard_sizes kvs : zlen (shard_sizes kvs) = zlen (dicts kvs).
Proof. unfold zlen, shard_sizes, kv_view. by rewrite !length_fmap. Qed.

Lemma in_range_lookup kvs didx :
  kv_wf kvs -> in_range kvs didx -> exists od, dicts kvs !! Z.to_nat didx = Some od.
Proof.
  intros Hwf [? ?]. apply lookup_lt_is_Some.
  pose proof (wf_dicts _ Hwf). unfold zlen in *. lia.
Qed.

Lemma get_dict_ok kvs didx od :
  0 <= didx -> dicts kvs !! Z.to_nat didx = Some od -> kv_store_get_dict kvs didx = Done od.
Proof. intros. by apply array_get_Done. Qed.

Lemma put_dict_ok kvs didx d od :
  0 <= didx -> dicts kvs !! Z.to_nat didx = Some od ->
  put_dict kvs didx d = Done (set_dicts kvs (<[Z.to_nat didx := Some d]> (dicts kvs))).
Proof.
  intros Hd Hl. unfold put_dict. rewrite array_set_Done; [done|].
  apply lookup_lt_Some in Hl. unfold zlen. lia.
Qed.

Lemma kv_view_put kvs i d :
  kv_view (set_dicts kvs (<[i := Some d]> (dicts kvs))) = <[i := dict_map d]> (kv_view kvs).
Proof. unfold kv_view. simpl. by rewrite list_fmap_insert. Qed.

Lemma shard_sizes_put kvs i d :
  shard_sizes (set_dicts kvs (<[i := Some d]> (dicts kvs)))
  = <[i := Z.of_nat (size (dict_map d))]> (shard_sizes kvs).
Proof. unfold shard_sizes. by rewrite kv_view_put, list_fmap_insert. Qed.

Lemma shard_sizes_set_counts kvs a b c i : shard_sizes (set_counts kvs a b c i) = shard_sizes kvs.
Proof. reflexivity. Qed.

Lemma shard_sizes_lookup kvs i od :
  dicts kvs !! i = Some od ->
  shard_sizes kvs !! i = Some (Z.of_nat (size (dict_view od))).
Proof. intros E. unfold shard_sizes, kv_view. by rewrite !list_lookup_fmap, E. Qed.

Lemma kv_shard_lookup kvs didx od :
  dicts kvs !! Z.to_nat didx = Some od -> kv_shard kvs didx = dict_view od.
Proof. intros E. unfold kv_shard, kv_view. by rewrite list_lookup_fmap, E. Qed.

Lemma count_some_put (ds : list (option kdict)) i d d' :
  ds !! i = Some (Some d) -> count_some (<[i := Some d']> ds) = count_some ds.
Proof.
  intros E. unfold count_some. rewrite list_fmap_insert.
  rewrite (zsum_insert _ _ _ 1); [lia|]. by rewrite list_lookup_fmap, E.
Qed.

Lemma count_some_bound (ds : list (option kdict)) : 0 <= count_some ds <= zlen ds.
Proof.
  induction ds as [|od ds IH]; [done|]. rewrite zlen_cons.
  assert (E : count_some (od :: ds)
    = match od with Some _ => 1 | None => 0 end + count_some ds) by reflexivity.
  destruct od; lia.
Qed.

(** Creating the dictionary of a shard leaves the contents alone. *)
Lemma create_dict_if_needed_ok kvs didx :
  kv_wf kvs -> in_range kvs didx ->
  exists d kvs', kv_store_create_dict_if_needed kvs didx = Done (d, kvs')
    /\ kv_wf kvs' /\ kv_view kvs' = kv_view kvs /\ num_dicts kvs' = num_dicts kvs
    /\ dtype kvs' = dtype kvs /\ non_empty_dicts kvs' = non_empty_dicts kvs
    /\ dicts kvs' !! Z.to_nat didx = Some (Some d) /\ dict_map d = kv_shard kvs didx.
Proof.
  intros Hwf Hr. destruct (in_range_lookup _ _ Hwf Hr) as [od Hod].
  unfold kv_store_create_dict_if_needed.
  rewrite (get_dict_ok kvs didx od) by (done || apply Hr). cbn [mbind outcome_bind].
  destruct od as [d|].
  - exists d, kvs. rewrite (kv_shard_lookup _ _ _ Hod). done.
  - rewrite (put_dict_ok kvs didx dict_new None) by (done || apply Hr). cbn [mbind outcome_bind].
    eexists _, _. split; [reflexivity|].
    assert (Hv : kv_view (set_dicts kvs (<[Z.to_nat didx := Some dict_new]> (dicts kvs))) = kv_view kvs).
    { rewrite kv_view_put, dict_new_map. apply list_insert_id. unfold kv_view.
      by rewrite list_lookup_fmap, Hod. }
    assert (Hs : shard_sizes (set_dicts kvs (<[Z.to_nat didx := Some dict_new]> (dicts kvs)))
                 = shard_sizes kvs) by (unfold shard_sizes; by rewrite Hv).
    destruct Hwf as [Hb Hn Hd Ha Ht Hk Hi]. split.
    + constructor; rewrite ?shard_sizes_set_counts, ?Hs; simpl; try done.
      * by rewrite zlen_insert.
      * unfold count_some. rewrite list_fmap_insert, (zsum_insert _ _ _ 0)
          by (by rewrite list_lookup_fmap, Hod).
        fold (count_some (dicts kvs)). rewrite <- Ha.
        pose proof (count_some_bound (dicts kvs)). rewrite Hd, Hn in *.
        assert (2 ^ num_dicts_bits kvs <= 2 ^ 16) by (apply Z.pow_le_mono_r; lia).
        apply i32_small. lia.
    + split_and!; try done; simpl.
      * rewrite list_lookup_insert_eq; [done|]. by eapply lookup_lt_Some.
      * rewrite dict_new_map. by rewrite (kv_shard_lookup _ _ _ Hod).
Qed.
Definition non_empty_delta (dsize : Z) : Z := if dsize =? 1 then 1 else if dsize =? 0 then -1 else 0.

(** The counters after the size of one shard changed by one. *)
Lemma cumulative_add_ok kvs didx d d' delta :
  kv_wf kvs -> in_range kvs didx -> dicts kvs !! Z.to_nat didx = Some (Some d) ->
  Z.of_nat (size (dict_map d')) = Z.of_nat (size (dict_map d)) + delta ->
  delta = 1 \/ delta = -1 -> zsum (shard_sizes kvs) + delta < 2 ^ 64 ->
  let kvs1 := set_dicts kvs (<[Z.to_nat didx := Some d']> (dicts kvs)) in
  exists kvs2, cumulative_key_count_add kvs1 didx delta = Done kvs2
    /\ kv_wf kvs2 /\ dicts kvs2 = dicts kvs1 /\ num_dicts kvs2 = num_dicts kvs
    /\ dtype kvs2 = dtype kvs
    /\ non_empty_dicts kvs2
       = i32 (non_empty_dicts kvs + non_empty_delta (Z.of_nat (size (dict_map d')))).
Proof.
  intros Hwf Hr Hd Hsz Hdelta Hsum kvs1.
  assert (Hd1 : dicts kvs1 !! Z.to_nat didx = Some (Some d')).
  { apply list_lookup_insert_eq. by eapply lookup_lt_Some. }
  assert (Hs1 : shard_sizes kvs1
     = <[Z.to_nat didx := Z.of_nat (size (dict_map d)) + delta]> (shard_sizes kvs)).
  { unfold kvs1. by rewrite shard_sizes_put, Hsz. }
  pose proof (shard_sizes_lookup kvs _ _ Hd) as Hl. simpl in Hl.
  assert (Hsum1 : zsum (shard_sizes kvs1) = zsum (shard_sizes kvs) + delta).
  { rewrite Hs1, (zsum_insert _ _ _ _ Hl). lia. }
  pose proof (zsum_nonneg _ (shard_sizes_nonneg kvs1)) as Hpos.
  unfold cumulative_key_count_add.
  rewrite (get_dict_ok kvs1 didx _ (proj1 Hr) Hd1). cbn [mbind outcome_bind deref].
  rewrite dict_size_spec. fold (non_empty_delta (Z.of_nat (size (dict_map d')))).
  destruct Hwf as [Hb Hn Hdn Ha Ht Hk Hi].
  assert (Hkc : u64 (key_count kvs1 + delta) = zsum (shard_sizes kvs1)).
  { unfold kvs1 at 1. simpl. rewrite Hk, Hsum1. apply wrap_u_small. lia. }
  assert (Hcs : count_some (dicts kvs1) = allocated_dicts kvs).
  { rewrite Ha. by eapply count_some_put. }
  assert (Hz : zlen (dicts kvs1) = num_dicts kvs) by (unfold kvs1; simpl; by rewrite zlen_insert).
  rewrite Hkc. change (num_dicts (set_counts kvs1 _ _ _ _)) with (num_dicts kvs).
  destruct (num_dicts kvs =? 1) eqn:E1.
  - eexists. split; [reflexivity|]. split; [|done].
    constructor; rewrite ?shard_sizes_set_counts; simpl; try done.
    + by rewrite Hsum1.
    + by rewrite E1.
  - destruct Hi as (t & Hti & Hok). cbn [dict_size_index set_counts kvs1 set_dicts].
    rewrite Hti. cbn [mbind outcome_bind deref].
    assert (Hlen : zlen (shard_sizes kvs) = num_dicts kvs) by (by rewrite zlen_shard_sizes).
    destruct (fenwick_update_ok (shard_sizes kvs) t (Z.to_nat didx)
        (Z.of_nat (size (dict_map d))) delta Hok)
      as (t' & Et & Hok'); [ | apply shard_sizes_nonneg | exact Hl | lia | done | lia | ].
    { rewrite Hlen, Hn. assert (2 ^ num_dicts_bits kvs <= 2 ^ 16) by (apply Z.pow_le_mono_r; lia). lia. }
    rewrite Hlen, Z2Nat.id in Et by apply Hr. rewrite Et. cbn [mbind outcome_bind].
    eexists. split; [reflexivity|]. split; [|done].
    constructor; rewrite ?shard_sizes_set_counts; simpl; try done.
    + by rewrite Hsum1.
    + rewrite E1. exists t'. split; [done|]. by rewrite Hs1.
Qed.

Lemma kv_view_dicts kvs kvs' : dicts kvs' = dicts kvs -> kv_view kvs' = kv_view kvs.
Proof. unfold kv_view. by intros ->. Qed.

(** Adding a key that the shard does not hold. *)
Lemma add_raw_new_ok kvs didx k :
  kv_wf kvs -> in_range kvs didx -> kv_shard kvs didx !! k = None ->
  zsum (shard_sizes kvs) + 1 < 2 ^ 64 ->
  exists e kvs' v0, kv_store_dict_add_raw kvs didx k = Done (Some e, None, kvs')
    /\ kv_wf kvs' /\ num_dicts kvs' = num_dicts kvs /\ dtype kvs' = dtype kvs
    /\ kv_view kvs' = <[Z.to_nat didx := <[k := v0]> (kv_shard kvs didx)]> (kv_view kvs)
    /\ kv_entry_at kvs' didx e k
    /\ non_empty_dicts kvs'
       = i32 (non_empty_dicts kvs + non_empty_delta (Z.of_nat (size (kv_shard kvs didx)) + 1)).
Proof.
  intros Hwf Hr Hk Hsum. unfold kv_store_dict_add_raw.
  destruct (create_dict_if_needed_ok kvs didx Hwf Hr)
    as (d & kvs1 & E & Hwf1 & Hv1 & Hn1 & Ht1 & Hne1 & Hd1 & Hm).
  rewrite E. cbn [mbind outcome_bind].
  destruct (dict_add_raw_new SdsCompare V d k I) as (e & d' & v0 & Ea & Hm' & He).
  { simpl. by rewrite Hm. }
  rewrite Ea. simpl in Hm', He.
  assert (Hr1 : in_range kvs1 didx) by (unfold in_range in *; by rewrite Hn1).
  rewrite (put_dict_ok kvs1 didx d' _ (proj1 Hr) Hd1). cbn [mbind outcome_bind].
  assert (Hsz : size (dict_map d') = S (size (dict_map d))).
  { rewrite Hm'. apply map_size_insert_None. by rewrite Hm. }
  assert (Hss : shard_sizes kvs1 = shard_sizes kvs) by (unfold shard_sizes; by rewrite Hv1).
  destruct (cumulative_add_ok kvs1 didx d d' 1 Hwf1 Hr1 Hd1)
    as (kvs2 & Ec & Hwf2 & Hd2 & Hn2 & Ht2 & Hne2); [lia|by left|by rewrite Hss|].
  rewrite Ec. cbn [mbind outcome_bind]. exists e, kvs2, v0.
  split_and!; try done; try congruence.
  - rewrite (kv_view_dicts _ _ Hd2), kv_view_put, Hv1, Hm', Hm. done.
  - exists d'. split; [|done]. rewrite Hd2. apply list_lookup_insert_eq. by eapply lookup_lt_Some.
  - rewrite Hne2, Hsz, Hne1, Hm. do 3 f_equal. lia.
Qed.

(** Adding a key that is already there changes nothing and gives the entry. *)
Lemma add_raw_existing_ok kvs didx k v :
  kv_wf kvs -> in_range kvs didx -> kv_shard kvs didx !! k = Some v ->
  exists e, kv_store_dict_add_raw kvs didx k = Done (None, Some e, kvs)
    /\ kv_entry_at kvs didx e k.
Proof.
  intros Hwf Hr Hk. destruct (in_range_lookup _ _ Hwf Hr) as [od Hod].
  rewrite (kv_shard_lookup _ _ _ Hod) in Hk. destruct od as [d|]; [|done]. simpl in Hk.
  unfold kv_store_dict_add_raw, kv_store_create_dict_if_needed.
  rewrite (get_dict_ok kvs didx _ (proj1 Hr) Hod). cbn [mbind outcome_bind].
  destruct (dict_add_raw_existing SdsCompare V d k I) as (e & Ea & He); [simpl; eauto|].
  rewrite Ea. rewrite (put_dict_ok kvs didx d _ (proj1 Hr) Hod). cbn [mbind outcome_bind].
  exists e. split; [|by exists d]. do 2 f_equal.
  rewrite list_insert_id by done. by destruct kvs.
Qed.

(** A dictionary with as many keys takes the place of another one. *)
Lemma put_same_size kvs didx d d' :
  kv_wf kvs -> in_range kvs didx -> dicts kvs !! Z.to_nat didx = Some (Some d) ->
  size (dict_map d') = size (dict_map d) ->
  exists kvs', put_dict kvs didx d' = Done kvs'
    /\ kv_wf kvs' /\ num_dicts kvs' = num_dicts kvs /\ dtype kvs' = dtype kvs
    /\ kv_view kvs' = <[Z.to_nat didx := dict_map d']> (kv_view kvs)
    /\ non_empty_dicts kvs' = non_empty_dicts kvs
    /\ dicts kvs' !! Z.to_nat didx = Some (Some d').
Proof.
  intros Hwf Hr Hd Hsz. rewrite (put_dict_ok kvs didx _ _ (proj1 Hr) Hd).
  assert (Hs : shard_sizes (set_dicts kvs (<[Z.to_nat didx := Some d']> (dicts kvs))) = shard_sizes kvs).
  { rewrite shard_sizes_put. apply list_insert_id. rewrite (shard_sizes_lookup kvs _ _ Hd). simpl. by rewrite Hsz. }
  eexists. split; [reflexivity|]. destruct Hwf as [Hb Hn Hdn Ha Ht Hk Hi]. split_and!; try done.
  - constructor; rewrite ?Hs; simpl; try done.
    + by rewrite zlen_insert.
    + rewrite Ha. symmetry. by eapply count_some_put.
  - by rewrite kv_view_put.
  - apply list_lookup_insert_eq. by eapply lookup_lt_Some.
Qed.

Lemma set_val_ok kvs didx e k v :
  kv_wf kvs -> in_range kvs didx -> kv_entry_at kvs didx e k ->
  exists kvs', kv_store_dict_set_val kvs didx e v = Done kvs'
    /\ kv_wf kvs' /\ num_dicts kvs' = num_dicts kvs /\ dtype kvs' = dtype kvs
    /\ kv_view kvs' = <[Z.to_nat didx := <[k := v]> (kv_shard kvs didx)]> (kv_view kvs)
    /\ non_empty_dicts kvs' = non_empty_dicts kvs /\ kv_entry_at kvs' didx e k.
Proof.
  intros Hwf Hr (d & Hd & He). unfold kv_store_dict_set_val.
  rewrite (get_dict_ok kvs didx _ (proj1 Hr) Hd). cbn [mbind outcome_bind deref].
  destruct (dict_set_val_spec SdsCompare V d e k v He) as [Hm He'].
  pose proof (dict_entry_key_in SdsCompare V d e k He) as Hin.
  destruct (put_same_size kvs didx d (dict_set_val d e v) Hwf Hr Hd) as (kvs' & E & ? & ? & ? & Hv & ? & Hd').
  { rewrite Hm. by apply map_size_insert_Some. }
  exists kvs'. split; [done|]. split_and!; try done; [|by eexists].
  by rewrite Hv, Hm, (kv_shard_lookup _ _ _ Hd).
Qed.

(** An equal key in place of the key of an entry changes nothing that can be seen. *)
Lemma set_key_ok kvs didx e k :
  kv_wf kvs -> in_range kvs didx -> kv_entry_at kvs didx e k ->
  exists kvs', kv_store_dict_set_key kvs didx e k = Done (0, kvs')
    /\ kv_wf kvs' /\ num_dicts kvs' = num_dicts kvs /\ dtype kvs' = dtype kvs
    /\ kv_view kvs' = kv_view kvs /\ kv_entry_at kvs' didx e k.
Proof.
  intros Hwf Hr (d & Hd & He). unfold kv_store_dict_set_key.
  rewrite (get_dict_ok kvs didx _ (proj1 Hr) Hd). cbn [mbind outcome_bind deref].
  destruct (dict_set_key_spec SdsCompare V d e k I He) as [Hm He'].
  destruct (put_same_size kvs didx d (dict_set_key d e k) Hwf Hr Hd) as (kvs' & E & ? & ? & ? & Hv & ? & Hd').
  { by rewrite Hm. }
  exists kvs'. rewrite E. split; [done|]. split_and!; try done; [|by eexists].
  rewrite Hv, Hm. apply list_insert_id. unfold kv_view. by rewrite list_lookup_fmap, Hd.
Qed.

Lemma find_ok kvs didx k :
  kv_wf kvs -> in_range kvs didx ->
  exists oe, kv_store_dict_find kvs didx k = Done oe
    /\ match oe with
       | Some e => kv_entry_at kvs didx e k /\ exists v, kv_shard kvs didx !! k = Some v
                   /\ kv_entry_val kvs didx e = Done v
       | None => kv_shard kvs didx !! k = None
       end.
Proof.
  intros Hwf Hr. destruct (in_range_lookup _ _ Hwf Hr) as [od Hod].
  unfold kv_store_dict_find, kv_entry_val. rewrite (kv_shard_lookup _ _ _ Hod).
  rewrite (get_dict_ok kvs didx _ (proj1 Hr) Hod). cbn [mbind outcome_bind].
  destruct od as [d|]; [|by exists None]. cbn [deref mbind outcome_bind].
  exists (dict_find d k). split; [done|]. destruct (dict_find d k) as [e|] eqn:E.
  - pose proof (dict_find_Some SdsCompare _ _ _ _ I E) as He. simpl in He. split; [by exists d|].
    destruct (dict_entry_key_in _ _ _ _ _ He) as [v Hv]. exists v. simpl. split; [done|].
    rewrite (dict_get_entry_val_spec _ _ _ _ _ He), Hv. done.
  - by apply dict_find_None in E.
Qed.

Lemma delete_absent_ok kvs didx k s :
  kv_wf kvs -> in_range kvs didx -> kv_shard kvs didx !! k = None ->
  kv_store_dict_delete_key kvs didx k s = Done (DICT_ERR, kvs, s).
Proof.
  intros Hwf Hr Hk. destruct (in_range_lookup _ _ Hwf Hr) as [od Hod].
  rewrite (kv_shard_lookup _ _ _ Hod) in Hk. unfold kv_store_dict_delete_key.
  rewrite (get_dict_ok kvs didx _ (proj1 Hr) Hod). cbn [mbind outcome_bind].
  destruct od as [d|]; [|done]. rewrite dict_delete_key_absent by done.
  rewrite (put_dict_ok kvs didx d _ (proj1 Hr) Hod). cbn [mbind outcome_bind].
  rewrite list_insert_id by done. pose proof DICT_OK_ERR.
  rewrite (proj2 (Z.eqb_neq _ _)) by congruence. by destruct kvs.
Qed.

(** Deleting a key: the destructor of the store's type runs on the value. *)
Lemma delete_present_ok kvs didx k v s :
  kv_wf kvs -> in_range kvs didx -> kv_shard kvs didx !! k = Some v ->
  exists kvs', kv_store_dict_delete_key kvs didx k s
      = Done (DICT_OK, kvs', run_destructor (dtype kvs) v s)
    /\ kv_wf kvs' /\ num_dicts kvs' = num_dicts kvs /\ dtype kvs' = dtype kvs
    /\ kv_view kvs' = <[Z.to_nat didx := delete k (kv_shard kvs didx)]> (kv_view kvs)
    /\ non_empty_dicts kvs'
       = i32 (non_empty_dicts kvs + non_empty_delta (Z.of_nat (size (kv_shard kvs didx)) - 1)).
Proof.
  intros Hwf Hr Hk. destruct (in_range_lookup _ _ Hwf Hr) as [od Hod].
  pose proof (kv_shard_lookup _ _ _ Hod) as Hsh. rewrite Hsh in Hk.
  destruct od as [d|]; [|done]. simpl in Hk, Hsh. unfold kv_store_dict_delete_key.
  rewrite (get_dict_ok kvs didx _ (proj1 Hr) Hod). cbn [mbind outcome_bind].
  destruct (dict_delete_key_present SdsCompare V St (run_destructor (dtype kvs)) d k v s I Hk)
    as (d' & Ed & Hm).
  rewrite Ed. simpl in Hm.
  rewrite (put_dict_ok kvs didx d' _ (proj1 Hr) Hod). cbn [mbind outcome_bind].
  rewrite Z.eqb_refl.
  assert (Hsz : size (dict_map d) = S (size (dict_map d'))).
  { rewrite Hm. rewrite map_size_delete_Some by eauto.
    assert (size (dict_map d) <> 0%nat); [|lia]. intros E0. apply map_size_empty_inv in E0.
    rewrite E0 in Hk. done. }
  pose proof (wf_total _ Hwf).
  destruct (cumulative_add_ok kvs didx d d' (-1) Hwf Hr Hod)
    as (kvs2 & Ec & Hwf2 & Hd2 & Hn2 & Ht2 & Hne2); [lia|by right|lia|].
  rewrite Ec. cbn [mbind outcome_bind]. exists kvs2. split_and!; try done.
  - rewrite (kv_view_dicts _ _ Hd2), kv_view_put, Hm, Hsh. done.
  - rewrite Hne2, Hsh, Hsz. do 3 f_equal. lia.
Qed.

(** *** Creation *)

Lemma create_dicts_from_ok n i kvs :
  kv_wf kvs -> 0 <= i -> i + Z.of_nat n <= num_dicts kvs ->
  exists kvs', create_dicts_from n i kvs = Done kvs' /\ kv_wf kvs'
    /\ kv_view kvs' = kv_view kvs /\ num_dicts kvs' = num_dicts kvs
    /\ dtype kvs' = dtype kvs /\ non_empty_dicts kvs' = non_empty_dicts kvs.
Proof.
  revert i kvs. induction n as [|n IH]; intros i kvs Hwf Hi Hn; simpl; [by exists kvs|].
  destruct (create_dict_if_needed_ok kvs i Hwf) as (d & k1 & E & Hwf1 & Hv & Hn1 & Ht & Hne & _).
  { split; lia. }
  rewrite E. cbn [mbind outcome_bind].
  destruct (IH (i + 1) k1 Hwf1) as (k2 & E2 & Hwf2 & Hv2 & Hn2 & Ht2 & Hne2); [lia|lia|].
  exists k2. split_and!; congruence.
Qed.

(** Creating dictionaries does not look at the index. *)
Definition with_index kvs (idx : option (list Z)) : kv_store_t V St :=
  set_counts kvs (allocated_dicts kvs) (non_empty_dicts kvs) (key_count kvs) idx.

Lemma create_dicts_from_index n i kvs idx kvs' :
  create_dicts_from n i (with_index kvs idx) = Done kvs' ->
  exists k, create_dicts_from n i kvs = Done k /\ kvs' = with_index k idx.
Proof.
  revert i kvs. induction n as [|n IH]; intros i kvs; simpl; [intros [= <-]; eauto|].
  unfold kv_store_create_dict_if_needed, kv_store_get_dict, put_dict.
  destruct (array_get (dicts kvs) i) as [[d|]|] eqn:E; cbn [dicts with_index set_counts];
    rewrite E; cbn [mbind outcome_bind]; [apply IH| |done].
  destruct (array_set (dicts kvs) i (Some dict_new)) as [ds|]; cbn [mbind outcome_bind]; [|done].
  intros Hc. apply (IH (i + 1) (set_counts (set_dicts kvs ds) (i32 (allocated_dicts kvs + 1))
    (non_empty_dicts kvs) (key_count kvs) (dict_size_index kvs))). exact Hc.
Qed.

Lemma zsum_replicate_0 n : zsum (replicate n 0) = 0.
Proof. induction n as [|n IH]; simpl; [done|]. fold (zsum (replicate n 0)). lia. Qed.

Lemma fenwick_ok_zero n : fenwick_ok (replicate n 0) (replicate (S n) 0).
Proof.
  split; [unfold zlen; rewrite !length_replicate; lia|].
  intros j Hj. unfold zlen in Hj. rewrite length_replicate in Hj.
  rewrite lookup_replicate_2 by lia. unfold range_sum.
  by rewrite !take_replicate, !zsum_replicate_0.
Qed.

(** A store whose shards are all empty. *)
Definition all_empty kvs : Prop := Forall (fun m => m = ∅) (kv_view kvs).

Lemma all_empty_sizes kvs :
  all_empty kvs -> shard_sizes kvs = replicate (length (dicts kvs)) 0.
Proof.
  unfold all_empty, shard_sizes. rewrite <- (length_fmap dict_view). fold (kv_view kvs).
  induction 1 as [|m l -> ? IH]; [done|].
  apply (f_equal2 cons); [by rewrite map_size_empty|exact IH].
Qed.

(** The store right after allocation satisfies the invariant. *)
Lemma raw_store_wf fl type bits n idx :
  0 <= bits <= 16 -> n = 2 ^ bits ->
  (if n =? 1 then True else idx = Some (replicate (Z.to_nat (n + 1)) 0)) ->
  let kvs := mk_kv fl type (replicate (Z.to_nat n) None) n bits 0 0 0 0 0 idx in
  kv_wf (V:=V) (St:=St) kvs /\ all_empty kvs.
Proof.
  intros Hb Hn Hidx kvs. assert (0 < n) by (subst n; apply Z.pow_pos_nonneg; lia).
  assert (He : all_empty kvs).
  { unfold all_empty, kv_view, kvs. simpl. rewrite fmap_replicate. apply Forall_replicate. done. }
  assert (Hs : shard_sizes kvs = replicate (Z.to_nat n) 0).
  { rewrite (all_empty_sizes _ He). unfold kvs. cbn [dicts]. by rewrite length_replicate. }
  split; [|done]. constructor; rewrite ?Hs, ?zsum_replicate_0; simpl; try done; try lia.
  - unfold zlen. rewrite length_replicate. lia.
  - unfold count_some. rewrite fmap_replicate. by rewrite zsum_replicate_0.
  - destruct (n =? 1); [done|]. eexists. split; [exact Hidx|].
    replace (Z.to_nat (n + 1)) with (S (Z.to_nat n)) by lia.
    apply fenwick_ok_zero.
Qed.

Lemma kv_store_create_ok type bits fl :
  0 <= bits <= 16 -> kv_metadata type = true ->
  exists kvs, kv_store_create type bits fl = Done kvs
    /\ kv_wf kvs /\ all_empty kvs /\ num_dicts kvs = 2 ^ bits /\ dtype kvs = type
    /\ non_empty_dicts kvs = 0.
Proof.
  intros Hb Hm. unfold kv_store_create. unfold latte_assert.
  rewrite (proj2 (Z.leb_le _ _)), Hm by lia. cbn [mbind outcome_bind].
  rewrite Z.shiftl_1_l. set (n := 2 ^ bits) in *.
  assert (1 <= n) by (subst n; pose proof (Z.pow_pos_nonneg 2 bits); lia).
  set (idx := if 1 <? n then Some (replicate (Z.to_nat (n + 1)) 0) else None).
  assert (Hidx : if n =? 1 then True else idx = Some (replicate (Z.to_nat (n + 1)) 0)).
  { subst idx. destruct (Z.eqb_spec n 1); [done|]. by rewrite (proj2 (Z.ltb_lt _ _)) by lia. }
  destruct (raw_store_wf fl type bits n idx Hb eq_refl Hidx) as [Hwf0 He0].
  set (kvs0 := mk_kv fl type _ _ bits 0 0 0 0 0 idx) in *.
  destruct (has_flag fl _).
  - eexists. cbn [mbind outcome_bind]. split; [reflexivity|]. done.
  - destruct (create_dicts_from_ok (Z.to_nat n) 0 kvs0 Hwf0) as (k & E & Hwf & Hv & Hn & Ht & Hne);
      [lia|simpl; fold n; lia|].
    destruct (create_dicts_from_index _ _ (mk_kv fl type (replicate (Z.to_nat n) None) n bits 0 0 0 0 0 None)
      idx k E) as (k0 & E0 & ->).
    rewrite E0. cbn [mbind outcome_bind]. eexists. split; [reflexivity|].
    assert (He : all_empty (with_index k0 idx)) by (unfold all_empty; by rewrite Hv).
    pose proof (wf_key_count _ Hwf) as Hkc.
    rewrite (all_empty_sizes _ He), zsum_replicate_0 in Hkc.
    unfold with_index in *. cbn [key_count non_empty_dicts set_counts] in *.
    rewrite Hkc, Hne in Hwf. split_and!; try done.
Qed.
End KvStoreCorrect.

(** ** Sequences of operations *)

(** What the functions of db.c do with a store: add a key with a value
    ([db_add_key_value_internal], [db_set_expire]), replace the value of a key
    ([db_set_value]), delete a key. *)
Inductive kv_op (V : Type) :=
  | KAdd (didx : Z) (k : bytes) (v : V)
  | KReplace (didx : Z) (k : bytes) (v : V)
  | KDelete (didx : Z) (k : bytes).
Arguments KAdd {V} _ _ _.
Arguments KReplace {V} _ _ _.
Arguments KDelete {V} _ _.

Section KvOps.
Context {Dict : DictOps} {DictL : DictLaws}.
Context {V St : Type} `{Inhabited V}.

Implicit Types kvs : kv_store_t V St.

Definition op_shard (op : kv_op V) : Z :=
  match op with KAdd i _ _ => i | KReplace i _ _ => i | KDelete i _ => i end.

Abbreviation ASSERT_FOUND := (AssertFailed "[db_set_value] kv_store dict unfind key").

(** The calls to the store in the order of db.c, and what they return: a key
    that is there already is not added; the value of a key that is not there
    cannot be replaced. *)
Definition run_op kvs (s : St) (op : kv_op V) : outcome (Z * kv_store_t V St * St) :=
  match op with
  | KAdd i k v =>
      '(de, _, kvs) ← kv_store_dict_add_raw kvs i k;
      match de with
      | None => Done (-1, kvs, s)
      | Some de => kvs ← kv_store_dict_set_val kvs i de v; Done (0, kvs, s)
      end
  | KReplace i k v =>
      de ← kv_store_dict_find kvs i k;
      _ ← latte_assert (bool_decide (is_Some de)) "[db_set_value] kv_store dict unfind key";
      de ← deref de;
      kvs ← kv_store_dict_set_val kvs i de v;
      Done (0, kvs, s)
  | KDelete i k => kv_store_dict_delete_key kvs i k s
  end.

Fixpoint run_ops kvs (s : St) (ops : list (kv_op V)) : outcome (list Z * kv_store_t V St * St) :=
  match ops with
  | [] => Done ([], kvs, s)
  | op :: ops =>
      '(r, kvs, s) ← run_op kvs s op;
      '(rs, kvs, s) ← run_ops kvs s ops;
      Done (r :: rs, kvs, s)
  end.

(** The specification: a list of finite maps; the counter [non_empty_dicts],
    which goes up when an addition or a deletion leaves one key in a shard and
    down when it leaves none; and the state of the value destructor [free]. *)
Record kv_spec := mk_kv_spec {
  ks_maps : list (gmap bytes V);
  ks_non_empty : Z;
  ks_state : St
}.

Definition spec_shard (sp : kv_spec) (i : Z) : gmap bytes V := default ∅ (ks_maps sp !! Z.to_nat i).

Definition spec_put (sp : kv_spec) (i : Z) (m : gmap bytes V) (delta : Z) (s : St) : kv_spec :=
  mk_kv_spec (<[Z.to_nat i := m]> (ks_maps sp)) (i32 (ks_non_empty sp + delta)) s.

(** [None]: the assertion of [db_set_value] fails. *)
Definition spec_op (free : V -> St -> St) (sp : kv_spec) (op : kv_op V) : option (Z * kv_spec) :=
  let m := spec_shard sp (op_shard op) in
  match op with
  | KAdd i k v =>
      match m !! k with
      | Some _ => Some (-1, sp)
      | None => Some (0, spec_put sp i (<[k := v]> m) (non_empty_delta (Z.of_nat (size m) + 1)) (ks_state sp))
      end
  | KReplace i k v =>
      match m !! k with
      | Some _ => Some (0, mk_kv_spec (<[Z.to_nat i := <[k := v]> m]> (ks_maps sp)) (ks_non_empty sp) (ks_state sp))
      | None => None
      end
  | KDelete i k =>
      match m !! k with
      | Some v => Some (DICT_OK, spec_put sp i (delete k m) (non_empty_delta (Z.of_nat (size m) - 1)) (free v (ks_state sp)))
      | None => Some (DICT_ERR, sp)
      end
  end.

Fixpoint spec_ops (free : V -> St -> St) (sp : kv_spec) (ops : list (kv_op V)) : option (list Z * kv_spec) :=
  match ops with
  | [] => Some ([], sp)
  | op :: ops =>
      '(r, sp) ← spec_op free sp op;
      '(rs, sp) ← spec_ops free sp ops;
      Some (r :: rs, sp)
  end.

(** What the specification knows of a store. *)
Definition kv_abs kvs (s : St) : kv_spec := mk_kv_spec (kv_view kvs) (non_empty_dicts kvs) s.

Definition total_keys kvs : Z := zsum (shard_sizes kvs).

Lemma kv_shard_view kvs i : kv_shard kvs i = default ∅ (kv_view kvs !! Z.to_nat i).
Proof. reflexivity. Qed.

Lemma view_lookup_shard kvs i :
  kv_wf kvs -> in_range kvs i -> kv_view kvs !! Z.to_nat i = Some (kv_shard kvs i).
Proof.
  intros Hwf Hr. destruct (in_range_lookup _ _ Hwf Hr) as [od Hod].
  rewrite (kv_shard_lookup _ _ _ Hod). unfold kv_view. by rewrite list_lookup_fmap, Hod.
Qed.

Lemma shard_insert kvs kvs' i m :
  kv_wf kvs -> in_range kvs i -> kv_view kvs' = <[Z.to_nat i := m]> (kv_view kvs) ->
  kv_shard kvs' i = m.
Proof.
  intros Hwf Hr E. rewrite kv_shard_view, E, list_lookup_insert_eq; [done|].
  eapply lookup_lt_Some. by apply view_lookup_shard.
Qed.

Lemma total_insert kvs kvs' i m :
  kv_wf kvs -> in_range kvs i -> kv_view kvs' = <[Z.to_nat i := m]> (kv_view kvs) ->
  total_keys kvs' = total_keys kvs + (Z.of_nat (size m) - Z.of_nat (size (kv_shard kvs i))).
Proof.
  intros Hwf Hr E. unfold total_keys, shard_sizes. rewrite E, list_fmap_insert.
  apply zsum_insert. by rewrite list_lookup_fmap, view_lookup_shard.
Qed.

(** What is needed before an operation, and what is left for the next ones. *)
Definition op_pre kvs (n : Z) (op : kv_op V) : Prop := in_range kvs (op_shard op) /\ total_keys kvs + n < 2 ^ 64.

(** One operation: the store goes where the specification goes. *)
Definition op_post kvs (s : St) (op : kv_op V) : Prop :=
  match spec_op (run_destructor (dtype kvs)) (kv_abs kvs s) op with
  | None => run_op kvs s op = Fault ASSERT_FOUND
  | Some (r, sp) => exists kvs' s', run_op kvs s op = Done (r, kvs', s') /\ kv_wf kvs' /\ sp = kv_abs kvs' s'
      /\ num_dicts kvs' = num_dicts kvs /\ dtype kvs' = dtype kvs /\ total_keys kvs' <= total_keys kvs + 1
  end.

Lemma run_add_ok kvs s i k v : kv_wf kvs -> op_pre kvs 1 (KAdd i k v) -> op_post kvs s (KAdd i k v).
Proof.
  intros Hwf [Hr Ht]. unfold op_post, spec_op. simpl op_shard in *. change (spec_shard (kv_abs kvs s) i) with (kv_shard kvs i).
  simpl run_op. destruct (kv_shard kvs i !! k) as [w|] eqn:Ek.
  - destruct (add_raw_existing_ok kvs i k w Hwf Hr Ek) as (e & Ea & _). rewrite Ea. cbn [mbind outcome_bind].
    exists kvs, s. split_and!; try done. lia.
  - destruct (add_raw_new_ok kvs i k Hwf Hr Ek Ht) as (e & k1 & v0 & Ea & Hwf1 & Hn1 & Ht1 & Hv1 & He & Hne1).
    rewrite Ea. cbn [mbind outcome_bind].
    assert (Hr1 : in_range k1 i) by (unfold in_range in *; by rewrite Hn1).
    destruct (set_val_ok k1 i e k v Hwf1 Hr1 He) as (k2 & Es & Hwf2 & Hn2 & Ht2 & Hv2 & Hne2 & _).
    rewrite Es. cbn [mbind outcome_bind]. exists k2, s.
    rewrite (shard_insert _ _ _ _ Hwf Hr Hv1), insert_insert_eq, Hv1, list_insert_insert_eq in Hv2.
    split_and!; try done; [|congruence|congruence|].
    + unfold spec_put, kv_abs. cbn [ks_maps ks_non_empty ks_state]. by rewrite Hv2, Hne2, Hne1.
    + rewrite (total_insert _ _ _ _ Hwf Hr Hv2), map_size_insert_None by done. lia.
Qed.

Lemma run_replace_ok kvs s i k v : kv_wf kvs -> op_pre kvs 1 (KReplace i k v) -> op_post kvs s (KReplace i k v).
Proof.
  intros Hwf [Hr Ht]. unfold op_post, spec_op. simpl op_shard in *. change (spec_shard (kv_abs kvs s) i) with (kv_shard kvs i).
  simpl run_op. destruct (find_ok kvs i k Hwf Hr) as (oe & Ef & He). rewrite Ef. cbn [mbind outcome_bind].
  destruct oe as [e|].
  - destruct He as (He & w & Ek & _). rewrite Ek. cbn [latte_assert mbind outcome_bind deref].
    destruct (set_val_ok kvs i e k v Hwf Hr He) as (kvs' & Es & Hwf' & Hn & Htp & Hv & Hne & _).
    change (bool_decide (is_Some (Some e))) with true. cbn [latte_assert mbind outcome_bind]. rewrite Es. cbn [mbind outcome_bind].
    exists kvs', s. split_and!; try done.
    + unfold kv_abs. cbn [ks_maps ks_non_empty ks_state]. by rewrite Hv, Hne.
    + rewrite (total_insert _ _ _ _ Hwf Hr Hv), map_size_insert_Some by eauto. lia.
  - by rewrite He.
Qed.

Lemma run_delete_ok kvs s i k : kv_wf kvs -> op_pre kvs 1 (KDelete i k) -> op_post kvs s (KDelete i k).
Proof.
  intros Hwf [Hr Ht]. unfold op_post, spec_op. simpl op_shard in *. change (spec_shard (kv_abs kvs s) i) with (kv_shard kvs i).
  simpl run_op. destruct (kv_shard kvs i !! k) as [w|] eqn:Ek.
  - destruct (delete_present_ok kvs i k w s Hwf Hr Ek) as (k1 & Ed & Hwf1 & Hn1 & Ht1 & Hv1 & Hne1).
    rewrite Ed. eexists k1, _. split_and!; try done.
    + unfold spec_put, kv_abs. cbn [ks_maps ks_non_empty ks_state]. by rewrite Hv1, Hne1.
    + rewrite (total_insert _ _ _ _ Hwf Hr Hv1), map_size_delete_Some by eauto. lia.
  - rewrite (delete_absent_ok kvs i k s Hwf Hr Ek). exists kvs, s. split_and!; try done. lia.
Qed.

Lemma run_op_ok kvs s op : kv_wf kvs -> op_pre kvs 1 op -> op_post kvs s op.
Proof. destruct op; [apply run_add_ok|apply run_replace_ok|apply run_delete_ok]. Qed.

(** Any operations, without the words of the theorem below. *)
Lemma run_ops_ok kvs s ops :
  kv_wf kvs -> Forall (fun op => in_range kvs (op_shard op)) ops -> total_keys kvs + zlen ops < 2 ^ 64 ->
  match spec_ops (run_destructor (dtype kvs)) (kv_abs kvs s) ops with
  | None => run_ops kvs s ops = Fault ASSERT_FOUND
  | Some (rs, sp) => exists kvs' s', run_ops kvs s ops = Done (rs, kvs', s') /\ kv_wf kvs' /\ sp = kv_abs kvs' s'
  end.
Proof.
  revert kvs s. induction ops as [|op ops IH]; intros kvs s Hwf Hops Ht; simpl; [by exists kvs, s|].
  inversion Hops as [|? ? Ho Hos]; subst. rewrite zlen_cons in Ht. pose proof (zlen_nonneg ops).
  assert (Hpre : op_pre kvs 1 op) by (split; [done|lia]).
  pose proof (run_op_ok kvs s op Hwf Hpre) as Hop. unfold op_post in Hop.
  destruct (spec_op _ (kv_abs kvs s) op) as [[r sp]|]; cbn [mbind option_bind]; [|by rewrite Hop].
  destruct Hop as (k1 & s1 & E & Hwf1 & -> & Hn & Htp & Ht1). rewrite E. cbn [mbind outcome_bind].
  specialize (IH k1 s1 Hwf1). rewrite Htp in IH.
  assert (Hos1 : Forall (fun op => in_range k1 (op_shard op)) ops).
  { eapply Forall_impl; [exact Hos|]. intros o. unfold in_range. by rewrite Hn. }
  specialize (IH Hos1 ltac:(lia)). destruct (spec_ops _ (kv_abs k1 s1) ops) as [[rs sp]|]; [|by rewrite IH].
  destruct IH as (k2 & s2 & E2 & Hwf2 & ->). rewrite E2. by exists k2, s2.
Qed.

(** C14: any sequence of additions, replacements of values and deletions on a
    well-formed kv_store, made of the calls db.c makes, acts on the shards
    exactly like the same operations on finite maps, with the results of the
    calls: a key that is there is not added (-1), a key that is not there is not
    deleted (DICT_ERR), a deleted value is given to the destructor of the store
    once; replacing the value of a key that is not there fails the assertion of
    [db_set_value], and no other assertion fails, in particular none of the
    cumulative index.  The number of keys, the number of dictionaries and every
    node of the binary indexed tree stay exact; [non_empty_dicts] does not: it
    is the counter of the specification, which counts the operations that leave
    one key in a shard less those that leave none. *)
Theorem kv_store_refines_maps kvs s ops :
  kv_wf kvs -> Forall (fun op => in_range kvs (op_shard op)) ops ->
  total_keys kvs + zlen ops < 2 ^ 64 ->
  match spec_ops (run_destructor (dtype kvs)) (mk_kv_spec (kv_view kvs) (non_empty_dicts kvs) s) ops with
  | None => run_ops kvs s ops = Fault ASSERT_FOUND
  | Some (rs, sp) => exists kvs', run_ops kvs s ops = Done (rs, kvs', ks_state sp) /\ kv_wf kvs'
      /\ kv_view kvs' = ks_maps sp /\ non_empty_dicts kvs' = ks_non_empty sp
  end.
Proof.
  intros Hwf Hops Ht. pose proof (run_ops_ok kvs s ops Hwf Hops Ht) as Hx. fold (kv_abs kvs s).
  destruct (spec_ops _ (kv_abs kvs s) ops) as [[rs sp]|]; [|done]. destruct Hx as (k & s' & E & Hwf' & ->). by exists k.
Qed.

(** Creating a store with at most 16 bits of shards succeeds for both
    allocation modes and gives a well-formed store with empty shards. *)
Lemma kv_store_create_correct (type : dict_func_t V St) (bits fl : Z) :
  0 <= bits <= 16 -> kv_metadata type = true ->
  exists kvs, kv_store_create type bits fl = Done kvs /\ kv_wf kvs
    /\ num_dicts kvs = 2 ^ bits /\ Forall (fun m => m = ∅) (kv_view kvs)
    /\ non_empty_dicts kvs = count_non_empty kvs.
Proof.
  intros Hb Hm. destruct (kv_store_create_ok type bits fl Hb Hm) as (kvs & E & Hwf & He & Hn & _ & Hz).
  exists kvs. split_and!; try done.
  rewrite Hz. unfold count_non_empty. rewrite (all_empty_sizes _ He), fmap_replicate.
  symmetry. apply zsum_replicate_0.
Qed.

Lemma count_non_empty_insert kvs kvs' i m :
  kv_wf kvs -> in_range kvs i -> kv_view kvs' = <[Z.to_nat i := m]> (kv_view kvs) ->
  count_non_empty kvs' = count_non_empty kvs
    + ((if Z.of_nat (size m) =? 0 then 0 else 1)
       - (if Z.of_nat (size (kv_shard kvs i)) =? 0 then 0 else 1)).
Proof.
  intros Hwf Hr E. unfold count_non_empty, shard_sizes. rewrite E, !list_fmap_insert.
  apply zsum_insert. by rewrite !list_lookup_fmap, view_lookup_shard.
Qed.

Lemma count_non_empty_bound kvs : 0 <= count_non_empty kvs <= zlen (dicts kvs).
Proof.
  unfold count_non_empty. rewrite <- zlen_shard_sizes.
  induction (shard_sizes kvs) as [|n l IH]; [done|]. rewrite zlen_cons.
  assert (E : zsum ((fun n => if n =? 0 then 0 else 1) <$> n :: l)
    = (if n =? 0 then 0 else 1) + zsum ((fun n => if n =? 0 then 0 else 1) <$> l)) by reflexivity.
  destruct (n =? 0); lia.
Qed.

(** [non_empty_dicts] counts the non-empty shards when keys are only
    added, but deleting one of two keys of a shard takes the "size is 1, so it
    was 0" branch and increments the counter although no shard changed between
    empty and non-empty. *)
Lemma non_empty_dicts_drifts kvs didx k v s :
  kv_wf kvs -> in_range kvs didx -> non_empty_dicts kvs = count_non_empty kvs ->
  (kv_shard kvs didx !! k = None -> total_keys kvs + 1 < 2 ^ 64 ->
     exists r kvs', kv_store_dict_add_raw kvs didx k = Done (r, kvs')
       /\ non_empty_dicts kvs' = count_non_empty kvs')
  /\ (kv_shard kvs didx !! k = Some v -> size (kv_shard kvs didx) = 2%nat ->
     exists r kvs' s', kv_store_dict_delete_key kvs didx k s = Done (r, kvs', s')
       /\ count_non_empty kvs' = count_non_empty kvs
       /\ non_empty_dicts kvs' = count_non_empty kvs' + 1).
Proof.
  intros Hwf Hr Hne.
  pose proof (count_non_empty_bound kvs) as Hb. rewrite (wf_dicts _ Hwf), (wf_num _ Hwf) in Hb.
  assert (2 ^ num_dicts_bits kvs <= 2 ^ 16) by (apply Z.pow_le_mono_r; [lia|apply (wf_bits _ Hwf)]).
  split.
  - intros Hk Ht.
    destruct (add_raw_new_ok kvs didx k Hwf Hr Hk Ht) as (e & k1 & v0 & E & _ & _ & _ & Hv & _ & Hne1).
    eexists _, k1. split; [done|].
    rewrite (count_non_empty_insert _ _ _ _ Hwf Hr Hv), Hne1, Hne.
    rewrite map_size_insert_None, Nat2Z.inj_succ by done. unfold non_empty_delta, Z.succ.
    repeat case_match; zify_bools; rewrite i32_small; lia.
  - intros Hk Hsz.
    destruct (delete_present_ok kvs didx k v s Hwf Hr Hk) as (k1 & E & _ & _ & _ & Hv & Hne1).
    eexists _, k1, _. split; [done|].
    rewrite (count_non_empty_insert _ _ _ _ Hwf Hr Hv), Hne1, Hne.
    rewrite map_size_delete_Some by eauto. rewrite Hsz.
    change (non_empty_delta _) with 1. rewrite i32_small by lia. simpl. lia.
Qed.
End KvOps.

Arguments mk_kv_spec {V St}.
Arguments kv_spec V St : clear implicits.

(** ** Concrete runs *)

#[local] Existing Instance model_dict.
#[local] Existing Instance model_dict_laws.

Definition ex_type : dict_func_t Z unit := mk_dict_func None true.

(** A store of four shards, allocated on demand. *)
Definition ex_store : kv_store_t Z unit :=
  match kv_store_create ex_type 2 KVSTORE_ALLOCATE_DICTS_ON_DEMAND with
  | Done kvs => kvs
  | Fault _ => mk_kv 0 ex_type [] 0 0 0 0 0 0 0 None
  end.

Lemma ex_store_wf : kv_wf ex_store.
Proof.
  destruct (kv_store_create_ok ex_type 2 KVSTORE_ALLOCATE_DICTS_ON_DEMAND) as (k & E & Hwf & _);
    [lia|done|]. unfold ex_store. by rewrite E.
Qed.

(** Shard 3 gets two keys, and a second value for one of them; the key of shard
    0 goes; a key that is there is not added again. *)
Definition ex_ops : list (kv_op Z) :=
  [KAdd 0 (bs "a") 1; KAdd 3 (bs "b") 2; KAdd 3 (bs "c") 3; KDelete 0 (bs "a"); KReplace 3 (bs "b") 5; KAdd 3 (bs "c") 7].

Lemma ex_ops_spec :
  spec_ops (run_destructor (dtype ex_store)) (mk_kv_spec (kv_view ex_store) (non_empty_dicts ex_store) tt) ex_ops
  = Some ([0; 0; 0; DICT_OK; 0; -1], mk_kv_spec [∅; ∅; ∅; {[bs "b" := 5; bs "c" := 3]}] 1 tt).
Proof. vm_compute. reflexivity. Qed.

Lemma kv_store_refines_maps_witness :
  (exists kvs', run_ops ex_store tt ex_ops = Done ([0; 0; 0; DICT_OK; 0; -1], kvs', tt) /\ kv_wf kvs'
     /\ kv_view kvs' = [∅; ∅; ∅; {[bs "b" := 5; bs "c" := 3]}] /\ non_empty_dicts kvs' = 1)
  /\ run_ops ex_store tt [KReplace 0 (bs "a") 1] = Fault (AssertFailed "[db_set_value] kv_store dict unfind key").
Proof.
  split.
  - pose proof (kv_store_refines_maps ex_store tt ex_ops) as Hx. rewrite ex_ops_spec in Hx. apply Hx.
    + exact ex_store_wf.
    + repeat constructor; vm_compute; intros; congruence.
    + vm_compute. reflexivity.
  - apply (kv_store_refines_maps ex_store tt [KReplace 0 (bs "a") 1]).
    + exact ex_store_wf.
    + repeat constructor; vm_compute; intros; congruence.
    + vm_compute. reflexivity.
Defined.

Lemma kv_store_create_correct_witness :
  exists kvs, kv_store_create ex_type 3 0 = Done kvs /\ num_dicts kvs = 8
    /\ allocated_dicts kvs = 8 /\ non_empty_dicts kvs = count_non_empty kvs.
Proof.
  destruct (kv_store_create_correct ex_type 3 0) as (k & E & _ & Hn & _ & Hz); [lia|done|].
  exists k. split; [exact E|]. split; [exact Hn|]. split; [|exact Hz].
  assert (Ha : match kv_store_create ex_type 3 0 with
               | Done kvs => allocated_dicts kvs | Fault _ => 0 end = 8) by (vm_compute; reflexivity).
  rewrite E in Ha. exact Ha.
Defined.

(** The store with the two keys of shard 3. *)
Definition ex_store2 : kv_store_t Z unit :=
  match run_ops ex_store tt ex_ops with Done (_, kvs, _) => kvs | Fault _ => ex_store end.

Lemma ex_store2_wf : kv_wf ex_store2.
Proof.
  pose proof (run_ops_ok ex_store tt ex_ops ex_store_wf) as Hx. fold (kv_abs ex_store tt) in *.
  assert (Es : spec_ops (run_destructor (dtype ex_store)) (kv_abs ex_store tt) ex_ops
    = Some ([0; 0; 0; DICT_OK; 0; -1], mk_kv_spec [∅; ∅; ∅; {[bs "b" := 5; bs "c" := 3]}] 1 tt)) by exact ex_ops_spec.
  rewrite Es in Hx. destruct Hx as (k & s & E & Hwf & _).
  - repeat constructor; vm_compute; intros; congruence.
  - vm_compute. reflexivity.
  - unfold ex_store2. by rewrite E.
Qed.

Lemma non_empty_dicts_drifts_witness :
  exists r kvs' s', kv_store_dict_delete_key ex_store2 3 (bs "b") tt = Done (r, kvs', s')
    /\ count_non_empty kvs' = 1 /\ non_empty_dicts kvs' = 2.
Proof.
  destruct (proj2 (non_empty_dicts_drifts ex_store2 3 (bs "b") 5 tt ex_store2_wf
    ltac:(vm_compute; intuition congruence) ltac:(by vm_compute)) ltac:(by vm_compute) ltac:(by vm_compute))
    as (r & k & s & E & Hc & Hne).
  exists r, k, s. split; [exact E|].
  assert (Hc1 : count_non_empty k = 1) by (rewrite Hc; by vm_compute).
  split; [exact Hc1|]. rewrite Hne, Hc1. reflexivity.
Defined.
