(* ===== verification/State.v ===== *)
(** * The structures of the server (src/redis/*.h, src/commands/*.h)

    The records of the header files, the state a request handler works on (the
    object store, the server, the client being served, the clock) and the
    state-and-failure monad in which the handlers are written.  A [set_f r v]
    is the C assignment [r.f = v]. *)

From S2P Require Import Prelude LatteC LatteCModel KvStore.

(** Client flags, src/redis/client.h *)
Definition CLIENT_SLAVE : Z := Z.shiftl 1 0.
Definition CLIENT_MASTER : Z := Z.shiftl 1 1.
Definition CLIENT_MONITOR : Z := Z.shiftl 1 2.
Definition CLIENT_LUA : Z := Z.shiftl 1 8.
Definition CLIENT_PUBSUB : Z := Z.shiftl 1 18.

Definition PROTO_REQ_INLINE : Z := 1.
Definition PROTO_REQ_MULTIBULK : Z := 2.
Definition PROTO_INLINE_MAX_SIZE : Z := 1024 * 64.

(** Functions of the modules under src/modules and src/module_demo that are
    registered as command bodies (function pointers of type
    [redis_module_cmd_func]). *)
Inductive redis_module_cmd_func :=
  | set_command_func
  | get_command_func
  | hello_test_func.

(** Function pointers of type [redis_command_proc_func]. *)
Inductive redis_command_proc_func :=
  | quit_proc
  | module_proc
  | ping_proc
  | info_proc
  | expire_proc
  | dispatcher_proc.

#[export] Instance redis_module_cmd_func_eq_dec : EqDecision redis_module_cmd_func.
Proof. solve_decision. Defined.
#[export] Instance redis_command_proc_func_eq_dec : EqDecision redis_command_proc_func.
Proof. solve_decision. Defined.

(** src/redis/module.h (the list members are created empty and never used) *)
Record redis_module_t := mk_module {
  module_name : bytes;
  ver : Z;
  apiver : Z;
  in_call : Z;
  in_hook : Z;
  options : Z
}.

(** src/redis/module.h; [redis_cmd] is the command that points to the proxy *)
Record redis_module_command_proxy_t := mk_proxy {
  cp_module : option redis_module_t;
  cp_func : redis_module_cmd_func
}.

(** src/redis/command.h; for module commands [get_keys_proc] carries the proxy *)
Record redis_command_t := mk_command {
  cmd_name : bytes;
  proc : redis_command_proc_func;
  arity : Z;
  sflags : bytes;
  cmd_flags : Z;
  get_keys_proc : option redis_module_command_proxy_t;
  intention : Z;
  firstkey : Z;
  lastkey : Z;
  keystep : Z;
  microseconds : Z;
  calls : Z;
  rejected_calls : Z;
  failed_calls : Z;
  cmd_id : Z
}.
Definition set_cmd_flags (r : redis_command_t) (v : Z) : redis_command_t :=
  mk_command (cmd_name r) (proc r) (arity r) (sflags r) v (get_keys_proc r) (intention r) (firstkey r) (lastkey r) (keystep r) (microseconds r) (calls r) (rejected_calls r) (failed_calls r) (cmd_id r).
Definition set_cmd_id (r : redis_command_t) (v : Z) : redis_command_t :=
  mk_command (cmd_name r) (proc r) (arity r) (sflags r) (cmd_flags r) (get_keys_proc r) (intention r) (firstkey r) (lastkey r) (keystep r) (microseconds r) (calls r) (rejected_calls r) (failed_calls r) v.

(** src/redis/slowlog.h *)
Record slowlog_entry_t := mk_slowlog_entry {
  se_id : Z;
  se_time : Z;
  all_duration : Z;
  decode_duration : Z;
  encode_duration : Z;
  call_duration : Z;
  se_command : bytes;
  se_client_name : option bytes;
  se_client_ip : bytes;
  se_argv : list loc
}.

(** src/experiment/metric.h *)
Record metric_entry_t := mk_metric_entry {
  last_sample_base : Z;
  last_sample_value : Z;
  idx : Z;
  samples : list Z
}.

#[export] Instance metric_entry_inhabited : Inhabited metric_entry_t := populate (mk_metric_entry 0 0 0 []).

(** src/shared/shared.h *)
Record shared_objects_t := mk_shared {
  sh_crlf : loc;
  sh_ok : loc;
  sh_pong : loc;
  sh_wrongtypeerr : loc;
  sh_mbulkhdr : list loc;
  sh_bulkhdr : list loc
}.

(** Identity of a client (its address). *)
Abbreviation cid := nat.

Section State.
Context {L : LatteC}.

(** src/redis/db.h; the blocking, ready and watched key tables and
    [defrag_later] are created by [init_redis_server_dbs] and never used. *)
Record redis_db_t := mk_db {
  db_id : Z;
  keys : kv_store_t loc heap;
  expires : kv_store_t Z heap;
  avg_ttl : Z;
  expires_cursor : Z
}.
Definition set_keys (r : redis_db_t) (v : kv_store_t loc heap) : redis_db_t :=
  mk_db (db_id r) v (expires r) (avg_ttl r) (expires_cursor r).
Definition set_expires (r : redis_db_t) (v : kv_store_t Z heap) : redis_db_t :=
  mk_db (db_id r) (keys r) v (avg_ttl r) (expires_cursor r).

(** src/redis/slowlog.h *)
Record slowlog_manager_t := mk_slowlog {
  entries : list_t slowlog_entry_t;
  max_len : Z;
  time_limit_us : Z;
  next_id : Z
}.
Definition set_entries (r : slowlog_manager_t) (v : list_t slowlog_entry_t) : slowlog_manager_t :=
  mk_slowlog v (max_len r) (time_limit_us r) (next_id r).
Definition set_max_len (r : slowlog_manager_t) (v : Z) : slowlog_manager_t :=
  mk_slowlog (entries r) v (time_limit_us r) (next_id r).
Definition set_time_limit_us (r : slowlog_manager_t) (v : Z) : slowlog_manager_t :=
  mk_slowlog (entries r) (max_len r) v (next_id r).
Definition set_next_id (r : slowlog_manager_t) (v : Z) : slowlog_manager_t :=
  mk_slowlog (entries r) (max_len r) (time_limit_us r) v.

(** src/experiment/metric.h *)
Record metric_t := mk_metric {
  metrics : dict_t CStringCompare metric_entry_t;
  metric_samples : Z
}.

(** src/commands/command_manager.h *)
Record command_manager_t := mk_cm {
  commands : dict_t SdsCaseCompare redis_command_t;
  commandId : rax_t;
  nextid : Z
}.

(** src/redis/client.h; [argv] is NULL or an allocated array whose cells may
    not be written yet. *)
Record redis_client_t := mk_client {
  client : latte_client_t client_priv_t;
  client_id : cid;
  flag : Z;
  req_type : Z;
  read_reploff : Z;
  argc : Z;
  argv : option (list (option loc));
  cmd : option redis_command_t;
  lastcmd : option redis_command_t;
  argv_len_sum : Z;
  bulk_len : Z;
  multi_bulk_len : Z;
  reply_bytes : Z;
  repl_ack_time : Z;
  dbid : Z;
  current_decode_time : Z;
  current_encode_time : Z;
  current_call_time : Z
}.
Definition set_client (r : redis_client_t) (v : latte_client_t client_priv_t) : redis_client_t :=
  mk_client v (client_id r) (flag r) (req_type r) (read_reploff r) (argc r) (argv r) (cmd r) (lastcmd r) (argv_len_sum r) (bulk_len r) (multi_bulk_len r) (reply_bytes r) (repl_ack_time r) (dbid r) (current_decode_time r) (current_encode_time r) (current_call_time r).
Definition set_flag (r : redis_client_t) (v : Z) : redis_client_t :=
  mk_client (client r) (client_id r) v (req_type r) (read_reploff r) (argc r) (argv r) (cmd r) (lastcmd r) (argv_len_sum r) (bulk_len r) (multi_bulk_len r) (reply_bytes r) (repl_ack_time r) (dbid r) (current_decode_time r) (current_encode_time r) (current_call_time r).
Definition set_req_type (r : redis_client_t) (v : Z) : redis_client_t :=
  mk_client (client r) (client_id r) (flag r) v (read_reploff r) (argc r) (argv r) (cmd r) (lastcmd r) (argv_len_sum r) (bulk_len r) (multi_bulk_len r) (reply_bytes r) (repl_ack_time r) (dbid r) (current_decode_time r) (current_encode_time r) (current_call_time r).
Definition set_read_reploff (r : redis_client_t) (v : Z) : redis_client_t :=
  mk_client (client r) (client_id r) (flag r) (req_type r) v (argc r) (argv r) (cmd r) (lastcmd r) (argv_len_sum r) (bulk_len r) (multi_bulk_len r) (reply_bytes r) (repl_ack_time r) (dbid r) (current_decode_time r) (current_encode_time r) (current_call_time r).
Definition set_argc (r : redis_client_t) (v : Z) : redis_client_t :=
  mk_client (client r) (client_id r) (flag r) (req_type r) (read_reploff r) v (argv r) (cmd r) (lastcmd r) (argv_len_sum r) (bulk_len r) (multi_bulk_len r) (reply_bytes r) (repl_ack_time r) (dbid r) (current_decode_time r) (current_encode_time r) (current_call_time r).
Definition set_argv (r : redis_client_t) (v : option (list (option loc))) : redis_client_t :=
  mk_client (client r) (client_id r) (flag r) (req_type r) (read_reploff r) (argc r) v (cmd r) (lastcmd r) (argv_len_sum r) (bulk_len r) (multi_bulk_len r) (reply_bytes r) (repl_ack_time r) (dbid r) (current_decode_time r) (current_encode_time r) (current_call_time r).
Definition set_cmd (r : redis_client_t) (v : option redis_command_t) : redis_client_t :=
  mk_client (client r) (client_id r) (flag r) (req_type r) (read_reploff r) (argc r) (argv r) v (lastcmd r) (argv_len_sum r) (bulk_len r) (multi_bulk_len r) (reply_bytes r) (repl_ack_time r) (dbid r) (current_decode_time r) (current_encode_time r) (current_call_time r).
Definition set_lastcmd (r : redis_client_t) (v : option redis_command_t) : redis_client_t :=
  mk_client (client r) (client_id r) (flag r) (req_type r) (read_reploff r) (argc r) (argv r) (cmd r) v (argv_len_sum r) (bulk_len r) (multi_bulk_len r) (reply_bytes r) (repl_ack_time r) (dbid r) (current_decode_time r) (current_encode_time r) (current_call_time r).
Definition set_argv_len_sum (r : redis_client_t) (v : Z) : redis_client_t :=
  mk_client (client r) (client_id r) (flag r) (req_type r) (read_reploff r) (argc r) (argv r) (cmd r) (lastcmd r) v (bulk_len r) (multi_bulk_len r) (reply_bytes r) (repl_ack_time r) (dbid r) (current_decode_time r) (current_encode_time r) (current_call_time r).
Definition set_bulk_len (r : redis_client_t) (v : Z) : redis_client_t :=
  mk_client (client r) (client_id r) (flag r) (req_type r) (read_reploff r) (argc r) (argv r) (cmd r) (lastcmd r) (argv_len_sum r) v (multi_bulk_len r) (reply_bytes r) (repl_ack_time r) (dbid r) (current_decode_time r) (current_encode_time r) (current_call_time r).
Definition set_multi_bulk_len (r : redis_client_t) (v : Z) : redis_client_t :=
  mk_client (client r) (client_id r) (flag r) (req_type r) (read_reploff r) (argc r) (argv r) (cmd r) (lastcmd r) (argv_len_sum r) (bulk_len r) v (reply_bytes r) (repl_ack_time r) (dbid r) (current_decode_time r) (current_encode_time r) (current_call_time r).
Definition set_reply_bytes (r : redis_client_t) (v : Z) : redis_client_t :=
  mk_client (client r) (client_id r) (flag r) (req_type r) (read_reploff r) (argc r) (argv r) (cmd r) (lastcmd r) (argv_len_sum r) (bulk_len r) (multi_bulk_len r) v (repl_ack_time r) (dbid r) (current_decode_time r) (current_encode_time r) (current_call_time r).
Definition set_repl_ack_time (r : redis_client_t) (v : Z) : redis_client_t :=
  mk_client (client r) (client_id r) (flag r) (req_type r) (read_reploff r) (argc r) (argv r) (cmd r) (lastcmd r) (argv_len_sum r) (bulk_len r) (multi_bulk_len r) (reply_bytes r) v (dbid r) (current_decode_time r) (current_encode_time r) (current_call_time r).
Definition set_dbid (r : redis_client_t) (v : Z) : redis_client_t :=
  mk_client (client r) (client_id r) (flag r) (req_type r) (read_reploff r) (argc r) (argv r) (cmd r) (lastcmd r) (argv_len_sum r) (bulk_len r) (multi_bulk_len r) (reply_bytes r) (repl_ack_time r) v (current_decode_time r) (current_encode_time r) (current_call_time r).

(** Members of the embedded [latte_client_t]. *)
Definition set_querybuf (r : latte_client_t client_priv_t) (v : bytes) : latte_client_t client_priv_t :=
  mk_latte_client v (qb_pos r) (cflags r) (reply r) (conn r) (start_time r) (end_time r) (client_priv r).
Definition set_qb_pos (r : latte_client_t client_priv_t) (v : Z) : latte_client_t client_priv_t :=
  mk_latte_client (querybuf r) v (cflags r) (reply r) (conn r) (start_time r) (end_time r) (client_priv r).
Definition set_cflags (r : latte_client_t client_priv_t) (v : Z) : latte_client_t client_priv_t :=
  mk_latte_client (querybuf r) (qb_pos r) v (reply r) (conn r) (start_time r) (end_time r) (client_priv r).
Definition set_reply (r : latte_client_t client_priv_t) (v : list_t (option client_reply_block_t)) : latte_client_t client_priv_t :=
  mk_latte_client (querybuf r) (qb_pos r) (cflags r) v (conn r) (start_time r) (end_time r) (client_priv r).

(** src/redis/server.h, the members used after start-up *)
Record redis_server_t := mk_server {
  command_manager : command_manager_t;
  clients_to_close : list_t cid;
  unixtime : Z;
  hz : Z;
  current_client : option cid;
  modules : dict_t SdsCaseCompare redis_module_t;
  proto_max_bulk_len : Z;
  maxmemory_policy : Z;
  lruclock : Z;
  dbs : list redis_db_t;
  db_num : Z;
  slowlog_manager : slowlog_manager_t;
  metric : metric_t;
  metric_stat_numcommands : Z
}.
Definition set_command_manager (r : redis_server_t) (v : command_manager_t) : redis_server_t :=
  mk_server v (clients_to_close r) (unixtime r) (hz r) (current_client r) (modules r) (proto_max_bulk_len r) (maxmemory_policy r) (lruclock r) (dbs r) (db_num r) (slowlog_manager r) (metric r) (metric_stat_numcommands r).
Definition set_clients_to_close (r : redis_server_t) (v : list_t cid) : redis_server_t :=
  mk_server (command_manager r) v (unixtime r) (hz r) (current_client r) (modules r) (proto_max_bulk_len r) (maxmemory_policy r) (lruclock r) (dbs r) (db_num r) (slowlog_manager r) (metric r) (metric_stat_numcommands r).
Definition set_unixtime (r : redis_server_t) (v : Z) : redis_server_t :=
  mk_server (command_manager r) (clients_to_close r) v (hz r) (current_client r) (modules r) (proto_max_bulk_len r) (maxmemory_policy r) (lruclock r) (dbs r) (db_num r) (slowlog_manager r) (metric r) (metric_stat_numcommands r).
Definition set_current_client (r : redis_server_t) (v : option cid) : redis_server_t :=
  mk_server (command_manager r) (clients_to_close r) (unixtime r) (hz r) v (modules r) (proto_max_bulk_len r) (maxmemory_policy r) (lruclock r) (dbs r) (db_num r) (slowlog_manager r) (metric r) (metric_stat_numcommands r).
Definition set_modules (r : redis_server_t) (v : dict_t SdsCaseCompare redis_module_t) : redis_server_t :=
  mk_server (command_manager r) (clients_to_close r) (unixtime r) (hz r) (current_client r) v (proto_max_bulk_len r) (maxmemory_policy r) (lruclock r) (dbs r) (db_num r) (slowlog_manager r) (metric r) (metric_stat_numcommands r).
Definition set_dbs (r : redis_server_t) (v : list redis_db_t) : redis_server_t :=
  mk_server (command_manager r) (clients_to_close r) (unixtime r) (hz r) (current_client r) (modules r) (proto_max_bulk_len r) (maxmemory_policy r) (lruclock r) v (db_num r) (slowlog_manager r) (metric r) (metric_stat_numcommands r).
Definition set_slowlog_manager (r : redis_server_t) (v : slowlog_manager_t) : redis_server_t :=
  mk_server (command_manager r) (clients_to_close r) (unixtime r) (hz r) (current_client r) (modules r) (proto_max_bulk_len r) (maxmemory_policy r) (lruclock r) (dbs r) (db_num r) v (metric r) (metric_stat_numcommands r).
Definition set_metric (r : redis_server_t) (v : metric_t) : redis_server_t :=
  mk_server (command_manager r) (clients_to_close r) (unixtime r) (hz r) (current_client r) (modules r) (proto_max_bulk_len r) (maxmemory_policy r) (lruclock r) (dbs r) (db_num r) (slowlog_manager r) v (metric_stat_numcommands r).
Definition set_metric_stat_numcommands (r : redis_server_t) (v : Z) : redis_server_t :=
  mk_server (command_manager r) (clients_to_close r) (unixtime r) (hz r) (current_client r) (modules r) (proto_max_bulk_len r) (maxmemory_policy r) (lruclock r) (dbs r) (db_num r) (slowlog_manager r) (metric r) v.

(** What a handler runs on: the object store, the shared reply objects, the
    server, the client whose request is processed, the number of clock readings
    so far. *)
Record world := mk_world {
  w_heap : heap;
  w_shared : shared_objects_t;
  w_server : redis_server_t;
  w_client : redis_client_t;
  w_ticks : nat
}.
Definition set_w_heap (r : world) (v : heap) : world :=
  mk_world v (w_shared r) (w_server r) (w_client r) (w_ticks r).
Definition set_w_server (r : world) (v : redis_server_t) : world :=
  mk_world (w_heap r) (w_shared r) v (w_client r) (w_ticks r).
Definition set_w_client (r : world) (v : redis_client_t) : world :=
  mk_world (w_heap r) (w_shared r) (w_server r) v (w_ticks r).
Definition set_w_ticks (r : world) (v : nat) : world :=
  mk_world (w_heap r) (w_shared r) (w_server r) (w_client r) v.

(** ** The handler monad *)
Definition M (A : Type) : Type := world -> outcome (A * world).

#[global] Instance M_ret : MRet M := fun A a w => Done (a, w).
#[global] Instance M_bind : MBind M := fun A B f m w =>
  match m w with
  | Done (a, w') => f a w'
  | Fault e => Fault e
  end.

Definition gets {A} (f : world -> A) : M A := fun w => Done (f w, w).
Definition modify (f : world -> world) : M unit := fun w => Done (tt, f w).
Definition lift {A} (o : outcome A) : M A := fun w =>
  match o with Done a => Done (a, w) | Fault e => Fault e end.
Definition fail {A} (e : fault) : M A := fun _ => Fault e.

Definition get_client : M redis_client_t := gets w_client.
Definition get_server : M redis_server_t := gets w_server.
Definition put_client (c : redis_client_t) : M unit := modify (fun w => set_w_client w c).
Definition put_server (s : redis_server_t) : M unit := modify (fun w => set_w_server w s).
Definition mod_client (f : redis_client_t -> redis_client_t) : M unit :=
  modify (fun w => set_w_client w (f (w_client w))).
Definition mod_latte_client (f : latte_client_t client_priv_t -> latte_client_t client_priv_t) : M unit :=
  mod_client (fun c => set_client c (f (client c))).
Definition mod_heap (f : heap -> heap) : M unit := modify (fun w => set_w_heap w (f (w_heap w))).

(** [mstime()], [ustime()]: each call is a new reading of the clock. *)
Definition read_mstime : M Z := fun w =>
  Done (mstime (w_ticks w), set_w_ticks w (S (w_ticks w))).
Definition read_ustime : M Z := fun w =>
  Done (ustime (w_ticks w), set_w_ticks w (S (w_ticks w))).

(** [*o] for a pointer to an object. *)
Definition read_obj (l : loc) : M latte_object_t := fun w =>
  match w_heap w !! l with Some o => Done (o, w) | None => Fault NullDeref end.

(** [c->argv[i]] *)
Definition argv_at (c : redis_client_t) (i : Z) : outcome loc :=
  a ← deref (argv c);
  cell ← array_get a i;
  match cell with Some l => Done l | None => Fault UninitRead end.

(** [server->dbs + c->dbid] *)
Definition current_db : M redis_db_t := fun w =>
  match array_get (dbs (w_server w)) (dbid (w_client w)) with
  | Done db => Done (db, w)
  | Fault e => Fault e
  end.

Definition put_current_db (db : redis_db_t) : M unit := fun w =>
  match array_set (dbs (w_server w)) (dbid (w_client w)) db with
  | Done l => Done (tt, set_w_server w (set_dbs (w_server w) l))
  | Fault e => Fault e
  end.

(** The bytes behind [o->ptr] of a string object. *)
Definition ptr_bytes (o : latte_object_t) : outcome bytes :=
  match ptr o with PSds s => Done s | _ => Fault UninitRead end.

End State.

(** Run a monadic block of a goal. *)
Ltac run_M :=
  unfold get_client, get_server, mod_latte_client, mod_client, put_client, put_server, mod_heap,
    gets, modify, lift, mret, mbind, M_ret, M_bind, outcome_ret in *; cbn beta iota.

(** ** Stepping through a handler *)
Section Stepping.
Context {L : LatteC}.

Lemma bind_Done {A B} (m : M A) (k : A -> M B) (w w' : world) (a : A) :
  m w = Done (a, w') -> (x ← m; k x) w = k a w'.
Proof. unfold mbind, M_bind. by intros ->. Qed.

Lemma bind_Fault {A B} (m : M A) (k : A -> M B) (w : world) (e : fault) :
  m w = Fault e -> (x ← m; k x) w = Fault e.
Proof. unfold mbind, M_bind. by intros ->. Qed.

Lemma bind_get_client {B} (k : redis_client_t -> M B) (w : world) :
  (c ← get_client; k c) w = k (w_client w) w.
Proof. reflexivity. Qed.

Lemma bind_get_server {B} (k : redis_server_t -> M B) (w : world) :
  (s ← get_server; k s) w = k (w_server w) w.
Proof. reflexivity. Qed.

Lemma bind_gets {A B} (f : world -> A) (k : A -> M B) (w : world) :
  (x ← gets f; k x) w = k (f w) w.
Proof. reflexivity. Qed.

Lemma bind_ret {A B} (a : A) (k : A -> M B) (w : world) : (x ← mret a; k x) w = k a w.
Proof. reflexivity. Qed.

Lemma bind_lift {A B} (o : outcome A) (k : A -> M B) (w : world) (a : A) :
  o = Done a -> (x ← lift o; k x) w = k a w.
Proof. by intros ->. Qed.

Lemma bind_put_client {B} (c : redis_client_t) (k : unit -> M B) (w : world) :
  (x ← put_client c; k x) w = k tt (set_w_client w c).
Proof. reflexivity. Qed.

Lemma bind_mod_client {B} (f : redis_client_t -> redis_client_t) (k : unit -> M B) (w : world) :
  (x ← mod_client f; k x) w = k tt (set_w_client w (f (w_client w))).
Proof. reflexivity. Qed.

Lemma bind_mod_latte_client {B} (f : latte_client_t client_priv_t -> latte_client_t client_priv_t)
    (k : unit -> M B) (w : world) :
  (x ← mod_latte_client f; k x) w
  = k tt (set_w_client w (set_client (w_client w) (f (client (w_client w))))).
Proof. reflexivity. Qed.

Lemma bind_put_server {B} (s : redis_server_t) (k : unit -> M B) (w : world) :
  (x ← put_server s; k x) w = k tt (set_w_server w s).
Proof. reflexivity. Qed.

Lemma bind_mod_heap {B} (f : heap -> heap) (k : unit -> M B) (w : world) :
  (x ← mod_heap f; k x) w = k tt (set_w_heap w (f (w_heap w))).
Proof. reflexivity. Qed.

Lemma bind_read_obj {B} (l : loc) (o : latte_object_t) (k : latte_object_t -> M B) (w : world) :
  w_heap w !! l = Some o -> (x ← read_obj l; k x) w = k o w.
Proof. unfold mbind, M_bind, read_obj. by intros ->. Qed.

End Stepping.

(** Run the reads and writes of the state at the head of a handler. *)
Ltac mstep :=
  repeat first
    [ rewrite bind_get_client | rewrite bind_get_server | rewrite bind_gets | rewrite bind_ret
    | rewrite bind_put_client | rewrite bind_mod_client | rewrite bind_mod_latte_client
    | rewrite bind_put_server | rewrite bind_mod_heap ].
