(* ===== verification/Db.v ===== *)
(** * Databases: values, expiry and the LRU clock (src/redis/db.c) *)

From S2P Require Import Prelude LatteC LatteCModel KvStore State.

Section Db.
Context {L : LatteC}.

(** ** Operations *)

Definition get_kv_store_index_for_key (key : bytes) : Z := 0.

(** Value destructor of the keyspace. *)
Definition dict_object_destructor (val : loc) (h : heap) : heap :=
  latte_object_decr_ref_count val h.

Definition kv_store_keys_dict_type : dict_func_t loc heap :=
  mk_dict_func (Some dict_object_destructor) true.

(** Keys are duplicated on insertion, the value is the time itself. *)
Definition kv_store_expires_dict_type : dict_func_t Z heap := mk_dict_func None true.

Definition LRU_CLOCK_RESOLUTION : Z := 1000.
Definition LFU_INIT_VAL : Z := 5.
Definition MAXMEMORY_FLAG_LFU : Z := Z.shiftl 1 1.

Definition lfu_get_time_in_minutes (server : redis_server_t) : Z :=
  Z.land (Z.quot (unixtime server) 60) 65535.

(** [now] is the value the call of [mstime()] returns. *)
Definition get_lru_clock (now : Z) : Z :=
  u32 (Z.land (Z.quot now LRU_CLOCK_RESOLUTION) LRU_CLOCK_MAX).

Definition lru_clock (server : redis_server_t) (now : Z) : outcome Z :=
  if hz server =? 0 then Fault DivByZero
  else if Z.quot 1000 (hz server) <=? LRU_CLOCK_RESOLUTION then Done (lruclock server)
  else Done (get_lru_clock now).

Definition init_object_lru_or_lfu (server : redis_server_t) (now : Z) (o : loc) (h : heap)
    : outcome heap :=
  obj ← deref (h !! o);
  if refcount obj =? OBJ_SHARED_REFCOUNT then Done h
  else if has_flag (maxmemory_policy server) MAXMEMORY_FLAG_LFU then
    Done (<[o := set_lru obj (Z.lor (Z.shiftl (lfu_get_time_in_minutes server) 8) LFU_INIT_VAL)]> h)
  else
    clk ← lru_clock server now;
    Done (<[o := set_lru obj clk]> h).

(** [de] may be NULL, then the entry is looked up. *)
Definition db_set_value (db : redis_db_t) (key val : loc) (overwrite : bool)
    (de : option dict_entry_t) (h : heap) : outcome (Z * redis_db_t * heap) :=
  kobj ← deref (h !! key);
  _ ← latte_assert (bool_decide (is_Some (get_sds_from_object kobj))) "key is not a string";
  key_ptr ← deref (get_sds_from_object kobj);
  let dict_index := get_kv_store_index_for_key key_ptr in
  de ← (match de with
        | Some e => Done (Some e)
        | None => kv_store_dict_find (keys db) dict_index key_ptr
        end);
  _ ← latte_assert (bool_decide (is_Some de)) "[db_set_value] kv_store dict unfind key";
  de ← deref de;
  old ← kv_entry_val (keys db) dict_index de;
  oldobj ← deref (h !! old);
  valobj ← deref (h !! val);
  let h := <[val := set_lru valobj (lru oldobj)]> h in
  _ ← latte_assert (negb overwrite) "overwrite is not supported";
  ks ← kv_store_dict_set_val (keys db) dict_index de val;
  let h := latte_object_decr_ref_count old h in
  Done (0, set_keys db ks, h).

Definition db_add_key_value_internal (server : redis_server_t) (now : Z) (db : redis_db_t)
    (key val : loc) (update_if_existing : Z) (h : heap) : outcome (Z * redis_db_t * heap) :=
  kobj ← deref (h !! key);
  _ ← latte_assert (bool_decide (is_Some (get_sds_from_object kobj))) "key is not a string";
  key_ptr ← deref (get_sds_from_object kobj);
  let dict_index := get_kv_store_index_for_key key_ptr in
  raw ← ptr_bytes kobj;
  let new_key := sds_new raw in
  '(de, existing, ks) ← kv_store_dict_add_raw (keys db) dict_index new_key;
  let db := set_keys db ks in
  match existing with
  | Some e =>
      '(_, db, h) ← db_set_value db key val true (Some e) h;
      Done (0, db, h)
  | None =>
      match de with
      | None => Done (-1, db, h)
      | Some e =>
          h ← init_object_lru_or_lfu server now val h;
          ks ← kv_store_dict_set_val (keys db) dict_index e val;
          Done (0, set_keys db ks, h)
      end
  end.

Definition db_add_key_value (server : redis_server_t) (now : Z) (db : redis_db_t)
    (key value : loc) (h : heap) : outcome (Z * redis_db_t * heap) :=
  db_add_key_value_internal server now db key value 0 h.

(** *** Expire helpers: times are stored as [(void* )(uintptr_t)]. *)

Definition db_get_expire (db : redis_db_t) (key : bytes) : outcome Z :=
  let didx := get_kv_store_index_for_key key in
  de ← kv_store_dict_find (expires db) didx key;
  match de with
  | None => Done 0
  | Some e => v ← kv_entry_val (expires db) didx e; Done (i64 v)
  end.

Definition db_set_expire (db : redis_db_t) (key : bytes) (when_ms : Z)
    : outcome (Z * redis_db_t) :=
  let didx := get_kv_store_index_for_key key in
  '(de, _, es) ← kv_store_dict_add_raw (expires db) didx key;
  match de with
  | None => Done (-1, set_expires db es)
  | Some e =>
      es ← kv_store_dict_set_val es didx e (u64 when_ms);
      Done (0, set_expires db es)
  end.

Definition db_remove_expire (db : redis_db_t) (key : bytes) (h : heap)
    : outcome (redis_db_t * heap) :=
  let didx := get_kv_store_index_for_key key in
  '(_, es, h) ← kv_store_dict_delete_key (expires db) didx key h;
  Done (set_expires db es, h).

Definition db_delete_key (db : redis_db_t) (key : bytes) (h : heap)
    : outcome (redis_db_t * heap) :=
  let didx := get_kv_store_index_for_key key in
  '(_, es, h) ← kv_store_dict_delete_key (expires db) didx key h;
  '(_, ks, h) ← kv_store_dict_delete_key (keys db) didx key h;
  Done (set_keys (set_expires db es) ks, h).

(** [now] is the value the call of [mstime()] returns. *)
Definition expire_if_needed (now : Z) (db : redis_db_t) (key : bytes) (h : heap)
    : outcome (Z * redis_db_t * heap) :=
  let didx := get_kv_store_index_for_key key in
  de ← kv_store_dict_find (expires db) didx key;
  match de with
  | None => Done (0, db, h)
  | Some e =>
      v ← kv_entry_val (expires db) didx e;
      let when_ms := i64 v in
      if now <? when_ms then Done (0, db, h)
      else
        '(db, h) ← db_delete_key db key h;
        Done (1, db, h)
  end.

(** [init_redis_server_dbs]: one shard per database, created on demand. *)
Definition new_db (i : Z) : outcome redis_db_t :=
  let slot_count_bits := 0 in
  let flags := KVSTORE_ALLOCATE_DICTS_ON_DEMAND in
  ks ← kv_store_create kv_store_keys_dict_type slot_count_bits flags;
  es ← kv_store_create kv_store_expires_dict_type slot_count_bits flags;
  Done (mk_db i ks es 0 0).

Fixpoint new_dbs (n : nat) (i : Z) : outcome (list redis_db_t) :=
  match n with
  | O => Done []
  | S n => db ← new_db i; rest ← new_dbs n (i + 1); Done (db :: rest)
  end.

Definition init_redis_server_dbs (server : redis_server_t) : outcome redis_server_t :=
  l ← new_dbs (Z.to_nat (db_num server)) 0;
  Done (set_dbs server l).

(** ** Specification: a database is two finite maps *)

Definition keys_map (db : redis_db_t) : gmap bytes loc := kv_shard (keys db) 0.
Definition expires_map (db : redis_db_t) : gmap bytes Z := kv_shard (expires db) 0.

Record db_wf (db : redis_db_t) : Prop := {
  db_keys_wf : kv_wf (keys db);
  db_expires_wf : kv_wf (expires db);
  db_keys_type : dtype (keys db) = kv_store_keys_dict_type;
  db_expires_type : dtype (expires db) = kv_store_expires_dict_type;
  (** every key with a time to live exists *)
  db_expires_dom : dom (expires_map db) ⊆ dom (keys_map db);
  (** times are stored as 64-bit words *)
  db_expires_range : map_Forall (fun _ v => 0 <= v < 2 ^ 64) (expires_map db)
}.

(** [db'] has at most [n] keys and [n] times more than [db]. *)
Definition grows_by (n : Z) (db db' : redis_db_t) : Prop :=
  total_keys (keys db') <= total_keys (keys db) + n
  /\ total_keys (expires db') <= total_keys (expires db) + n.

(** Room for one more key in both tables. *)
Definition db_room (db : redis_db_t) : Prop :=
  total_keys (keys db) + 1 < 2 ^ 64 /\ total_keys (expires db) + 1 < 2 ^ 64.

End Db.

(** ** Lemmas *)
Section DbCorrect.
Context {L : LatteC} {LL : LatteCLaws}.

Implicit Types db : redis_db_t.

Lemma kv_in_range_0 {V St : Type} (kvs : kv_store_t V St) : kv_wf kvs -> in_range kvs 0.
Proof.
  intros Hwf. unfold in_range. rewrite (wf_num _ Hwf).
  pose proof (Z.pow_pos_nonneg 2 (num_dicts_bits kvs)). pose proof (wf_bits _ Hwf). lia.
Qed.

Hint Resolve kv_in_range_0 db_keys_wf db_expires_wf : latte.

Lemma set_expires_id db : set_expires db (expires db) = db.
Proof. by destruct db. Qed.

Lemma set_keys_id db : set_keys db (keys db) = db.
Proof. by destruct db. Qed.

Lemma u64_range z : 0 <= u64 z < 2 ^ 64.
Proof. by apply wrap_u_range. Qed.

Lemma i64_u64 z : - 2 ^ 63 <= z < 2 ^ 63 -> i64 (u64 z) = z.
Proof.
  intros Hz. unfold wrap_s, wrap_u. rewrite Z.mod_mod by lia.
  fold (wrap_s 64 z). apply wrap_s_small; [lia|]. change (64 - 1) with 63. lia.
Qed.

(** Adding an expiry time to a key that has none. *)
Lemma db_set_expire_new db k w :
  db_wf db -> db_room db -> k ∈ dom (keys_map db) -> expires_map db !! k = None ->
  exists db', db_set_expire db k w = Done (0, db') /\ db_wf db' /\ keys db' = keys db
    /\ expires_map db' = <[k := u64 w]> (expires_map db) /\ grows_by 1 db db'.
Proof.
  intros Hwf [_ Hroom] Hdom Hk. pose proof (kv_in_range_0 _ (db_expires_wf _ Hwf)) as Hr.
  unfold db_set_expire, get_kv_store_index_for_key.
  destruct (add_raw_new_ok (expires db) 0 k (db_expires_wf _ Hwf) Hr Hk Hroom)
    as (e & k1 & v0 & E & Hwf1 & Hn1 & Ht1 & Hv1 & He1 & _).
  rewrite E. cbn [mbind outcome_bind].
  assert (Hr1 : in_range k1 0) by (by apply kv_in_range_0).
  destruct (set_val_ok k1 0 e k (u64 w) Hwf1 Hr1 He1) as (k2 & E2 & Hwf2 & Hn2 & Ht2 & Hv2 & _ & _).
  rewrite E2. cbn [mbind outcome_bind]. eexists. split; [reflexivity|].
  rewrite (shard_insert _ _ _ _ (db_expires_wf _ Hwf) Hr Hv1), insert_insert_eq in Hv2.
  pose proof (shard_insert _ _ _ _ Hwf1 Hr1 Hv2) as Hs.
  assert (Hm : expires_map (set_expires db k2) = <[k := u64 w]> (expires_map db)) by exact Hs.
  split_and!; try done.
  2:{ split; simpl; [lia|]. rewrite (total_insert _ _ _ _ Hwf1 Hr1 Hv2).
      rewrite (shard_insert _ _ _ _ (db_expires_wf _ Hwf) Hr Hv1), (total_insert _ _ _ _ (db_expires_wf _ Hwf) Hr Hv1).
      unfold expires_map in Hk. rewrite !map_size_insert, Hk. lia. }
  constructor; simpl; try apply Hwf; try done.
  - rewrite Ht2, Ht1. apply Hwf.
  - rewrite Hm, dom_insert_L. pose proof (db_expires_dom _ Hwf).
    change (keys_map (set_expires db k2)) with (keys_map db). set_solver.
  - rewrite Hm. apply map_Forall_insert_2; [apply u64_range|apply Hwf].
Qed.

(** A key that already has an expiry time: nothing changes, -1. *)
Lemma db_set_expire_existing db k w v :
  db_wf db -> expires_map db !! k = Some v -> db_set_expire db k w = Done (-1, db).
Proof.
  intros Hwf Hk. pose proof (kv_in_range_0 _ (db_expires_wf _ Hwf)) as Hr.
  unfold db_set_expire, get_kv_store_index_for_key.
  destruct (add_raw_existing_ok (expires db) 0 k v (db_expires_wf _ Hwf) Hr Hk) as (e & E & _).
  rewrite E. cbn [mbind outcome_bind]. by rewrite set_expires_id.
Qed.

Lemma db_get_expire_ok db k :
  db_wf db ->
  db_get_expire db k = Done (match expires_map db !! k with Some v => i64 v | None => 0 end).
Proof.
  intros Hwf. pose proof (kv_in_range_0 _ (db_expires_wf _ Hwf)) as Hr.
  unfold db_get_expire, get_kv_store_index_for_key.
  destruct (find_ok (expires db) 0 k (db_expires_wf _ Hwf) Hr) as (oe & E & Hoe).
  rewrite E. cbn [mbind outcome_bind]. unfold expires_map. destruct oe as [e|].
  - destruct Hoe as [_ (v & Hv & Hev)]. rewrite Hev, Hv. done.
  - by rewrite Hoe.
Qed.

(** One table of a database after a deletion. *)
Lemma kv_delete_ok {V : Type} `{Inhabited V} (kvs : kv_store_t V heap) k (h : heap) :
  kv_wf kvs ->
  exists r kvs', kv_store_dict_delete_key kvs 0 k h
      = Done (r, kvs', match kv_shard kvs 0 !! k with
                       | Some v => run_destructor (dtype kvs) v h | None => h end)
    /\ kv_wf kvs' /\ dtype kvs' = dtype kvs /\ kv_shard kvs' 0 = delete k (kv_shard kvs 0)
    /\ total_keys kvs' <= total_keys kvs.
Proof.
  intros Hwf. pose proof (kv_in_range_0 _ Hwf) as Hr.
  destruct (kv_shard kvs 0 !! k) as [v|] eqn:Ek.
  - destruct (delete_present_ok kvs 0 k v h Hwf Hr Ek) as (k1 & E & Hwf1 & _ & Ht & Hv & _).
    eexists _, k1. split_and!; try done; [exact (shard_insert _ _ _ _ Hwf Hr Hv)|].
    rewrite (total_insert _ _ _ _ Hwf Hr Hv), map_size_delete, Ek. lia.
  - rewrite (delete_absent_ok kvs 0 k h Hwf Hr Ek). eexists _, kvs. split_and!; try done.
    by rewrite delete_id.
Qed.

Definition release (db : redis_db_t) (k : bytes) (h : heap) : heap :=
  match keys_map db !! k with
  | Some l => latte_object_decr_ref_count l h
  | None => h
  end.

(** Deleting a key clears both tables and drops the keyspace's reference. *)
Lemma db_delete_key_ok db k h :
  db_wf db ->
  exists db', db_delete_key db k h = Done (db', release db k h) /\ db_wf db'
    /\ keys_map db' = delete k (keys_map db) /\ expires_map db' = delete k (expires_map db)
    /\ grows_by 0 db db'.
Proof.
  intros Hwf. unfold db_delete_key, get_kv_store_index_for_key.
  destruct (kv_delete_ok (expires db) k h (db_expires_wf _ Hwf)) as (r1 & es & E1 & Hwe & Hte & Hse & Hne).
  rewrite E1. cbn [mbind outcome_bind].
  assert (Hh : (match kv_shard (expires db) 0 !! k with
                | Some v => run_destructor (dtype (expires db)) v h | None => h end) = h).
  { rewrite (db_expires_type _ Hwf). by destruct (kv_shard (expires db) 0 !! k). }
  rewrite Hh.
  destruct (kv_delete_ok (keys db) k h (db_keys_wf _ Hwf)) as (r2 & ks & E2 & Hwk & Htk & Hsk & Hnk).
  rewrite E2. cbn [mbind outcome_bind]. eexists. split.
  { do 3 f_equal. unfold release, keys_map. by rewrite (db_keys_type _ Hwf). }
  assert (Hk' : keys_map (set_keys (set_expires db es) ks) = delete k (keys_map db)) by exact Hsk.
  assert (He' : expires_map (set_keys (set_expires db es) ks) = delete k (expires_map db)) by exact Hse.
  split_and!; try done; [|split; simpl; lia]. constructor; simpl; try done.
  - rewrite Htk. apply Hwf.
  - rewrite Hte. apply Hwf.
  - rewrite Hk', He', !dom_delete_L. pose proof (db_expires_dom _ Hwf). set_solver.
  - rewrite He'. apply map_Forall_delete, Hwf.
Qed.

(** Whether [k] has an expiry time that has passed. *)
Definition expired (db : redis_db_t) (now : Z) (k : bytes) : bool :=
  match expires_map db !! k with
  | Some v => negb (now <? i64 v)
  | None => false
  end.

Lemma expire_if_needed_ok db now k h :
  db_wf db ->
  (expired db now k = false -> expire_if_needed now db k h = Done (0, db, h))
  /\ (expired db now k = true ->
      exists db', expire_if_needed now db k h = Done (1, db', release db k h) /\ db_wf db'
        /\ keys_map db' = delete k (keys_map db) /\ expires_map db' = delete k (expires_map db)
        /\ grows_by 0 db db').
Proof.
  intros Hwf. pose proof (kv_in_range_0 _ (db_expires_wf _ Hwf)) as Hr.
  unfold expired, expire_if_needed, get_kv_store_index_for_key, expires_map.
  destruct (find_ok (expires db) 0 k (db_expires_wf _ Hwf) Hr) as (oe & E & Hoe).
  rewrite E. cbn [mbind outcome_bind]. destruct oe as [e|].
  - destruct Hoe as [_ (v & Hv & Hev)]. rewrite Hev, Hv. cbn [mbind outcome_bind].
    destruct (now <? i64 v); [done|]. split; [done|]. intros _.
    destruct (db_delete_key_ok db k h Hwf) as (db' & E' & Hrest). rewrite E'.
    cbn [mbind outcome_bind]. by exists db'.
  - by rewrite Hoe.
Qed.

Lemma kv_entry_val_ok {V St : Type} `{Inhabited V} (kvs : kv_store_t V St) i e k v :
  0 <= i -> kv_entry_at kvs i e k -> kv_shard kvs i !! k = Some v ->
  kv_entry_val kvs i e = Done v.
Proof.
  intros Hi (d & Hd & He) Hv. unfold kv_entry_val.
  rewrite (get_dict_ok kvs i _ Hi Hd). cbn [mbind outcome_bind deref].
  rewrite (dict_get_entry_val_spec _ _ _ _ _ He).
  rewrite (kv_shard_lookup _ _ _ Hd) in Hv. cbn [dict_view] in Hv. by rewrite Hv.
Qed.

Lemma init_lru_ok server now o obj h :
  h !! o = Some obj -> 0 < hz server ->
  exists n, init_object_lru_or_lfu server now o h = Done (<[o := set_lru obj n]> h).
Proof.
  intros Ho Hhz. unfold init_object_lru_or_lfu, lru_clock. rewrite Ho. cbn [mbind outcome_bind deref].
  destruct (refcount obj =? OBJ_SHARED_REFCOUNT).
  { exists (lru obj). rewrite insert_id; [done|]. by destruct obj. }
  destruct (has_flag _ _); [by eexists|].
  rewrite (proj2 (Z.eqb_neq _ _)) by lia. destruct (_ <=? _); by eexists.
Qed.

Lemma db_add_new_ok server now db key val h ko s vo :
  db_wf db -> db_room db -> 0 < hz server ->
  h !! key = Some ko -> string_obj ko s -> h !! val = Some vo ->
  keys_map db !! cstr s = None ->
  exists db' n, db_add_key_value server now db key val h = Done (0, db', <[val := set_lru vo n]> h)
    /\ db_wf db' /\ expires db' = expires db /\ grows_by 1 db db'
    /\ keys_map db' = <[cstr s := val]> (keys_map db).
Proof.
  intros Hwf [Hroom _] Hhz Hk Hko Hv Hnone. pose proof (kv_in_range_0 _ (db_keys_wf _ Hwf)) as Hr.
  unfold db_add_key_value, db_add_key_value_internal, get_kv_store_index_for_key.
  rewrite Hk. cbn [mbind outcome_bind deref].
  rewrite (get_sds_from_object_spec _ _ Hko). cbn [mbind outcome_bind deref latte_assert].
  rewrite bool_decide_true by eauto. cbn [mbind outcome_bind deref latte_assert].
  unfold ptr_bytes. destruct Hko as (_ & _ & ->). cbn [mbind outcome_bind]. rewrite sds_new_spec.
  destruct (add_raw_new_ok (keys db) 0 (cstr s) (db_keys_wf _ Hwf) Hr Hnone Hroom)
    as (e & k1 & v0 & E & Hwf1 & Hn1 & Ht1 & Hv1 & He1 & _).
  rewrite E. cbn [mbind outcome_bind].
  destruct (init_lru_ok server now val vo h Hv Hhz) as [n ->]. cbn [mbind outcome_bind].
  assert (Hr1 : in_range k1 0) by (by apply kv_in_range_0).
  destruct (set_val_ok k1 0 e (cstr s) val Hwf1 Hr1 He1) as (k2 & E2 & Hwf2 & Hn2 & Ht2 & Hv2 & _ & _).
  cbn [keys set_keys]. rewrite E2. cbn [mbind outcome_bind]. eexists _, n. split; [reflexivity|].
  rewrite (shard_insert _ _ _ _ (db_keys_wf _ Hwf) Hr Hv1), insert_insert_eq in Hv2.
  pose proof (shard_insert _ _ _ _ Hwf1 Hr1 Hv2) as Hs. split_and!; try done.
  2:{ split; simpl; [|lia]. rewrite (total_insert _ _ _ _ Hwf1 Hr1 Hv2).
      rewrite (shard_insert _ _ _ _ (db_keys_wf _ Hwf) Hr Hv1), (total_insert _ _ _ _ (db_keys_wf _ Hwf) Hr Hv1).
      unfold keys_map in Hnone. rewrite !map_size_insert, Hnone. lia. }
  constructor; simpl; try apply Hwf; try done.
  - rewrite Ht2, Ht1. apply Hwf.
  - unfold keys_map, expires_map in *. simpl. rewrite Hs, dom_insert_L.
    pose proof (db_expires_dom _ Hwf). unfold keys_map, expires_map in *. set_solver.
Qed.

Lemma db_add_existing_ok server now db key val h ko s vo l old :
  db_wf db -> h !! key = Some ko -> string_obj ko s -> h !! val = Some vo ->
  keys_map db !! cstr s = Some l -> h !! l = Some old ->
  db_add_key_value server now db key val h = Fault (AssertFailed "overwrite is not supported").
Proof.
  intros Hwf Hk Hko Hv Hl Hold. pose proof (kv_in_range_0 _ (db_keys_wf _ Hwf)) as Hr.
  unfold db_add_key_value, db_add_key_value_internal, get_kv_store_index_for_key.
  rewrite Hk. cbn [mbind outcome_bind deref].
  rewrite (get_sds_from_object_spec _ _ Hko). rewrite bool_decide_true by eauto.
  cbn [mbind outcome_bind deref latte_assert].
  unfold ptr_bytes. rewrite (proj2 (proj2 Hko)). cbn [mbind outcome_bind]. rewrite sds_new_spec.
  destruct (add_raw_existing_ok (keys db) 0 (cstr s) l (db_keys_wf _ Hwf) Hr Hl) as (e & E & He).
  rewrite E. cbn [mbind outcome_bind]. rewrite set_keys_id.
  unfold db_set_value, get_kv_store_index_for_key. rewrite Hk. cbn [mbind outcome_bind deref].
  rewrite (get_sds_from_object_spec _ _ Hko). rewrite bool_decide_true by eauto.
  cbn [mbind outcome_bind deref latte_assert].
  rewrite bool_decide_true by eauto. cbn [mbind outcome_bind deref latte_assert].
  rewrite (kv_entry_val_ok (keys db) 0 e (cstr s) l) by (done || lia).
  cbn [mbind outcome_bind deref]. rewrite Hold, Hv. reflexivity.
Qed.

Lemma all_empty_total {V St : Type} (kvs : kv_store_t V St) : all_empty kvs -> total_keys kvs = 0.
Proof.
  unfold all_empty, total_keys, shard_sizes. induction 1 as [|m v Hm _ IH]; [done|].
  rewrite fmap_cons. simpl. fold (zsum ((fun m : gmap bytes V => Z.of_nat (size m)) <$> v)).
  rewrite Hm, map_size_empty. lia.
Qed.

Lemma new_db_ok i :
  exists db, new_db i = Done db /\ db_wf db /\ db_id db = i /\ keys_map db = ∅ /\ expires_map db = ∅
    /\ total_keys (keys db) = 0 /\ total_keys (expires db) = 0.
Proof.
  unfold new_db.
  destruct (kv_store_create_ok kv_store_keys_dict_type 0 KVSTORE_ALLOCATE_DICTS_ON_DEMAND)
    as (ks & E1 & Hwk & Hek & _ & Htk & _); [lia|done|].
  destruct (kv_store_create_ok kv_store_expires_dict_type 0 KVSTORE_ALLOCATE_DICTS_ON_DEMAND)
    as (es & E2 & Hwe & Hee & _ & Hte & _); [lia|done|].
  rewrite E1, E2. cbn [mbind outcome_bind]. eexists. split; [reflexivity|].
  assert (Hk0 : kv_shard ks 0 = ∅).
  { eapply (Forall_lookup_1 _ _ _ _ Hek), view_lookup_shard; [done|by apply kv_in_range_0]. }
  assert (He0 : kv_shard es 0 = ∅).
  { eapply (Forall_lookup_1 _ _ _ _ Hee), view_lookup_shard; [done|by apply kv_in_range_0]. }
  split_and!; try done; try by apply all_empty_total.
  constructor; simpl; try done; unfold expires_map; simpl; rewrite He0; done.
Qed.

Lemma init_dbs_ok server :
  exists l, init_redis_server_dbs server = Done (set_dbs server l)
    /\ length l = Z.to_nat (db_num server)
    /\ forall i db, l !! i = Some db ->
         db_id db = Z.of_nat i /\ db_wf db /\ keys_map db = ∅ /\ expires_map db = ∅
         /\ total_keys (keys db) = 0 /\ total_keys (expires db) = 0.
Proof.
  unfold init_redis_server_dbs.
  assert (Hgo : forall n j, exists l, new_dbs n j = Done l /\ length l = n
    /\ forall i db, l !! i = Some db ->
         db_id db = j + Z.of_nat i /\ db_wf db /\ keys_map db = ∅ /\ expires_map db = ∅
         /\ total_keys (keys db) = 0 /\ total_keys (expires db) = 0).
  { induction n as [|n IH]; intros j; cbn [new_dbs]; [exists []; split_and!; [done|done|];
      intros i db; by rewrite lookup_nil|].
    destruct (new_db_ok j) as (db & E & Hwf & Hid & Hk & He & ? & ?).
    destruct (IH (j + 1)) as (l & El & Hlen & Hl). rewrite E, El. cbn [mbind outcome_bind].
    exists (db :: l). split_and!; [done|simpl; by rewrite Hlen|].
    intros [|i] db' Hi; simpl in Hi.
    - injection Hi as <-. split_and!; try done. lia.
    - destruct (Hl i db' Hi) as (? & ?). split; [lia|done]. }
  destruct (Hgo (Z.to_nat (db_num server)) 0) as (l & El & Hlen & Hl). rewrite El.
  cbn [mbind outcome_bind]. exists l. split_and!; [done|exact Hlen|]. exact Hl.
Qed.

(** Start-up builds [db_num] databases, numbered from 0, all empty and all
    well formed. *)
Lemma init_redis_server_dbs_correct server :
  exists l, init_redis_server_dbs server = Done (set_dbs server l)
    /\ length l = Z.to_nat (db_num server)
    /\ forall i db, l !! i = Some db ->
         db_id db = Z.of_nat i /\ db_wf db /\ keys_map db = ∅ /\ expires_map db = ∅.
Proof.
  destruct (init_dbs_ok server) as (l & E & Hlen & Hl). exists l. split_and!; [done..|].
  intros i db Hi. by destruct (Hl i db Hi) as (? & ? & ? & ? & _).
Qed.

(** C17: [expire_if_needed] deletes a key exactly when its expiry time has been
    reached: the key leaves both tables, the keyspace gives up its reference
    to the value, and the result is 1; otherwise nothing changes and the
    result is 0. The invariant of the database is kept. *)
Theorem expire_if_needed_correct db now k h :
  db_wf db ->
  exists r db' h', expire_if_needed now db k h = Done (r, db', h') /\ db_wf db' /\
    match expires_map db !! k with
    | Some v =>
        if now <? i64 v then r = 0 /\ db' = db /\ h' = h
        else r = 1 /\ keys_map db' = delete k (keys_map db)
             /\ expires_map db' = delete k (expires_map db)
             /\ exists l, keys_map db !! k = Some l /\ h' = latte_object_decr_ref_count l h
    | None => r = 0 /\ db' = db /\ h' = h
    end.
Proof.
  intros Hwf. destruct (expire_if_needed_ok db now k h Hwf) as [Hno Hyes].
  unfold expired in *. destruct (expires_map db !! k) as [v|] eqn:Ek.
  - destruct (now <? i64 v).
    + rewrite Hno by done. by eexists _, _, _.
    + destruct Hyes as (db' & E & Hwf' & Hkm & Hem & _); [done|]. rewrite E.
      eexists _, _, _. split; [reflexivity|]. split_and!; try done.
      assert (Hin : k ∈ dom (keys_map db)).
      { apply (db_expires_dom _ Hwf). apply elem_of_dom. by rewrite Ek. }
      apply elem_of_dom in Hin. destruct Hin as [l Hl]. exists l. split; [done|].
      unfold release. by rewrite Hl.
  - rewrite Hno by done. by eexists _, _, _.
Qed.

(** A time to live can be set once: on a live key without one,
    [db_set_expire] records the time, [db_get_expire] reads it back, and every
    later [db_set_expire] on that key is refused with -1 and changes nothing,
    although the command that calls it means to replace the time. *)
Lemma db_set_expire_once db k w w' :
  db_wf db -> db_room db -> k ∈ dom (keys_map db) -> expires_map db !! k = None ->
  - 2 ^ 63 <= w < 2 ^ 63 ->
  exists db', db_set_expire db k w = Done (0, db') /\ db_wf db'
    /\ keys_map db' = keys_map db
    /\ db_get_expire db' k = Done w
    /\ db_set_expire db' k w' = Done (-1, db').
Proof.
  intros Hwf Hroom Hd Hk Hw.
  destruct (db_set_expire_new db k w Hwf Hroom Hd Hk) as (db' & E & Hwf' & Hks & Hem & _).
  exists db'. split_and!; try done.
  - unfold keys_map. by rewrite Hks.
  - rewrite db_get_expire_ok by done. rewrite Hem, lookup_insert_eq. by rewrite i64_u64.
  - eapply db_set_expire_existing; [done|]. by rewrite Hem, lookup_insert_eq.
Qed.

(** C38: [db_add_key_value] stores a new key (under the C string of the key
    object) with the value it is given; when the key is already present it
    does not update in place as its comment says: it runs into the assertion
    "overwrite is not supported". *)
Theorem db_add_key_value_cases server now db key val h ko s vo :
  db_wf db -> db_room db -> 0 < hz server ->
  h !! key = Some ko -> string_obj ko s -> h !! val = Some vo ->
  map_Forall (fun _ l => is_Some (h !! l)) (keys_map db) ->
  match keys_map db !! cstr s with
  | None => exists db' n,
      db_add_key_value server now db key val h = Done (0, db', <[val := set_lru vo n]> h)
      /\ db_wf db' /\ expires_map db' = expires_map db
      /\ keys_map db' = <[cstr s := val]> (keys_map db)
  | Some _ =>
      db_add_key_value server now db key val h = Fault (AssertFailed "overwrite is not supported")
  end.
Proof.
  intros Hwf Hroom Hhz Hk Hko Hv Hlive. destruct (keys_map db !! cstr s) as [l|] eqn:El.
  - destruct (Hlive _ _ El) as [old Hold]. by eapply db_add_existing_ok.
  - destruct (db_add_new_ok server now db key val h ko s vo) as (db' & n & E & Hwf' & He & _ & Hm); try done.
    exists db', n. split_and!; try done. unfold expires_map. by rewrite He.
Qed.

(** The access clock of a new object under an LFU policy is the minute
    counter (16 bits) and the initial counter 5, so it fits the 24 bits of
    [lru]; the LRU clock never exceeds [LRU_CLOCK_MAX]. *)
Lemma object_clock_bounds server now o obj h :
  h !! o = Some obj -> refcount obj <> OBJ_SHARED_REFCOUNT ->
  has_flag (maxmemory_policy server) MAXMEMORY_FLAG_LFU = true ->
  exists obj', init_object_lru_or_lfu server now o h = Done (<[o := obj']> h)
    /\ lru obj' mod 256 = LFU_INIT_VAL
    /\ lru obj' / 256 = lfu_get_time_in_minutes server
    /\ 0 <= lru obj' < 2 ^ 24
    /\ (0 <= LRU_CLOCK_MAX < 2 ^ 32 -> 0 <= now -> 0 <= get_lru_clock now <= LRU_CLOCK_MAX).
Proof.
  intros Ho Hr Hf. unfold init_object_lru_or_lfu. rewrite Ho. cbn [mbind outcome_bind deref].
  rewrite (proj2 (Z.eqb_neq _ _)) by done. rewrite Hf. eexists. split; [reflexivity|].
  cbn [lru set_lru]. unfold lfu_get_time_in_minutes, LFU_INIT_VAL.
  set (m := Z.land (Z.quot (unixtime server) 60) 65535).
  assert (Hm : 0 <= m < 2 ^ 16).
  { unfold m. change 65535 with (Z.ones 16). rewrite Z.land_ones by lia. apply Z.mod_pos_bound. lia. }
  assert (E : Z.lor (Z.shiftl m 8) 5 = m * 256 + 5).
  { rewrite <- Z.add_lor_land, Z.shiftl_mul_pow2 by lia. change (2 ^ 8) with 256.
    replace (Z.land (m * 256) 5) with 0; [lia|].
    symmetry. apply Z.bits_inj'. intros n Hn. rewrite Z.land_spec, Z.bits_0.
    change 256 with (2 ^ 8). destruct (Z.ltb_spec n 8).
    - by rewrite Z.mul_pow2_bits_low by lia.
    - rewrite (Z.bits_above_log2 5) by (simpl; lia). apply andb_false_r. }
  rewrite E. split_and!.
  - rewrite Z.add_comm, Z.mod_add by lia. done.
  - rewrite Z.add_comm, Z.div_add by lia. reflexivity.
  - lia.
  - lia.
  - intros Hmax Hnow. unfold get_lru_clock.
    assert (0 <= Z.quot now LRU_CLOCK_RESOLUTION) by (apply Z.quot_pos; done).
    assert (Z.land (Z.quot now LRU_CLOCK_RESOLUTION) LRU_CLOCK_MAX <= LRU_CLOCK_MAX) by (apply land_le_r; lia).
    assert (0 <= Z.land (Z.quot now LRU_CLOCK_RESOLUTION) LRU_CLOCK_MAX) by (apply Z.land_nonneg; by left).
    rewrite wrap_u_small by lia. lia.
Qed.
End DbCorrect.

(** ** Concrete runs *)

#[local] Existing Instance model_latte.
#[local] Existing Instance model_latte_laws.

Definition ex_server : redis_server_t :=
  mk_server (mk_cm dict_new raxNew 0) list_new 1700000000 10 None dict_new
    (1024 * 1024) 0 77 [] 16 (mk_slowlog list_new 128 10000 0) (mk_metric dict_new 16) 0.

Definition ex_lfu_server : redis_server_t :=
  mk_server (mk_cm dict_new raxNew 0) list_new 1700000000 10 None dict_new
    (1024 * 1024) 2 77 [] 16 (mk_slowlog list_new 128 10000 0) (mk_metric dict_new 16) 0.

(** A string object with one reference. *)
Definition ex_str (s : string) : latte_object_t := mk_object 0 0 1 0 (PSds (bs s)).

Definition ex_heap : heap := {[ 1%positive := ex_str "foo"; 2%positive := ex_str "bar"; 3%positive := ex_str "baz" ]}.

Definition unwrap_db (o : outcome (Z * redis_db_t * heap)) (d : redis_db_t) : redis_db_t :=
  match o with Done (_, db, _) => db | Fault _ => d end.

Definition ex_db0 : redis_db_t :=
  match new_db 0 with Done db => db
  | Fault _ => mk_db 0 (mk_kv 0 kv_store_keys_dict_type [] 0 0 0 0 0 0 0 None)
                       (mk_kv 0 kv_store_expires_dict_type [] 0 0 0 0 0 0 0 None) 0 0 end.

Lemma ex_db0_wf : db_wf ex_db0.
Proof.
  unfold ex_db0. destruct (new_db_ok 0) as (db & E & Hwf & _). by rewrite E.
Qed.

Lemma ex_db0_room : db_room ex_db0.
Proof. split; vm_compute; reflexivity. Qed.

(** Database 0 with the key "foo". *)
Definition ex_db1 : redis_db_t := unwrap_db (db_add_key_value ex_server 0 ex_db0 1 2 ex_heap) ex_db0.

Lemma ex_str_obj (s : string) : string_obj (ex_str s) (bs s).
Proof. split_and!; done. Qed.

Lemma ex_db1_wf : db_wf ex_db1.
Proof.
  unfold ex_db1.
  destruct (db_add_new_ok ex_server 0 ex_db0 1 2 ex_heap (ex_str "foo") (bs "foo") (ex_str "bar")
    ex_db0_wf ex_db0_room ltac:(done) ltac:(done) (ex_str_obj "foo") ltac:(done) ltac:(by vm_compute))
    as (db & n & E & Hwf & _). by rewrite E.
Qed.

Lemma ex_db1_room : db_room ex_db1.
Proof. split; vm_compute; reflexivity. Qed.

(** Database 0 with "foo" expiring at 5000. *)
Definition ex_db2 : redis_db_t :=
  match db_set_expire ex_db1 (bs "foo") 5000 with Done (_, db) => db | Fault _ => ex_db1 end.

Lemma ex_db1_has_foo : bs "foo" ∈ dom (keys_map ex_db1).
Proof. apply elem_of_dom. vm_compute. eauto. Qed.

Lemma ex_db2_wf : db_wf ex_db2.
Proof.
  unfold ex_db2.
  destruct (db_set_expire_new ex_db1 (bs "foo") 5000 ex_db1_wf ex_db1_room ex_db1_has_foo
    ltac:(by vm_compute)) as (db & E & Hwf & _). by rewrite E.
Qed.

Lemma init_redis_server_dbs_correct_witness :
  exists l, init_redis_server_dbs ex_server = Done (set_dbs ex_server l) /\ length l = 16%nat.
Proof.
  destruct (init_redis_server_dbs_correct ex_server) as (s & E & Hl & _).
  exists s. split; [exact E|exact Hl].
Defined.

Lemma expire_if_needed_correct_witness :
  exists db' h', expire_if_needed 5000 ex_db2 (bs "foo") ex_heap = Done (1, db', h')
    /\ keys_map db' = ∅ /\ h' !! 2%positive = None.
Proof.
  destruct (expire_if_needed_correct ex_db2 5000 (bs "foo") ex_heap ex_db2_wf)
    as (r & db' & h' & E & _ & H).
  change (expires_map ex_db2 !! bs "foo") with (Some 5000) in H.
  change (5000 <? i64 5000) with false in H. cbv iota in H.
  destruct H as (-> & Hk & _ & l & Hl & Hh). exists db', h'.
  assert (Hl2 : keys_map ex_db2 !! bs "foo" = Some 2%positive) by (vm_compute; reflexivity).
  rewrite Hl2 in Hl. injection Hl as <-.
  split; [exact E|]. split; [rewrite Hk; vm_compute; reflexivity|]. rewrite Hh. vm_compute. reflexivity.
Defined.

Lemma db_set_expire_once_witness :
  exists db', db_set_expire ex_db1 (bs "foo") 5000 = Done (0, db')
    /\ db_get_expire db' (bs "foo") = Done 5000 /\ db_set_expire db' (bs "foo") 9000 = Done (-1, db').
Proof.
  destruct (db_set_expire_once ex_db1 (bs "foo") 5000 9000 ex_db1_wf ex_db1_room ex_db1_has_foo
    ltac:(by vm_compute) ltac:(lia)) as (db' & E & _ & _ & Hg & Hs).
  exists db'. split; [exact E|]. split; [exact Hg|exact Hs].
Defined.

Lemma db_add_key_value_cases_witness :
  (exists db' n, db_add_key_value ex_server 0 ex_db0 1 2 ex_heap
     = Done (0, db', <[2%positive := set_lru (ex_str "bar") n]> ex_heap) /\ db_wf db')
  /\ db_add_key_value ex_server 0 ex_db1 1 3 ex_heap
     = Fault (AssertFailed "overwrite is not supported").
Proof.
  split.
  - pose proof (db_add_key_value_cases ex_server 0 ex_db0 1 2 ex_heap (ex_str "foo") (bs "foo")
      (ex_str "bar") ex_db0_wf ex_db0_room ltac:(done) ltac:(done) (ex_str_obj "foo") ltac:(done)) as H.
    change (keys_map ex_db0) with (∅ : gmap bytes loc) in H.
    change (∅ !! cstr (bs "foo")) with (@None loc) in H. cbv iota in H.
    destruct H as (db' & n & E & Hwf & _); [apply map_Forall_empty|].
    exists db', n. split; [exact E|exact Hwf].
  - pose proof (db_add_key_value_cases ex_server 0 ex_db1 1 3 ex_heap (ex_str "foo") (bs "foo")
      (ex_str "baz") ex_db1_wf ex_db1_room ltac:(done) ltac:(done) (ex_str_obj "foo") ltac:(done)) as H.
    assert (Hm : keys_map ex_db1 = {[ bs "foo" := 2%positive ]}) by (vm_compute; reflexivity).
    rewrite Hm in H. apply H.
    apply map_Forall_singleton. by eexists.
Defined.

Lemma object_clock_bounds_witness :
  exists obj', init_object_lru_or_lfu ex_lfu_server 0 1 ex_heap = Done (<[1%positive := obj']> ex_heap)
    /\ lru obj' mod 256 = 5 /\ 0 <= lru obj' < 2 ^ 24.
Proof.
  destruct (object_clock_bounds ex_lfu_server 0 1 (ex_str "foo") ex_heap) as (o & E & Hm & _ & Hb & _).
  - reflexivity.
  - vm_compute. congruence.
  - reflexivity.
  - exists o. split; [exact E|]. split; [exact Hm|exact Hb].
Defined.
