(* ===== verification/ObjectDict.v ===== *)
(** * Dictionaries keyed by objects (src/redis/db.c)

    The tables of blocked, ready and watched keys of a database use objects as
    keys: [key_list_dict_type] and [object_key_pointer_value_dict_type].  This
    file models the hash and comparison functions of the two types.  An object
    is a raw string or an integer in disguise, so that one key has several
    representations; comparing decodes them, which takes and gives up
    references. *)

From S2P Require Import Prelude LatteC LatteCModel KvStore State Db.

(** What the functions use of the library besides objects. *)
Class ObjectKeyOps := {
  dict_gen_hash_function : bytes -> Z;
  dict_sds_key_compare : bytes -> bytes -> Z;
  (** a string object with the text of the key, one reference of which is the caller's *)
  get_decode_object : loc -> heap -> loc * heap
}.

Class ObjectKeyLaws `{L : LatteC} {K : ObjectKeyOps} : Prop := {
  int_not_sds : forall o, encoding o = OBJ_ENCODING_INT -> sds_encoded_object o = false;
  dict_sds_key_compare_spec : forall a b, dict_sds_key_compare a b <> 0 <-> a = b;
  get_decode_sds : forall l o s h, h !! l = Some o -> string_obj o s -> counted (refcount o) ->
    get_decode_object l h = (l, <[l := set_refcount o (refcount o + 1)]> h);
  get_decode_int : forall l o n h, h !! l = Some o -> obj_type o = OBJ_STRING -> encoding o = OBJ_ENCODING_INT ->
    ptr o = PInt n -> exists l' o', get_decode_object l h = (l', <[l' := o']> h)
      /\ h !! l' = None /\ string_obj o' (dec n) /\ refcount o' = 1
}.

Section ObjectDict.
Context {L : LatteC} {K : ObjectKeyOps}.

(** *** Raw keys *)

Definition dict_object_hash (key : loc) (h : heap) : outcome Z :=
  o ← deref (h !! key);
  s ← ptr_bytes o;
  Done (dict_gen_hash_function (take (Z.to_nat (sds_len s)) s)).

Definition dict_object_key_compare (key1 key2 : loc) (h : heap) : outcome Z :=
  o1 ← deref (h !! key1);
  o2 ← deref (h !! key2);
  s1 ← ptr_bytes o1;
  s2 ← ptr_bytes o2;
  Done (dict_sds_key_compare s1 s2).

(** *** Encoded keys *)

Definition dict_encode_object_hash (key : loc) (h : heap) : outcome Z :=
  o ← deref (h !! key);
  if sds_encoded_object o then
    s ← ptr_bytes o;
    Done (dict_gen_hash_function (take (Z.to_nat (sds_len s)) s))
  else if encoding o =? OBJ_ENCODING_INT then
    match ptr o with
    | PInt n => Done (dict_gen_hash_function (ll2string n))
    | _ => Fault UninitRead
    end
  else Fault (Panicked "Unknown string encoding").

(** [if (o->refcount != OBJ_STATIC_REFCOUNT) o = get_decode_object(o)] *)
Definition decode_key (k : loc) (h : heap) : outcome (loc * heap) :=
  o ← deref (h !! k);
  Done (if negb (refcount o =? OBJ_STATIC_REFCOUNT) then get_decode_object k h else (k, h)).

(** [if (o->refcount != OBJ_STATIC_REFCOUNT) latte_object_decr_ref_count(o)] *)
Definition release_key (k : loc) (h : heap) : outcome heap :=
  o ← deref (h !! k);
  Done (if negb (refcount o =? OBJ_STATIC_REFCOUNT) then latte_object_decr_ref_count k h else h).

Definition same_int (o1 o2 : latte_object_t) : bool :=
  match ptr o1, ptr o2 with PInt n, PInt m => n =? m | _, _ => false end.

Definition dict_encode_object_key_compare (key1 key2 : loc) (h : heap) : outcome (Z * heap) :=
  o1 ← deref (h !! key1);
  o2 ← deref (h !! key2);
  if (encoding o1 =? OBJ_ENCODING_INT) && (encoding o2 =? OBJ_ENCODING_INT)
  then Done (if same_int o1 o2 then 1 else 0, h)
  else
    '(k1, h) ← decode_key key1 h;
    '(k2, h) ← decode_key key2 h;
    d1 ← deref (h !! k1);
    d2 ← deref (h !! k2);
    s1 ← ptr_bytes d1;
    s2 ← ptr_bytes d2;
    let cmp := dict_sds_key_compare s1 s2 in
    h ← release_key k1 h;
    h ← release_key k2 h;
    Done (cmp, h).

(** ** Specification: the text of a key *)

Inductive key_text (o : latte_object_t) (t : bytes) : Prop :=
  | text_static (Hs : string_obj o t) (Hr : refcount o = OBJ_STATIC_REFCOUNT)
  | text_string (Hs : string_obj o t) (Hr : 0 < refcount o) (Hr' : counted (refcount o + 1))
  | text_int (n : Z) (Ht : obj_type o = OBJ_STRING) (He : encoding o = OBJ_ENCODING_INT) (Hp : ptr o = PInt n)
      (Hn : - 2 ^ 63 <= n < 2 ^ 63) (Et : t = dec n) (Hr : refcount o <> OBJ_STATIC_REFCOUNT).

Context {LL : LatteCLaws} {KL : ObjectKeyLaws}.

Lemma string_not_int (o : latte_object_t) (t : bytes) : string_obj o t -> (encoding o =? OBJ_ENCODING_INT) = false.
Proof. intros (_ & He & _). apply Z.eqb_neq. intros E. apply int_not_sds in E. congruence. Qed.

Lemma counted_not_static (n : Z) : counted n -> (n =? OBJ_STATIC_REFCOUNT) = false /\ (n + 1 =? OBJ_STATIC_REFCOUNT) = false.
Proof. intros (_ & _ & ?). split; apply Z.eqb_neq; lia. Qed.

Lemma encode_hash_ok (k : loc) (o : latte_object_t) (t : bytes) (h : heap) :
  h !! k = Some o -> key_text o t -> dict_encode_object_hash k h = Done (dict_gen_hash_function t).
Proof.
  intros Hk Ht. unfold dict_encode_object_hash. rewrite Hk. cbn [deref mbind outcome_bind].
  destruct Ht as [(_ & He & Hp) _|(_ & He & Hp) _ _|n _ He Hp Hn -> _].
  1,2: rewrite He; unfold ptr_bytes; rewrite Hp; cbn [mbind outcome_bind]; rewrite sds_len_spec;
    unfold zlen; by rewrite Nat2Z.id, firstn_all.
  rewrite (int_not_sds _ He), He, Z.eqb_refl, Hp. by rewrite ll2string_spec.
Qed.

Lemma release_counted (k : loc) (o : latte_object_t) (h : heap) :
  h !! k = Some o -> 1 < refcount o -> counted (refcount o - 1) ->
  release_key k h = Done (<[k := set_refcount o (refcount o - 1)]> h).
Proof.
  intros Hk H1 Hc. unfold release_key. rewrite Hk. cbn [deref mbind outcome_bind].
  destruct (counted_not_static _ Hc) as [_ E]. replace (refcount o - 1 + 1) with (refcount o) in E by lia.
  rewrite E. cbn [negb]. by rewrite (decr_ref_count_spec k o h).
Qed.

Lemma release_last (k : loc) (o : latte_object_t) (h : heap) :
  h !! k = Some o -> refcount o = 1 -> release_key k h = Done (delete k h).
Proof.
  intros Hk Hr. unfold release_key. rewrite Hk. cbn [deref mbind outcome_bind]. destruct special_refcounts as [_ Hsp].
  rewrite (proj2 (Z.eqb_neq _ _)) by lia. cbn [negb]. by rewrite (decr_ref_count_free k o h).
Qed.

Lemma release_static (k : loc) (o : latte_object_t) (h : heap) :
  h !! k = Some o -> refcount o = OBJ_STATIC_REFCOUNT -> release_key k h = Done h.
Proof. intros Hk Hr. unfold release_key. rewrite Hk. cbn [deref mbind outcome_bind]. by rewrite Hr, Z.eqb_refl. Qed.

(** What decoding a key does to the store. *)
Inductive decoded (k : loc) (h : heap) : loc -> heap -> Prop :=
  | decoded_static (o : latte_object_t) : h !! k = Some o -> refcount o = OBJ_STATIC_REFCOUNT -> decoded k h k h
  | decoded_counted (o : latte_object_t) : h !! k = Some o -> counted (refcount o) ->
      decoded k h k (<[k := set_refcount o (refcount o + 1)]> h)
  | decoded_new (k' : loc) (o : latte_object_t) : h !! k' = None -> refcount o = 1 -> decoded k h k' (<[k' := o]> h).

Lemma decode_key_ok (k : loc) (o : latte_object_t) (t : bytes) (h : heap) :
  h !! k = Some o -> (string_obj o t -> refcount o = OBJ_STATIC_REFCOUNT \/ counted (refcount o)) -> key_text o t \/ string_obj o t ->
  exists k' h1 o', decode_key k h = Done (k', h1) /\ decoded k h k' h1 /\ h1 !! k' = Some o' /\ string_obj o' t.
Proof.
  intros Hk Hc Ht. unfold decode_key. rewrite Hk. cbn [deref mbind outcome_bind].
  assert (Hstr : string_obj o t -> exists k' h1 o', Done (if negb (refcount o =? OBJ_STATIC_REFCOUNT)
    then get_decode_object k h else (k, h)) = Done (k', h1) /\ decoded k h k' h1 /\ h1 !! k' = Some o' /\ string_obj o' t).
  { intros Hs. destruct (Hc Hs) as [Hst|Hct].
    - exists k, h, o. rewrite Hst, Z.eqb_refl. split_and!; try done. by eapply decoded_static.
    - eexists k, _, _. rewrite (proj1 (counted_not_static _ Hct)). cbn [negb]. rewrite (get_decode_sds k o t) by done.
      split; [done|]. split; [by eapply decoded_counted|]. split; [apply lookup_insert_eq|].
      destruct Hs as (? & He & ?). split_and!; try done. rewrite <- He. by apply sds_encoded_encoding. }
  destruct Ht as [[Hs _|Hs _ _|n Hty He Hp _ -> Hr]|Hs]; auto.
  rewrite (proj2 (Z.eqb_neq _ _) Hr). cbn [negb].
  destruct (get_decode_int k o n h Hk Hty He Hp) as (l' & o' & -> & Hn & Hs & Hr1).
  exists l', (<[l' := o']> h), o'. split; [done|]. split; [by apply decoded_new|]. by rewrite lookup_insert_eq.
Qed.

Lemma undo_counted (k : loc) (o : latte_object_t) (h : heap) :
  h !! k = Some (set_refcount o (refcount o + 1)) -> counted (refcount o) -> release_key k h = Done (<[k := o]> h).
Proof.
  intros Hk Hc. rewrite (release_counted k _ h Hk); cbn [refcount set_refcount].
  - do 2 f_equal. destruct o. unfold set_refcount. cbn. f_equal. lia.
  - destruct Hc. lia.
  - by replace (refcount o + 1 - 1) with (refcount o) by lia.
Qed.

Lemma not_both (n : Z) : counted n -> n <> OBJ_STATIC_REFCOUNT /\ n + 1 <> OBJ_STATIC_REFCOUNT.
Proof. intros (_ & _ & ?). lia. Qed.

Lemma release_decoded (k1 k2 k1' k2' : loc) (h h1 h2 : heap) :
  decoded k1 h k1' h1 -> decoded k2 h1 k2' h2 -> is_Some (h !! k2) ->
  exists h3, release_key k1' h2 = Done h3 /\ release_key k2' h3 = Done h.
Proof.
  intros H1 H2 [x Hx].
  destruct H1 as [o1 L1 R1|o1 L1 C1|l1 o1 N1 R1], H2 as [o2 L2 R2|o2 L2 C2|l2 o2 N2 R2].
  - exists h. split; [by apply (release_static k1 o1)|by apply (release_static k2 o2)].
  - assert (k1 <> k2) by (intros ->; destruct (not_both _ C2); congruence).
    eexists. split; [apply (release_static k1 o1); [by rewrite lookup_insert_ne|done]|].
    rewrite (undo_counted k2 o2) by (done || apply lookup_insert_eq). f_equal. rewrite insert_insert_eq. by apply insert_id.
  - assert (k1 <> l2) by congruence.
    eexists. split; [apply (release_static k1 o1); [by rewrite lookup_insert_ne|done]|].
    rewrite (release_last l2 o2) by (done || apply lookup_insert_eq). f_equal. by apply delete_insert_id.
  - assert (k1 <> k2).
    { intros ->. rewrite lookup_insert_eq in L2. injection L2 as <-. cbn in R2. by destruct (not_both _ C1). }
    rewrite lookup_insert_ne in L2 by done.
    eexists. split; [apply (undo_counted k1 o1); [apply lookup_insert_eq|done]|].
    rewrite insert_insert_eq, (insert_id _ _ _ L1). by apply (release_static k2 o2).
  - destruct (decide (k1 = k2)) as [->|Hne].
    + rewrite lookup_insert_eq in L2. injection L2 as <-. eexists.
      split; [apply (undo_counted k2 (set_refcount o1 (refcount o1 + 1))); [apply lookup_insert_eq|done]|].
      rewrite !insert_insert_eq, (undo_counted k2 o1) by (done || apply lookup_insert_eq).
      f_equal. rewrite insert_insert_eq. by apply insert_id.
    + rewrite lookup_insert_ne in L2 by done.
      eexists. split; [apply (undo_counted k1 o1); [by rewrite lookup_insert_ne, lookup_insert_eq|done]|].
      rewrite (undo_counted k2 o2) by (done || (rewrite lookup_insert_ne by done; apply lookup_insert_eq)).
      f_equal. apply map_eq. intros i. destruct (decide (i = k1)), (decide (i = k2)); subst; by simplify_map_eq.
  - assert (l2 <> k1) by (intros ->; by rewrite lookup_insert_eq in N2). rewrite lookup_insert_ne in N2 by done.
    eexists. split; [apply (undo_counted k1 o1); [by rewrite lookup_insert_ne, lookup_insert_eq|done]|].
    rewrite (release_last l2 o2) by (done || (rewrite lookup_insert_ne by done; apply lookup_insert_eq)).
    f_equal. apply map_eq. intros i. destruct (decide (i = k1)), (decide (i = l2)); subst; by simplify_map_eq.
  - assert (l1 <> k2) by congruence. rewrite lookup_insert_ne in L2 by done.
    eexists. split; [apply (release_last l1 o1); [apply lookup_insert_eq|done]|].
    rewrite delete_insert_id by done. by apply (release_static k2 o2).
  - assert (l1 <> k2) by congruence. rewrite lookup_insert_ne in L2 by done.
    eexists. split; [apply (release_last l1 o1); [by rewrite lookup_insert_ne, lookup_insert_eq|done]|].
    rewrite (undo_counted k2 o2) by (done || (rewrite lookup_delete_ne by done; apply lookup_insert_eq)).
    f_equal. apply map_eq. intros i. destruct (decide (i = l1)), (decide (i = k2)); subst; by simplify_map_eq.
  - assert (l2 <> l1) by (intros ->; by rewrite lookup_insert_eq in N2). rewrite lookup_insert_ne in N2 by done.
    eexists. split; [apply (release_last l1 o1); [by rewrite lookup_insert_ne, lookup_insert_eq|done]|].
    rewrite (release_last l2 o2) by (done || (rewrite lookup_delete_ne by done; apply lookup_insert_eq)).
    f_equal. apply map_eq. intros i. destruct (decide (i = l1)), (decide (i = l2)); subst; by simplify_map_eq.
Qed.

Lemma decoded_text (k k' x : loc) (h h1 : heap) (o : latte_object_t) :
  decoded k h k' h1 -> h !! x = Some o -> exists o', h1 !! x = Some o' /\ ptr o' = ptr o.
Proof.
  intros Hd Hx. destruct Hd as [?|o1 L1|l1 o1 N1].
  - by exists o.
  - destruct (decide (x = k)) as [->|Hne].
    + rewrite lookup_insert_eq. eexists. split; [done|]. cbn. congruence.
    + exists o. by rewrite lookup_insert_ne.
  - exists o. rewrite lookup_insert_ne by congruence. done.
Qed.

Lemma text_counts (o : latte_object_t) (t : bytes) :
  key_text o t -> string_obj o t -> refcount o = OBJ_STATIC_REFCOUNT \/ counted (refcount o).
Proof.
  intros Ht Hs. destruct Ht as [_ ?|_ ? (? & ? & ?)|? ? He ? ? ? ?]; [by left|right; split_and!; lia|].
  apply string_not_int in Hs. by rewrite He, Z.eqb_refl in Hs.
Qed.

(** The second key can still be decoded after the first one. *)
Lemma decoded_next (k1 k2 k1' : loc) (h h1 : heap) (o2 : latte_object_t) (t2 : bytes) :
  decoded k1 h k1' h1 -> h !! k2 = Some o2 -> key_text o2 t2 ->
  exists k2' h2 o', decode_key k2 h1 = Done (k2', h2) /\ decoded k2 h1 k2' h2 /\ h2 !! k2' = Some o' /\ string_obj o' t2.
Proof.
  intros Hd Hk Ht.
  pose proof (text_counts o2 t2 Ht) as Hold.
  destruct Hd as [?|o1 L1 C1|l1 o1 N1].
  - apply (decode_key_ok k2 o2 t2); auto.
  - destruct (decide (k2 = k1)) as [->|Hne].
    + assert (o1 = o2) as -> by congruence.
      destruct Ht as [_ Hst|Hs Hr Hr'|n Hty He Hp Hn Et Hr]; [by destruct (not_both _ C1)|..].
      * apply (decode_key_ok k1 (set_refcount o2 (refcount o2 + 1)) t2); [apply lookup_insert_eq|by right|right].
        destruct Hs as (? & He & ?). split_and!; try done. rewrite <- He. by apply sds_encoded_encoding.
      * apply (decode_key_ok k1 (set_refcount o2 (refcount o2 + 1)) t2); [apply lookup_insert_eq| |left].
        -- intros (_ & Hs & _). rewrite int_not_sds in Hs; done.
        -- apply (text_int _ _ n); try done. cbn. by destruct (not_both _ C1).
    + apply (decode_key_ok k2 o2 t2); [by rewrite lookup_insert_ne|auto..].
  - apply (decode_key_ok k2 o2 t2); [rewrite lookup_insert_ne by congruence; done|auto..].
Qed.

Lemma encode_compare_ok (k1 k2 : loc) (o1 o2 : latte_object_t) (t1 t2 : bytes) (h : heap) :
  h !! k1 = Some o1 -> h !! k2 = Some o2 -> key_text o1 t1 -> key_text o2 t2 ->
  exists r, dict_encode_object_key_compare k1 k2 h = Done (r, h) /\ (r <> 0 <-> t1 = t2).
Proof.
  intros H1 H2 T1 T2. unfold dict_encode_object_key_compare. rewrite H1, H2. cbn [deref mbind outcome_bind].
  destruct ((encoding o1 =? OBJ_ENCODING_INT) && (encoding o2 =? OBJ_ENCODING_INT)) eqn:Eint.
  - apply andb_true_iff in Eint as [E1 E2].
    destruct T1 as [Hs1 _|Hs1 _ _|n1 _ _ P1 _ -> _]; [by rewrite (string_not_int _ _ Hs1) in E1..|].
    destruct T2 as [Hs2 _|Hs2 _ _|n2 _ _ P2 _ -> _]; [by rewrite (string_not_int _ _ Hs2) in E2..|].
    eexists. split; [reflexivity|]. unfold same_int. rewrite P1, P2. destruct (Z.eqb_spec n1 n2) as [->|Hne]; [done|].
    split; [done|]. intros E. apply (f_equal undec) in E. rewrite !undec_dec in E. congruence.
  - destruct (decode_key_ok k1 o1 t1 h H1 (text_counts _ _ T1) (or_introl T1)) as (k1' & h1 & d1 & E1 & D1 & L1 & S1).
    rewrite E1. cbn [mbind outcome_bind].
    destruct (decoded_next k1 k2 k1' h h1 o2 t2 D1 H2 T2) as (k2' & h2 & d2 & E2 & D2 & L2 & S2).
    rewrite E2. cbn [mbind outcome_bind]. destruct (decoded_text k2 k2' k1' h1 h2 d1 D2 L1) as (d1' & L1' & P1).
    rewrite L1', L2. cbn [deref mbind outcome_bind]. unfold ptr_bytes. rewrite P1, (proj2 (proj2 S1)), (proj2 (proj2 S2)).
    cbn [mbind outcome_bind]. destruct (release_decoded k1 k2 k1' k2' h h1 h2 D1 D2) as (h3 & R1 & R2); [eauto|].
    rewrite R1. cbn [mbind outcome_bind]. rewrite R2. cbn [mbind outcome_bind].
    eexists. split; [reflexivity|]. apply dict_sds_key_compare_spec.
Qed.

(** C37: keys of the tables of blocked and ready keys: whatever representation
    (string, shared static string, integer) two keys have, comparing them
    completes, is true exactly when they spell the same text, and leaves the
    store as it was (every reference taken is given up, temporary objects are
    freed); the hash is that of the text, so that equal keys have equal hashes
    and a lookup finds a key under any representation. *)
Theorem encoded_keys_contract (k1 k2 : loc) (o1 o2 : latte_object_t) (t1 t2 : bytes) (h : heap) :
  h !! k1 = Some o1 -> h !! k2 = Some o2 -> key_text o1 t1 -> key_text o2 t2 ->
  (exists r, dict_encode_object_key_compare k1 k2 h = Done (r, h) /\ (r <> 0 <-> t1 = t2))
  /\ (t1 = t2 -> exists x, dict_encode_object_hash k1 h = Done x /\ dict_encode_object_hash k2 h = Done x).
Proof.
  intros H1 H2 T1 T2. split; [by eapply encode_compare_ok|]. intros <-. exists (dict_gen_hash_function t1).
  by split; eapply encode_hash_ok.
Qed.
End ObjectDict.

(** ** Concrete runs *)

#[local] Existing Instance model_latte.
#[local] Existing Instance model_latte_laws.

#[local] Instance model_object_keys : ObjectKeyOps := {|
  dict_gen_hash_function s := zlen s;
  dict_sds_key_compare a b := if bool_decide (a = b) then 1 else 0;
  get_decode_object l h :=
    match h !! l with
    | Some o =>
        if sds_encoded_object o then (l, latte_object_incr_ref_count l h)
        else match ptr o with
             | PInt n => string_object_new (dec n) (zlen (dec n)) h
             | _ => (l, h)
             end
    | None => (l, h)
    end
|}.

#[local] Instance model_object_keys_laws : ObjectKeyLaws.
Proof.
  split.
  - intros o E. simpl in *. by rewrite E.
  - intros a b. simpl. by case_bool_decide.
  - intros l o s h Hl Hs Hc. simpl. rewrite Hl. rewrite (proj1 (proj2 Hs) : bool_decide (encoding o = 0) = true).
    f_equal. destruct Hc as (_ & _ & Hc). simpl in Hc. by rewrite decide_True by lia.
  - intros l o n h Hl _ He Hp. simpl. rewrite Hl, (He : encoding o = 1), Hp. simpl.
    destruct (string_object_new_spec (dec n) (zlen (dec n)) h) as (l' & o' & E & Hno & Hs & Hr); [unfold zlen; lia|].
    exists l', o'. split; [exact E|]. split; [exact Hno|]. split; [|exact Hr].
    unfold zlen in Hs. by rewrite Nat2Z.id, firstn_all in Hs.
Qed.

Definition ex_keys : heap :=
  {[ 1%positive := mk_object 0 0 1 0 (PSds (bs "42")); 2%positive := mk_object 0 1 1 0 (PInt 42) ]}.

Lemma encoded_keys_contract_witness :
  (exists r, dict_encode_object_key_compare 1 2 ex_keys = Done (r, ex_keys) /\ (r <> 0 <-> bs "42" = bs "42"))
  /\ exists x, dict_encode_object_hash 1 ex_keys = Done x /\ dict_encode_object_hash 2 ex_keys = Done x.
Proof.
  destruct (encoded_keys_contract 1 2 (mk_object 0 0 1 0 (PSds (bs "42"))) (mk_object 0 1 1 0 (PInt 42))
    (bs "42") (bs "42") ex_keys) as [Hc Hh].
  - reflexivity.
  - reflexivity.
  - apply text_string; [done|done|]. unfold counted. vm_compute. auto.
  - apply (text_int _ _ 42); [done|done|done|lia|by vm_compute|by vm_compute].
  - split; [exact Hc|by apply Hh].
Defined.
