(* ===== verification/DictTypes.v ===== *)
(** * The types of the dictionaries (src/redis/db.c, src/redis/module.c,
    src/redis/server.c, src/commands/command_manager.c, src/experiment/metric.c)

    Every dictionary of the server is created with a table of callbacks.  The
    other files describe a dictionary by the equality of its keys ([key_cmp]) and
    the destructor of its values; this file models the tables themselves and
    shows that they are of that kind: the comparison of a table decides the
    equality the dictionary is described with, and equal keys have equal
    hashes.  The tables of a database are in Db.v. *)

From Stdlib Require Import QArith.
From S2P Require Import Prelude LatteC LatteCModel KvStore State Db ObjectDict.

#[local] Open Scope Z_scope.

(** ** The callbacks *)

Inductive hash_function :=
  | dict_sds_hash_f | dict_sds_case_hash_f | dict_char_hash_f       (* dict/dict_plugins.h *)
  | dict_cstring_key_hash_f | dict_object_hash_f | dict_encode_object_hash_f.

Inductive compare_function :=
  | dict_sds_key_compare_f | dict_sds_key_case_compare_f | dict_char_key_compare_f
  | dict_cstring_key_compare_f | dict_object_key_compare_f | dict_encode_object_key_compare_f.

Inductive destructor :=
  | dict_sds_destructor_f | dict_object_destructor_f | dict_list_destructor_f | dict_delete_metric_entry_f.

(** A table; NULL is [None] or [false]. *)
Record dict_type := mk_dict_type {
  hashFunction : hash_function;
  keyDup : bool;                         (* [dict_sds_dup], the only one in use *)
  valDup : bool;
  keyCompare : compare_function;
  keyDestructor : option destructor;
  valueDestructor : option destructor;
  resizeAllowed : bool;                  (* [dict_resize_allowed] *)
  dictEntryMetadataBytes : bool          (* [kv_store_dict_meta_data_size] *)
}.

(** ** The tables *)

Definition key_list_dict_type : dict_type :=
  mk_dict_type dict_object_hash_f false false dict_object_key_compare_f (Some dict_object_destructor_f)
    (Some dict_list_destructor_f) false false.

Definition object_key_pointer_value_dict_type : dict_type :=
  mk_dict_type dict_encode_object_hash_f false false dict_encode_object_key_compare_f
    (Some dict_object_destructor_f) None false false.

Definition module_api_dict_type : dict_type :=
  mk_dict_type dict_cstring_key_hash_f false false dict_cstring_key_compare_f None None false false.

Definition modules_dict_type : dict_type :=
  mk_dict_type dict_sds_case_hash_f false false dict_sds_key_case_compare_f (Some dict_sds_destructor_f) None false false.

Definition command_table_dict_type : dict_type :=
  mk_dict_type dict_sds_case_hash_f false false dict_sds_key_case_compare_f (Some dict_sds_destructor_f) None false false.

(** Designated initialisers; the other members are NULL. *)
Definition metric_dict_type : dict_type :=
  mk_dict_type dict_char_hash_f false false dict_char_key_compare_f (Some dict_sds_destructor_f)
    (Some dict_delete_metric_entry_f) false false.

(** ** Resizing (src/redis/db.c) *)

Definition over_maxmemory_after_alloc (moremem : Z) : Z := 0.

Definition HASHTABLE_MAX_LOAD_FACTOR : Q := 1618 # 1000.

(** A double is a rational number here. *)
Definition dict_resize_allowed (more_mem : Z) (used_ratio : Q) : Z :=
  if Qle_bool used_ratio HASHTABLE_MAX_LOAD_FACTOR
  then if over_maxmemory_after_alloc more_mem =? 0 then 1 else 0
  else 1.

(** The hashes and comparisons of the library. *)
Class KeyFunctions := {
  dict_sds_hash : bytes -> Z;
  dict_sds_case_hash : bytes -> Z;
  dict_char_hash : bytes -> Z;
  dict_sds_key_case_compare : bytes -> bytes -> Z;
  dict_char_key_compare : bytes -> bytes -> Z
}.

Class KeyFunctionLaws {F : KeyFunctions} : Prop := {
  (** without regard to case *)
  dict_sds_case_hash_spec : forall a b, lower a = lower b -> dict_sds_case_hash a = dict_sds_case_hash b;
  (** of the bytes before the NUL *)
  dict_char_hash_spec : forall a b, cstr a = cstr b -> dict_char_hash a = dict_char_hash b;
  dict_sds_key_case_compare_spec : forall a b,
    dict_sds_key_case_compare a b <> 0 <-> lower (cstr a) = lower (cstr b);
  dict_char_key_compare_spec : forall a b, dict_char_key_compare a b <> 0 <-> cstr a = cstr b
}.

Section DictTypes.
Context {L : LatteC} {K : ObjectKeyOps} {F : KeyFunctions}.

(** *** Keys that are C strings (src/redis/module.c) *)

Definition dict_cstring_key_hash (key : bytes) : Z :=
  dict_gen_hash_function (take (Z.to_nat (strlen key)) key).

Definition dict_cstring_key_compare (key1 key2 : bytes) : Z := if strcmp_eq key1 key2 then 1 else 0.

(** ** Keys that are strings *)

Definition hash_string (f : hash_function) (key : bytes) : option Z :=
  match f with
  | dict_sds_hash_f => Some (dict_sds_hash key)
  | dict_sds_case_hash_f => Some (dict_sds_case_hash key)
  | dict_char_hash_f => Some (dict_char_hash key)
  | dict_cstring_key_hash_f => Some (dict_cstring_key_hash key)
  | dict_object_hash_f | dict_encode_object_hash_f => None
  end.

Definition compare_strings (f : compare_function) (key1 key2 : bytes) : option Z :=
  match f with
  | dict_sds_key_compare_f => Some (dict_sds_key_compare key1 key2)
  | dict_sds_key_case_compare_f => Some (dict_sds_key_case_compare key1 key2)
  | dict_char_key_compare_f => Some (dict_char_key_compare key1 key2)
  | dict_cstring_key_compare_f => Some (dict_cstring_key_compare key1 key2)
  | dict_object_key_compare_f | dict_encode_object_key_compare_f => None
  end.

(** A table decides the equality [c] of strings, and its hash respects it. *)
Definition decides (t : dict_type) (c : key_cmp) : Prop :=
  forall a b, key_ok c a -> key_ok c b ->
  exists r x y, compare_strings (keyCompare t) a b = Some r /\ hash_string (hashFunction t) a = Some x
    /\ hash_string (hashFunction t) b = Some y
    /\ (r <> 0 <-> key_norm c a = key_norm c b) /\ (r <> 0 -> x = y).

(** ** Keys that are objects *)

Definition hash_object (f : hash_function) (key : loc) (h : heap) : option (outcome Z) :=
  match f with
  | dict_object_hash_f => Some (dict_object_hash key h)
  | dict_encode_object_hash_f => Some (dict_encode_object_hash key h)
  | _ => None
  end.

Definition compare_objects (f : compare_function) (key1 key2 : loc) (h : heap) : option (outcome (Z * heap)) :=
  match f with
  | dict_object_key_compare_f => Some (r ← dict_object_key_compare key1 key2 h; Done (r, h))
  | dict_encode_object_key_compare_f => Some (dict_encode_object_key_compare key1 key2 h)
  | _ => None
  end.

(** A table decides the equality of the texts of string objects, leaves the
    store as it is, and its hash respects it. *)
Definition decides_texts (t : dict_type) : Prop :=
  forall k1 k2 o1 o2 t1 t2 h, h !! k1 = Some o1 -> h !! k2 = Some o2 ->
  string_obj o1 t1 -> string_obj o2 t2 -> key_text o1 t1 -> key_text o2 t2 ->
  exists r x y, compare_objects (keyCompare t) k1 k2 h = Some (Done (r, h))
    /\ hash_object (hashFunction t) k1 h = Some (Done x) /\ hash_object (hashFunction t) k2 h = Some (Done y)
    /\ (r <> 0 <-> t1 = t2) /\ (r <> 0 -> x = y).

Context {LL : LatteCLaws} {KL : ObjectKeyLaws} {FL : KeyFunctionLaws}.

Lemma dict_cstring_key_hash_ok (key : bytes) : dict_cstring_key_hash key = dict_gen_hash_function (cstr key).
Proof.
  unfold dict_cstring_key_hash, strlen, zlen. rewrite Nat2Z.id. f_equal.
  destruct (cstr_prefix key) as (t & E). rewrite E at 2. apply take_app_length.
Qed.

Lemma dict_cstring_key_compare_ok (a b : bytes) : dict_cstring_key_compare a b <> 0 <-> cstr a = cstr b.
Proof. unfold dict_cstring_key_compare, strcmp_eq. by case_bool_decide. Qed.

(** Resizing is always allowed: there is no memory limit. *)
Lemma dict_resize_always (more_mem : Z) (used_ratio : Q) : dict_resize_allowed more_mem used_ratio = 1.
Proof. unfold dict_resize_allowed. by destruct (Qle_bool _ _). Qed.

Lemma case_tables_decide (t : dict_type) :
  hashFunction t = dict_sds_case_hash_f -> keyCompare t = dict_sds_key_case_compare_f -> decides t SdsCaseCompare.
Proof.
  intros Eh Ec a b Ha Hb. rewrite Eh, Ec. do 3 eexists. split_and!; [reflexivity..|apply dict_sds_key_case_compare_spec|].
  intros H%dict_sds_key_case_compare_spec. rewrite !cstr_line in H by done. by apply dict_sds_case_hash_spec.
Qed.

Lemma raw_keys_decide : decides_texts key_list_dict_type.
Proof.
  intros k1 k2 o1 o2 t1 t2 h H1 H2 S1 S2 _ _. unfold compare_objects, hash_object. simpl.
  unfold dict_object_key_compare, dict_object_hash, ptr_bytes. rewrite H1, H2. cbn [deref mbind outcome_bind].
  destruct S1 as (_ & _ & ->), S2 as (_ & _ & ->). cbn [mbind outcome_bind].
  do 3 eexists. split_and!; [reflexivity..|apply dict_sds_key_compare_spec|]. by intros ->%dict_sds_key_compare_spec.
Qed.

Lemma encoded_keys_decide : decides_texts object_key_pointer_value_dict_type.
Proof.
  intros k1 k2 o1 o2 t1 t2 h H1 H2 S1 S2 T1 T2. unfold compare_objects, hash_object. simpl.
  destruct (encode_compare_ok k1 k2 o1 o2 t1 t2 h H1 H2 T1 T2) as (r & -> & Hr).
  rewrite (encode_hash_ok k1 o1 t1 h H1 T1), (encode_hash_ok k2 o2 t2 h H2 T2).
  do 3 eexists. split_and!; [reflexivity..|done|]. by intros ->%Hr.
Qed.

(** In each table the comparison decides exactly the equality of keys the
    dictionary is used with, and keys that are equal have equal hashes. *)
Lemma dict_types_decide :
  decides command_table_dict_type SdsCaseCompare /\ decides modules_dict_type SdsCaseCompare
  /\ decides module_api_dict_type CStringCompare /\ decides metric_dict_type CStringCompare
  /\ decides_texts key_list_dict_type /\ decides_texts object_key_pointer_value_dict_type.
Proof.
  split; [by apply case_tables_decide|]. split; [by apply case_tables_decide|]. split_and!.
  - intros a b _ _. simpl. do 3 eexists. split_and!; [reflexivity..|apply dict_cstring_key_compare_ok|].
    intros E%dict_cstring_key_compare_ok. by rewrite !dict_cstring_key_hash_ok, E.
  - intros a b _ _. simpl. do 3 eexists. split_and!; [reflexivity..|apply dict_char_key_compare_spec|].
    intros E%dict_char_key_compare_spec. by apply dict_char_hash_spec.
  - apply raw_keys_decide.
  - apply encoded_keys_decide.
Qed.
End DictTypes.

(** ** Functions with these laws *)

#[local] Instance model_key_functions : KeyFunctions := {|
  dict_sds_hash s := zlen s;
  dict_sds_case_hash s := zlen (lower s);
  dict_char_hash s := zlen (cstr s);
  dict_sds_key_case_compare a b := if strcasecmp_eq a b then 1 else 0;
  dict_char_key_compare a b := if strcmp_eq a b then 1 else 0
|}.

#[local] Instance model_key_functions_laws : KeyFunctionLaws.
Proof.
  split; simpl.
  - by intros a b ->.
  - by intros a b ->.
  - intros a b. unfold strcasecmp_eq. by case_bool_decide.
  - intros a b. unfold strcmp_eq. by case_bool_decide.
Qed.
