(* ===== verification/Reply.v ===== *)
(** * Replies (src/redis/client_reply.c, src/shared/shared.c)

    The functions that build the reply of a command, on top of the library's
    [add_reply_proto], including the deferred array length of HELP replies. *)

From S2P Require Import Prelude LatteC LatteCModel KvStore State Db.

Section Reply.
Context {L : LatteC}.

Definition OBJ_SHARED_BULKHDR_LEN : Z := 32.

(** ** Shared objects *)

(** The loop that fills [shared.mbulkhdr] and [shared.bulkhdr] from index [j]. *)
Fixpoint new_headers (n : nat) (j : Z) (h : heap) : list loc * list loc * heap :=
  match n with
  | O => ([], [], h)
  | S n =>
      let '(lm, h) := latte_object_new OBJ_STRING
        (sds_cat_printf sds_empty ("*"%char :: dec j ++ CRLF)) h in
      let '(lb, h) := latte_object_new OBJ_STRING
        (sds_cat_printf sds_empty ("$"%char :: dec j ++ CRLF)) h in
      let '(ms, ls, h) := new_headers n (j + 1) h in
      (lm :: ms, lb :: ls, h)
  end.

Definition init_shared_objects (h : heap) : shared_objects_t * heap :=
  let '(crlf, h) := latte_object_new OBJ_STRING (sds_new CRLF) h in
  let '(ok, h) := latte_object_new OBJ_STRING (sds_new (bs "+OK" ++ CRLF)) h in
  let '(pong, h) := latte_object_new OBJ_STRING (sds_new (bs "+PONG" ++ CRLF)) h in
  let '(wrong, h) := latte_object_new OBJ_STRING
    (sds_new (bs "-WRONGTYPE Operation against a key holding the wrong kind of value" ++ CRLF)) h in
  let '(mb, b, h) := new_headers (Z.to_nat OBJ_SHARED_BULKHDR_LEN) 0 h in
  (mk_shared crlf ok pong wrong mb b, h).

(** ** Plain replies *)

Definition prepare_client_to_write (c : redis_client_t) : Z := 0.

(** [add_reply_proto(c, s, len)] on the client being served. *)
Definition reply_proto (s : bytes) : M unit :=
  mod_latte_client (fun lc => add_reply_proto lc s).

(** The [len] bytes at [s]. *)
Definition add_reply_error_length (s : bytes) : M unit :=
  _ ← (if (zlen s =? 0) || negb (bool_decide (head s = Some "-"%char))
       then reply_proto (bs "-ERR ") else mret tt);
  _ ← reply_proto s;
  reply_proto CRLF.

Definition add_reply_error (err : bytes) : M unit := add_reply_error_length (cstr err).

(** [text] is what [vprintf(fmt, ap)] produces. *)
Definition add_reply_error_format (text : bytes) : M unit :=
  let s := sds_cat_printf sds_empty text in
  let s := sds_trim s CRLF in
  let s := sds_map_chars s CRLF [SP; SP] in
  add_reply_error_length (take (Z.to_nat (sds_len s)) s).

Definition add_reply (l : loc) : M unit :=
  c ← get_client;
  if negb (prepare_client_to_write c =? 0) then mret tt
  else
    obj ← read_obj l;
    if sds_encoded_object obj then
      s ← lift (ptr_bytes obj);
      reply_proto (take (Z.to_nat (sds_len s)) s)
    else if encoding obj =? OBJ_ENCODING_INT then
      match ptr obj with
      | PInt n => reply_proto (ll2string n)
      | _ => fail UninitRead
      end
    else fail (Panicked "Wrong obj->encoding in addReply()").

Definition add_reply_long_long_with_prefix (ll : Z) (prefix : ascii) : M unit :=
  sh ← gets w_shared;
  if bool_decide (prefix = "*"%char) && (ll <? OBJ_SHARED_BULKHDR_LEN) && (0 <=? ll) then
    l ← lift (array_get (sh_mbulkhdr sh) ll); add_reply l
  else if bool_decide (prefix = "$"%char) && (ll <? OBJ_SHARED_BULKHDR_LEN) && (0 <=? ll) then
    l ← lift (array_get (sh_bulkhdr sh) ll); add_reply l
  else reply_proto (prefix :: ll2string ll ++ CRLF).

Definition add_reply_bulk_len (l : loc) : M unit :=
  obj ← read_obj l;
  add_reply_long_long_with_prefix (string_object_len obj) "$"%char.

Definition add_reply_bulk (l : loc) : M unit :=
  _ ← add_reply_bulk_len l;
  _ ← add_reply l;
  sh ← gets w_shared;
  add_reply (sh_crlf sh).

Definition add_reply_status_length (s : bytes) : M unit :=
  _ ← reply_proto (bs "+");
  _ ← reply_proto s;
  reply_proto CRLF.

(** [text] is what [vprintf(fmt, ap)] produces. *)
Definition add_reply_status_format (text : bytes) : M unit :=
  let s := sds_cat_printf sds_empty text in
  add_reply_status_length (take (Z.to_nat (sds_len s)) s).

Definition add_reply_status (status : bytes) : M unit := add_reply_status_length (cstr status).

(** ** Deferred lengths *)

Definition get_client_output_buffer_memory_usage (c : redis_client_t) : Z :=
  let list_item_size := sizeof_list_node + sizeof_reply_block in
  u64 (reply_bytes c + u64 (list_item_size * list_length (reply (client c)))).

Definition trim_reply_unused_tail_space : M unit :=
  c ← get_client;
  let l := reply (client c) in
  match list_last l with
  | None => mret tt
  | Some ln =>
      v ← lift (deref (list_node_value l ln));
      match v with
      | None => mret tt
      | Some tail =>
          if (Z.quot (crb_size tail) 4 <? u64 (crb_size tail - crb_used tail))
             && (crb_used tail <? PROTO_REPLY_CHUNK_BYTES) then
            let old_size := crb_size tail in
            let new_size := u64 (zmalloc_usable (crb_used tail + sizeof_reply_block) - sizeof_reply_block) in
            let tail := mk_block new_size (crb_used tail) (crb_buf tail) in
            put_client (set_client (set_reply_bytes c (u64 (reply_bytes c + new_size - old_size)))
              (set_reply (client c) (list_node_set l ln (Some tail))))
          else mret tt
      end
  end.

Definition add_reply_deferred_len : M (option list_node_t) :=
  c ← get_client;
  if negb (prepare_client_to_write c =? 0) then mret None
  else
    _ ← trim_reply_unused_tail_space;
    _ ← mod_latte_client (fun lc => set_reply lc (list_add_node_tail (reply lc) None));
    c ← get_client;
    mret (list_last (reply (client c))).

Abbreviation reply_list := (list_t (option client_reply_block_t)).

(** The block of a neighbour node, when there is one and it is not NULL. *)
Definition neighbour (l : reply_list) (on : option list_node_t)
    : option (list_node_t * client_reply_block_t) :=
  match on with
  | None => None
  | Some n => match list_node_value l n with Some (Some b) => Some (n, b) | _ => None end
  end.

(** First part of [set_deferred_reply]: copy as much as fits behind the data
    of the previous block; [None] when the previous block is not used. *)
Definition deferred_into_prev (l : reply_list) (ln : list_node_t) (s : bytes)
    : option (reply_list * bytes) :=
  match neighbour l (list_node_prev l ln) with
  | Some (pn, prev) =>
      let room := u64 (crb_size prev - crb_used prev) in
      if 0 <? room then
        let len_to_copy := if zlen s <? room then zlen s else room in
        let prev := mk_block (crb_size prev) (u64 (crb_used prev + len_to_copy))
          (take (Z.to_nat (crb_used prev)) (crb_buf prev) ++ take (Z.to_nat len_to_copy) s) in
        Some (list_node_set l pn (Some prev), drop (Z.to_nat len_to_copy) s)
      else None
  | None => None
  end.

(** Second part: in front of the data of the next block when it has room and
    is not too large, else a new block in the placeholder node. The result is
    the list and what is added to [reply_bytes]. *)
Definition deferred_into_next (l : reply_list) (ln : list_node_t) (s : bytes) : reply_list * Z :=
  let length := zlen s in
  let fresh_block :=
    let size := u64 (zmalloc_usable (length + sizeof_reply_block) - sizeof_reply_block) in
    (list_node_set l ln (Some (mk_block size length s)), size) in
  match neighbour l (list_node_next l ln) with
  | Some (nn, next) =>
      if (length <=? u64 (crb_size next - crb_used next))
         && (crb_used next <? PROTO_REPLY_CHUNK_BYTES * 4) then
        let next := mk_block (crb_size next) (u64 (crb_used next + length))
          (s ++ take (Z.to_nat (crb_used next)) (crb_buf next)) in
        (fst (list_del_node (fun _ (u : unit) => u) (list_node_set l nn (Some next)) ln tt), 0)
      else fresh_block
  | None => fresh_block
  end.

Definition set_deferred_reply (node : option list_node_t) (s : bytes) : M unit :=
  match node with
  | None => mret tt
  | Some ln =>
      c ← get_client;
      let l := reply (client c) in
      v ← lift (deref (list_node_value l ln));
      _ ← lift (latte_assert (bool_decide (v = None)) "!list_node_value(ln)");
      match deferred_into_prev l ln s with
      | Some (l', []) =>
          put_client (set_client c (set_reply (client c)
            (fst (list_del_node (fun _ (u : unit) => u) l' ln tt))))
      | Some (l', s') =>
          let '(l', n) := deferred_into_next l' ln s' in
          put_client (set_client (set_reply_bytes c (u64 (reply_bytes c + n)))
            (set_reply (client c) l'))
      | None =>
          let '(l', n) := deferred_into_next l ln s in
          put_client (set_client (set_reply_bytes c (u64 (reply_bytes c + n)))
            (set_reply (client c) l'))
      end
  end.

Definition set_deferred_aggregate_len (node : option list_node_t) (length : Z) (prefix : ascii) : M unit :=
  _ ← lift (latte_assert (0 <=? length) "length >= 0");
  match node with
  | None => mret tt
  | Some _ => set_deferred_reply node (prefix :: dec length ++ CRLF)
  end.

Definition set_deferred_array_len (node : option list_node_t) (length : Z) : M unit :=
  set_deferred_aggregate_len node length "*"%char.

(** [while (help[blen]) add_reply_status(c, help[blen++])] on the lines from
    [blen] on; the result is [blen], an [int]. *)
Fixpoint reply_help_lines (lines : list bytes) (blen : Z) : M Z :=
  match lines with
  | [] => mret blen
  | s :: lines =>
      blen ← lift (checked_i32 (blen + 1));
      _ ← add_reply_status s;
      reply_help_lines lines blen
  end.

(** [help] is the NULL-terminated array of lines. *)
Definition add_reply_help (help : list bytes) : M unit :=
  c ← get_client;
  l ← lift (argv_at c 0);
  o ← read_obj l;
  name ← lift (ptr_bytes o);
  let cmd := sds_new name in
  blenp ← add_reply_deferred_len;
  let cmd := sds_to_upper cmd in
  _ ← add_reply_status_format (cstr cmd ++
        bs " <subcommand> [<arg> [value] [opt] ...]. Subcommands are:");
  blen ← reply_help_lines help 0;
  _ ← add_reply_status (bs "HELP");
  _ ← add_reply_status (bs "   Prints this help.");
  blen ← lift (checked_i32 (blen + 1));
  blen ← lift (checked_i32 (blen + 2));
  set_deferred_array_len blenp blen.

(** ** Specification: what a function adds to the output *)

(** The list ends in a hole and the blocks behind it. *)
Definition hole_after (r1 r : list (option client_reply_block_t)) : Prop :=
  exists bs, r = r1 ++ None :: map Some bs.

(** [lc'] is [lc] with the text [s] appended to its output. *)
Record out_step (lc lc' : latte_client_t client_priv_t) (s : bytes) : Prop := {
  out_segs : client_segs lc' = append_last (client_segs lc) s;
  out_holes : forall r1, hole_after r1 (list_elems (reply lc)) -> hole_after r1 (list_elems (reply lc'));
  out_ok : reply_ok (list_elems (reply lc)) -> reply_ok (list_elems (reply lc'));
  out_nodes : forall n i, list_node_pos (reply lc) n = Some i -> list_node_pos (reply lc') n = Some i;
  out_querybuf : querybuf lc' = querybuf lc;
  out_qb_pos : qb_pos lc' = qb_pos lc;
  out_cflags : cflags lc' = cflags lc;
  out_conn : conn lc' = conn lc;
  out_start_time : start_time lc' = start_time lc;
  out_end_time : end_time lc' = end_time lc
}.

(** The client being served, after its output changed. *)
Definition with_output (w : world) (lc : latte_client_t client_priv_t) : world :=
  set_w_client w (set_client (w_client w) lc).

(** [w] in which the client has the counter [n] of reply bytes as well. *)
Definition with_bytes (w : world) (n : Z) (lc : latte_client_t client_priv_t) : world :=
  set_w_client w (set_client (set_reply_bytes (w_client w) n) lc).

(** What a whole reply does to the part of the client that the library owns. *)
Record replied (lc lc' : latte_client_t client_priv_t) (s : bytes) : Prop := {
  rp_segs : client_segs lc' = append_last (client_segs lc) s;
  rp_ok : reply_ok (list_elems (reply lc)) -> reply_ok (list_elems (reply lc'));
  rp_querybuf : querybuf lc' = querybuf lc;
  rp_qb_pos : qb_pos lc' = qb_pos lc;
  rp_cflags : cflags lc' = cflags lc
}.

Lemma out_replied (lc lc' : latte_client_t client_priv_t) (s : bytes) : out_step lc lc' s -> replied lc lc' s.
Proof. by intros []. Qed.

Lemma with_output_bytes (w : world) (lc : latte_client_t client_priv_t) :
  with_output w lc = with_bytes w (reply_bytes (w_client w)) lc.
Proof. unfold with_output, with_bytes. by destruct (w_client w). Qed.

Definition output (w : world) : list bytes := client_segs (client (w_client w)).

(** [m] completes in [w], appends [s] to the output of the client and changes
    nothing else. *)
Definition writes (m : M unit) (w : world) (s : bytes) : Prop :=
  exists lc, m w = Done (tt, with_output w lc) /\ out_step (client (w_client w)) lc s.

(** The shared objects hold the texts they are named after. *)
Definition holds (h : heap) (l : loc) (s : bytes) : Prop :=
  exists o, h !! l = Some o /\ string_obj o s.

Record shared_ok (sh : shared_objects_t) (h : heap) : Prop := {
  ok_crlf : holds h (sh_crlf sh) CRLF;
  ok_ok : holds h (sh_ok sh) (bs "+OK" ++ CRLF);
  ok_pong : holds h (sh_pong sh) (bs "+PONG" ++ CRLF);
  ok_wrongtype : holds h (sh_wrongtypeerr sh)
    (bs "-WRONGTYPE Operation against a key holding the wrong kind of value" ++ CRLF);
  ok_mbulkhdr : forall j, 0 <= j < OBJ_SHARED_BULKHDR_LEN -> exists l,
    array_get (sh_mbulkhdr sh) j = Done l /\ holds h l ("*"%char :: dec j ++ CRLF);
  ok_bulkhdr : forall j, 0 <= j < OBJ_SHARED_BULKHDR_LEN -> exists l,
    array_get (sh_bulkhdr sh) j = Done l /\ holds h l ("$"%char :: dec j ++ CRLF)
}.

Context {LL : LatteCLaws}.

Lemma reply_grows_hole (r r' : list (option client_reply_block_t)) :
  reply_grows r r' -> forall r1, hole_after r1 r -> hole_after r1 r'.
Proof.
  intros [[l ->]|(r0 & b & b' & l & -> & ->)] r1 [k Hk].
  - exists (k ++ l). rewrite Hk, map_app, <- app_assoc. done.
  - destruct k as [|x k _] using rev_ind.
    { simpl in Hk. apply app_inj_tail in Hk as [_ Hk]. done. }
    rewrite map_app, app_comm_cons, app_assoc in Hk. simpl in Hk.
    apply app_inj_tail in Hk as [-> _].
    exists (k ++ b' :: l). rewrite map_app, <- app_assoc. done.
Qed.

Lemma out_step_proto (lc : latte_client_t client_priv_t) (s : bytes) :
  out_step lc (add_reply_proto lc s) s.
Proof.
  destruct (add_reply_proto_frame lc s) as (?&?&?&?&?&?).
  split; auto.
  - apply add_reply_proto_segs.
  - intros r1. apply reply_grows_hole, add_reply_proto_grows.
  - apply add_reply_proto_ok.
  - intros n i. apply add_reply_proto_nodes.
Qed.

Lemma out_step_nil (lc : latte_client_t client_priv_t) : out_step lc lc [].
Proof. split; auto. rewrite append_last_nil; auto with latte. Qed.

Lemma out_step_trans (a b c : latte_client_t client_priv_t) (s t : bytes) :
  out_step a b s -> out_step b c t -> out_step a c (s ++ t).
Proof.
  intros Ha Hb. destruct Ha, Hb. split; auto; try congruence.
  rewrite out_segs1, out_segs0, append_last_app; auto with latte.
Qed.

Lemma with_output_idem (w : world) (a b : latte_client_t client_priv_t) :
  with_output (with_output w a) b = with_output w b.
Proof. by destruct w as [? ? ? [] ?]. Qed.

Lemma with_output_same (w : world) : with_output w (client (w_client w)) = w.
Proof. by destruct w as [? ? ? [] ?]. Qed.

Lemma writes_proto (w : world) (s : bytes) : writes (reply_proto s) w s.
Proof. eexists. split; [reflexivity|]. apply out_step_proto. Qed.

Lemma writes_ret (w : world) : writes (mret tt) w [].
Proof.
  exists (client (w_client w)). rewrite with_output_same. split; [done|]. apply out_step_nil.
Qed.

Lemma writes_bind (m k : M unit) (w : world) (s t : bytes) :
  writes m w s -> (forall lc, writes k (with_output w lc) t) ->
  writes (_ ← m; k) w (s ++ t).
Proof.
  intros (lc & Hm & Hs) Hk. destruct (Hk lc) as (lc' & Hk' & Ht).
  exists lc'. unfold mbind, M_bind. rewrite Hm, Hk', with_output_idem.
  split; [done|]. eapply out_step_trans; [done|]. done.
Qed.

(** A read of the state in front of a writing block. *)
Lemma writes_read {A} (r : M A) (k : A -> M unit) (w : world) (a : A) (s : bytes) :
  r w = Done (a, w) -> writes (k a) w s -> writes (x ← r; k x) w s.
Proof. intros Hr (lc & E & ?). exists lc. unfold mbind, M_bind. by rewrite Hr. Qed.

Lemma read_obj_holds (w : world) (l : loc) (o : latte_object_t) :
  w_heap w !! l = Some o -> read_obj l w = Done (o, w).
Proof. unfold read_obj. by intros ->. Qed.

Lemma writes_error_length (w : world) (s : bytes) :
  writes (add_reply_error_length s) w
    ((if bool_decide (head s = Some "-"%char) then [] else bs "-ERR ") ++ s ++ CRLF).
Proof.
  apply writes_bind; [|intros lc; apply writes_bind; [|intros ?]; apply writes_proto].
  destruct s as [|c s]; [apply writes_proto|].
  rewrite zlen_cons. replace (1 + zlen s =? 0) with false by (pose proof (zlen_nonneg s); lia).
  simpl. case_bool_decide; [apply writes_ret|apply writes_proto].
Qed.

Lemma writes_add_reply (w : world) (l : loc) (s : bytes) :
  holds (w_heap w) l s -> writes (add_reply l) w s.
Proof.
  intros (o & Hl & Ho & He & Hp). unfold add_reply.
  eapply writes_read; [reflexivity|]. simpl.
  eapply writes_read; [by apply read_obj_holds|]. rewrite He.
  eapply writes_read; [unfold lift, ptr_bytes; by rewrite Hp|].
  rewrite sds_len_spec. unfold zlen. rewrite Nat2Z.id, firstn_all. apply writes_proto.
Qed.

Lemma writes_long_long (w : world) (ll : Z) (prefix : ascii) :
  shared_ok (w_shared w) (w_heap w) -> - 2 ^ 63 <= ll < 2 ^ 63 ->
  writes (add_reply_long_long_with_prefix ll prefix) w (prefix :: dec ll ++ CRLF).
Proof.
  intros [_ _ _ _ Hm Hb] Hll. unfold add_reply_long_long_with_prefix.
  eapply writes_read; [reflexivity|]. simpl.
  assert (Hp : writes (reply_proto (prefix :: ll2string ll ++ CRLF)) w (prefix :: dec ll ++ CRLF)).
  { rewrite ll2string_spec by done. apply writes_proto. }
  destruct (Z.ltb_spec ll OBJ_SHARED_BULKHDR_LEN) as [Hlt|]; [|by rewrite !andb_false_r].
  destruct (Z.leb_spec 0 ll) as [Hge|]; [|by rewrite !andb_false_r].
  rewrite !andb_true_r. repeat case_bool_decide; subst; [| |done].
  - destruct (Hm ll) as (l & Hl & Hh); [lia|].
    eapply writes_read; [unfold lift; by rewrite Hl|]. by apply writes_add_reply.
  - destruct (Hb ll) as (l & Hl & Hh); [lia|].
    eapply writes_read; [unfold lift; by rewrite Hl|]. by apply writes_add_reply.
Qed.

Lemma writes_status_length (w : world) (s : bytes) :
  writes (add_reply_status_length s) w ("+"%char :: s ++ CRLF).
Proof.
  change ("+"%char :: s ++ CRLF) with (bs "+" ++ s ++ CRLF).
  apply writes_bind; [|intros lc; apply writes_bind; [|intros ?]]; apply writes_proto.
Qed.

Lemma writes_status (w : world) (s : bytes) :
  writes (add_reply_status s) w ("+"%char :: cstr s ++ CRLF).
Proof. apply writes_status_length. Qed.

Lemma take_sds_len (s : bytes) : take (Z.to_nat (sds_len s)) s = s.
Proof. rewrite sds_len_spec. unfold zlen. by rewrite Nat2Z.id, firstn_all. Qed.

Lemma writes_bulk (w : world) (l : loc) (s : bytes) :
  shared_ok (w_shared w) (w_heap w) -> holds (w_heap w) l s -> zlen s < 2 ^ 63 ->
  writes (add_reply_bulk l) w ("$"%char :: dec (zlen s) ++ CRLF ++ s ++ CRLF).
Proof.
  intros Hsh Hl Hs. pose proof (zlen_nonneg s) as Hz.
  replace ("$"%char :: dec (zlen s) ++ CRLF ++ s ++ CRLF)
    with (("$"%char :: dec (zlen s) ++ CRLF) ++ s ++ CRLF) by (simpl; by rewrite <- app_assoc).
  apply writes_bind; [|intros lc; apply writes_bind; [|intros lc']].
  - pose proof Hl as (o & Ho & Hso).
    eapply writes_read; [by apply read_obj_holds|].
    rewrite (string_object_len_spec o s) by done.
    apply writes_long_long; [done|]. lia.
  - by apply writes_add_reply.
  - eapply writes_read; [reflexivity|]. apply writes_add_reply. apply Hsh.
Qed.

(** *** Formatted errors *)

Lemma map_chars_line (s : bytes) : Forall line_byte (map (map_char CRLF [SP; SP]) s).
Proof.
  apply Forall_map, Forall_forall. intros c _. simpl.
  repeat case_bool_decide; split; done.
Qed.

Lemma map_chars_id (s : bytes) : Forall line_byte s -> map (map_char CRLF [SP; SP]) s = s.
Proof.
  induction 1 as [|c s [H1 H2] Hs IH]; [done|]. cbn [map]. rewrite IH. simpl.
  by rewrite !bool_decide_false.
Qed.

Lemma trim_line (s : bytes) : Forall line_byte s -> sds_trim s CRLF = s.
Proof.
  intros Hs. destruct (sds_trim_spec s CRLF) as (p & q & E & Hp & Hq & _).
  set (t := sds_trim s CRLF) in *. clearbody t. subst s.
  rewrite !Forall_app in Hs. destruct Hs as (Hlp & _ & Hlq).
  assert (Hnil : forall l, Forall line_byte l -> Forall (fun c => c ∈ CRLF) l -> l = []).
  { intros [|c l] Hl Hc; [done|]. inversion Hl as [|? ? [H1 H2] _]; subst. inversion Hc as [|? ? Hin _]; subst.
    unfold CRLF in Hin. rewrite !elem_of_cons in Hin. destruct Hin as [|[|Hin]]; [done..|].
    by apply elem_of_nil in Hin. }
  rewrite (Hnil p), (Hnil q) by done. simpl. by rewrite app_nil_r.
Qed.

(** What the client reads of a formatted error. *)
Definition error_line (s : bytes) : bytes :=
  (if bool_decide (head s = Some "-"%char) then [] else bs "-ERR ") ++ s ++ CRLF.

Lemma writes_error_format (w : world) (text : bytes) :
  exists s, Forall line_byte s /\ (Forall line_byte text -> s = text)
    /\ writes (add_reply_error_format text) w (error_line s).
Proof.
  exists (sds_map_chars (sds_trim text CRLF) CRLF [SP; SP]).
  rewrite sds_map_chars_spec. split; [apply map_chars_line|]. split.
  - intros Ht. by rewrite trim_line, map_chars_id.
  - unfold add_reply_error_format. rewrite take_sds_len, sds_cat_printf_spec, sds_empty_spec.
    rewrite sds_map_chars_spec. apply writes_error_length.
Qed.

(** *** The shared objects *)

Lemma holds_new (h : heap) (s t : bytes) (l l' : loc) (h' : heap) :
  latte_object_new OBJ_STRING t h = (l', h') -> holds h l s -> holds h' l s.
Proof.
  intros E (o & Hl & Ho). destruct (latte_object_new_spec t h) as (l2 & o2 & E2 & Hn & _).
  rewrite E in E2. injection E2 as -> ->. exists o. split; [|done].
  by rewrite lookup_insert_ne by congruence.
Qed.

Lemma new_holds (h h' : heap) (s : bytes) (l : loc) :
  latte_object_new OBJ_STRING s h = (l, h') -> holds h' l s.
Proof.
  intros E. destruct (latte_object_new_spec s h) as (l2 & o2 & E2 & Hn & Ho & _).
  rewrite E in E2. injection E2 as -> ->. exists o2. by rewrite lookup_insert_eq.
Qed.

Lemma new_headers_ok (n : nat) (j : Z) (h h' : heap) (ms ls : list loc) :
  new_headers n j h = (ms, ls, h') ->
  (forall l s, holds h l s -> holds h' l s)
  /\ (forall i, (i < n)%nat -> exists lm lb, ms !! i = Some lm /\ ls !! i = Some lb
      /\ holds h' lm ("*"%char :: dec (j + Z.of_nat i) ++ CRLF)
      /\ holds h' lb ("$"%char :: dec (j + Z.of_nat i) ++ CRLF)).
Proof.
  revert j h ms ls. induction n as [|n IH]; intros j h ms ls; simpl.
  { intros [= <- <- <-]. split; [done|]. lia. }
  rewrite !sds_cat_printf_spec, sds_empty_spec. simpl.
  destruct (latte_object_new _ _ h) as [lm h1] eqn:E1.
  destruct (latte_object_new _ _ h1) as [lb h2] eqn:E2.
  destruct (new_headers n (j + 1) h2) as [[ms' ls'] h3] eqn:E3. intros [= <- <- <-].
  destruct (IH _ _ _ _ E3) as [Hk Hi]. split.
  { intros l s Hl. eapply Hk, holds_new, holds_new; eauto. }
  intros [|i] Hlt; simpl.
  - exists lm, lb. rewrite Z.add_0_r. split_and!; try done; apply Hk.
    + eapply holds_new; [done|]. by eapply new_holds.
    + by eapply new_holds.
  - replace (j + Z.of_nat (S i)) with (j + 1 + Z.of_nat i) by lia. apply Hi. lia.
Qed.

Lemma init_shared_ok (h h' : heap) (sh : shared_objects_t) :
  init_shared_objects h = (sh, h') ->
  shared_ok sh h' /\ (forall l s, holds h l s -> holds h' l s).
Proof.
  unfold init_shared_objects. rewrite !sds_new_spec.
  repeat match goal with |- context [cstr ?s] => change (cstr s) with s end.
  destruct (latte_object_new _ _ h) as [l1 h1] eqn:E1.
  destruct (latte_object_new _ _ h1) as [l2 h2] eqn:E2.
  destruct (latte_object_new _ _ h2) as [l3 h3] eqn:E3.
  destruct (latte_object_new _ _ h3) as [l4 h4] eqn:E4.
  destruct (new_headers _ _ h4) as [[ms ls] h5] eqn:E5. intros [= <- <-].
  destruct (new_headers_ok _ _ _ _ _ _ E5) as [Hk Hi].
  assert (Hget : forall (j : Z) (l : list loc) x, 0 <= j -> l !! Z.to_nat j = Some x ->
    array_get l j = Done x) by (intros; by apply array_get_Done).
  split; [|by eauto 7 using holds_new].
  split; simpl; try (apply Hk; eauto 6 using holds_new, new_holds; fail).
  all: intros j Hj; destruct (Hi (Z.to_nat j)) as (lm & lb & Hm & Hb & ? & ?);
    [unfold OBJ_SHARED_BULKHDR_LEN in *; lia|]; rewrite !Z2Nat.id in * by lia.
  - exists lm. split; [by apply Hget; [lia|]|done].
  - exists lb. split; [by apply Hget; [lia|]|done].
Qed.

Lemma holds_mono (h h' : heap) (l : loc) (s : bytes) : h ⊆ h' -> holds h l s -> holds h' l s.
Proof. intros Hh (o & Ho & ?). exists o. split; [|done]. by eapply lookup_weaken. Qed.

Lemma shared_ok_mono (sh : shared_objects_t) (h h' : heap) :
  h ⊆ h' -> shared_ok sh h -> shared_ok sh h'.
Proof.
  intros Hh []. split; try (by eapply holds_mono); intros j Hj.
  - destruct (ok_mbulkhdr0 j Hj) as (l & ? & ?). exists l. eauto using holds_mono.
  - destruct (ok_bulkhdr0 j Hj) as (l & ? & ?). exists l. eauto using holds_mono.
Qed.

(** *** Filling a hole *)

(** Two outputs joined where a hole has been closed. *)
Definition glue (a b : list bytes) : list bytes :=
  match b with [] => a | x :: b' => append_last a x ++ b' end.

Lemma append_last_app_r (a b : list bytes) (s : bytes) :
  b <> [] -> append_last (a ++ b) s = a ++ append_last b s.
Proof.
  intros Hb. induction a as [|x a IH]; [done|].
  change ((x :: a) ++ b) with (x :: (a ++ b)). rewrite append_last_cons, IH; [done|].
  by destruct a.
Qed.

Lemma segs_cur (cur : bytes) (r : list (option client_reply_block_t)) :
  segs cur r = glue [cur] (segs [] r).
Proof.
  revert cur. induction r as [|[b|] r IH]; intros cur; simpl.
  - by rewrite app_nil_r.
  - rewrite (IH (cur ++ crb_buf b)), (IH (crb_buf b)).
    destruct (segs [] r); simpl; [done|]. by rewrite <- app_assoc.
  - by rewrite app_nil_r.
Qed.

Lemma segs_app (cur : bytes) (r1 r2 : list (option client_reply_block_t)) :
  segs cur (r1 ++ r2) = glue (segs cur r1) (segs [] r2).
Proof.
  revert cur. induction r1 as [|[b|] r1 IH]; intros cur; simpl.
  - apply segs_cur.
  - apply IH.
  - rewrite IH. pose proof (segs_nonempty r1 []). unfold glue.
    destruct (segs [] r2); [done|]. by rewrite append_last_cons.
Qed.

Lemma segs_hole (cur : bytes) (r1 r2 : list (option client_reply_block_t)) :
  segs cur (r1 ++ None :: r2) = segs cur r1 ++ segs [] r2.
Proof.
  revert cur. induction r1 as [|[b|] r1 IH]; intros cur; simpl; [done|apply IH|].
  f_equal. apply IH.
Qed.

Lemma glue_append (a b : list bytes) (s : bytes) :
  a <> [] -> b <> [] -> glue a (glue [s] b) = glue (append_last a s) b.
Proof.
  intros Ha Hb. destruct b as [|x b]; [done|]. simpl. by rewrite append_last_app.
Qed.

Lemma segs_grow_tail (cur t : bytes) (r : list (option client_reply_block_t))
    (p p' : client_reply_block_t) :
  crb_buf p' = crb_buf p ++ t ->
  segs cur (r ++ [Some p']) = append_last (segs cur (r ++ [Some p])) t.
Proof.
  intros E. rewrite !segs_app. simpl. rewrite !app_nil_r, E.
  rewrite append_last_app; auto with latte.
Qed.

(** The placeholder [ln] of a list: the blocks before and after it. *)
Definition placeholder (l : reply_list) (ln : list_node_t)
    (r1 r2 : list (option client_reply_block_t)) : Prop :=
  list_elems l = r1 ++ None :: r2 /\ list_node_pos l ln = Some (length r1).

Lemma block_room (b : client_reply_block_t) :
  block_ok b -> u64 (crb_size b - crb_used b) = crb_size b - crb_used b.
Proof. intros (H1 & H2 & H3). apply wrap_u_small. pose proof (zlen_nonneg (crb_buf b)). lia. Qed.

Lemma reply_ok_lookup (r : list (option client_reply_block_t)) (i : nat) (b : client_reply_block_t) :
  reply_ok r -> r !! i = Some (Some b) -> block_ok b.
Proof. intros Hr Hi. by apply (Forall_lookup_1 _ _ _ _ Hr Hi). Qed.

Lemma take_used (b : client_reply_block_t) :
  block_ok b -> take (Z.to_nat (crb_used b)) (crb_buf b) = crb_buf b.
Proof. intros (-> & _). unfold zlen. by rewrite Nat2Z.id, firstn_all. Qed.

(** The previous block, when the placeholder has one. *)
Lemma neighbour_prev (l : reply_list) (ln pn : list_node_t) (b : client_reply_block_t)
    (r1 r2 : list (option client_reply_block_t)) :
  placeholder l ln r1 r2 -> neighbour l (list_node_prev l ln) = Some (pn, b) ->
  exists r0, r1 = r0 ++ [Some b] /\ list_node_pos l pn = Some (length r0).
Proof.
  intros [He Hp] Hn. pose proof (list_node_prev_spec _ l ln _ Hp) as Hs.
  destruct (list_node_prev l ln) as [m|]; simpl in Hn; [|done].
  destruct Hs as (j & Hj & Hm). rewrite (list_node_value_spec _ l m j Hm), He in Hn.
  destruct r1 as [|x r0 _] using rev_ind; [done|].
  rewrite length_app in Hj. simpl in Hj. assert (j = length r0) as -> by lia.
  rewrite <- app_assoc, lookup_app_r, Nat.sub_diag in Hn by lia. simpl in Hn.
  destruct x as [x|]; [|done]. injection Hn as <- <-. eauto.
Qed.

Lemma neighbour_next (l : reply_list) (ln nn : list_node_t) (b : client_reply_block_t)
    (r1 r2 : list (option client_reply_block_t)) :
  placeholder l ln r1 r2 -> neighbour l (list_node_next l ln) = Some (nn, b) ->
  exists r3, r2 = Some b :: r3 /\ list_node_pos l nn = Some (S (length r1)).
Proof.
  intros [He Hp] Hn. pose proof (list_node_next_spec _ l ln _ Hp) as Hs.
  destruct (list_node_next l ln) as [m|]; simpl in Hn; [|done].
  rewrite (list_node_value_spec _ l m _ Hs), He in Hn.
  rewrite lookup_app_r in Hn by lia. replace (S (length r1) - length r1)%nat with 1%nat in Hn by lia.
  simpl in Hn. destruct r2 as [|[x|] r3]; simpl in Hn; [done| |done]. injection Hn as <- <-. eauto.
Qed.

Lemma into_prev_ok (l l' : reply_list) (ln : list_node_t) (s s' : bytes)
    (r1 r2 : list (option client_reply_block_t)) :
  placeholder l ln r1 r2 -> reply_ok (list_elems l) ->
  deferred_into_prev l ln s = Some (l', s') ->
  exists t r1', s = t ++ s' /\ placeholder l' ln r1' r2 /\ reply_ok (list_elems l')
    /\ forall cur, segs cur r1' = append_last (segs cur r1) t.
Proof.
  intros Hh Hok. unfold deferred_into_prev.
  destruct (neighbour l (list_node_prev l ln)) as [[pn b]|] eqn:En; [|done].
  destruct (neighbour_prev _ _ _ _ _ _ Hh En) as (r0 & -> & Hpn). destruct Hh as [He Hp].
  assert (Hb : block_ok b).
  { eapply (reply_ok_lookup _ (length r0)); [done|]. rewrite He, <- app_assoc, lookup_app_r by lia.
    by rewrite Nat.sub_diag. }
  rewrite block_room, take_used by done.
  destruct (Z.ltb_spec 0 (crb_size b - crb_used b)) as [Hroom|]; [|done].
  set (n := if zlen s <? crb_size b - crb_used b then zlen s else crb_size b - crb_used b).
  assert (Hn : 0 <= n <= zlen s /\ n <= crb_size b - crb_used b).
  { unfold n. pose proof (zlen_nonneg s). destruct (Z.ltb_spec (zlen s) (crb_size b - crb_used b)); lia. }
  clearbody n. intros [= <- <-].
  pose proof Hb as (Hu & Hsz & Hmax). pose proof (zlen_nonneg (crb_buf b)) as Hz.
  rewrite (wrap_u_small 64 (crb_used b + n)) by lia.
  set (b' := mk_block _ _ _).
  assert (Hb' : block_ok b').
  { split_and!; simpl; [|lia|lia]. rewrite zlen_app, Hu. f_equal. unfold zlen in *. rewrite length_take. lia. }
  assert (Hset : list_elems (list_node_set l pn (Some b')) = (r0 ++ [Some b']) ++ None :: r2).
  { rewrite (list_node_set_spec _ l pn _ _ Hpn), He, <- !app_assoc, insert_app_r_alt by lia.
    by rewrite Nat.sub_diag. }
  exists (take (Z.to_nat n) s), (r0 ++ [Some b']). split_and!.
  - by rewrite take_drop.
  - split; [done|]. rewrite length_app. simpl. rewrite length_app in Hp. simpl in Hp.
    by apply list_node_set_pos.
  - rewrite Hset. unfold reply_ok in *. rewrite He in Hok.
    rewrite !Forall_app, !Forall_cons in *. naive_solver.
  - intros cur. by apply segs_grow_tail.
Qed.

Lemma hole_deleted (l : reply_list) (ln : list_node_t) (r1 r2 : list (option client_reply_block_t)) :
  placeholder l ln r1 r2 ->
  list_elems (fst (list_del_node (fun _ (u : unit) => u) l ln tt)) = r1 ++ r2.
Proof.
  intros [He Hp].
  destruct (list_del_node_spec _ _ (fun _ (u : unit) => u) l ln (length r1) None tt) as (l' & -> & Hl); [done| |].
  - by rewrite He, list_lookup_middle.
  - simpl. by rewrite Hl, He, delete_middle.
Qed.

Lemma into_next_ok (l : reply_list) (ln : list_node_t) (s : bytes)
    (r1 r2 : list (option client_reply_block_t)) :
  placeholder l ln r1 r2 -> reply_ok (list_elems l) -> zlen s < 2 ^ 61 ->
  let l' := fst (deferred_into_next l ln s) in
  reply_ok (list_elems l')
  /\ forall cur, segs cur (list_elems l') = glue (append_last (segs cur r1) s) (segs [] r2).
Proof.
  intros Hh Hok Hs. pose proof (zlen_nonneg s) as Hz. unfold deferred_into_next.
  set (fresh := (list_node_set _ _ _, _)).
  assert (Hfresh : reply_ok (list_elems (fst fresh)) /\
    forall cur, segs cur (list_elems (fst fresh)) = glue (append_last (segs cur r1) s) (segs [] r2)).
  { destruct Hh as [He Hp]. simpl. rewrite (list_node_set_spec _ l ln _ _ Hp), He.
    rewrite insert_app_r_alt, Nat.sub_diag by lia. simpl. split.
    - unfold reply_ok in *. rewrite He in Hok. rewrite !Forall_app, !Forall_cons in *.
      split_and!; [naive_solver| |naive_solver].
      destruct reply_sizes as [[? ?] _].
      pose proof (zmalloc_usable_ge (zlen s + sizeof_reply_block)).
      pose proof (zmalloc_usable_lt (zlen s + sizeof_reply_block)).
      split_and!; simpl; [done|..]; rewrite wrap_u_small; lia.
    - intros cur. rewrite segs_app. simpl. rewrite (segs_cur s). apply glue_append; auto with latte. }
  clearbody fresh.
  destruct (neighbour l (list_node_next l ln)) as [[nn b]|] eqn:En; [|done].
  destruct (neighbour_next _ _ _ _ _ _ Hh En) as (r3 & -> & Hnn). pose proof Hh as [He Hp].
  assert (Hb : block_ok b).
  { eapply (reply_ok_lookup _ (S (length r1))); [done|]. rewrite He, lookup_app_r by lia.
    by replace (S (length r1) - length r1)%nat with 1%nat by lia. }
  rewrite block_room, take_used by done.
  destruct (_ && _)%bool eqn:Ec; [|done]. zify_bools. simpl fst.
  pose proof Hb as (Hu & Hsz & Hmax). pose proof (zlen_nonneg (crb_buf b)) as Hzb.
  rewrite (wrap_u_small 64 (crb_used b + zlen s)) by lia.
  set (b' := mk_block _ _ _).
  rewrite (hole_deleted _ _ r1 (Some b' :: r3)).
  - split.
    + unfold reply_ok in *. rewrite He in Hok. rewrite !Forall_app, !Forall_cons in *.
      split_and!; [naive_solver| |naive_solver].
      split_and!; simpl; rewrite ?zlen_app; lia.
    + intros cur. rewrite segs_app. simpl. rewrite (segs_cur (s ++ crb_buf b)), (segs_cur (crb_buf b)).
      pose proof (segs_nonempty r3 []). destruct (segs [] r3); [done|]. simpl.
      rewrite append_last_app, <- app_assoc; auto with latte.
  - split.
    + rewrite (list_node_set_spec _ l nn _ _ Hnn), He, insert_app_r_alt by lia.
      by replace (S (length r1) - length r1)%nat with 1%nat by lia.
    + by apply list_node_set_pos.
Qed.

(** [c] with another output list (and byte counter). *)
Definition with_reply (c : redis_client_t) (n : Z) (l : reply_list) : redis_client_t :=
  set_client (set_reply_bytes c n) (set_reply (client c) l).

Lemma with_reply_bytes (c : redis_client_t) (l : reply_list) :
  set_client c (set_reply (client c) l) = with_reply c (reply_bytes c) l.
Proof. by destruct c. Qed.

Lemma set_deferred_reply_ok (w : world) (ln : list_node_t) (s : bytes)
    (r1 r2 : list (option client_reply_block_t)) :
  placeholder (reply (client (w_client w))) ln r1 r2 ->
  reply_ok (list_elems (reply (client (w_client w)))) -> zlen s < 2 ^ 61 ->
  exists n l, set_deferred_reply (Some ln) s w = Done (tt, set_w_client w (with_reply (w_client w) n l))
    /\ reply_ok (list_elems l)
    /\ forall cur, segs cur (list_elems l) = glue (append_last (segs cur r1) s) (segs [] r2).
Proof.
  intros Hh Hok Hs. unfold set_deferred_reply.
  assert (Hv : list_node_value (reply (client (w_client w))) ln = Some None).
  { destruct Hh as [He Hp]. rewrite (list_node_value_spec _ _ _ _ Hp), He. by apply list_lookup_middle. }
  run_M. rewrite Hv. cbn.
  destruct (deferred_into_prev _ ln s) as [[l' s']|] eqn:Ep.
  - destruct (into_prev_ok _ _ _ _ _ _ _ Hh Hok Ep) as (t & r1' & -> & Hh' & Hok' & Hseg).
    destruct s' as [|c s'].
    + exists (reply_bytes (w_client w)), (fst (list_del_node (fun _ (u : unit) => u) l' ln tt)).
      rewrite with_reply_bytes, (hole_deleted _ _ _ _ Hh'). split; [done|].
      destruct Hh' as [He' _]. unfold reply_ok in *. rewrite He' in Hok'.
      split; [rewrite Forall_app, Forall_cons in *; naive_solver|].
      intros cur. by rewrite segs_app, Hseg, app_nil_r.
    + destruct (into_next_ok l' ln (c :: s') r1' r2 Hh' Hok') as [Hok2 Hseg2].
      { rewrite zlen_app in Hs. pose proof (zlen_nonneg t). lia. }
      destruct (deferred_into_next l' ln (c :: s')) as [l2 n]. do 2 eexists.
      split; [reflexivity|]. split; [done|]. intros cur. simpl in Hseg2.
      rewrite Hseg2, Hseg, append_last_app; auto with latte.
  - destruct (into_next_ok _ ln s r1 r2 Hh Hok Hs) as [Hok2 Hseg2].
    destruct (deferred_into_next _ ln s) as [l2 n]. do 2 eexists. eauto.
Qed.

Lemma trim_tail_ok (w : world) :
  reply_ok (list_elems (reply (client (w_client w)))) ->
  exists n l, trim_reply_unused_tail_space w = Done (tt, set_w_client w (with_reply (w_client w) n l))
    /\ reply_ok (list_elems l)
    /\ forall cur, segs cur (list_elems l) = segs cur (list_elems (reply (client (w_client w)))).
Proof.
  intros Hok. unfold trim_reply_unused_tail_space. run_M.
  set (l := reply (client (w_client w))) in *.
  assert (Hsame : exists n l', Done (tt, w) = Done (tt, set_w_client w (with_reply (w_client w) n l'))
    /\ reply_ok (list_elems l') /\ forall cur, segs cur (list_elems l') = segs cur (list_elems l)).
  { exists (reply_bytes (w_client w)), l. split; [|done].
    by destruct w as [? ? ? [[]] ?]. }
  pose proof (list_last_spec _ l) as Hlast.
  destruct (list_last l) as [ln|]; [|done]. destruct Hlast as [Hp Hne].
  destruct (list_elems l) as [|x r0 _] eqn:He using rev_ind; [done|].
  rewrite length_app in Hp. simpl in Hp. replace (pred (length r0 + 1)) with (length r0) in Hp by lia.
  rewrite (list_node_value_spec _ l ln _ Hp), He, list_lookup_middle by done. cbn.
  destruct x as [b|]; [|done].
  destruct (_ && _)%bool eqn:Ec; [|done]. zify_bools.
  apply Forall_app in Hok as [Hr0 Hb]. inversion Hb as [|? ? Hbk _]; subst.
  pose proof Hbk as (Hu & Hsz & Hmax). pose proof (zlen_nonneg (crb_buf b)).
  pose proof (zmalloc_usable_ge (crb_used b + sizeof_reply_block)).
  pose proof (zmalloc_usable_lt (crb_used b + sizeof_reply_block)).
  destruct reply_sizes as [[? ?] _]. destruct chunk_bytes_pos as [_ ?].
  do 2 eexists. split; [reflexivity|].
  rewrite (list_node_set_spec _ l ln _ _ Hp), He, insert_app_r_alt, Nat.sub_diag by lia. simpl.
  split.
  - apply Forall_app. split; [done|]. constructor; [|done].
    split_and!; simpl; [done|..]; rewrite wrap_u_small; lia.
  - intros cur. rewrite !segs_app. done.
Qed.

Lemma deferred_len_ok (w : world) :
  reply_ok (list_elems (reply (client (w_client w)))) ->
  exists n l ln r1, add_reply_deferred_len w = Done (Some ln, set_w_client w (with_reply (w_client w) n l))
    /\ placeholder l ln r1 [] /\ reply_ok (list_elems l)
    /\ forall cur, segs cur r1 = segs cur (list_elems (reply (client (w_client w)))).
Proof.
  intros Hok. destruct (trim_tail_ok w Hok) as (n & l & E & Hok' & Hseg).
  unfold add_reply_deferred_len. run_M. cbn. rewrite E. cbn.
  set (l' := list_add_node_tail l None).
  pose proof (list_last_spec _ l') as Hlast.
  assert (He : list_elems l' = list_elems l ++ [None]) by apply list_add_node_tail_elems.
  destruct (list_last l') as [ln|]; [|rewrite He in Hlast; by destruct (list_elems l)].
  destruct Hlast as [Hp _]. rewrite He, length_app in Hp.
  exists n, l', ln, (list_elems l). split_and!.
  - done.
  - split; [done|]. rewrite Hp. f_equal. simpl. lia.
  - rewrite He. apply Forall_app. split; [done|]. by constructor.
  - done.
Qed.

(** The lines alone, without their number. *)
Fixpoint reply_statuses (lines : list bytes) : M unit :=
  match lines with
  | [] => mret tt
  | s :: lines => _ ← add_reply_status s; reply_statuses lines
  end.

Lemma reply_help_lines_ok (lines : list bytes) (blen : Z) (w : world) :
  0 <= blen < 2 ^ 31 ->
  reply_help_lines lines blen w
  = if blen + zlen lines <? 2 ^ 31 then (_ ← reply_statuses lines; mret (blen + zlen lines)) w else Fault SignedOverflow.
Proof.
  revert blen w. induction lines as [|s lines IH]; intros blen w Hb.
  { change (zlen []) with 0. rewrite Z.add_0_r. replace (blen <? 2 ^ 31) with true by lia. done. }
  cbn [reply_help_lines reply_statuses]. rewrite zlen_cons. pose proof (zlen_nonneg lines).
  destruct (decide (blen + 1 < 2 ^ 31)) as [Hlt|Hge].
  - rewrite (bind_lift _ _ _ (blen + 1)) by (apply checked_i32_Done; lia).
    destruct (writes_status w s) as (lc & E & _). rewrite (bind_Done _ _ _ _ _ E), IH by lia.
    replace (blen + (1 + zlen lines)) with (blen + 1 + zlen lines) by lia.
    destruct (_ <? _); [|done]. unfold mbind at 1 2 3, M_bind at 1 2 3. by rewrite E.
  - replace (blen + (1 + zlen lines) <? 2 ^ 31) with false by lia. apply bind_Fault.
    unfold lift, checked_i32. by rewrite decide_False by lia.
Qed.

Lemma writes_statuses (lines : list bytes) (w : world) :
  writes (reply_statuses lines) w (mjoin ((fun s => "+"%char :: cstr s ++ CRLF) <$> lines)).
Proof.
  revert w. induction lines as [|s lines IH]; intros w; [apply writes_ret|].
  apply writes_bind; [apply writes_status|]. intros lc. apply IH.
Qed.

(** One line of a help reply. *)
Definition status_line (s : bytes) : bytes := "+"%char :: s ++ CRLF.

Definition help_lines (name : bytes) (help : list bytes) : list bytes :=
  (map toupper (cstr name) ++ bs " <subcommand> [<arg> [value] [opt] ...]. Subcommands are:")
  :: map cstr help ++ [bs "HELP"; bs "   Prints this help."].

Definition help_body (name : bytes) (help : list bytes) : bytes :=
  mjoin (status_line <$> help_lines name help).

Lemma help_lines_length (name : bytes) (help : list bytes) :
  zlen (help_lines name help) = zlen help + 3.
Proof. unfold help_lines, zlen. simpl. rewrite length_app, length_map. simpl. lia. Qed.

Lemma mjoin_snoc2 (ls : list bytes) (a b : bytes) :
  mjoin (ls ++ [a; b]) = mjoin ls ++ a ++ b.
Proof. induction ls as [|x ls IH]; simpl; [by rewrite app_nil_r|]. by rewrite IH, <- app_assoc. Qed.

Lemma help_body_writes (name : bytes) (help : list bytes) (w : world) :
  writes (_ ← add_reply_status_format (cstr (sds_to_upper (sds_new name)) ++
            bs " <subcommand> [<arg> [value] [opt] ...]. Subcommands are:");
          _ ← reply_statuses help;
          _ ← add_reply_status (bs "HELP");
          add_reply_status (bs "   Prints this help.")) w (help_body name help).
Proof.
  assert (Hup : cstr (sds_to_upper (sds_new name)) = map toupper (cstr name)).
  { rewrite sds_to_upper_spec, sds_new_spec. apply cstr_line.
    induction name as [|c name IH]; simpl; [apply not_elem_of_nil|].
    case_bool_decide as Hc; [apply not_elem_of_nil|]. simpl. rewrite not_elem_of_cons. split; [|done].
    revert Hc. clear. unfold NUL. destruct c as [[] [] [] [] [] [] [] []]; done. }
  unfold help_body, help_lines. rewrite Hup, fmap_cons, fmap_app, mjoin_cons.
  change (status_line <$> [bs "HELP"; bs "   Prints this help."])
    with [status_line (bs "HELP"); status_line (bs "   Prints this help.")].
  rewrite mjoin_snoc2.
  apply writes_bind.
  - unfold add_reply_status_format. rewrite take_sds_len, sds_cat_printf_spec, sds_empty_spec.
    apply writes_status_length.
  - intros lc. apply writes_bind.
    + rewrite <- list_fmap_compose. apply writes_statuses.
    + intros lc'. apply writes_bind; [apply writes_status|]. intros ?. apply writes_status.
Qed.

Lemma M_bind_assoc {A B C} (m : M A) (f : A -> M B) (g : B -> M C) (w : world) :
  (x ← m; y ← f x; g y) w = (y ← (x ← m; f x); g y) w.
Proof. unfold mbind, M_bind. by destruct (m w) as [[]|]. Qed.

(** The lines of a reply and, behind them, [k] with their number. *)
Lemma help_split (name : bytes) (help : list bytes) (k : Z -> M unit) (w : world) :
  (_ ← add_reply_status_format (cstr (sds_to_upper (sds_new name)) ++
        bs " <subcommand> [<arg> [value] [opt] ...]. Subcommands are:");
   blen ← reply_help_lines help 0;
   _ ← add_reply_status (bs "HELP");
   _ ← add_reply_status (bs "   Prints this help.");
   k blen) w
  = if zlen help <? 2 ^ 31 then
      (_ ← (_ ← add_reply_status_format (cstr (sds_to_upper (sds_new name)) ++
        bs " <subcommand> [<arg> [value] [opt] ...]. Subcommands are:");
      _ ← reply_statuses help;
      _ ← add_reply_status (bs "HELP");
      add_reply_status (bs "   Prints this help."));
     k (zlen help)) w
    else Fault SignedOverflow.
Proof.
  unfold mbind, M_bind.
  assert (Ef : exists w1, add_reply_status_format (cstr (sds_to_upper (sds_new name)) ++
        bs " <subcommand> [<arg> [value] [opt] ...]. Subcommands are:") w = Done (tt, w1)).
  { unfold add_reply_status_format. rewrite take_sds_len, sds_cat_printf_spec, sds_empty_spec.
    edestruct writes_status_length as (lc & E & _). eauto. }
  destruct Ef as (w1 & ->). rewrite reply_help_lines_ok, Z.add_0_l by lia. destruct (_ <? _); [|done].
  unfold mbind, M_bind. destruct (reply_statuses help w1) as [[[] w2]|]; [|done].
  unfold mret, M_ret. by destruct (add_reply_status _ w2) as [[[] w3]|].
Qed.

(** C32: a formatted error always reaches the client as one protocol line: for
    every text, the output grows by a text that starts with '-' (the code
    given by the caller, or "-ERR "), contains no CR or LF, and is ended by
    CRLF; a text without line breaks is sent unchanged.  Nothing else of the
    state changes. *)
Theorem add_reply_error_format_one_line (w : world) (text : bytes) :
  exists s, Forall line_byte s /\ (Forall line_byte text -> s = text)
    /\ exists rest, error_line s = "-"%char :: rest ++ CRLF /\ Forall line_byte rest
    /\ writes (add_reply_error_format text) w (error_line s).
Proof.
  destruct (writes_error_format w text) as (s & Hs & Ht & Hw).
  exists s. split; [done|]. split; [done|]. unfold error_line in *.
  destruct s as [|c s]; simpl in *.
  - exists (bs "ERR "). split; [done|]. split; [|done]. by repeat constructor.
  - case_bool_decide as Hc.
    + injection Hc as ->. exists s. split; [done|]. split; [by inversion Hs|done].
    + exists (bs "ERR " ++ c :: s). split; [done|]. split; [|done].
      apply Forall_app. split; [by repeat constructor|done].
Qed.

(** After [init_shared_objects], a header reply [<prefix><n>CRLF] is the
    same text whether it comes from the table of 32 shared headers or is
    formatted, for every prefix and every 64-bit [n], and the objects that
    existed before keep their contents. *)
Lemma reply_headers_correct (w : world) (h h' : heap) (sh : shared_objects_t) (ll : Z) (prefix : ascii) :
  init_shared_objects h = (sh, h') -> w_shared w = sh -> w_heap w = h' -> - 2 ^ 63 <= ll < 2 ^ 63 ->
  writes (add_reply_long_long_with_prefix ll prefix) w (prefix :: dec ll ++ CRLF)
  /\ forall l s, holds h l s -> holds h' l s.
Proof.
  intros E <- <- Hll. destruct (init_shared_ok _ _ _ E) as [Hok Hk].
  split; [by apply writes_long_long|done].
Qed.

(** [add_reply_bulk] sends a string object as a RESP bulk string: "$", the
    length in decimal, CRLF, the bytes whatever they are, CRLF. *)
Lemma add_reply_bulk_correct (w : world) (l : loc) (s : bytes) :
  shared_ok (w_shared w) (w_heap w) -> holds (w_heap w) l s -> zlen s < 2 ^ 63 ->
  writes (add_reply_bulk l) w ("$"%char :: dec (zlen s) ++ CRLF ++ s ++ CRLF).
Proof. apply writes_bulk. Qed.

(** C18: [set_deferred_reply] fills the hole left by [add_reply_deferred_len]:
    whichever of its branches runs (the previous block has room for all or
    part of the text, the next block has room in front, a new block is
    needed), the output afterwards is the text before the hole, [s], the text
    after the hole; the blocks stay within their allocated sizes. *)
Theorem set_deferred_reply_correct (w : world) (ln : list_node_t) (s : bytes)
    (r1 r2 : list (option client_reply_block_t)) :
  placeholder (reply (client (w_client w))) ln r1 r2 ->
  reply_ok (list_elems (reply (client (w_client w)))) -> zlen s < 2 ^ 61 ->
  let cur := priv_out (client_priv (client (w_client w))) in
  output w = segs cur r1 ++ segs [] r2
  /\ exists n l, set_deferred_reply (Some ln) s w = Done (tt, set_w_client w (with_reply (w_client w) n l))
    /\ reply_ok (list_elems l)
    /\ output (set_w_client w (with_reply (w_client w) n l))
       = glue (append_last (segs cur r1) s) (segs [] r2).
Proof.
  intros Hh Hok Hs cur. split.
  - unfold output, client_segs. destruct Hh as [-> _]. apply segs_hole.
  - destruct (set_deferred_reply_ok w ln s r1 r2 Hh Hok Hs) as (n & l & E & Hok' & Hseg).
    exists n, l. split; [done|]. split; [done|]. apply Hseg.
Qed.

(** The text of a HELP reply. *)
Definition help_reply (name : bytes) (help : list bytes) : bytes :=
  "*"%char :: dec (zlen (help_lines name help)) ++ CRLF ++ help_body name help.

(** The length of the reply, once [n] lines have been sent. *)
Definition fill_help (ln : list_node_t) (n : Z) : M unit :=
  blen ← lift (checked_i32 (n + 1));
  blen ← lift (checked_i32 (blen + 2));
  set_deferred_array_len (Some ln) blen.

(** The lines are sent first; the length is filled in if it is an [int]. *)
Lemma add_reply_help_run (w : world) (l : loc) (name : bytes) (help : list bytes) :
  argv_at (w_client w) 0 = Done l -> holds (w_heap w) l name ->
  reply_ok (list_elems (reply (client (w_client w)))) ->
  exists n lr ln r1 lc, let w1 := set_w_client w (with_reply (w_client w) n lr) in
    placeholder lr ln r1 [] /\ reply_ok (list_elems lr)
    /\ (forall cur, segs cur r1 = segs cur (list_elems (reply (client (w_client w)))))
    /\ out_step (client (w_client w1)) lc (help_body name help)
    /\ add_reply_help help w
       = if zlen help <? 2 ^ 31 then fill_help ln (zlen help) (with_output w1 lc) else Fault SignedOverflow.
Proof.
  intros Hargv (o & Ho & _ & _ & Hp) Hok. unfold add_reply_help.
  destruct (deferred_len_ok w Hok) as (n & lr & ln & r1 & Ed & Hh & Hokr & Hseg).
  unfold get_client, gets. unfold mbind at 1 2 3 4 5, M_bind at 1 2 3 4 5. unfold lift at 1 2. rewrite Hargv.
  rewrite (read_obj_holds _ _ _ Ho). unfold ptr_bytes. rewrite Hp. rewrite Ed.
  set (w1 := set_w_client w _).
  destruct (help_body_writes name help w1) as (lc & Ew & Hout).
  exists n, lr, ln, r1, lc. cbv zeta. split_and!; try done.
  etrans; [exact (help_split name help (fill_help ln) w1)|]. by rewrite (bind_Done _ _ _ _ _ Ew).
Qed.

Lemma add_reply_help_ok (w : world) (l : loc) (name : bytes) (help : list bytes) :
  argv_at (w_client w) 0 = Done l -> holds (w_heap w) l name ->
  reply_ok (list_elems (reply (client (w_client w)))) -> zlen help + 3 < 2 ^ 31 ->
  exists n lc, add_reply_help help w = Done (tt, with_bytes w n lc) /\ replied (client (w_client w)) lc (help_reply name help).
Proof.
  intros Hargv Ho Hok Hlen.
  destruct (add_reply_help_run w l name help Hargv Ho Hok) as (n & lr & ln & r1 & lc & Hh & Hokr & Hseg & Hout & E).
  pose proof (zlen_nonneg help). replace (zlen help <? 2 ^ 31) with true in E by lia. set (w1 := set_w_client w _) in *.
  assert (Hnn : exists k, list_elems (reply lc) = r1 ++ None :: map Some k).
  { apply (out_holes _ _ _ Hout). exists []. apply Hh. }
  destruct Hnn as [k Hk].
  assert (Hh2 : placeholder (reply lc) ln r1 (map Some k)).
  { split; [done|]. apply (out_nodes _ _ _ Hout). apply Hh. }
  assert (Hok2 : reply_ok (list_elems (reply lc))) by (apply (out_ok _ _ _ Hout); done).
  pose proof (help_lines_length name help) as Hhl. set (cnt := zlen (help_lines name help)) in *.
  rewrite E. unfold fill_help. rewrite (bind_lift _ _ _ (zlen help + 1)) by (apply checked_i32_Done; lia).
  rewrite (bind_lift _ _ _ cnt) by (rewrite Hhl; replace (zlen help + 1 + 2) with (zlen help + 3) by lia; apply checked_i32_Done; lia).
  unfold set_deferred_array_len, set_deferred_aggregate_len, latte_assert.
  replace (0 <=? cnt) with true by lia. unfold mbind, M_bind, lift.
  destruct (set_deferred_reply_ok (with_output w1 lc) ln ("*"%char :: dec cnt ++ CRLF) r1 (map Some k))
    as (n' & l2 & E2 & Hok3 & Hseg3); [done|done| |].
  { pose proof (dec_length cnt 61). rewrite zlen_cons, zlen_app. change (zlen CRLF) with 2.
    change (2 ^ 61) with (2 ^ Z.of_nat 61). lia. }
  rewrite E2. exists n', (set_reply lc l2). split; [f_equal|]. destruct Hout as [Hs _ _ _ Eq Ep' Ef _ _ _].
  split; [|done|exact Eq|exact Ep'|exact Ef].
  unfold client_segs at 1. cbn. rewrite Hseg3.
  unfold client_segs in Hs at 1.
  rewrite Hk, segs_hole in Hs. unfold client_segs in Hs. cbn in Hs.
  destruct Hh as [Hr1 _]. rewrite Hr1, segs_hole, !Hseg in Hs. rewrite Hseg. simpl in Hs.
  rewrite append_last_app_r in Hs by done. simpl in Hs.
  pose proof (segs_app_blocks [] [] k) as Hblk. simpl in Hblk. rewrite Hblk in Hs |- *.
  apply app_inj_tail in Hs as [-> ->]. simpl. rewrite app_nil_r, append_last_app by auto with latte.
  f_equal. simpl. by rewrite <- app_assoc.
Qed.

Lemma add_reply_help_overflow (w : world) (l : loc) (name : bytes) (help : list bytes) :
  argv_at (w_client w) 0 = Done l -> holds (w_heap w) l name ->
  reply_ok (list_elems (reply (client (w_client w)))) -> 2 ^ 31 <= zlen help + 3 ->
  add_reply_help help w = Fault SignedOverflow.
Proof.
  intros Hargv Ho Hok Hlen.
  destruct (add_reply_help_run w l name help Hargv Ho Hok) as (n & lr & ln & r1 & lc & _ & _ & _ & _ & ->).
  pose proof (zlen_nonneg help). destruct (Z.ltb_spec (zlen help) (2 ^ 31)); [|done]. unfold fill_help.
  destruct (decide (zlen help + 1 < 2 ^ 31)).
  - rewrite (bind_lift _ _ _ (zlen help + 1)) by (apply checked_i32_Done; lia). apply bind_Fault.
    unfold lift, checked_i32. by rewrite decide_False by lia.
  - apply bind_Fault. unfold lift, checked_i32. by rewrite decide_False by lia.
Qed.

(** C33: a HELP reply is a RESP array whose announced length is the number of
    status lines that follow: the upper-cased command name with the usage
    text, the lines of the command, and the two closing lines.  The length is
    counted in an [int]: from 2^31 - 3 lines of the command on the count
    overflows. *)
Theorem add_reply_help_correct (w : world) (l : loc) (name : bytes) (help : list bytes) :
  argv_at (w_client w) 0 = Done l -> holds (w_heap w) l name ->
  reply_ok (list_elems (reply (client (w_client w)))) ->
  if zlen help + 3 <? 2 ^ 31 then
    exists n l', let w' := set_w_client w (set_client (set_reply_bytes (w_client w) n) l') in
      add_reply_help help w = Done (tt, w')
      /\ output w' = append_last (output w) (help_reply name help)
      /\ reply_ok (list_elems (reply l'))
  else add_reply_help help w = Fault SignedOverflow.
Proof.
  intros Hargv Hh Hok. destruct (Z.ltb_spec (zlen help + 3) (2 ^ 31)); [|by eapply add_reply_help_overflow].
  destruct (add_reply_help_ok w l name help Hargv Hh Hok) as (n & lc & E & [Hs Hr _ _ _]); [lia|].
  exists n, lc. cbn zeta. split; [exact E|]. split; [exact Hs|by apply Hr].
Qed.

End Reply.

(** ** Concrete runs *)

#[local] Existing Instance model_latte.
#[local] Existing Instance model_latte_laws.

Definition ex_lclient : latte_client_t client_priv_t :=
  mk_latte_client [] 0 0 list_new true 0 0 [].

Definition ex_client : redis_client_t :=
  mk_client ex_lclient 7%nat 0 0 0 1 (Some [Some 1%positive]) None None 0 (-1) 0 0 0 0 0 0 0.

Definition ex_shared : shared_objects_t := fst (init_shared_objects ex_heap).

Definition ex_world : world :=
  mk_world (snd (init_shared_objects ex_heap)) ex_shared ex_server ex_client 0.

Lemma ex_shared_ok : shared_ok (w_shared ex_world) (w_heap ex_world).
Proof. apply (init_shared_ok ex_heap). apply surjective_pairing. Qed.

Lemma reply_headers_correct_witness :
  writes (add_reply_long_long_with_prefix 31 "*"%char) ex_world (bs "*31" ++ CRLF)
  /\ writes (add_reply_long_long_with_prefix 32 "*"%char) ex_world (bs "*32" ++ CRLF).
Proof.
  split.
  - apply (reply_headers_correct ex_world ex_heap (w_heap ex_world) ex_shared 31 "*"%char);
      [apply surjective_pairing|reflexivity|reflexivity|lia].
  - apply (reply_headers_correct ex_world ex_heap (w_heap ex_world) ex_shared 32 "*"%char);
      [apply surjective_pairing|reflexivity|reflexivity|lia].
Defined.

Lemma add_reply_bulk_correct_witness :
  writes (add_reply_bulk 1) ex_world (bs "$3" ++ CRLF ++ bs "foo" ++ CRLF).
Proof.
  apply (add_reply_bulk_correct ex_world 1 (bs "foo")).
  - exact ex_shared_ok.
  - exists (ex_str "foo"). split; [vm_compute; reflexivity|apply ex_str_obj].
  - reflexivity.
Defined.

(** A client with a block that has room, a hole, and a full block. *)
Definition ex_hole_world : world :=
  with_output ex_world (set_reply ex_lclient
    [Some (mk_block 5 3 (bs "+a;")); None; Some (mk_block 3 3 (bs "+b;"))]).

Lemma set_deferred_reply_correct_witness :
  exists n l, set_deferred_reply (Some 1%nat) (bs "*10;") ex_hole_world
    = Done (tt, set_w_client ex_hole_world (with_reply (w_client ex_hole_world) n l))
    /\ output (set_w_client ex_hole_world (with_reply (w_client ex_hole_world) n l))
       = [bs "+a;*10;+b;"].
Proof.
  destruct (set_deferred_reply_correct ex_hole_world 1%nat (bs "*10;")
    [Some (mk_block 5 3 (bs "+a;"))] [Some (mk_block 3 3 (bs "+b;"))]) as [_ (n & l & E & _ & Ho)].
  - split; reflexivity.
  - repeat constructor; vm_compute; discriminate.
  - reflexivity.
  - exists n, l. split; [exact E|exact Ho].
Defined.

Lemma add_reply_help_correct_witness :
  exists n l', let w' := set_w_client ex_world (set_client (set_reply_bytes (w_client ex_world) n) l') in
    add_reply_help [bs "LIST"] ex_world = Done (tt, w')
    /\ output w' = [bs "*4" ++ CRLF
         ++ bs "+FOO <subcommand> [<arg> [value] [opt] ...]. Subcommands are:" ++ CRLF
         ++ bs "+LIST" ++ CRLF ++ bs "+HELP" ++ CRLF ++ bs "+   Prints this help." ++ CRLF].
Proof.
  destruct (add_reply_help_correct ex_world 1 (bs "foo") [bs "LIST"]) as (n & l' & E & Ho & _).
  - reflexivity.
  - exists (ex_str "foo"). split; [vm_compute; reflexivity|apply ex_str_obj].
  - constructor.
  - exists n, l'. cbn zeta in *. split; [exact E|exact Ho].
Defined.

Lemma add_reply_error_format_one_line_witness :
  exists s, Forall line_byte s /\ writes (add_reply_error_format (bs "bad" ++ CRLF ++ bs "thing")) ex_world (error_line s).
Proof.
  destruct (add_reply_error_format_one_line ex_world (bs "bad" ++ CRLF ++ bs "thing")) as (s & Hs & _ & _ & _ & _ & Hw).
  exists s. split; [exact Hs|exact Hw].
Defined.
