(* ===== verification/Protocol.v ===== *)
(** * The request parser (src/redis/client.c, first part)

    The functions that turn the bytes of a client's query buffer into an
    argument vector: [process_inline_buffer] for the inline protocol and
    [process_multibulk_buffer] for RESP arrays, which may arrive in any number
    of pieces, and the functions that release the arguments. *)

From S2P Require Import Prelude LatteC LatteCModel KvStore State Db Reply.

Section Protocol.
Context {L : LatteC}.

Definition CLIENT_TYPE_NORMAL : Z := 0.
Definition CLIENT_TYPE_SLAVE : Z := 1.
Definition CLIENT_TYPE_PUBSUB : Z := 2.
Definition CLIENT_TYPE_MASTER : Z := 3.

Definition get_client_type (c : redis_client_t) : Z :=
  if has_flag (flag c) CLIENT_MASTER then CLIENT_TYPE_MASTER
  else if has_flag (flag c) CLIENT_SLAVE && negb (has_flag (flag c) CLIENT_MONITOR)
  then CLIENT_TYPE_SLAVE
  else if has_flag (flag c) CLIENT_PUBSUB then CLIENT_TYPE_PUBSUB
  else CLIENT_TYPE_NORMAL.

(** ** The query buffer *)

(** The pointer [querybuf + qb_pos]: the bytes not parsed yet. *)
Definition qb_str (lc : latte_client_t client_priv_t) : outcome bytes :=
  if decide (0 <= qb_pos lc <= zlen (querybuf lc)) then Done (drop (Z.to_nat (qb_pos lc)) (querybuf lc))
  else Fault OutOfBounds.

(** [sds_len(querybuf) - qb_pos], a [size_t] *)
Definition qb_left (lc : latte_client_t client_priv_t) : Z := u64 (sds_len (querybuf lc) - qb_pos lc).

(** [p[0]] of a NUL-terminated buffer *)
Definition first_byte (p : bytes) : ascii := default NUL (head p).

(** [strchr(p, '\r')] found at offset [k]: is the byte after it missing? *)
Definition line_incomplete (lc : latte_client_t client_priv_t) (k : nat) : bool :=
  i64 (sds_len (querybuf lc) - qb_pos lc - 2) <? Z.of_nat k.

(** Bytes [1 .. k-1] of [p], the digits of a header. *)
Definition header_digits (p : bytes) (k : nat) : bytes := take (k - 1) (drop 1 p).

Definition set_protocol_error (errstr : bytes) : M unit := mret tt.

Definition auth_required (c : redis_client_t) : bool := false.

(** [add_reply_error] followed by [set_protocol_error], which only logs. *)
Definition protocol_error (msg log : bytes) : M unit :=
  _ ← add_reply_error (bs "Protocol error: " ++ msg);
  set_protocol_error log.

(** ** Inline requests *)

Fixpoint set_inline_args (args : list bytes) : M unit :=
  match args with
  | [] => mret tt
  | a :: args =>
      w ← gets id;
      let '(l, h) := latte_object_new OBJ_STRING a (w_heap w) in
      let c := w_client w in
      cells ← lift (deref (argv c));
      cells ← lift (array_set cells (argc c) (Some l));
      _ ← mod_heap (fun _ => h);
      _ ← put_client (set_argv_len_sum (set_argc (set_argv c (Some cells)) (argc c + 1))
            (u64 (argv_len_sum c + sds_len a)));
      set_inline_args args
  end.

(** [linefeed0] is the value [linefeed_chars] has when the function starts:
    the local variable is not initialised. *)
Definition process_inline_buffer (linefeed0 : Z) : M Z :=
  c ← get_client;
  let lc := client c in
  p ← lift (qb_str lc);
  match strchr p LF with
  | None =>
      _ ← (if PROTO_INLINE_MAX_SIZE <? qb_left lc
           then protocol_error (bs "too big inline request") (bs "too big inline request") else mret tt);
      mret (-1)
  | Some newline =>
      let cr := (0 <? newline)%nat && bool_decide (p !! (newline - 1)%nat = Some CR) in
      let query_len := if cr then (newline - 1)%nat else newline in
      let linefeed_chars := if cr then i32 (linefeed0 + 1) else linefeed0 in
      let aux := sds_new_len p (Z.of_nat query_len) in
      match sds_split_args aux with
      | None =>
          _ ← protocol_error (bs "unbalanced quotes in request") (bs "unbalanced quotes in inline request");
          mret (-1)
      | Some args =>
          server ← get_server;
          _ ← (if (Z.of_nat query_len =? 0) && (get_client_type c =? CLIENT_TYPE_SLAVE)
               then mod_client (fun c => set_repl_ack_time c (unixtime server)) else mret tt);
          if negb (Z.of_nat query_len =? 0) && has_flag (flag c) CLIENT_MASTER then
            _ ← set_protocol_error (bs "Master using the inline protocol. Desync?");
            mret (-1)
          else
            _ ← mod_latte_client (fun lc => set_qb_pos lc
                  (u64 (qb_pos lc + u64 (Z.of_nat query_len + linefeed_chars))));
            _ ← (if bool_decide (args <> []) then
                   mod_client (fun c => set_argv_len_sum
                     (set_argv c (Some (replicate (length args) None))) 0)
                 else mret tt);
            _ ← mod_client (fun c => set_argc c 0);
            _ ← set_inline_args args;
            mret 0
      end
  end.

(** ** RESP arrays *)

(** How a part of the loop body ends. *)
Inductive bulk_step :=
  | ReturnErr   (* return -1 *)
  | BreakLoop   (* break *)
  | Continue.

Definition parse_bulk_len : M bulk_step :=
  c ← get_client;
  let lc := client c in
  if negb (bulk_len c =? -1) then mret Continue
  else
    p ← lift (qb_str lc);
    match strchr p CR with
    | None =>
        if PROTO_INLINE_MAX_SIZE <? qb_left lc then
          _ ← protocol_error (bs "too big bulk count string") (bs "too big bulk count string");
          mret ReturnErr
        else mret BreakLoop
    | Some k =>
        if line_incomplete lc k then mret BreakLoop
        else if negb (bool_decide (first_byte p = "$"%char)) then
          _ ← add_reply_error_format (bs "Protocol error: expected '$', got '" ++ [first_byte p] ++ bs "'");
          _ ← set_protocol_error (bs "expected $ but got something else");
          mret ReturnErr
        else
          server ← get_server;
          let invalid :=
            _ ← protocol_error (bs "invalid bulk length") (bs "invalid bulk length");
            mret ReturnErr in
          match string2ll (header_digits p k) with
          | None => invalid
          | Some ll =>
              if (ll <? 0) || (negb (has_flag (flag c) CLIENT_MASTER) && (proto_max_bulk_len server <? ll))
              then invalid
              else if (16384 <? ll) && auth_required c then
                _ ← protocol_error (bs "unauthenticated bulk length") (bs "unauth bulk length");
                mret ReturnErr
              else
                let lc := set_qb_pos lc (qb_pos lc + Z.of_nat k + 2) in
                let lc :=
                  if PROTO_MBULK_BIG_ARG <=? ll then
                    if qb_left lc <=? u64 (ll + 2) then
                      let buf := sds_range (querybuf lc) (qb_pos lc) (-1) in
                      let lc := set_qb_pos (set_querybuf lc buf) 0 in
                      set_querybuf lc (sds_make_room_for (querybuf lc) (ll + 2 - sds_len (querybuf lc)))
                    else lc
                  else lc in
                _ ← put_client (set_bulk_len (set_client c lc) ll);
                mret Continue
          end
    end.

(** [rc->argv[rc->argc++] = o] *)
Definition push_arg (c : redis_client_t) (l : loc) : outcome redis_client_t :=
  cells ← deref (argv c);
  cells ← array_set cells (argc c) (Some l);
  Done (set_argc (set_argv c (Some cells)) (argc c + 1)).

(** The object [l] keeps the sds that has just been shortened in place. *)
Definition set_obj_sds (l : loc) (s : bytes) (h : heap) : heap :=
  match h !! l with
  | Some o => <[l := mk_object (obj_type o) (encoding o) (refcount o) (lru o) (PSds s)]> h
  | None => h
  end.

(** The two ways to make an object of the next [bulk_len] bytes: hand over
    the whole query buffer, or copy; [need] is [bulk_len + 2]. *)
Definition store_bulk_arg (need : Z) : M redis_client_t :=
  w ← gets id;
  let c := w_client w in
  let lc := client c in
  if (qb_pos lc =? 0) && (PROTO_MBULK_BIG_ARG <=? bulk_len c) && (sds_len (querybuf lc) =? u64 need)
  then
    let '(l, h) := latte_object_new OBJ_STRING (querybuf lc) (w_heap w) in
    c ← lift (push_arg c l);
    let c := set_argv_len_sum c (u64 (argv_len_sum c + bulk_len c)) in
    let h := set_obj_sds l (sds_incr_len (querybuf lc) (-2)) h in
    _ ← mod_heap (fun _ => h);
    (* a new buffer of bulk_len+2 uninitialised bytes, cleared *)
    mret (set_client c (set_querybuf lc (sds_clear [])))
  else
    p ← lift (qb_str lc);
    let '(l, h) := string_object_new p (bulk_len c) (w_heap w) in
    c ← lift (push_arg c l);
    let c := set_argv_len_sum c (u64 (argv_len_sum c + bulk_len c)) in
    _ ← mod_heap (fun _ => h);
    mret (set_client c (set_qb_pos lc (u64 (qb_pos lc + need)))).

Definition read_bulk_arg : M bulk_step :=
  c ← get_client;
  need ← lift (checked_i64 (bulk_len c + 2));
  if qb_left (client c) <? u64 need then mret BreakLoop
  else
    c ← store_bulk_arg need;
    _ ← put_client (set_multi_bulk_len (set_bulk_len c (-1)) (multi_bulk_len c - 1));
    mret Continue.

(** [while (rc->multi_bulk_len)]; every iteration that does not leave the loop
    decreases [multi_bulk_len], so [fuel] iterations are enough when [fuel] is
    the initial [multi_bulk_len]. The result is the value returned. *)
Fixpoint bulk_loop (fuel : nat) : M Z :=
  c ← get_client;
  if multi_bulk_len c =? 0 then mret 0
  else match fuel with
  | O => fail OutOfFuel
  | S fuel =>
      s ← parse_bulk_len;
      s ← (match s with Continue => read_bulk_arg | s => mret s end);
      match s with
      | Continue => bulk_loop fuel
      | ReturnErr => mret (-1)
      | BreakLoop =>
          c ← get_client;
          mret (if multi_bulk_len c =? 0 then 0 else -1)
      end
  end.

Definition process_multibulk_args : M Z :=
  c ← get_client;
  _ ← lift (latte_assert (0 <? multi_bulk_len c) "rc->multibulklen");
  bulk_loop (Z.to_nat (multi_bulk_len c)).

Definition process_multibulk_buffer : M Z :=
  c ← get_client;
  let lc := client c in
  if multi_bulk_len c =? 0 then
    _ ← lift (latte_assert (argc c =? 0) "client argc ! = 0");
    p ← lift (qb_str lc);
    match strchr p CR with
    | None =>
        _ ← (if PROTO_INLINE_MAX_SIZE <? qb_left lc
             then protocol_error (bs "too big mbulk count string") (bs "too big mbulk count string") else mret tt);
        mret (-1)
    | Some k =>
        if line_incomplete lc k then mret (-1)
        else
          _ ← lift (latte_assert (bool_decide (first_byte p = "*"%char)) "querybuf[0] != '*'");
          let invalid :=
            _ ← protocol_error (bs "invalid multibulk length") (bs "invalid mbulk count");
            mret (-1) in
          match string2ll (header_digits p k) with
          | None => invalid
          | Some ll =>
              if 1024 * 1024 <? ll then invalid
              else if (10 <? ll) && auth_required c then
                _ ← protocol_error (bs "unauthenticated multibulk length") (bs "unauth mbulk count");
                mret (-1)
              else
                _ ← mod_latte_client (fun lc => set_qb_pos lc (qb_pos lc + Z.of_nat k + 2));
                if ll <=? 0 then mret 0
                else
                  _ ← mod_client (fun c => set_argv_len_sum (set_argv (set_multi_bulk_len c (i32 ll))
                        (Some (replicate (Z.to_nat (i32 ll)) None))) 0);
                  process_multibulk_args
          end
    end
  else process_multibulk_args.

(** ** Releasing the arguments *)

Fixpoint decr_args (n : nat) (j : Z) : M unit :=
  match n with
  | O => mret tt
  | S n =>
      c ← get_client;
      l ← lift (argv_at c j);
      _ ← read_obj l;
      _ ← mod_heap (latte_object_decr_ref_count l);
      decr_args n (j + 1)
  end.

Definition free_client_argv : M unit :=
  c ← get_client;
  _ ← decr_args (Z.to_nat (argc c)) 0;
  mod_client (fun c => set_argv_len_sum (set_cmd (set_argc c 0) None) 0).

Definition reset_redis_client : M unit :=
  _ ← free_client_argv;
  mod_client (fun c => set_bulk_len (set_multi_bulk_len (set_req_type c 0) 0) (-1)).

Definition command_processed : M unit := reset_redis_client.

(** ** Specification: a parser on the bytes alone *)

Inductive line_result := LineMissing | LinePartial | LineAt (k : nat).

(** The end of the header line: the first CR (before any NUL) with one more
    byte behind it. *)
Definition spec_line (u : bytes) : line_result :=
  match strchr u CR with
  | None => LineMissing
  | Some k => if zlen u <? Z.of_nat k + 2 then LinePartial else LineAt k
  end.

Definition mask_crlf (s : bytes) : bytes := map (map_char CRLF [SP; SP]) s.

Inductive len_result := LErr (out : bytes) | LMore | LOk (ll : Z) (u : bytes).

Definition proto_err (msg : bytes) : bytes := error_line (bs "Protocol error: " ++ msg).

Definition spec_bulk_len (limit : Z) (u : bytes) : len_result :=
  match spec_line u with
  | LineMissing =>
      if PROTO_INLINE_MAX_SIZE <? zlen u then LErr (proto_err (bs "too big bulk count string")) else LMore
  | LinePartial => LMore
  | LineAt k =>
      if bool_decide (first_byte u = "$"%char) then
        match string2ll (header_digits u k) with
        | Some ll => if (0 <=? ll) && (ll <=? limit) then LOk ll (drop (k + 2) u)
                     else LErr (proto_err (bs "invalid bulk length"))
        | None => LErr (proto_err (bs "invalid bulk length"))
        end
      else LErr (error_line (mask_crlf
             (bs "Protocol error: expected '$', got '" ++ [first_byte u] ++ bs "'")))
  end.

(** [n] arguments are missing, [bl] is the length of the next one (-1: not
    known yet), [u] the bytes not consumed, [acc] the arguments read. *)
Inductive parse_result :=
  | PMore (n : nat) (bl : Z) (u : bytes) (acc : list bytes)
  | PErr (n : nat) (u : bytes) (acc : list bytes) (out : bytes)
  | PDone (u : bytes) (acc : list bytes).

Fixpoint spec_bulks (limit : Z) (n : nat) (bl : Z) (u : bytes) (acc : list bytes) : parse_result :=
  match n with
  | O => PDone u acc
  | S n' =>
      match (if bl =? -1 then spec_bulk_len limit u else LOk bl u) with
      | LErr out => PErr n u acc out
      | LMore => PMore n (-1) u acc
      | LOk ll u' =>
          if zlen u' <? ll + 2 then PMore n ll u' acc
          else spec_bulks limit n' (-1) (drop (Z.to_nat (ll + 2)) u') (acc ++ [take (Z.to_nat ll) u'])
      end
  end.

(** A request from its first byte. *)
Definition spec_request (limit : Z) (u : bytes) : parse_result :=
  match spec_line u with
  | LineMissing =>
      if PROTO_INLINE_MAX_SIZE <? zlen u then PErr 0 u [] (proto_err (bs "too big mbulk count string"))
      else PMore 0 (-1) u []
  | LinePartial => PMore 0 (-1) u []
  | LineAt k =>
      match string2ll (header_digits u k) with
      | Some ll =>
          if 1024 * 1024 <? ll then PErr 0 u [] (proto_err (bs "invalid multibulk length"))
          else spec_bulks limit (Z.to_nat ll) (-1) (drop (k + 2) u) []
      | None => PErr 0 u [] (proto_err (bs "invalid multibulk length"))
      end
  end.

Definition spec_parse (limit : Z) (n : nat) (bl : Z) (u : bytes) (acc : list bytes) : parse_result :=
  match n with O => spec_request limit u | _ => spec_bulks limit n bl u acc end.

(** ** The client represents a parser state *)

(** The objects at [ls] hold [args], each with a single reference. *)
Definition args_own (h : heap) (ls : list loc) (args : list bytes) : Prop :=
  NoDup ls /\ Forall2 (fun l a => exists o, h !! l = Some o /\ string_obj o a /\ refcount o = 1) ls args.

Context {LL : LatteCLaws}.

Section Parser.
(** Locations that were in use before the request arrived. *)
Context (D : gset loc).

Record parsing (w : world) (n : nat) (bl : Z) (u : bytes) (acc : list bytes) : Prop := {
  p_used : D ⊆ dom (w_heap w);
  p_pos : 0 <= qb_pos (client (w_client w)) <= zlen (querybuf (client (w_client w)));
  p_size : zlen (querybuf (client (w_client w))) < 2 ^ 62;
  p_unparsed : drop (Z.to_nat (qb_pos (client (w_client w)))) (querybuf (client (w_client w))) = u;
  p_mbl : multi_bulk_len (w_client w) = Z.of_nat n;
  p_bl : bulk_len (w_client w) = bl;
  p_bl_range : -1 <= bl < 2 ^ 62;
  p_argc : argc (w_client w) = zlen acc;
  p_argv : (0 < n + length acc)%nat -> exists ls cells,
    argv (w_client w) = Some (map Some ls ++ cells) /\ (n <= length cells)%nat
    /\ args_own (w_heap w) ls acc /\ Forall (fun l => l ∉ D) ls
}.

(** The objects of the arguments read so far. *)
Definition arg_locs (c : redis_client_t) : list loc :=
  match argv c with Some a => omap id (take (Z.to_nat (argc c)) a) | None => [] end.

Lemma arg_locs_eq (c : redis_client_t) (ls : list loc) (cells : list (option loc)) :
  argv c = Some (map Some ls ++ cells) -> argc c = zlen ls -> arg_locs c = ls.
Proof.
  intros Ha Hc. unfold arg_locs. rewrite Ha, Hc. unfold zlen.
  rewrite Nat2Z.id, take_app_length' by (by rewrite length_map). clear.
  induction ls as [|l ls IH]; [done|]. exact (f_equal (cons l) IH).
Qed.

Lemma arg_locs_none (c : redis_client_t) : argc c = 0 -> arg_locs c = [].
Proof. intros H. unfold arg_locs. rewrite H. by destruct (argv c). Qed.

(** What the parser leaves alone; [out] is what it adds to the output. *)
Record parse_frame (w w' : world) (out : bytes) : Prop := {
  pf_server : w_server w' = w_server w;
  pf_shared : w_shared w' = w_shared w;
  pf_ticks : w_ticks w' = w_ticks w;
  pf_heap : w_heap w ⊆ w_heap w';
  pf_flag : flag (w_client w') = flag (w_client w);
  pf_req_type : req_type (w_client w') = req_type (w_client w);
  pf_cmd : cmd (w_client w') = cmd (w_client w);
  pf_lastcmd : lastcmd (w_client w') = lastcmd (w_client w);
  pf_dbid : dbid (w_client w') = dbid (w_client w);
  pf_id : client_id (w_client w') = client_id (w_client w);
  pf_cflags : cflags (client (w_client w')) = cflags (client (w_client w));
  pf_conn : conn (client (w_client w')) = conn (client (w_client w));
  pf_size : zlen (querybuf (client (w_client w'))) <= zlen (querybuf (client (w_client w)));
  pf_out : output w' = append_last (output w) out;
  pf_reply : reply_ok (list_elems (reply (client (w_client w)))) -> reply_ok (list_elems (reply (client (w_client w'))));
  pf_args : forall l, l ∈ arg_locs (w_client w) -> l ∈ arg_locs (w_client w');
  (** a new object is an argument *)
  pf_new : forall l, is_Some (w_heap w' !! l) -> is_Some (w_heap w !! l) \/ l ∈ arg_locs (w_client w')
}.

(** The conditions on the server and the client under which the parser works
    for a peer that is not the replication master. *)
Definition parser_ctx (w : world) : Prop :=
  has_flag (flag (w_client w)) CLIENT_MASTER = false
  /\ proto_max_bulk_len (w_server w) < 2 ^ 62.

Lemma parse_frame_refl (w : world) : parse_frame w w [].
Proof. split; try done; [unfold output; rewrite append_last_nil; auto with latte|by left]. Qed.

Lemma parse_frame_trans (a b c : world) (s t : bytes) :
  parse_frame a b s -> parse_frame b c t -> parse_frame a c (s ++ t).
Proof.
  intros [] []. split; try congruence; [by etrans|lia|..|by auto|by auto|].
  - rewrite pf_out1, pf_out0. unfold output. rewrite append_last_app; auto with latte.
  - intros l Hl. destruct (pf_new1 l Hl) as [Hb|]; [|by right]. destruct (pf_new0 l Hb); auto.
Qed.

Lemma parser_ctx_frame (w w' : world) (out : bytes) :
  parse_frame w w' out -> parser_ctx w -> parser_ctx w'.
Proof. intros [] [? ?]. split; congruence. Qed.

Lemma writes_frame (m : M unit) (w : world) (s : bytes) :
  writes m w s -> exists w', m w = Done (tt, w') /\ parse_frame w w' s
    /\ forall n bl u acc, parsing w n bl u acc -> parsing w' n bl u acc.
Proof.
  intros (lc & E & []). exists (with_output w lc). split; [done|]. split.
  - split; try done; [cbn; by rewrite out_querybuf|by left].
  - intros n bl u acc []. split; cbn; rewrite ?out_querybuf, ?out_qb_pos; done.
Qed.

Lemma writes_protocol_error (w : world) (msg log : bytes) :
  NUL ∉ msg -> writes (protocol_error msg log) w (proto_err msg).
Proof.
  intros Hm. unfold protocol_error, add_reply_error.
  rewrite <- (app_nil_r (proto_err msg)). apply writes_bind; [|intros; apply writes_ret].
  rewrite cstr_line; [apply writes_error_length|].
  rewrite elem_of_app. intros [H|H]; [|done]. revert H. by apply (bool_decide_unpack _).
Qed.

Lemma drop_zlen {A} (i : Z) (l : list A) :
  0 <= i <= zlen l -> zlen (drop (Z.to_nat i) l) = zlen l - i.
Proof. intros Hi. unfold zlen in *. rewrite length_drop. lia. Qed.

Section Buffer.
Context (lc : latte_client_t client_priv_t) (u : bytes).
Hypothesis Hpos : 0 <= qb_pos lc <= zlen (querybuf lc).
Hypothesis Hsize : zlen (querybuf lc) < 2 ^ 62.
Hypothesis Hu : drop (Z.to_nat (qb_pos lc)) (querybuf lc) = u.

Lemma zlen_unparsed : zlen u = zlen (querybuf lc) - qb_pos lc.
Proof. rewrite <- Hu. by apply drop_zlen. Qed.

Lemma qb_str_ok : qb_str lc = Done u.
Proof. unfold qb_str. rewrite decide_True by done. by rewrite Hu. Qed.

Lemma qb_left_ok : qb_left lc = zlen u.
Proof.
  unfold qb_left. rewrite sds_len_spec, zlen_unparsed. apply wrap_u_small. lia.
Qed.

Lemma line_incomplete_ok (k : nat) : line_incomplete lc k = (zlen u <? Z.of_nat k + 2).
Proof.
  unfold line_incomplete. rewrite sds_len_spec, zlen_unparsed, wrap_s_small by lia.
  destruct (Z.ltb_spec (zlen (querybuf lc) - qb_pos lc) (Z.of_nat k + 2)); lia.
Qed.

Lemma skip_unparsed (n : Z) :
  0 <= n <= zlen u ->
  0 <= qb_pos lc + n <= zlen (querybuf lc)
  /\ drop (Z.to_nat (qb_pos lc + n)) (querybuf lc) = drop (Z.to_nat n) u.
Proof.
  intros Hn. rewrite zlen_unparsed in Hn. split; [lia|].
  rewrite <- Hu, drop_drop. f_equal. lia.
Qed.
End Buffer.

(** [sds_trim] leaves a text alone that neither starts nor ends with the set. *)
Lemma sds_trim_id (s cs : bytes) :
  (forall c, head s = Some c -> c ∉ cs) -> (forall c, last s = Some c -> c ∉ cs) -> sds_trim s cs = s.
Proof.
  intros Hh Hl. destruct (sds_trim_spec s cs) as (p & q & E & Hp & Hq & _).
  set (t := sds_trim s cs) in *. clearbody t. subst s.
  destruct p as [|c p].
  - destruct q as [|c q _] using rev_ind; [by rewrite app_nil_r|].
    apply Forall_app in Hq as [_ Hq]. inversion Hq; subst.
    rewrite app_nil_l, app_assoc in Hl. destruct (Hl c); [|done]. apply last_snoc.
  - inversion Hp; subst. by destruct (Hh c).
Qed.

Lemma writes_expected_dollar (w : world) (c : ascii) :
  writes (_ ← add_reply_error_format (bs "Protocol error: expected '$', got '" ++ [c] ++ bs "'");
          set_protocol_error (bs "expected $ but got something else")) w
    (error_line (mask_crlf (bs "Protocol error: expected '$', got '" ++ [c] ++ bs "'"))).
Proof.
  set (t := bs _ ++ _). rewrite <- (app_nil_r (error_line _)).
  apply writes_bind; [|intros; apply writes_ret].
  unfold add_reply_error_format. rewrite take_sds_len, sds_cat_printf_spec, sds_empty_spec, app_nil_l.
  rewrite sds_map_chars_spec, sds_trim_id.
  - apply writes_error_length.
  - intros x [= <-]. by apply (bool_decide_unpack _).
  - intros x. unfold t. change (bs "'") with ["'"%char]. rewrite app_assoc, last_snoc. intros [= <-]. by apply (bool_decide_unpack _).
Qed.

Lemma spec_bulk_len_range (limit ll : Z) (u u' : bytes) :
  spec_bulk_len limit u = LOk ll u' -> 0 <= ll <= limit.
Proof.
  unfold spec_bulk_len. intros E. repeat case_match; simplify_eq; try done; zify_bools; lia.
Qed.

(** The header of one argument. *)
(** The buffer behind the header of a bulk of [ll] bytes: for a large one it is
    moved to the front and made room in, unless more than the bulk is there. *)
Lemma bulk_buffer_ok (lc0 : latte_client_t client_priv_t) (u : bytes) (k : nat) (ll : Z) :
  0 <= qb_pos lc0 <= zlen (querybuf lc0) -> zlen (querybuf lc0) < 2 ^ 62 ->
  drop (Z.to_nat (qb_pos lc0)) (querybuf lc0) = u -> Z.of_nat k + 2 <= zlen u ->
  let lc := set_qb_pos lc0 (qb_pos lc0 + Z.of_nat k + 2) in
  let lc' :=
    if PROTO_MBULK_BIG_ARG <=? ll then
      if qb_left lc <=? u64 (ll + 2) then
        let buf := sds_range (querybuf lc) (qb_pos lc) (-1) in
        let lc := set_qb_pos (set_querybuf lc buf) 0 in
        set_querybuf lc (sds_make_room_for (querybuf lc) (ll + 2 - sds_len (querybuf lc)))
      else lc
    else lc in
  0 <= qb_pos lc' <= zlen (querybuf lc') /\ zlen (querybuf lc') < 2 ^ 62
  /\ drop (Z.to_nat (qb_pos lc')) (querybuf lc') = drop (k + 2) u
  /\ reply lc' = reply lc0 /\ client_segs lc' = client_segs lc0 /\ cflags lc' = cflags lc0 /\ conn lc' = conn lc0
  /\ zlen (querybuf lc') <= zlen (querybuf lc0).
Proof.
  intros Hpos Hsize Hu Hk lc.
  assert (Hlc : 0 <= qb_pos lc <= zlen (querybuf lc) /\ drop (Z.to_nat (qb_pos lc)) (querybuf lc) = drop (k + 2) u).
  { unfold lc. cbn. rewrite <- Z.add_assoc. destruct (skip_unparsed lc0 u Hpos Hu (Z.of_nat k + 2)) as [? ->]; [lia|].
    split; [lia|]. f_equal. lia. }
  destruct Hlc as [H1 H2]. cbv zeta. destruct (_ <=? ll); [|split_and!; try done; cbn in *; lia]. destruct (_ <=? _); [|split_and!; try done; cbn in *; lia].
  cbn. rewrite sds_make_room_for_spec, sds_range_suffix by done.
  change (Z.to_nat 0) with 0%nat. rewrite drop_0, <- H2, drop_zlen by done. cbn in H1. split_and!; try done; lia.
Qed.

Lemma parse_bulk_len_ok (w : world) (n : nat) (bl : Z) (u : bytes) (acc : list bytes) :
  parsing w (S n) bl u acc -> parser_ctx w ->
  match (if bl =? -1 then spec_bulk_len (proto_max_bulk_len (w_server w)) u else LOk bl u) with
  | LErr out => exists w', parse_bulk_len w = Done (ReturnErr, w') /\ parse_frame w w' out
                  /\ parsing w' (S n) (-1) u acc
  | LMore => parse_bulk_len w = Done (BreakLoop, w) /\ bl = -1
  | LOk ll u' => exists w', parse_bulk_len w = Done (Continue, w') /\ parse_frame w w' []
                  /\ parsing w' (S n) ll u' acc
  end.
Proof.
  intros Hp [Hm Hmax]. pose proof Hp as [HD Hpos Hsize Hu Hmbl Hbl Hblr Hargc Hargv].
  unfold parse_bulk_len. mstep. rewrite Hbl.
  destruct (Z.eqb_spec bl (-1)) as [->|Hne]; cbn [negb].
  2:{ exists w. split; [done|]. split; [apply parse_frame_refl|done]. }
  assert (Herr : forall m out, writes m w out -> exists w', (_ ← m; mret ReturnErr) w = Done (ReturnErr, w')
    /\ parse_frame w w' out /\ parsing w' (S n) (-1) u acc).
  { intros m out Hw. destruct (writes_frame _ _ _ Hw) as (w' & E & Hf & Hk). exists w'.
    split; [unfold mbind, M_bind; by rewrite E|]. auto. }
  rewrite (bind_lift _ _ _ u) by (by apply qb_str_ok).
  unfold spec_bulk_len, spec_line.
  destruct (strchr u CR) as [k|] eqn:Ek.
  2:{ rewrite (qb_left_ok _ u) by done. destruct (PROTO_INLINE_MAX_SIZE <? zlen u); [|done].
      apply Herr, writes_protocol_error. by apply (bool_decide_unpack _). }
  rewrite (line_incomplete_ok _ u) by done.
  destruct (Z.ltb_spec (zlen u) (Z.of_nat k + 2)) as [|Hk]; [done|].
  destruct (bool_decide (first_byte u = "$"%char)); cbn [negb].
  2:{ destruct (writes_frame _ _ _ (writes_expected_dollar w (first_byte u))) as (w' & E & Hf & Hkp).
      exists w'. split; [|auto]. revert E. unfold mbind, M_bind.
      destruct (add_reply_error_format _ w) as [[[] w1]|]; [|done].
      unfold set_protocol_error, mret, M_ret. by intros [= ->]. }
  mstep.
  assert (Hinv : exists w', (_ ← protocol_error (bs "invalid bulk length") (bs "invalid bulk length"); mret ReturnErr) w
      = Done (ReturnErr, w') /\ parse_frame w w' (proto_err (bs "invalid bulk length"))
      /\ parsing w' (S n) (-1) u acc).
  { apply Herr, writes_protocol_error. by apply (bool_decide_unpack _). }
  destruct (string2ll (header_digits u k)) as [ll|]; [|done].
  rewrite Hm. cbn [negb]. rewrite andb_true_l.
  destruct (Z.leb_spec 0 ll) as [Hll|]; [|by replace (ll <? 0) with true by lia].
  replace (ll <? 0) with false by lia. rewrite orb_false_l, andb_true_l.
  destruct (Z.leb_spec ll (proto_max_bulk_len (w_server w)));
    [|by replace (proto_max_bulk_len (w_server w) <? ll) with true by lia].
  replace (proto_max_bulk_len (w_server w) <? ll) with false by lia.
  unfold auth_required. rewrite andb_false_r.
  pose proof (bulk_buffer_ok (client (w_client w)) u k ll Hpos Hsize Hu Hk) as Hb. cbv zeta in Hb |- *.
  set (lc' := if PROTO_MBULK_BIG_ARG <=? ll then _ else _) in *. clearbody lc'. destruct Hb as (? & ? & ? & Er & Hs & ? & ? & ?).
  eexists. split; [reflexivity|]. split.
  - split; try done; [unfold output; cbn; rewrite Hs, append_last_nil; auto with latte|cbn; by rewrite Er|by left].
  - split; cbn; try done. lia.
Qed.

Lemma args_own_length (h : heap) (ls : list loc) (acc : list bytes) :
  args_own h ls acc -> length ls = length acc.
Proof. intros [_ H]. by apply Forall2_length in H. Qed.

Lemma args_own_mono (h h' : heap) (ls : list loc) (acc : list bytes) :
  h ⊆ h' -> args_own h ls acc -> args_own h' ls acc.
Proof.
  intros Hh [Hn Hf]. split; [done|]. eapply Forall2_impl; [done|].
  intros l a (o & Hl & ?). exists o. split; [|done]. by eapply lookup_weaken.
Qed.

Lemma args_own_snoc (h : heap) (ls : list loc) (acc : list bytes) (l : loc) (o : latte_object_t) (a : bytes) :
  args_own h ls acc -> h !! l = None -> string_obj o a -> refcount o = 1 ->
  args_own (<[l := o]> h) (ls ++ [l]) (acc ++ [a]).
Proof.
  intros Hown Hl Ho Hr. pose proof (args_own_mono h (<[l := o]> h) ls acc) as [Hn Hf].
  { by apply insert_subseteq. } { done. }
  split.
  - apply NoDup_app. split; [done|]. split; [|by apply NoDup_singleton].
    intros x Hx Hx'. apply list_elem_of_singleton in Hx' as ->. destruct Hown as [_ Hf'].
    apply list_elem_of_lookup in Hx as [i Hi]. eapply Forall2_lookup_l in Hf' as (a' & _ & o' & Ho' & _); [|done].
    congruence.
  - apply Forall2_app; [done|]. constructor; [|done]. exists o. by rewrite lookup_insert_eq.
Qed.

(** Storing the next argument in the argument vector. *)
Lemma push_arg_ok (c : redis_client_t) (l : loc) (ls : list loc) (cells : list (option loc)) :
  argv c = Some (map Some ls ++ cells) -> argc c = zlen ls -> (0 < length cells)%nat ->
  exists cells', push_arg c l = Done (set_argc (set_argv c (Some (map Some (ls ++ [l]) ++ cells'))) (argc c + 1))
    /\ length cells = S (length cells').
Proof.
  intros Ha Hc Hl. destruct cells as [|x cells]; simpl in Hl; [lia|].
  exists cells. split; [|done]. unfold push_arg. rewrite Ha. cbn. rewrite array_set_Done.
  - cbn. rewrite Hc. unfold zlen. rewrite Nat2Z.id, insert_app_r_alt; rewrite length_map; [|lia].
    rewrite Nat.sub_diag. simpl. by rewrite map_app, <- app_assoc.
  - rewrite Hc, zlen_app, zlen_cons. unfold zlen. rewrite length_map. lia.
Qed.

Lemma set_obj_sds_fresh (h : heap) (l : loc) (o : latte_object_t) (s s' : bytes) :
  string_obj o s -> refcount o = 1 -> exists o',
    set_obj_sds l s' (<[l := o]> h) = <[l := o']> h /\ string_obj o' s' /\ refcount o' = 1.
Proof.
  intros (Ht & He & Hp) Hr. unfold set_obj_sds. rewrite lookup_insert_eq, insert_insert_eq.
  eexists. split; [reflexivity|]. split; [|done]. split_and!; [done| |done].
  by rewrite (sds_encoded_encoding o).
Qed.

(** The client after the object [l] became its next argument. *)
Definition stored (c : redis_client_t) (ls : list loc) (l : loc) (cells : list (option loc))
    (lc : latte_client_t client_priv_t) : redis_client_t :=
  set_client (set_argv_len_sum (set_argc (set_argv c (Some (map Some (ls ++ [l]) ++ cells))) (argc c + 1))
    (u64 (argv_len_sum c + bulk_len c))) lc.

Lemma store_bulk_arg_ok (w : world) (n : nat) (ll : Z) (u : bytes) (acc : list bytes)
    (ls : list loc) (cells : list (option loc)) :
  parsing w (S n) ll u acc -> 0 <= ll -> ll + 2 <= zlen u ->
  argv (w_client w) = Some (map Some ls ++ cells) -> argc (w_client w) = zlen ls -> (0 < length cells)%nat ->
  exists l o lc' cells',
    store_bulk_arg (ll + 2) w = Done (stored (w_client w) ls l cells' lc', set_w_heap w (<[l := o]> (w_heap w)))
    /\ w_heap w !! l = None /\ string_obj o (take (Z.to_nat ll) u) /\ refcount o = 1
    /\ length cells = S (length cells')
    /\ 0 <= qb_pos lc' <= zlen (querybuf lc') /\ zlen (querybuf lc') < 2 ^ 62
    /\ drop (Z.to_nat (qb_pos lc')) (querybuf lc') = drop (Z.to_nat (ll + 2)) u
    /\ cflags lc' = cflags (client (w_client w)) /\ conn lc' = conn (client (w_client w))
    /\ client_segs lc' = client_segs (client (w_client w)) /\ reply lc' = reply (client (w_client w))
    /\ zlen (querybuf lc') <= zlen (querybuf (client (w_client w))).
Proof.
  intros [_ Hpos Hsize Hu _ Hbl Hblr _ _] Hll Hlen Hargv Hargc Hcells.
  pose proof (zlen_unparsed _ _ Hpos Hu) as Hzu.
  unfold store_bulk_arg. mstep. unfold id. rewrite Hbl, (wrap_u_small 64 (ll + 2)) by lia.
  destruct (_ && _)%bool eqn:Eb.
  - zify_bools. rewrite sds_len_spec in *.
    assert (Hq : querybuf (client (w_client w)) = u).
    { rewrite <- Hu. replace (qb_pos (client (w_client w))) with 0 by lia. by rewrite drop_0. }
    destruct (latte_object_new_spec (querybuf (client (w_client w))) (w_heap w)) as (l & o & -> & Hl & Ho & Hr).
    destruct (push_arg_ok (w_client w) l ls cells) as (cells' & Hpush & Hc'); [done..|].
    rewrite (bind_lift _ _ _ _ Hpush). mstep. rewrite Hq in *.
    rewrite (sds_incr_len_spec u 2), sds_clear_spec by lia.
    replace (Z.to_nat (zlen u - 2)) with (Z.to_nat ll) by lia.
    destruct (set_obj_sds_fresh (w_heap w) l o u (take (Z.to_nat ll) u) Ho Hr) as (o' & -> & Ho' & Hr').
    do 4 eexists. split; [reflexivity|]. split_and!; try done; cbn; rewrite ?zlen_nil; try lia.
    rewrite drop_nil, drop_ge; [done|]. unfold zlen in *. lia.
  - rewrite (bind_lift _ _ _ u) by (by apply qb_str_ok).
    destruct (string_object_new_spec u ll (w_heap w)) as (l & o & -> & Hl & Ho & Hr); [lia|].
    destruct (push_arg_ok (w_client w) l ls cells) as (cells' & Hpush & Hc'); [done..|].
    rewrite (bind_lift _ _ _ _ Hpush). mstep.
    rewrite (wrap_u_small 64 (qb_pos _ + _)) by lia.
    destruct (skip_unparsed _ _ Hpos Hu (ll + 2)) as [Hp' Hd]; [lia|].
    do 4 eexists. split; [reflexivity|]. split_and!; try done; cbn; lia.
Qed.

(** One argument. *)
Lemma read_bulk_arg_ok (w : world) (n : nat) (ll : Z) (u : bytes) (acc : list bytes) :
  parsing w (S n) ll u acc -> 0 <= ll ->
  if zlen u <? ll + 2 then read_bulk_arg w = Done (BreakLoop, w)
  else exists w', read_bulk_arg w = Done (Continue, w') /\ parse_frame w w' []
    /\ parsing w' n (-1) (drop (Z.to_nat (ll + 2)) u) (acc ++ [take (Z.to_nat ll) u]).
Proof.
  intros Hp Hll. pose proof Hp as [HD Hpos Hsize Hu Hmbl Hbl Hblr Hargc Hargv].
  destruct Hargv as (ls & cells & Hargv & Hcells & Hown & Hfresh); [lia|].
  assert (Hls : argc (w_client w) = zlen ls).
  { unfold zlen in *. by rewrite (args_own_length _ _ _ Hown). }
  unfold read_bulk_arg. mstep. rewrite Hbl.
  rewrite (bind_lift _ _ _ (ll + 2)) by (unfold checked_i64; rewrite decide_True; [done|lia]).
  rewrite (qb_left_ok _ u), wrap_u_small by (done || lia).
  destruct (Z.ltb_spec (zlen u) (ll + 2)) as [|Hlen]; [done|].
  destruct (store_bulk_arg_ok w n ll u acc ls cells)
    as (l & o & lc' & cells' & E & Hl & Ho & Hr & Hcl & H1 & H2 & H3 & H4 & H5 & H6 & H8 & H7); [done..|lia|].
  rewrite (bind_Done _ _ _ _ _ E). mstep.
  eexists. split; [reflexivity|]. split.
  - assert (Ea : arg_locs (w_client w) = ls) by (by eapply arg_locs_eq).
    match goal with |- parse_frame _ ?x _ => assert (Ea' : arg_locs (w_client x) = ls ++ [l]) end.
    { apply (arg_locs_eq _ _ cells'); [done|]. cbn. rewrite Hls, zlen_app. reflexivity. }
    split; try done; [by apply insert_subseteq|..].
    + unfold output. cbn. rewrite H6, append_last_nil; auto with latte.
    + cbn. by rewrite H8.
    + intros l'. rewrite Ea, Ea', elem_of_app. by left.
    + intros l'. rewrite Ea'. cbn. rewrite lookup_insert_is_Some', elem_of_app, list_elem_of_singleton. naive_solver.
  - split; cbn; try done; [set_solver|lia| |].
    + rewrite Hargc, zlen_app. reflexivity.
    + intros _. exists (ls ++ [l]), cells'. split; [done|]. split; [lia|]. split; [by apply args_own_snoc|].
      apply Forall_app. split; [done|]. constructor; [|done]. apply not_elem_of_dom in Hl. set_solver.
Qed.

(** The client after a run of the parser is in the state of the specified
    parser, and the value returned says whether a request is complete. *)
Definition parse_post (w w' : world) (ret : Z) (r : parse_result) : Prop :=
  match r with
  | PMore n bl u acc => ret = -1 /\ parse_frame w w' [] /\ parsing w' n bl u acc
  | PErr n u acc out => ret = -1 /\ parse_frame w w' out /\ parsing w' n (-1) u acc
  | PDone u acc => ret = 0 /\ parse_frame w w' [] /\ parsing w' 0 (-1) u acc
  end.

Lemma parse_post_frame (w0 w w' : world) (ret : Z) (r : parse_result) :
  parse_frame w0 w [] -> parse_post w w' ret r -> parse_post w0 w' ret r.
Proof.
  intros Hf. destruct r; simpl; intros (-> & Hf' & ?); (split; [done|]; split; [|done]);
    by apply (parse_frame_trans w0 w w' []).
Qed.

Lemma bulk_loop_ok (fuel n : nat) (w : world) (bl : Z) (u : bytes) (acc : list bytes) :
  parsing w n bl u acc -> parser_ctx w -> (n <= fuel)%nat -> (n = 0%nat -> bl = -1) ->
  exists ret w', bulk_loop fuel w = Done (ret, w')
    /\ parse_post w w' ret (spec_bulks (proto_max_bulk_len (w_server w)) n bl u acc).
Proof.
  revert n w bl u acc. induction fuel as [|fuel IH]; intros n w bl u acc Hp Hctx Hn H0;
    simpl bulk_loop; mstep; rewrite (p_mbl _ _ _ _ _ Hp).
  - assert (n = 0%nat) as -> by lia. rewrite H0 in Hp by done.
    exists 0, w. simpl. split; [done|]. split; [done|]. split; [apply parse_frame_refl|done].
  - destruct n as [|n].
    { rewrite H0 in Hp by done. exists 0, w. simpl. split; [done|]. split; [done|]. split; [apply parse_frame_refl|done]. }
    rewrite of_nat_S_eqb.
    pose proof (parse_bulk_len_ok w n bl u acc Hp Hctx) as Hlen. simpl spec_bulks.
    destruct (if bl =? -1 then _ else _) as [out| |ll u'] eqn:El.
    + destruct Hlen as (w' & E & Hf & Hp'). rewrite (bind_Done _ _ _ _ _ E). mstep.
      exists (-1), w'. simpl. auto.
    + destruct Hlen as [E ->]. rewrite (bind_Done _ _ _ _ _ E). mstep. rewrite (p_mbl _ _ _ _ _ Hp).
      rewrite of_nat_S_eqb.
      exists (-1), w. simpl. split; [done|]. split; [done|]. split; [apply parse_frame_refl|done].
    + destruct Hlen as (w1 & E & Hf & Hp1). rewrite (bind_Done _ _ _ _ _ E).
      assert (Hll : 0 <= ll).
      { pose proof (p_bl_range _ _ _ _ _ Hp). destruct (Z.eqb_spec bl (-1)).
        - apply spec_bulk_len_range in El. lia.
        - injection El as -> ->. lia. }
      pose proof (read_bulk_arg_ok w1 n ll u' acc Hp1 Hll) as Harg.
      destruct (zlen u' <? ll + 2).
      * rewrite (bind_Done _ _ _ _ _ Harg). mstep. rewrite (p_mbl _ _ _ _ _ Hp1).
        rewrite of_nat_S_eqb.
        exists (-1), w1. simpl. auto.
      * destruct Harg as (w2 & E2 & Hf2 & Hp2). rewrite (bind_Done _ _ _ _ _ E2).
        assert (Hf02 : parse_frame w w2 []) by exact (parse_frame_trans _ _ _ _ _ Hf Hf2).
        destruct (IH n w2 _ _ _ Hp2) as (ret & w3 & E3 & Hpost);
          [by eapply parser_ctx_frame|lia|done|].
        exists ret, w3. split; [done|]. rewrite (pf_server _ _ _ Hf02) in Hpost.
        by eapply parse_post_frame.
Qed.

Lemma multibulk_args_ok (w : world) (n : nat) (bl : Z) (u : bytes) (acc : list bytes) :
  parsing w (S n) bl u acc -> parser_ctx w ->
  exists ret w', process_multibulk_args w = Done (ret, w')
    /\ parse_post w w' ret (spec_bulks (proto_max_bulk_len (w_server w)) (S n) bl u acc).
Proof.
  intros Hp Hctx. unfold process_multibulk_args. mstep. rewrite (p_mbl _ _ _ _ _ Hp).
  rewrite (bind_lift _ _ _ tt) by (unfold latte_assert; by rewrite of_nat_S_ltb).
  rewrite Nat2Z.id. by apply bulk_loop_ok.
Qed.

(** The client between two requests, with unparsed bytes [u]. *)
Definition at_request (w : world) (u : bytes) : Prop :=
  parsing w 0 (-1) u [] /\ (u = [] \/ first_byte u = "*"%char).

Lemma multibulk_header_ok (w : world) (u : bytes) :
  at_request w u -> parser_ctx w ->
  exists ret w', process_multibulk_buffer w = Done (ret, w')
    /\ parse_post w w' ret (spec_request (proto_max_bulk_len (w_server w)) u).
Proof.
  intros [Hp Hstar] Hctx. pose proof Hp as [HD Hpos Hsize Hu Hmbl Hbl Hblr Hargc Hargv].
  assert (Herr : forall msg log, NUL ∉ msg -> exists ret w', (_ ← protocol_error msg log; mret (-1)) w = Done (ret, w')
    /\ parse_post w w' ret (PErr 0 u [] (proto_err msg))).
  { intros msg log Hn. destruct (writes_frame _ _ _ (writes_protocol_error w msg log Hn)) as (w' & E & Hf & Hk).
    exists (-1), w'. rewrite (bind_Done _ _ _ _ _ E). split; [done|]. simpl. auto. }
  assert (Hmore : exists ret w', (mret (-1) : M Z) w = Done (ret, w') /\ parse_post w w' ret (PMore 0 (-1) u [])).
  { exists (-1), w. split; [done|]. simpl. split; [done|]. split; [apply parse_frame_refl|done]. }
  unfold process_multibulk_buffer. mstep. rewrite Hmbl. simpl (Z.of_nat 0 =? 0). cbv iota.
  rewrite (bind_lift _ _ _ tt) by (by rewrite Hargc).
  rewrite (bind_lift _ _ _ u) by (by apply qb_str_ok).
  unfold spec_request, spec_line.
  destruct (strchr u CR) as [k|] eqn:Ek.
  2:{ rewrite (qb_left_ok _ u) by done. destruct (PROTO_INLINE_MAX_SIZE <? zlen u); [|done].
      apply Herr. by apply (bool_decide_unpack _). }
  rewrite (line_incomplete_ok _ u) by done.
  destruct (Z.ltb_spec (zlen u) (Z.of_nat k + 2)) as [|Hk]; [done|].
  assert (Hne : first_byte u = "*"%char) by (destruct Hstar as [->|]; [done|done]).
  rewrite (bind_lift _ _ _ tt) by (by rewrite bool_decide_true).
  destruct (string2ll (header_digits u k)) as [ll|] eqn:Ell;
    [|apply Herr; by apply (bool_decide_unpack _)].
  destruct (Z.ltb_spec (1024 * 1024) ll) as [|Hmax]; [apply Herr; by apply (bool_decide_unpack _)|].
  unfold auth_required. rewrite andb_false_r. mstep. rewrite <- Z.add_assoc.
  destruct (skip_unparsed _ _ Hpos Hu (Z.of_nat k + 2)) as [Hpos' Hu']; [lia|].
  replace (Z.to_nat (Z.of_nat k + 2)) with (k + 2)%nat in Hu' by lia.
  set (w1 := set_w_client w _).
  assert (Hf1 : parse_frame w w1 []).
  { split; try done; [unfold output; rewrite append_last_nil; auto with latte|by left]. }
  destruct (Z.leb_spec ll 0) as [Hle|Hgt].
  { exists 0, w1. split; [done|]. replace (Z.to_nat ll) with 0%nat by lia. simpl. split; [done|].
    split; [done|]. split; try done. }
  mstep. rewrite (wrap_s_small 32 ll) by lia.
  set (w2 := set_w_client w1 _).
  assert (Hf2 : parse_frame w w2 []).
  { split; try done; [unfold output; rewrite append_last_nil; auto with latte| |by left].
    intros l. rewrite arg_locs_none; [intros Hl; by apply elem_of_nil in Hl|exact Hargc]. }
  destruct (Z.to_nat ll) as [|n] eqn:En; [lia|].
  destruct (multibulk_args_ok w2 n (-1) (drop (k + 2) u) []) as (ret & w' & E & Hpost).
  - split; try done; cbn; [lia|]. intros _. exists [], (replicate (S n) None). split; [done|].
    rewrite length_replicate. split; [lia|]. split; [split|]; constructor.
  - done.
  - exists ret, w'. split; [done|]. by eapply parse_post_frame.
Qed.

(** ** Requests as a client library encodes them *)

Definition enc_bulk (a : bytes) : bytes := "$"%char :: dec (zlen a) ++ CRLF ++ a ++ CRLF.

Definition enc_bulks (args : list bytes) : bytes := mjoin (enc_bulk <$> args).

Definition enc_request (args : list bytes) : bytes :=
  "*"%char :: dec (zlen args) ++ CRLF ++ enc_bulks args.

(** Requests the server accepts. *)
Definition request_ok (limit : Z) (args : list bytes) : Prop :=
  0 < zlen args <= 1024 * 1024 /\ Forall (fun a => zlen a <= limit) args.

(** In the parser state (n, bl, acc), [s] completes the request [args] and
    is followed by [t]. *)
Definition completes (n : nat) (bl : Z) (acc args : list bytes) (t s : bytes) : Prop :=
  (n = 0%nat /\ bl = -1 /\ acc = [] /\ s = enc_request args ++ t)
  \/ (exists todo, n = length todo /\ (0 < n)%nat /\ args = acc ++ todo
      /\ ((bl = -1 /\ s = enc_bulks todo ++ t)
          \/ (exists a todo', todo = a :: todo' /\ bl = zlen a /\ s = a ++ CRLF ++ enc_bulks todo' ++ t))).

(** A header line, of which the part [u] has arrived. *)
Lemma header_arrives (c : ascii) (z : Z) (s u rest : bytes) :
  c <> CR -> c <> NUL -> Z.abs z < 2 ^ 64 -> u ++ rest = c :: dec z ++ CRLF ++ s ->
  (spec_line u = LineMissing /\ zlen u <= PROTO_INLINE_MAX_SIZE /\ zlen s < zlen rest)
  \/ (spec_line u = LinePartial /\ zlen s < zlen rest)
  \/ exists k u', spec_line u = LineAt k /\ u = c :: dec z ++ CRLF ++ u' /\ u' ++ rest = s
      /\ drop (k + 2) u = u' /\ header_digits u k = dec z /\ first_byte u = c.
Proof.
  intros Hc Hn Hz E.
  assert (Hdec : zlen (dec z) <= 66) by (change 66 with (Z.of_nat 64 + 2); by apply dec_length).
  set (hd := c :: dec z). assert (Hhd : (CR ∉ hd) /\ (NUL ∉ hd)).
  { unfold hd. rewrite !not_elem_of_cons. split; (split; [congruence|auto with latte]). }
  destruct Hhd as [Hcr Hnul].
  change (c :: dec z ++ CRLF ++ s) with (hd ++ CR :: LF :: s) in E.
  assert (Hlen : zlen hd <= 67) by (unfold hd; rewrite zlen_cons; lia).
  apply app_eq_inv in E as [(k & -> & E)|(k & Ek & E)].
  - destruct k as [|x k]; simpl in E.
    { left. rewrite app_nil_r in *. subst rest. unfold spec_line, strchr.
      rewrite (proj2 (find_byte_None CR (cstr hd))) by (by rewrite cstr_line).
      split; [done|]. unfold PROTO_INLINE_MAX_SIZE. rewrite !zlen_cons. lia. }
    injection E as <- E. unfold spec_line. rewrite strchr_app_line by done.
    destruct k as [|y k]; simpl in E.
    { right; left. subst rest. rewrite zlen_app, !zlen_cons, zlen_nil. unfold zlen.
      replace (_ <? _) with true by lia. split; [done|]. lia. }
    injection E as <- E. right; right. exists (length hd), k.
    rewrite zlen_app, !zlen_cons. pose proof (zlen_nonneg k). unfold zlen at 1.
    replace (_ <? _) with false by lia. split_and!; try done.
    + rewrite (app_assoc hd [CR; LF] k : hd ++ CR :: LF :: k = _). apply drop_app_length'.
      rewrite length_app. simpl. lia.
    + unfold header_digits, hd. simpl. rewrite Nat.sub_0_r, drop_0. by apply take_app_length.
  - left. unfold spec_line, strchr. rewrite Ek in Hcr, Hnul, Hlen. rewrite elem_of_app in Hcr, Hnul.
    rewrite zlen_app in Hlen. pose proof (zlen_nonneg k).
    rewrite (proj2 (find_byte_None CR (cstr u))) by (rewrite cstr_line; naive_solver).
    split; [done|]. unfold PROTO_INLINE_MAX_SIZE. split; [lia|].
    subst rest. rewrite zlen_app, !zlen_cons. lia.
Qed.

Lemma app_split_long {A} (v rest x y : list A) :
  v ++ rest = x ++ y -> (length x <= length v)%nat -> exists v', v = x ++ v' /\ y = v' ++ rest.
Proof.
  intros E Hl. apply app_eq_inv in E as [(k & -> & ->)|(k & -> & ->)]; [eauto|].
  rewrite length_app in Hl. destruct k; [|simpl in Hl; lia]. exists []. by rewrite !app_nil_r.
Qed.

Lemma enc_bulks_cons (a : bytes) (todo : list bytes) (t : bytes) :
  enc_bulks (a :: todo) ++ t = "$"%char :: dec (zlen a) ++ CRLF ++ (a ++ CRLF ++ enc_bulks todo ++ t).
Proof.
  unfold enc_bulks. rewrite fmap_cons, mjoin_cons. unfold enc_bulk.
  cbn [app]. by rewrite <- !app_assoc.
Qed.

Lemma enc_request_app (args : list bytes) (t : bytes) :
  enc_request args ++ t = "*"%char :: dec (zlen args) ++ CRLF ++ (enc_bulks args ++ t).
Proof. unfold enc_request. cbn [app]. by rewrite <- !app_assoc. Qed.

(** What the specified parser makes of a part [u] of a valid request. *)
Definition spec_progress (acc args : list bytes) (t rest : bytes) (r : parse_result) : Prop :=
  match r with
  | PDone u' args' => args' = args /\ u' ++ rest = t
  | PMore n' bl' u' acc' => completes n' bl' acc' args t (u' ++ rest) /\ zlen t < zlen rest
  | PErr _ _ _ _ => False
  end.

Section Progress.
Context (limit : Z) (t rest : bytes).
Hypothesis Hlim : limit < 2 ^ 62.

Lemma spec_arg_progress (a : bytes) (todo acc : list bytes) (v : bytes) :
  (forall acc v, v ++ rest = enc_bulks todo ++ t ->
     spec_progress acc (acc ++ todo) t rest (spec_bulks limit (length todo) (-1) v acc)) ->
  v ++ rest = a ++ CRLF ++ enc_bulks todo ++ t ->
  spec_progress acc (acc ++ a :: todo) t rest
    (if zlen v <? zlen a + 2 then PMore (S (length todo)) (zlen a) v acc
     else spec_bulks limit (length todo) (-1) (drop (Z.to_nat (zlen a + 2)) v)
            (acc ++ [take (Z.to_nat (zlen a)) v])).
Proof.
  intros IH Ev. pose proof (zlen_nonneg a). destruct (Z.ltb_spec (zlen v) (zlen a + 2)) as [Hlt|Hge].
  - split.
    + right. exists (a :: todo). split_and!; [done|simpl; lia|done|]. right. eauto.
    + apply (f_equal zlen) in Ev. rewrite !zlen_app in Ev. change (zlen CRLF) with 2 in Ev.
      pose proof (zlen_nonneg (enc_bulks todo)). lia.
  - rewrite app_assoc in Ev. destruct (app_split_long _ _ _ _ Ev) as (v' & -> & Ev').
    { unfold zlen in Hge. rewrite length_app. simpl. lia. }
    rewrite drop_app_length' by (rewrite length_app; unfold zlen; simpl; lia).
    rewrite <- app_assoc, take_app_length' by (unfold zlen; lia).
    specialize (IH (acc ++ [a]) v' (eq_sym Ev')). by rewrite <- app_assoc in IH.
Qed.

Lemma spec_bulks_progress (todo acc : list bytes) (u : bytes) :
  Forall (fun a => zlen a <= limit) todo -> u ++ rest = enc_bulks todo ++ t ->
  spec_progress acc (acc ++ todo) t rest (spec_bulks limit (length todo) (-1) u acc).
Proof.
  intros Hok. revert acc u. induction Hok as [|a todo Ha Hok IH]; intros acc u E; simpl.
  { split; [by rewrite app_nil_r|done]. }
  pose proof (zlen_nonneg a) as Hza. pose proof E as E'. rewrite enc_bulks_cons in E'.
  assert (Hmore : zlen (a ++ CRLF ++ enc_bulks todo ++ t) < zlen rest ->
    spec_progress acc (acc ++ a :: todo) t rest (PMore (S (length todo)) (-1) u acc)).
  { intros Hl. split.
    - right. exists (a :: todo). split_and!; [done|simpl; lia|done|]. by left.
    - rewrite !zlen_app in Hl. change (zlen CRLF) with 2 in Hl. pose proof (zlen_nonneg (enc_bulks todo)). lia. }
  unfold spec_bulk_len.
  destruct (header_arrives "$"%char (zlen a) _ u rest ltac:(done) ltac:(done) ltac:(lia) E')
    as [(-> & Hs & Hl)|[[-> Hl]|(k & u' & -> & Hu & Eu & -> & -> & ->)]].
  - replace (_ <? _) with false by lia. by apply Hmore.
  - by apply Hmore.
  - rewrite bool_decide_true, string2ll_dec by (done || lia).
    replace (0 <=? zlen a) with true by lia. replace (zlen a <=? limit) with true by lia. simpl.
    apply spec_arg_progress; [by intros; apply IH|done].
Qed.

Lemma spec_parse_progress (n : nat) (bl : Z) (acc args : list bytes) (u : bytes) :
  request_ok limit args -> completes n bl acc args t (u ++ rest) ->
  spec_progress acc args t rest (spec_parse limit n bl u acc).
Proof.
  intros [Hlen Hok] [(-> & -> & -> & E)|(todo & -> & Hpos & -> & Hs)].
  - unfold spec_parse, spec_request. pose proof E as E'. rewrite enc_request_app in E'.
    assert (Hmore : zlen (enc_bulks args ++ t) < zlen rest -> spec_progress [] args t rest (PMore 0 (-1) u [])).
    { intros Hl. split; [by left|]. rewrite zlen_app in Hl. pose proof (zlen_nonneg (enc_bulks args)). lia. }
    destruct (header_arrives "*"%char (zlen args) _ u rest ltac:(done) ltac:(done) ltac:(lia) E')
      as [(-> & Hs & Hl)|[[-> Hl]|(k & u' & -> & Hu & Eu & -> & -> & _)]].
    + replace (_ <? _) with false by lia. by apply Hmore.
    + by apply Hmore.
    + rewrite string2ll_dec by lia. replace (_ <? _) with false by lia.
      unfold zlen at 1. rewrite Nat2Z.id. by apply spec_bulks_progress.
  - apply Forall_app in Hok as [_ Hok]. unfold spec_parse.
    destruct (length todo) as [|m] eqn:Em; [lia|]. rewrite <- Em.
    destruct Hs as [(-> & E)|(a & todo' & -> & -> & E)]; [by apply spec_bulks_progress|].
    inversion Hok as [|? ? Ha Hok']; subst. pose proof (zlen_nonneg a). simpl.
    replace (zlen a =? -1) with false by lia.
    apply spec_arg_progress; [by intros; apply spec_bulks_progress|done].
Qed.
End Progress.

(** ** Requests in pieces *)

(** What the event loop does when bytes arrive: it may first drop the consumed
    part of the buffer, then appends them. *)
Definition deliver (trim : bool) (s : bytes) : M unit :=
  mod_latte_client (fun lc =>
    if trim then set_qb_pos (set_querybuf lc (drop (Z.to_nat (qb_pos lc)) (querybuf lc) ++ s)) 0
    else set_querybuf lc (querybuf lc ++ s)).

(** Deliver the pieces one after the other, parsing after each, until a
    request is complete; the pieces not needed are returned. *)
Fixpoint feed (chunks : list (bool * bytes)) : M (option (list (bool * bytes))) :=
  match chunks with
  | [] => mret None
  | (trim, s) :: chunks =>
      _ ← deliver trim s;
      r ← process_multibulk_buffer;
      if r =? 0 then mret (Some chunks) else feed chunks
  end.

Definition piece_bytes (chunks : list (bool * bytes)) : bytes := mjoin (snd <$> chunks).

(** Only the parser state of the client and new objects differ. *)
Definition quiet (w w' : world) : Prop :=
  w_server w' = w_server w /\ w_heap w ⊆ w_heap w' /\ output w' = output w
  /\ flag (w_client w') = flag (w_client w).

Lemma quiet_frame (w w' : world) : parse_frame w w' [] -> quiet w w'.
Proof.
  intros []. split_and!; try done. rewrite pf_out0. unfold output. rewrite append_last_nil; auto with latte.
Qed.

Lemma quiet_trans (a b c : world) : quiet a b -> quiet b c -> quiet a c.
Proof. intros (?&?&?&?) (?&?&?&?). split_and!; try congruence. by etrans. Qed.

Lemma deliver_ok (w : world) (trim : bool) (s : bytes) (n : nat) (bl : Z) (u : bytes) (acc : list bytes) :
  parsing w n bl u acc -> zlen (querybuf (client (w_client w))) + zlen s < 2 ^ 62 ->
  exists w', deliver trim s w = Done (tt, w') /\ quiet w w' /\ parsing w' n bl (u ++ s) acc
    /\ zlen (querybuf (client (w_client w'))) <= zlen (querybuf (client (w_client w))) + zlen s.
Proof.
  intros [HD Hpos Hsize Hu Hmbl Hbl Hblr Hargc Hargv] Hs.
  pose proof (zlen_unparsed _ _ Hpos Hu) as Hzu. pose proof (zlen_nonneg s).
  eexists. split; [reflexivity|]. split; [by destruct trim|]. destruct trim; cbn.
  - rewrite Hu, zlen_app. split; [|lia]. split; cbn; rewrite ?zlen_app; try done; lia.
  - rewrite zlen_app. split; [|lia]. split; cbn; rewrite ?zlen_app; try done; try lia.
    rewrite <- Hu. rewrite drop_app_le; [done|]. unfold zlen in *. lia.
Qed.

Lemma multibulk_buffer_ok (w : world) (n : nat) (bl : Z) (u : bytes) (acc : list bytes) :
  parsing w n bl u acc -> (n = 0%nat -> bl = -1 /\ acc = [] /\ (u = [] \/ first_byte u = "*"%char)) ->
  parser_ctx w ->
  exists ret w', process_multibulk_buffer w = Done (ret, w')
    /\ parse_post w w' ret (spec_parse (proto_max_bulk_len (w_server w)) n bl u acc).
Proof.
  intros Hp H0 Hctx. destruct n as [|n].
  - destruct H0 as (-> & -> & Hu); [done|]. by apply multibulk_header_ok.
  - unfold process_multibulk_buffer. mstep. rewrite (p_mbl _ _ _ _ _ Hp), of_nat_S_eqb.
    by apply multibulk_args_ok.
Qed.

Lemma completes_start (n : nat) (bl : Z) (acc args : list bytes) (t u rest : bytes) :
  completes n bl acc args t (u ++ rest) ->
  n = 0%nat -> bl = -1 /\ acc = [] /\ (u = [] \/ first_byte u = "*"%char).
Proof.
  intros [(-> & -> & -> & E)|(todo & -> & ? & _)] ?; [|lia]. split_and!; [done..|].
  destruct u as [|c u]; [by left|]. right. injection E as -> _. done.
Qed.

Lemma feed_ok (chunks : list (bool * bytes)) (args : list bytes) (t : bytes) (w : world)
    (n : nat) (bl : Z) (u : bytes) (acc : list bytes) :
  parsing w n bl u acc -> parser_ctx w -> request_ok (proto_max_bulk_len (w_server w)) args ->
  completes n bl acc args t (u ++ piece_bytes chunks) -> zlen t < zlen (piece_bytes chunks) ->
  zlen (querybuf (client (w_client w))) + zlen (piece_bytes chunks) < 2 ^ 62 ->
  exists later w' u', feed chunks w = Done (Some later, w') /\ quiet w w'
    /\ parsing w' 0 (-1) u' args /\ u' ++ piece_bytes later = t.
Proof.
  revert w n bl u acc. induction chunks as [|[trim s] chunks IH];
    intros w n bl u acc Hp Hctx Hreq Hc Ht Hsz.
  { pose proof (zlen_nonneg t). unfold piece_bytes in Ht. simpl in Ht. rewrite zlen_nil in Ht. lia. }
  unfold piece_bytes in *. rewrite fmap_cons, mjoin_cons, zlen_app in *. simpl snd in *.
  set (rest := mjoin (snd <$> chunks)) in *. pose proof (zlen_nonneg rest).
  destruct (deliver_ok w trim s n bl u acc Hp) as (w1 & E1 & Hq1 & Hp1 & Hs1); [lia|].
  cbn [feed]. rewrite (bind_Done _ _ _ _ _ E1). rewrite app_assoc in Hc.
  assert (Hctx1 : parser_ctx w1).
  { destruct Hctx, Hq1 as (Es & _ & _ & Ef). split; congruence. }
  destruct (multibulk_buffer_ok w1 n bl (u ++ s) acc Hp1) as (ret & w2 & E2 & Hpost);
    [by eapply completes_start|done|].
  rewrite (bind_Done _ _ _ _ _ E2). destruct Hq1 as (Es & Hh1 & Ho1 & Hf1). rewrite Es in Hpost.
  pose proof (spec_parse_progress (proto_max_bulk_len (w_server w)) t rest (proj2 Hctx)
    n bl acc args (u ++ s) Hreq Hc) as Hprog.
  destruct (spec_parse _ _ _ _ _) as [n' bl' u' acc'| |u' args']; simpl in Hprog, Hpost; [|done|].
  - destruct Hprog as [Hc' Ht'], Hpost as (-> & Hf2 & Hp2). simpl (-1 =? 0). cbv iota.
    assert (Hq : quiet w w2) by (eapply quiet_trans; [|by apply quiet_frame]; done).
    destruct (IH w2 n' bl' u' acc' Hp2) as (later & w3 & u3 & E3 & Hq3 & H3).
    + by eapply parser_ctx_frame.
    + by rewrite (proj1 Hq).
    + done.
    + done.
    + pose proof (pf_size _ _ _ Hf2). fold rest. lia.
    + exists later, w3, u3. split; [done|]. split; [by eapply quiet_trans|done].
  - destruct Hprog as [-> Eu], Hpost as (-> & Hf2 & Hp2).
    exists chunks, w2, u'. split; [done|]. split; [|done].
    eapply quiet_trans; [|by apply quiet_frame]. done.
Qed.

End Parser.

(** ** Inline requests *)

Lemma set_inline_args_ok (args acc : list bytes) (w : world) (ls : list loc) (cells : list (option loc)) :
  argv (w_client w) = Some (map Some ls ++ cells) -> argc (w_client w) = zlen acc ->
  length cells = length args -> args_own (w_heap w) ls acc ->
  exists ls' h' n, let w' := set_w_client (set_w_heap w h') (set_argv_len_sum (set_argc (set_argv (w_client w)
      (Some (map Some ls'))) (zlen (acc ++ args))) n) in
    set_inline_args args w = Done (tt, w') /\ args_own h' ls' (acc ++ args) /\ w_heap w ⊆ h'.
Proof.
  revert acc w ls cells. induction args as [|a args IH]; intros acc w ls cells Ha Hc Hl Hown.
  { destruct cells; [|done]. exists ls, (w_heap w), (argv_len_sum (w_client w)). rewrite !app_nil_r in *.
    split; [|done]. simpl. rewrite <- Ha, <- Hc. unfold mret, M_ret. do 2 f_equal.
    by destruct w as [? ? ? [] ?]. }
  destruct cells as [|x cells]; [done|]. simpl set_inline_args. mstep. unfold id.
  destruct (latte_object_new_spec a (w_heap w)) as (l & o & -> & Hf & Ho & Hr).
  rewrite (bind_lift _ _ _ (map Some ls ++ x :: cells)) by (by rewrite Ha).
  rewrite (bind_lift _ _ _ (map Some (ls ++ [l]) ++ cells)).
  2:{ rewrite array_set_Done, Hc.
      - unfold zlen. rewrite <- (args_own_length _ _ _ Hown), Nat2Z.id, insert_app_r_alt;
          rewrite length_map; [|lia]. rewrite Nat.sub_diag. simpl. by rewrite map_app, <- app_assoc.
      - rewrite Hc, zlen_app, zlen_cons. unfold zlen. rewrite length_map, (args_own_length _ _ _ Hown). lia. }
  mstep.
  match goal with |- context [set_inline_args args ?w1] =>
    destruct (IH (acc ++ [a]) w1 (ls ++ [l]) cells) as (ls' & h' & n & E & Hown' & Hsub) end.
  - reflexivity.
  - cbn. rewrite Hc, zlen_app. reflexivity.
  - simpl in Hl. lia.
  - by apply args_own_snoc.
  - rewrite <- app_assoc in *. exists ls', h', n. split_and!; [exact E|done|].
    etrans; [|exact Hsub]. cbn. by apply insert_subseteq.
Qed.

(** The words of a line do not contain line ends. *)
Lemma plain_line (ws : list bytes) :
  forallb plain_word ws = true -> (NUL ∉ join_sp ws) /\ (CR ∉ join_sp ws) /\ (LF ∉ join_sp ws).
Proof.
  assert (Hb : forall c, plain_byte c = true -> c <> NUL /\ c <> CR /\ c <> LF).
  { intros c Hc. split_and!; intros ->; discriminate. }
  assert (Hw : forall w c, forallb plain_byte w = true -> c ∈ w -> plain_byte c = true).
  { intros w c Hf Hc. apply Is_true_true, forallb_True in Hf. rewrite Forall_forall in Hf.
    by apply Is_true_true, Hf. }
  intros Hws. enough (H : forall c, c ∈ join_sp ws -> plain_byte c = true \/ c = SP).
  { split_and!; intros H'; apply H in H' as [H'|H']; try done; apply Hb in H'; naive_solver. }
  induction ws as [|w ws IH]; [by intros c ?%elem_of_nil|]. simpl in Hws.
  apply andb_prop in Hws as [H1 H2]. apply andb_prop in H1 as [_ H1]. intros c.
  destruct ws as [|w' ws]; simpl join_sp; [by eauto|].
  rewrite elem_of_app, elem_of_cons. intros [Hc|[->|Hc]]; [by eauto|by right|by apply IH].
Qed.

(** The line end found by [process_inline_buffer]. *)
Definition eol (crlf : bool) : bytes := if crlf then CRLF else [LF].

Lemma inline_line_ok (line rest : bytes) (crlf : bool) :
  (NUL ∉ line) -> (CR ∉ line) -> (LF ∉ line) ->
  let u := line ++ eol crlf ++ rest in
  exists newline, strchr u LF = Some newline
    /\ (0 <? newline)%nat && bool_decide (u !! (newline - 1)%nat = Some CR) = crlf
    /\ (if crlf then newline - 1 else newline)%nat = length line.
Proof.
  intros Hn Hc Hl. destruct crlf; simpl.
  - exists (S (length line)). split_and!.
    + rewrite (app_assoc line [CR] (LF :: rest) : line ++ CR :: LF :: rest = _).
      rewrite strchr_app_line; [|done|by rewrite elem_of_app, list_elem_of_singleton; naive_solver..].
      rewrite length_app. simpl. f_equal. lia.
    + replace (S (length line) - 1)%nat with (length line) by lia.
      by rewrite list_lookup_middle, bool_decide_true.
    + lia.
  - exists (length line). split_and!; [by apply strchr_app_line| |done].
    destruct line as [|c line _] using rev_ind; [done|].
    rewrite length_app. simpl. replace (length line + 1 - 1)%nat with (length line) by lia.
    rewrite <- app_assoc. simpl. rewrite list_lookup_middle by done.
    rewrite bool_decide_false; [by rewrite andb_false_r|]. intros [= ->].
    apply Hc. rewrite elem_of_app, list_elem_of_singleton. naive_solver.
Qed.

Definition qb_ok (lc : latte_client_t client_priv_t) (u : bytes) : Prop :=
  0 <= qb_pos lc <= zlen (querybuf lc) /\ zlen (querybuf lc) < 2 ^ 62
  /\ drop (Z.to_nat (qb_pos lc)) (querybuf lc) = u.

(** ** Releasing the arguments *)

(** What [latte_object_decr_ref_count] does to an object. *)
Definition dropped (o : latte_object_t) : option latte_object_t :=
  if refcount o =? 1 then None else Some (set_refcount o (refcount o - 1)).

Definition droppable (o : latte_object_t) : Prop :=
  refcount o = 1 \/ (1 < refcount o /\ counted (refcount o - 1)).

Lemma decr_dropped (h : heap) (l : loc) (o : latte_object_t) :
  h !! l = Some o -> droppable o ->
  latte_object_decr_ref_count l h = partial_alter (fun _ => dropped o) l h.
Proof.
  intros Hl [Hr|[Hr Hc]]; unfold dropped.
  - rewrite (decr_ref_count_free l o h) by done. by rewrite Hr.
  - rewrite (decr_ref_count_spec l o h) by done. by rewrite (proj2 (Z.eqb_neq _ _)) by lia.
Qed.

Lemma decr_args_ok (ls pre : list loc) (w : world) (cells : list (option loc)) :
  argv (w_client w) = Some (map Some (pre ++ ls) ++ cells) -> NoDup ls ->
  (forall l, l ∈ ls -> exists o, w_heap w !! l = Some o /\ droppable o) ->
  exists h', decr_args (length ls) (zlen pre) w = Done (tt, set_w_heap w h')
    /\ (forall l, l ∈ ls -> h' !! l = w_heap w !! l ≫= dropped)
    /\ (forall l, l ∉ ls -> h' !! l = w_heap w !! l).
Proof.
  revert pre w. induction ls as [|l ls IH]; intros pre w Ha Hnd Hd.
  { exists (w_heap w). split_and!; [by destruct w|by intros ? ?%elem_of_nil|done]. }
  apply NoDup_cons in Hnd as [Hl Hnd]. destruct (Hd l) as (o & Ho & Hdo); [by left|].
  simpl decr_args. mstep.
  rewrite (bind_lift _ _ _ l).
  2:{ unfold argv_at. rewrite Ha. cbn. rewrite (array_get_Done _ _ (Some l)); [done|apply zlen_nonneg|].
      unfold zlen. rewrite Nat2Z.id, map_app, <- app_assoc, lookup_app_r; rewrite length_map; [|lia].
      by rewrite Nat.sub_diag. }
  rewrite (bind_read_obj _ _ _ _ Ho). mstep. rewrite (decr_dropped _ _ _ Ho Hdo).
  set (w1 := set_w_heap w _).
  destruct (IH (pre ++ [l]) w1) as (h' & E & H1 & H2).
  - by rewrite <- app_assoc.
  - done.
  - intros l' Hl'. destruct (Hd l') as (o' & Ho' & ?); [by right|]. exists o'. split; [|done].
    cbn. rewrite lookup_partial_alter_ne; [done|]. intros ->. done.
  - exists h'. split.
    { rewrite zlen_app in E. exact E. }
    assert (Hother : forall l', l' <> l -> w_heap w1 !! l' = w_heap w !! l').
    { intros l' Hne. cbn. by rewrite lookup_partial_alter_ne. }
    split.
    + intros l' [->|Hl']%elem_of_cons.
      * rewrite H2 by done. cbn. by rewrite lookup_partial_alter_eq, Ho.
      * rewrite H1 by done. rewrite Hother; [done|]. by intros ->.
    + intros l' Hl'. rewrite not_elem_of_cons in Hl'. destruct Hl'. rewrite H2 by done. by apply Hother.
Qed.

Lemma reset_ok (w : world) (ls : list loc) (cells : list (option loc)) (u : bytes) :
  qb_ok (client (w_client w)) u -> argc (w_client w) = zlen ls ->
  (ls <> [] -> argv (w_client w) = Some (map Some ls ++ cells)) -> NoDup ls ->
  (forall l, l ∈ ls -> exists o, w_heap w !! l = Some o /\ droppable o) ->
  exists h', let w' := set_w_client (set_w_heap w h')
      (set_bulk_len (set_multi_bulk_len (set_req_type (set_argv_len_sum
        (set_cmd (set_argc (w_client w) 0) None) 0) 0) 0) (-1)) in
    reset_redis_client w = Done (tt, w') /\ parsing ∅ w' 0 (-1) u []
    /\ (forall l, l ∈ ls -> h' !! l = w_heap w !! l ≫= dropped)
    /\ (forall l, l ∉ ls -> h' !! l = w_heap w !! l).
Proof.
  intros (Hpos & Hsize & Hu) Hc Ha Hnd Hd.
  assert (Hargs : exists h', decr_args (length ls) 0 w = Done (tt, set_w_heap w h')
    /\ (forall l, l ∈ ls -> h' !! l = w_heap w !! l ≫= dropped)
    /\ (forall l, l ∉ ls -> h' !! l = w_heap w !! l)).
  { destruct ls as [|l ls].
    - exists (w_heap w). split_and!; [by destruct w|by intros ? ?%elem_of_nil|done].
    - apply (decr_args_ok (l :: ls) [] w cells); auto. }
  destruct Hargs as (h' & E & H1 & H2). exists h'. split_and!; try done.
  - unfold reset_redis_client, free_client_argv.
    erewrite bind_Done.
    2:{ mstep. rewrite Hc. unfold zlen. rewrite Nat2Z.id. by rewrite (bind_Done _ _ _ _ _ E). }
    done.
  - split; cbn; try done. lia.
Qed.

(** ** The theorems *)

(** C11: the multibulk parser implements the specified parser on every input:
    from a client that stands in any parser state (arguments missing, length of
    the next argument known or not, unparsed bytes [u], arguments read) it
    completes without a failed assertion, an access outside the query buffer
    or the argument vector, or an overflow; it returns 0 exactly when the
    specified parser has a complete request, the client then stands in the
    specified state, holding for the arguments objects outside any set [D] of locations in
    use before, and the output
    grows by exactly the specified protocol error. *)
Theorem process_multibulk_buffer_refines (D : gset loc) (w : world) (n : nat) (bl : Z) (u : bytes) (acc : list bytes) :
  parsing D w n bl u acc -> (n = 0%nat -> bl = -1 /\ acc = [] /\ (u = [] \/ first_byte u = "*"%char)) ->
  parser_ctx w ->
  exists ret w', process_multibulk_buffer w = Done (ret, w')
    /\ parse_post D w w' ret (spec_parse (proto_max_bulk_len (w_server w)) n bl u acc).
Proof. apply multibulk_buffer_ok. Qed.

(** C12: requests survive any fragmentation: when the encoding of [args]
    followed by other bytes [t] arrives in pieces of any sizes, with or
    without compaction of the query buffer in between, parsing after each
    piece yields exactly the arguments [args], consumes exactly the request
    (what is left is [t]), and sends nothing to the client. *)
Theorem multibulk_fragments (D : gset loc) (chunks : list (bool * bytes)) (args : list bytes) (t : bytes) (w : world) :
  parsing D w 0 (-1) [] [] -> parser_ctx w -> request_ok (proto_max_bulk_len (w_server w)) args ->
  piece_bytes chunks = enc_request args ++ t ->
  zlen (querybuf (client (w_client w))) + zlen (piece_bytes chunks) < 2 ^ 62 ->
  exists later w' u', feed chunks w = Done (Some later, w')
    /\ u' ++ piece_bytes later = t /\ parsing D w' 0 (-1) u' args
    /\ output w' = output w /\ w_heap w ⊆ w_heap w'.
Proof.
  intros Hp Hctx Hreq E Hsz.
  destruct (feed_ok D chunks args t w 0 (-1) [] [] Hp Hctx Hreq) as (later & w' & u' & Ef & (_ & Hh & Ho & _) & Hp' & Et).
  - left. by rewrite app_nil_l.
  - rewrite E, enc_request_app, zlen_cons, !zlen_app. pose proof (zlen_nonneg (dec (zlen args))).
    pose proof (zlen_nonneg CRLF). pose proof (zlen_nonneg (enc_bulks args)). lia.
  - done.
  - exists later, w', u'. done.
Qed.

(** C34: an inline request: for a line of plain words ended by LF or CRLF the
    argument vector becomes exactly the words; the position advances by the
    length of the line and its end plus [linefeed0 - 1], where [linefeed0] is
    the value the uninitialised local [linefeed_chars] happens to have, so
    the line is consumed exactly when that value is 1. *)
Theorem process_inline_buffer_args (w : world) (ws : list bytes) (crlf : bool) (rest : bytes) (linefeed0 : Z) :
  qb_ok (client (w_client w)) (join_sp ws ++ eol crlf ++ rest) ->
  ws <> [] -> forallb plain_word ws = true -> has_flag (flag (w_client w)) CLIENT_MASTER = false ->
  0 <= linefeed0 < 2 ^ 31 - 1 ->
  exists ls w', process_inline_buffer linefeed0 w = Done (0, w')
    /\ argv (w_client w') = Some (map Some ls) /\ argc (w_client w') = zlen ws
    /\ args_own (w_heap w') ls ws /\ w_heap w ⊆ w_heap w'
    /\ qb_pos (client (w_client w')) = qb_pos (client (w_client w)) + zlen (join_sp ws) + zlen (eol crlf) + (linefeed0 - 1)
    /\ (qb_ok (client (w_client w')) rest <-> linefeed0 = 1).
Proof.
  intros (Hpos & Hsize & Hu) Hne Hws Hm Hlf.
  destruct (plain_line ws Hws) as (Hnul & Hcr & Hlfn).
  destruct (inline_line_ok (join_sp ws) rest crlf Hnul Hcr Hlfn) as (newline & Enl & Ecr & Elen).
  set (u := join_sp ws ++ eol crlf ++ rest) in *.
  pose proof (zlen_unparsed _ _ Hpos Hu) as Hzu. unfold u in Hzu. rewrite !zlen_app in Hzu.
  pose proof (zlen_nonneg rest). pose proof (zlen_nonneg (join_sp ws)) as Hzj.
  assert (Heol : zlen (eol crlf) = if crlf then 2 else 1) by (by destruct crlf).
  unfold process_inline_buffer. mstep. rewrite (bind_lift _ _ _ u) by (by apply qb_str_ok).
  rewrite Enl, Ecr, Elen. fold (zlen (join_sp ws)).
  rewrite sds_new_len_spec by (unfold u; rewrite zlen_app, zlen_app; pose proof (zlen_nonneg (eol crlf)); lia).
  unfold zlen at 1. rewrite Nat2Z.id. unfold u at 1. rewrite take_app_length.
  rewrite sds_split_args_plain by done. mstep. rewrite Hm, andb_false_r.
  assert (Hj : zlen (join_sp ws) <> 0).
  { destruct ws as [|w0 ws]; [done|]. simpl in Hws. apply andb_prop in Hws as [Hw0 _].
    apply andb_prop in Hw0 as [Hw0 _]. apply bool_decide_eq_true in Hw0.
    destruct w0 as [|c w0]; [done|]. destruct ws; simpl; rewrite zlen_cons;
      match goal with |- 1 + zlen ?x <> 0 => pose proof (zlen_nonneg x) end; lia. }
  rewrite (proj2 (Z.eqb_neq _ _) Hj), andb_false_l. mstep.
  rewrite bool_decide_true by done. mstep.
  set (lf := if crlf then _ else _).
  assert (Hlf' : lf = zlen (eol crlf) + (linefeed0 - 1)).
  { unfold lf. rewrite Heol. destruct crlf; [rewrite wrap_s_small|]; lia. }
  set (w1 := set_w_client _ _).
  destruct (set_inline_args_ok ws [] w1 [] (replicate (length ws) None)) as (ls & h' & n & E & Hown & Hsub).
  - reflexivity.
  - reflexivity.
  - apply length_replicate.
  - split; constructor.
  - rewrite (bind_Done _ _ _ _ _ E). eexists ls, _. split; [reflexivity|].
    assert (Hpos' : u64 (qb_pos (client (w_client w)) + u64 (zlen (join_sp ws) + lf))
      = qb_pos (client (w_client w)) + zlen (join_sp ws) + zlen (eol crlf) + (linefeed0 - 1)).
    { assert (1 <= zlen (eol crlf) <= 2) by (rewrite Heol; by destruct crlf).
      rewrite Hlf', (wrap_u_small 64 (zlen (join_sp ws) + _)), wrap_u_small; lia. }
    split_and!; try done. unfold qb_ok. cbn. rewrite Hpos'.
    split.
    + intros (H1 & _ & H3). apply (f_equal zlen) in H3. rewrite drop_zlen in H3 by done. lia.
    + intros ->. replace (_ + (1 - 1)) with (qb_pos (client (w_client w)) + (zlen (join_sp ws) + zlen (eol crlf))) by lia.
      pose proof (zlen_nonneg (eol crlf)).
      destruct (skip_unparsed _ _ Hpos Hu (zlen (join_sp ws) + zlen (eol crlf))) as [H1 H2].
      { unfold u. rewrite !zlen_app. lia. }
      split_and!; try lia. rewrite H2. unfold u. rewrite app_assoc. apply drop_app_length'.
      rewrite length_app. unfold zlen. lia.
Qed.

(** C19: after a command, [reset_redis_client] puts the client back between two
    requests and gives up exactly one reference of every argument: an argument
    nobody else refers to is freed, any other object keeps its value and its
    remaining references, unparsed bytes stay. *)
Theorem reset_redis_client_correct (w : world) (ls : list loc) (cells : list (option loc)) (u : bytes) :
  qb_ok (client (w_client w)) u -> argc (w_client w) = zlen ls ->
  (ls <> [] -> argv (w_client w) = Some (map Some ls ++ cells)) -> NoDup ls ->
  (forall l, l ∈ ls -> exists o, w_heap w !! l = Some o /\ droppable o) ->
  exists w', reset_redis_client w = Done (tt, w') /\ parsing ∅ w' 0 (-1) u []
    /\ req_type (w_client w') = 0 /\ cmd (w_client w') = None
    /\ w_server w' = w_server w /\ output w' = output w
    /\ (forall l, l ∈ ls -> w_heap w' !! l = w_heap w !! l ≫= dropped)
    /\ (forall l, l ∉ ls -> w_heap w' !! l = w_heap w !! l).
Proof.
  intros Hq Hc Ha Hn Hd. destruct (reset_ok w ls cells u Hq Hc Ha Hn Hd) as (h' & E & Hp & H1 & H2).
  eexists. split; [exact E|]. done.
Qed.

End Protocol.

(** ** Concrete runs *)

#[local] Existing Instance model_latte.
#[local] Existing Instance model_latte_laws.

(** A client between two requests, with bytes in its query buffer. *)
Definition ex_idle (buf : bytes) (args : list loc) : world :=
  set_w_client ex_world
    (mk_client (mk_latte_client buf 0 0 list_new true 0 0 []) 7%nat 0 0 0 (zlen args)
       (Some (map Some args)) None None 0 (-1) 0 0 0 0 0 0 0).

Lemma ex_idle_parsing (buf : bytes) : zlen buf < 2 ^ 62 -> parsing ∅ (ex_idle buf []) 0 (-1) buf [].
Proof.
  intros H. pose proof (zlen_nonneg buf). split; cbn; try done; try lia.
Qed.

Lemma ex_idle_ctx (buf : bytes) (args : list loc) : parser_ctx (ex_idle buf args).
Proof. split; reflexivity. Qed.

Definition ex_bad_request : bytes := bs "*1" ++ CRLF ++ bs "+GET" ++ CRLF.

Lemma process_multibulk_buffer_refines_witness :
  exists w', process_multibulk_buffer (ex_idle ex_bad_request []) = Done (-1, w')
    /\ output w' = [bs "-ERR Protocol error: expected '$', got '+'" ++ CRLF].
Proof.
  destruct (process_multibulk_buffer_refines ∅ (ex_idle ex_bad_request []) 0 (-1) ex_bad_request [])
    as (ret & w' & E & Hpost).
  - apply ex_idle_parsing. reflexivity.
  - intros _. split; [reflexivity|]. split; [reflexivity|]. right. reflexivity.
  - apply ex_idle_ctx.
  - assert (Hs : spec_parse (proto_max_bulk_len (w_server (ex_idle ex_bad_request []))) 0 (-1) ex_bad_request []
      = PErr 1 (bs "+GET" ++ CRLF) [] (bs "-ERR Protocol error: expected '$', got '+'" ++ CRLF))
      by (vm_compute; reflexivity).
    rewrite Hs in Hpost. destruct Hpost as (-> & Hf & _). exists w'. split; [exact E|].
    rewrite (pf_out _ _ _ Hf). reflexivity.
Defined.

(** "GET k" in three pieces, followed by the start of another request. *)
Definition ex_pieces : list (bool * bytes) :=
  [(false, bs "*2" ++ [CR]); (true, [LF] ++ bs "$3" ++ CRLF ++ bs "GE");
   (true, bs "T" ++ CRLF ++ bs "$1" ++ CRLF ++ bs "k" ++ CRLF ++ bs "*1")].

Lemma multibulk_fragments_witness :
  exists w' u', feed ex_pieces (ex_idle [] []) = Done (Some [], w')
    /\ u' = bs "*1" /\ parsing ∅ w' 0 (-1) u' [bs "GET"; bs "k"].
Proof.
  destruct (multibulk_fragments ∅ ex_pieces [bs "GET"; bs "k"] (bs "*1") (ex_idle [] []))
    as (later & w' & u' & E & Et & Hp & _).
  - apply ex_idle_parsing. reflexivity.
  - apply ex_idle_ctx.
  - split; [vm_compute; split; [reflexivity|discriminate]|].
    repeat constructor; vm_compute; discriminate.
  - reflexivity.
  - reflexivity.
  - assert (later = []) as ->.
    { assert (Hl : (x ← feed ex_pieces (ex_idle [] []); mret (fst x)) = Done (Some []))
        by (vm_compute; reflexivity).
      rewrite E in Hl. unfold mret, outcome_ret in Hl. cbn in Hl. by injection Hl. }
    exists w', u'. rewrite app_nil_r in Et. split; [exact E|]. split; [exact Et|exact Hp].
Defined.

Lemma process_inline_buffer_args_witness :
  exists ls w', process_inline_buffer 1 (ex_idle (bs "PING hello" ++ CRLF ++ bs "X") []) = Done (0, w')
    /\ args_own (w_heap w') ls [bs "PING"; bs "hello"] /\ qb_ok (client (w_client w')) (bs "X").
Proof.
  destruct (process_inline_buffer_args (ex_idle (bs "PING hello" ++ CRLF ++ bs "X") [])
    [bs "PING"; bs "hello"] true (bs "X") 1) as (ls & w' & E & _ & _ & Hown & _ & _ & Hiff).
  - split; [split; vm_compute; discriminate|]. split; reflexivity.
  - discriminate.
  - reflexivity.
  - reflexivity.
  - split; [discriminate|reflexivity].
  - exists ls, w'. split; [exact E|]. split; [exact Hown|]. apply Hiff. reflexivity.
Defined.

Lemma reset_redis_client_correct_witness :
  exists w', reset_redis_client (ex_idle (bs "*1") [1%positive; 2%positive]) = Done (tt, w')
    /\ parsing ∅ w' 0 (-1) (bs "*1") [] /\ w_heap w' !! 1%positive = None
    /\ w_heap w' !! 3%positive = Some (ex_str "baz").
Proof.
  destruct (reset_redis_client_correct (ex_idle (bs "*1") [1%positive; 2%positive])
    [1%positive; 2%positive] [] (bs "*1")) as (w' & E & Hp & _ & _ & _ & _ & H1 & H2).
  - split; [split; vm_compute; discriminate|]. split; reflexivity.
  - reflexivity.
  - reflexivity.
  - repeat constructor; set_solver.
  - intros l Hl. exists (ex_str (if bool_decide (l = 1%positive) then "foo" else "bar")).
    rewrite !elem_of_cons in Hl.
    destruct Hl as [->|[->|Hl]]; [..|by apply elem_of_nil in Hl]; (split; [vm_compute; reflexivity|by left]).
  - exists w'. split; [exact E|]. split; [exact Hp|]. split.
    + rewrite H1 by (by apply (bool_decide_unpack _)). vm_compute. reflexivity.
    + rewrite H2 by (by apply (bool_decide_unpack _)). vm_compute. reflexivity.
Defined.
