(* ===== verification/CommandManager.v ===== *)
(** * The command table (src/commands/command_manager.c)

    Flags of commands, the identifiers used by access control lists, the table
    of commands and its look-up by name. *)

From S2P Require Import Prelude LatteC LatteCModel KvStore State Db Reply.

(** Command flags, src/commands/command_manager.h *)
Definition CMD_WRITE : Z := Z.shiftl 1 0.
Definition CMD_READONLY : Z := Z.shiftl 1 1.
Definition CMD_DENYOOM : Z := Z.shiftl 1 2.
Definition CMD_MODULE : Z := Z.shiftl 1 3.
Definition CMD_ADMIN : Z := Z.shiftl 1 4.
Definition CMD_PUBSUB : Z := Z.shiftl 1 5.
Definition CMD_NOSCRIPT : Z := Z.shiftl 1 6.
Definition CMD_RANDOM : Z := Z.shiftl 1 7.
Definition CMD_SORT_FOR_SCRIPT : Z := Z.shiftl 1 8.
Definition CMD_LOADING : Z := Z.shiftl 1 9.
Definition CMD_STALE : Z := Z.shiftl 1 10.
Definition CMD_SKIP_MONITOR : Z := Z.shiftl 1 11.
Definition CMD_SKIP_SLOWLOG : Z := Z.shiftl 1 12.
Definition CMD_ASKING : Z := Z.shiftl 1 13.
Definition CMD_FAST : Z := Z.shiftl 1 14.
Definition CMD_NO_AUTH : Z := Z.shiftl 1 15.
Definition CMD_MAY_REPLICATE : Z := Z.shiftl 1 16.
Definition CMD_MODULE_GETKEYS : Z := Z.shiftl 1 17.
Definition CMD_MODULE_NO_CLUSTER : Z := Z.shiftl 1 18.
Definition CMD_CATEGORY_KEYSPACE : Z := Z.shiftl 1 19.
Definition CMD_CATEGORY_READ : Z := Z.shiftl 1 20.
Definition CMD_CATEGORY_WRITE : Z := Z.shiftl 1 21.
Definition CMD_CATEGORY_SET : Z := Z.shiftl 1 22.
Definition CMD_CATEGORY_SORTEDSET : Z := Z.shiftl 1 23.
Definition CMD_CATEGORY_LIST : Z := Z.shiftl 1 24.
Definition CMD_CATEGORY_HASH : Z := Z.shiftl 1 25.
Definition CMD_CATEGORY_STRING : Z := Z.shiftl 1 26.
Definition CMD_CATEGORY_BITMAP : Z := Z.shiftl 1 27.
Definition CMD_CATEGORY_HYPERLOGLOG : Z := Z.shiftl 1 28.
Definition CMD_CATEGORY_GEO : Z := Z.shiftl 1 29.
Definition CMD_CATEGORY_STREAM : Z := Z.shiftl 1 30.
Definition CMD_CATEGORY_PUBSUB : Z := Z.shiftl 1 31.
Definition CMD_CATEGORY_ADMIN : Z := Z.shiftl 1 32.
Definition CMD_CATEGORY_FAST : Z := Z.shiftl 1 33.
Definition CMD_CATEGORY_SLOW : Z := Z.shiftl 1 34.
Definition CMD_CATEGORY_BLOCKING : Z := Z.shiftl 1 35.
Definition CMD_CATEGORY_DANGEROUS : Z := Z.shiftl 1 36.
Definition CMD_CATEGORY_CONNECTION : Z := Z.shiftl 1 37.
Definition CMD_CATEGORY_TRANSACTION : Z := Z.shiftl 1 38.
Definition CMD_CATEGORY_SCRIPTING : Z := Z.shiftl 1 39.
Definition CMD_SWAP_DATATYPE_KEYSPACE : Z := Z.shiftl 1 40.
Definition CMD_SWAP_DATATYPE_STRING : Z := Z.shiftl 1 41.
Definition CMD_SWAP_DATATYPE_HASH : Z := Z.shiftl 1 42.
Definition CMD_SWAP_DATATYPE_SET : Z := Z.shiftl 1 43.
Definition CMD_SWAP_DATATYPE_ZSET : Z := Z.shiftl 1 44.
Definition CMD_SWAP_DATATYPE_LIST : Z := Z.shiftl 1 45.
Definition CMD_SWAP_DATATYPE_BITMAP : Z := Z.shiftl 1 46.

Definition SWAP_NOP : Z := 0.
Definition USER_COMMAND_BITS_COUNT : Z := 1024.

(** The table without its terminator {NULL, 0}. *)
Definition acl_command_categories : list (bytes * Z) :=
  [ (bs "write", Z.lor CMD_WRITE CMD_CATEGORY_WRITE);
    (bs "read-only", Z.lor CMD_READONLY CMD_CATEGORY_READ);
    (bs "use-memory", CMD_DENYOOM);
    (bs "admin", Z.lor CMD_ADMIN (Z.lor CMD_CATEGORY_ADMIN CMD_CATEGORY_DANGEROUS));
    (bs "pub-sub", Z.lor CMD_PUBSUB CMD_CATEGORY_PUBSUB);
    (bs "no-script", CMD_NOSCRIPT);
    (bs "random", CMD_RANDOM);
    (bs "to-sort", CMD_SORT_FOR_SCRIPT);
    (bs "ok-loading", CMD_LOADING);
    (bs "ok-stale", CMD_STALE);
    (bs "no-monitor", CMD_SKIP_MONITOR);
    (bs "no-slowlog", CMD_SKIP_SLOWLOG);
    (bs "cluster-asking", CMD_ASKING);
    (bs "fast", Z.lor CMD_FAST CMD_CATEGORY_FAST);
    (bs "no-auth", CMD_NO_AUTH);
    (bs "may-replicate", CMD_MAY_REPLICATE);
    (bs "@keyspace", CMD_CATEGORY_KEYSPACE);
    (bs "@read", CMD_CATEGORY_READ);
    (bs "@write", CMD_CATEGORY_WRITE);
    (bs "@set", CMD_CATEGORY_SET);
    (bs "@sortedset", CMD_CATEGORY_SORTEDSET);
    (bs "@list", CMD_CATEGORY_LIST);
    (bs "@hash", CMD_CATEGORY_HASH);
    (bs "@string", CMD_CATEGORY_STRING);
    (bs "@bitmap", CMD_CATEGORY_BITMAP);
    (bs "@hyperloglog", CMD_CATEGORY_HYPERLOGLOG);
    (bs "@geo", CMD_CATEGORY_GEO);
    (bs "@stream", CMD_CATEGORY_STREAM);
    (bs "@pubsub", CMD_CATEGORY_PUBSUB);
    (bs "@admin", CMD_CATEGORY_ADMIN);
    (bs "@fast", CMD_CATEGORY_FAST);
    (bs "@slow", CMD_CATEGORY_SLOW);
    (bs "@blocking", CMD_CATEGORY_BLOCKING);
    (bs "@dangerous", CMD_CATEGORY_DANGEROUS);
    (bs "@connection", CMD_CATEGORY_CONNECTION);
    (bs "@transaction", CMD_CATEGORY_TRANSACTION);
    (bs "@scripting", CMD_CATEGORY_SCRIPTING);
    (bs "@swap_keyspace", CMD_SWAP_DATATYPE_KEYSPACE);
    (bs "@swap_string", CMD_SWAP_DATATYPE_STRING);
    (bs "@swap_hash", CMD_SWAP_DATATYPE_HASH);
    (bs "@swap_set", CMD_SWAP_DATATYPE_SET);
    (bs "@swap_zset", CMD_SWAP_DATATYPE_ZSET);
    (bs "@swap_list", CMD_SWAP_DATATYPE_LIST);
    (bs "@swap_bitmap", CMD_SWAP_DATATYPE_BITMAP) ].

Fixpoint category_lookup (name : bytes) (cats : list (bytes * Z)) : Z :=
  match cats with
  | [] => 0
  | (n, f) :: cats => if strcasecmp_eq name n then f else category_lookup name cats
  end.

Definition command_data_type_flag_by_name (name : bytes) : Z :=
  category_lookup name acl_command_categories.

Section CommandManager.
Context {L : LatteC}.

(** The loop over the words: flags of the command so far, and the result. *)
Fixpoint parse_flag_words (words : list bytes) (flags : Z) : Z * bool :=
  match words with
  | [] => (flags, true)
  | word :: words =>
      let catflag := i32 (command_data_type_flag_by_name word) in
      if negb (catflag =? 0) then parse_flag_words words (Z.lor flags (u64 catflag))
      else (flags, false)
  end.

Definition populate_command_table_parse_flags (c : redis_command_t) (strflags : bytes) : Z * redis_command_t :=
  match sds_split_args strflags with
  | None => (-1, c)
  | Some words =>
      match parse_flag_words words (cmd_flags c) with
      | (flags, false) => (-1, set_cmd_flags c flags)
      | (flags, true) =>
          let flags := if has_flag flags CMD_CATEGORY_FAST then flags else Z.lor flags CMD_CATEGORY_SLOW in
          (0, set_cmd_flags c flags)
      end
  end.

Definition command_manager_lookup (cm : command_manager_t) (command : bytes) : option redis_command_t :=
  dict_fetch_value (commands cm) command.

Definition acl_get_command_id (cm : command_manager_t) (cmdname : bytes) : Z * command_manager_t :=
  let lowername := sds_to_lower (sds_new cmdname) in
  match raxFind (commandId cm) (take (Z.to_nat (sds_len lowername)) lowername) with
  | Some id => (id, cm)
  | None =>
      let ids := raxInsert (commandId cm) (take (Z.to_nat (strlen lowername)) lowername) (nextid cm) in
      let thisid := nextid cm in
      let next := u64 (nextid cm + 1) in
      let next := if next =? USER_COMMAND_BITS_COUNT - 1 then u64 (next + 1) else next in
      (thisid, mk_cm (commands cm) ids next)
  end.

Definition builtin (name : bytes) (p : redis_command_proc_func) (arity : Z) (sflags : bytes) : redis_command_t :=
  mk_command name p arity sflags 0 None SWAP_NOP 0 0 0 0 0 0 0 0.

Definition redis_command_table : list redis_command_t :=
  [ builtin (bs "quit") quit_proc 0 (bs "admin");
    builtin (bs "module") module_proc (-2) (bs "admin no-script");
    builtin (bs "ping") ping_proc (-2) (bs "admin");
    builtin (bs "info") info_proc (-2) (bs "admin");
    builtin (bs "expire") expire_proc 3 (bs "write fast") ].

Definition command_manager_register_command (cm : command_manager_t) (cmd : redis_command_t)
    : Z * command_manager_t :=
  let '(id, cm) := acl_get_command_id cm (cmd_name cmd) in
  let cmd := set_cmd_id cmd (i32 id) in
  let '(r, d) := dict_add (commands cm) (sds_new (cmd_name cmd)) cmd in
  (r, mk_cm d (commandId cm) (nextid cm)).

Fixpoint register_table (table : list redis_command_t) (cm : command_manager_t) : outcome command_manager_t :=
  match table with
  | [] => Done cm
  | c :: table =>
      let '(r, c) := populate_command_table_parse_flags c (sflags c) in
      if r =? -1 then Fault (Panicked "unsupported command flag")
      else
        let '(_, cm) := command_manager_register_command cm c in
        register_table table cm
  end.

Definition command_manager_init (cm : command_manager_t) : outcome command_manager_t :=
  register_table redis_command_table cm.

Definition command_manager_new : outcome command_manager_t :=
  command_manager_init (mk_cm dict_new raxNew 0).

(** ** Identifiers *)

(** Every identifier given out is below [nextid], none is the reserved last
    bit, and different names have different identifiers. *)
Record ids_ok (cm : command_manager_t) : Prop := {
  ids_next : 0 <= nextid cm < 2 ^ 64;
  ids_next_reserved : nextid cm <> USER_COMMAND_BITS_COUNT - 1;
  ids_below : map_Forall (fun _ i => 0 <= i < nextid cm /\ i <> USER_COMMAND_BITS_COUNT - 1)
    (rax_map (commandId cm));
  ids_inj : forall a b i, rax_map (commandId cm) !! a = Some i -> rax_map (commandId cm) !! b = Some i -> a = b
}.

(** The key under which a name is filed. *)
Definition id_key (name : bytes) : bytes := lower (cstr name).

Context {LL : LatteCLaws}.

Lemma lower_no_NUL (s : bytes) : NUL ∉ s -> NUL ∉ lower s.
Proof.
  induction s as [|c s IH]; simpl; [done|]. rewrite !not_elem_of_cons. intros [Hc Hs]. split; [|by apply IH].
  revert Hc. clear. unfold NUL. destruct c as [[] [] [] [] [] [] [] []]; done.
Qed.

Lemma acl_get_command_id_ok (cm : command_manager_t) (name : bytes) :
  ids_ok cm -> nextid cm + 2 < 2 ^ 64 ->
  exists id cm', acl_get_command_id cm name = (id, cm') /\ ids_ok cm'
    /\ rax_map (commandId cm') !! id_key name = Some id
    /\ rax_map (commandId cm) ⊆ rax_map (commandId cm')
    /\ (forall k, rax_map (commandId cm') !! k <> rax_map (commandId cm) !! k -> k = id_key name)
    /\ commands cm' = commands cm /\ nextid cm <= nextid cm' <= nextid cm + 2.
Proof.
  intros [Hn Hr Hb Hi] Hroom. unfold acl_get_command_id.
  rewrite sds_to_lower_spec, sds_new_spec. fold (id_key name).
  assert (Hk : cstr (id_key name) = id_key name).
  { apply cstr_line, lower_no_NUL, cstr_no_NUL. }
  rewrite take_sds_len. unfold strlen, zlen. rewrite Hk, Nat2Z.id, firstn_all, raxFind_spec.
  destruct (rax_map (commandId cm) !! id_key name) as [i|] eqn:E.
  { exists i, cm. split_and!; try done; lia. }
  do 2 eexists. split; [reflexivity|]. cbn. rewrite raxInsert_spec, lookup_insert_eq.
  rewrite (wrap_u_small 64 (nextid cm + 1)) by lia.
  assert (Hnext : exists n, (if nextid cm + 1 =? USER_COMMAND_BITS_COUNT - 1 then u64 (nextid cm + 1 + 1)
    else nextid cm + 1) = n /\ nextid cm < n <= nextid cm + 2 /\ n <> USER_COMMAND_BITS_COUNT - 1).
  { destruct (Z.eqb_spec (nextid cm + 1) (USER_COMMAND_BITS_COUNT - 1)) as [Heq|];
      eexists; (split; [reflexivity|]); [rewrite wrap_u_small by lia|]; lia. }
  destruct Hnext as (n & -> & Hn1 & Hn2). split_and!; try done; try lia.
  - split; cbn; [lia|done| |]; rewrite raxInsert_spec.
    + apply map_Forall_insert; [done|]. split; [lia|]. eapply map_Forall_impl; [done|]. intros ? ? ?. simpl in *. lia.
    + intros a b j. rewrite !lookup_insert_Some. intros [[<- <-]|[Ha Ea]] [[<- E2]|[Hb' Eb]]; try done.
      * apply Hb in Eb. lia.
      * subst. apply Hb in Ea. lia.
      * by eapply Hi.
  - by apply insert_subseteq.
  - intros k Hne. destruct (decide (k = id_key name)) as [|Hd]; [done|]. by rewrite lookup_insert_ne in Hne.
Qed.

(** A sequence of calls. *)
Fixpoint get_ids (names : list bytes) (cm : command_manager_t) : list Z * command_manager_t :=
  match names with
  | [] => ([], cm)
  | n :: names =>
      let '(id, cm) := acl_get_command_id cm n in
      let '(ids, cm) := get_ids names cm in
      (id :: ids, cm)
  end.

Lemma get_ids_ok (names : list bytes) (cm : command_manager_t) :
  ids_ok cm -> nextid cm + 2 * zlen names < 2 ^ 64 ->
  exists ids cm', get_ids names cm = (ids, cm') /\ ids_ok cm' /\ rax_map (commandId cm) ⊆ rax_map (commandId cm')
    /\ Forall2 (fun n i => rax_map (commandId cm') !! id_key n = Some i) names ids.
Proof.
  revert cm. induction names as [|n names IH]; intros cm Hok Hroom; simpl.
  { exists [], cm. done. }
  rewrite zlen_cons in Hroom. pose proof (zlen_nonneg names).
  destruct (acl_get_command_id_ok cm n Hok) as (id & cm1 & -> & Hok1 & Hid & Hsub & _ & _ & Hnx); [lia|].
  destruct (IH cm1 Hok1) as (ids & cm2 & -> & Hok2 & Hsub2 & Hf); [lia|].
  exists (id :: ids), cm2. split_and!; [done|done|by etrans|]. constructor; [|done].
  by eapply lookup_weaken.
Qed.

Lemma ids_ok_new : ids_ok (mk_cm dict_new raxNew 0).
Proof.
  split; cbn; try done.
  - rewrite raxNew_map. apply map_Forall_empty.
  - intros a b i. by rewrite raxNew_map, lookup_empty.
Qed.

Lemma register_ok (cm : command_manager_t) (cmd : redis_command_t) :
  ids_ok cm -> nextid cm + 2 < 2 ^ 64 ->
  exists id r cm', command_manager_register_command cm cmd = (r, cm') /\ ids_ok cm'
    /\ rax_map (commandId cm') !! id_key (cmd_name cmd) = Some id
    /\ rax_map (commandId cm) ⊆ rax_map (commandId cm') /\ nextid cm' <= nextid cm + 2
    /\ match command_manager_lookup cm (cstr (cmd_name cmd)) with
       | Some _ => r = DICT_ERR /\ forall n, NUL ∉ n -> command_manager_lookup cm' n = command_manager_lookup cm n
       | None => r = DICT_OK /\ forall n, NUL ∉ n -> command_manager_lookup cm' n
           = if strcasecmp_eq n (cmd_name cmd) then Some (set_cmd_id cmd (i32 id)) else command_manager_lookup cm n
       end.
Proof.
  intros Hok Hroom. unfold command_manager_register_command.
  destruct (acl_get_command_id_ok cm (cmd_name cmd) Hok Hroom) as (id & cm1 & -> & Hok1 & Hid & Hsub & _ & Hc & Hnx).
  set (c := set_cmd_id cmd (i32 id)). change (cmd_name c) with (cmd_name cmd).
  rewrite sds_new_spec, Hc. unfold command_manager_lookup.
  assert (Hkey : key_ok SdsCaseCompare (cstr (cmd_name cmd))) by apply cstr_no_NUL.
  rewrite dict_fetch_value_spec by exact Hkey.
  assert (Hk : key_norm SdsCaseCompare (cstr (cmd_name cmd)) = key_norm SdsCaseCompare (cmd_name cmd))
    by (simpl; by rewrite cstr_idemp).
  rewrite Hk.
  assert (Hids : forall d, ids_ok (mk_cm d (commandId cm1) (nextid cm1))) by (intros d; by destruct Hok1).
  destruct (dict_map (commands cm) !! key_norm SdsCaseCompare (cmd_name cmd)) as [old|] eqn:E.
  - rewrite dict_add_existing by (exact Hkey || rewrite Hk, E; eauto). do 3 eexists. split; [reflexivity|].
    split_and!; try done. simpl. lia.
  - destruct (dict_add_new _ _ (commands cm) (cstr (cmd_name cmd)) c Hkey) as (d & -> & Hd); [by rewrite Hk|].
    do 3 eexists. split; [reflexivity|]. split_and!; try done; [simpl; lia|].
    intros n Hn0. rewrite !dict_fetch_value_spec by exact Hn0. simpl commands. rewrite Hd, Hk. unfold strcasecmp_eq.
    case_bool_decide as Hn; simpl in *; [by rewrite Hn, lookup_insert_eq|by rewrite lookup_insert_ne].
Qed.

(** ** The built-in table *)

(** Flags and identifiers as [command_manager_init] computes them. *)
Definition with_flags_id (c : redis_command_t) (flags id : Z) : redis_command_t :=
  set_cmd_id (set_cmd_flags c flags) id.

Definition builtin_commands : list redis_command_t :=
  [ with_flags_id (builtin (bs "quit") quit_proc 0 (bs "admin")) (Z.lor CMD_ADMIN CMD_CATEGORY_SLOW) 0;
    with_flags_id (builtin (bs "module") module_proc (-2) (bs "admin no-script"))
      (Z.lor CMD_ADMIN (Z.lor CMD_NOSCRIPT CMD_CATEGORY_SLOW)) 1;
    with_flags_id (builtin (bs "ping") ping_proc (-2) (bs "admin")) (Z.lor CMD_ADMIN CMD_CATEGORY_SLOW) 2;
    with_flags_id (builtin (bs "info") info_proc (-2) (bs "admin")) (Z.lor CMD_ADMIN CMD_CATEGORY_SLOW) 3;
    with_flags_id (builtin (bs "expire") expire_proc 3 (bs "write fast"))
      (Z.lor CMD_WRITE (Z.lor CMD_CATEGORY_WRITE (Z.lor CMD_FAST CMD_CATEGORY_SLOW))) 4 ].

Fixpoint find_command (name : bytes) (table : list redis_command_t) : option redis_command_t :=
  match table with
  | [] => None
  | c :: table => if strcasecmp_eq name (cmd_name c) then Some c else find_command name table
  end.

Lemma populate_words (c : redis_command_t) (words : list bytes) :
  forallb plain_word words = true ->
  populate_command_table_parse_flags c (join_sp words)
  = match parse_flag_words words (cmd_flags c) with
    | (flags, false) => (-1, set_cmd_flags c flags)
    | (flags, true) => (0, set_cmd_flags c
        (if has_flag flags CMD_CATEGORY_FAST then flags else Z.lor flags CMD_CATEGORY_SLOW))
    end.
Proof.
  intros Hw. unfold populate_command_table_parse_flags. rewrite sds_split_args_plain by done.
  by destruct (parse_flag_words words (cmd_flags c)) as [f []].
Qed.

(** One entry of the table, added to a manager that does not have it. *)
Lemma register_fresh (cm : command_manager_t) (c : redis_command_t) (words : list bytes) (flags : Z)
    (table : list redis_command_t) :
  sflags c = join_sp words -> forallb plain_word words = true -> cmd_flags c = 0 ->
  parse_flag_words words 0 = (flags, true) -> has_flag flags CMD_CATEGORY_FAST = false ->
  0 <= nextid cm < 100 -> cstr (cmd_name c) = cmd_name c -> lower (cmd_name c) = cmd_name c ->
  rax_map (commandId cm) !! cmd_name c = None -> dict_map (commands cm) !! cmd_name c = None ->
  exists d r, register_table (c :: table) cm = register_table table (mk_cm d r (nextid cm + 1))
    /\ dict_map d = <[cmd_name c := with_flags_id c (Z.lor flags CMD_CATEGORY_SLOW) (nextid cm)]> (dict_map (commands cm))
    /\ rax_map r = <[cmd_name c := nextid cm]> (rax_map (commandId cm)).
Proof.
  intros Hs Hw H0 Hf Hfast Hn Hc Hl Hr Hd. simpl register_table. rewrite Hs, (populate_words c words Hw), H0, Hf, Hfast.
  simpl. unfold command_manager_register_command, acl_get_command_id. simpl cmd_name.
  rewrite sds_to_lower_spec, !sds_new_spec, Hc, Hl, take_sds_len, raxFind_spec, Hr.
  unfold strlen, zlen. rewrite Hc, Nat2Z.id, firstn_all.
  rewrite (wrap_u_small 64 (nextid cm + 1)) by lia.
  rewrite (proj2 (Z.eqb_neq (nextid cm + 1) _)) by (unfold USER_COMMAND_BITS_COUNT; lia).
  rewrite wrap_s_small by lia. simpl commands.
  match goal with |- context [dict_add ?m ?k ?v] => destruct (dict_add_new _ _ m k v) as (d & -> & Hd') end.
  { simpl. rewrite <- Hc. apply cstr_no_NUL. } { simpl. by rewrite Hc, Hl. }
  exists d, (raxInsert (commandId cm) (cmd_name c) (nextid cm)). split; [done|].
  split; [|apply raxInsert_spec]. simpl in Hd'. by rewrite Hc, Hl in Hd'.
Qed.

(** A name that is not among those registered so far. *)
Ltac not_registered :=
  cbn [commandId commands nextid cmd_name builtin];
  repeat match goal with
  | H : rax_map ?r = _ |- context [rax_map ?r] => rewrite H; cbn [commandId commands nextid cmd_name builtin]
  | H : dict_map ?r = _ |- context [dict_map ?r] => rewrite H; cbn [commandId commands nextid cmd_name builtin]
  end;
  rewrite ?raxNew_map, ?dict_new_map;
  repeat rewrite lookup_insert_ne by done; apply lookup_empty.

Ltac register_step :=
  match goal with |- context [register_table (?c :: ?t) ?cm] =>
    let ws := match c with
      | builtin _ module_proc _ _ => constr:([bs "admin"; bs "no-script"])
      | builtin _ expire_proc _ _ => constr:([bs "write"; bs "fast"])
      | _ => constr:([bs "admin"]) end in
    let f := eval vm_compute in (fst (parse_flag_words ws 0)) in
    let d := fresh "d" in let r := fresh "r" in let E := fresh "E" in
    let Hd := fresh "Hd" in let Hr := fresh "Hr" in
    destruct (register_fresh cm c ws f t) as (d & r & E & Hd & Hr);
    [reflexivity|reflexivity|reflexivity|vm_compute; reflexivity|vm_compute; reflexivity|simpl; lia
    |reflexivity|reflexivity|not_registered|not_registered| rewrite E; clear E]
  end.

Lemma command_manager_new_ok :
  exists cm, command_manager_new = Done cm
    /\ (forall name, NUL ∉ name -> command_manager_lookup cm name = find_command name builtin_commands)
    /\ nextid cm = 5.
Proof.
  unfold command_manager_new, command_manager_init, redis_command_table.
  do 5 register_step. simpl register_table. eexists. split; [reflexivity|]. split; [|reflexivity].
  intros name Hname. unfold command_manager_lookup. rewrite dict_fetch_value_spec by exact Hname. simpl commands.
  rewrite Hd3; simpl commands; rewrite Hd2; simpl commands; rewrite Hd1; simpl commands; rewrite Hd0;
    simpl commands; rewrite Hd; simpl commands; rewrite dict_new_map.
  unfold find_command, builtin_commands, strcasecmp_eq. simpl key_norm.
  generalize (lower (cstr name)). intros k. cbn [cmd_name with_flags_id set_cmd_id set_cmd_flags builtin nextid].
  repeat match goal with |- context [bool_decide (k = lower (cstr ?n))] =>
    change (lower (cstr n)) with n; destruct (decide (k = n)) as [->|];
      [rewrite bool_decide_true by done; repeat rewrite lookup_insert_ne by done;
       rewrite lookup_insert_eq; reflexivity
      |rewrite (bool_decide_false (k = n)) by done] end.
  by rewrite !lookup_insert_ne by done.
Qed.

Lemma register_table_ids (table : list redis_command_t) (cm cm' : command_manager_t) :
  ids_ok cm -> nextid cm + 2 * zlen table < 2 ^ 64 -> register_table table cm = Done cm' -> ids_ok cm'.
Proof.
  revert cm. induction table as [|c table IH]; intros cm Hok Hroom E; simpl in E; [by injection E as <-|].
  rewrite zlen_cons in Hroom. pose proof (zlen_nonneg table).
  destruct (populate_command_table_parse_flags c (sflags c)) as [r c']. destruct (_ =? -1); [done|].
  destruct (register_ok cm c' Hok) as (id & r' & cm1 & E1 & Hok1 & _ & _ & Hn & _); [lia|].
  rewrite E1 in E. apply (IH cm1 Hok1); [lia|done].
Qed.

Lemma command_manager_new_ids (cm : command_manager_t) : command_manager_new = Done cm -> ids_ok cm.
Proof. apply register_table_ids; [apply ids_ok_new|]. unfold zlen. simpl. lia. Qed.

(** C21: at start-up [command_manager_new] succeeds; afterwards a name
    without NUL is found exactly when it is one of quit, module, ping, info, expire in any mix of
    cases, and it is found with the procedure, the arity, the flags and the
    identifier of the table.  Because [populate_command_table_parse_flags]
    keeps the 64-bit category in an int, "admin" loses its two categories and
    "fast" does not mark expire as fast: every command is filed as slow. *)
Theorem command_manager_new_correct :
  exists cm, command_manager_new = Done cm
    /\ (forall name, NUL ∉ name -> command_manager_lookup cm name = find_command name builtin_commands)
    /\ nextid cm = 5.
Proof. apply command_manager_new_ok. Qed.

(** Over any sequence of requests for identifiers, two names get the same
    identifier exactly when they are equal up to case, an identifier is never
    the reserved last bit of the user bitmap, and the table of identifiers
    stays well formed. *)
Lemma acl_ids_stable (names : list bytes) (cm : command_manager_t) :
  ids_ok cm -> nextid cm + 2 * zlen names < 2 ^ 64 ->
  exists ids cm', get_ids names cm = (ids, cm') /\ ids_ok cm' /\ length ids = length names
    /\ forall i j a b x y, names !! i = Some a -> names !! j = Some b -> ids !! i = Some x -> ids !! j = Some y ->
       (x = y <-> strcasecmp_eq a b = true) /\ x <> USER_COMMAND_BITS_COUNT - 1.
Proof.
  intros Hok Hroom. destruct (get_ids_ok names cm Hok Hroom) as (ids & cm' & E & Hok' & _ & Hf).
  exists ids, cm'. split_and!; [done|done|by apply Forall2_length in Hf|].
  intros i j a b x y Ha Hb Hx Hy.
  destruct (Forall2_lookup_l _ _ _ _ _ Hf Ha) as (x' & Hx' & Hmx).
  destruct (Forall2_lookup_l _ _ _ _ _ Hf Hb) as (y' & Hy' & Hmy). simplify_eq.
  split; [|by destruct (ids_below _ Hok' _ _ Hmx)].
  unfold strcasecmp_eq. rewrite bool_decide_eq_true. fold (id_key a) (id_key b). split.
  - intros ->. by eapply ids_inj.
  - intros Hk. rewrite Hk in Hmx. congruence.
Qed.

(** C22: registering a command makes it visible under every spelling (without NUL) of its
    name and leaves the other names alone; a name that is already taken is
    refused and every look-up keeps its answer. *)
Theorem command_manager_register_correct (cm : command_manager_t) (c : redis_command_t) :
  ids_ok cm -> nextid cm + 2 < 2 ^ 64 ->
  exists id r cm', command_manager_register_command cm c = (r, cm') /\ ids_ok cm'
    /\ match command_manager_lookup cm (cstr (cmd_name c)) with
       | Some _ => r = DICT_ERR /\ forall n, NUL ∉ n -> command_manager_lookup cm' n = command_manager_lookup cm n
       | None => r = DICT_OK /\ forall n, NUL ∉ n -> command_manager_lookup cm' n
           = if strcasecmp_eq n (cmd_name c) then Some (set_cmd_id c (i32 id)) else command_manager_lookup cm n
       end.
Proof.
  intros Hok Hroom. destruct (register_ok cm c Hok Hroom) as (id & r & cm' & E & Hok' & _ & _ & _ & H).
  by exists id, r, cm'.
Qed.

(** A word of a flags string sets its flag in a command exactly when the
    flag fits a 31-bit int; a word whose flag lies above bit 31 is refused (the
    command is then rejected as a whole), and "pub-sub" and "@pubsub", which
    carry bit 31, also set all bits above it. *)
Lemma parse_flag_word_truncates (word : bytes) (words : list bytes) (flags : Z) :
  let f := command_data_type_flag_by_name word in
  (0 < f < 2 ^ 31 -> parse_flag_words (word :: words) flags = parse_flag_words words (Z.lor flags f))
  /\ (f mod 2 ^ 32 = 0 -> parse_flag_words (word :: words) flags = (flags, false))
  /\ (In word [bs "pub-sub"; bs "@pubsub"] ->
      exists low, 0 <= low < 2 ^ 31 /\ parse_flag_words (word :: words) flags
        = parse_flag_words words (Z.lor flags (Z.lor low (2 ^ 64 - 2 ^ 31)))).
Proof.
  cbn zeta. split_and!.
  - intros Hf. simpl. rewrite wrap_s_small by lia. rewrite (proj2 (Z.eqb_neq _ _)) by lia. simpl.
    by rewrite wrap_u_small by lia.
  - intros Hf. simpl. unfold wrap_s. by rewrite Hf.
  - intros [<-|[<-|[]]].
    + exists CMD_PUBSUB. split; [by compute|]. cbn [parse_flag_words].
      assert (E : i32 (command_data_type_flag_by_name (bs "pub-sub")) = -2147483616) by (by vm_compute).
      by rewrite E.
    + exists 0. split; [lia|]. cbn [parse_flag_words].
      assert (E : i32 (command_data_type_flag_by_name (bs "@pubsub")) = -2147483648) by (by vm_compute).
      by rewrite E.
Qed.

End CommandManager.

(** ** Concrete runs *)

#[local] Existing Instance model_latte.
#[local] Existing Instance model_latte_laws.

Definition ex_cm : command_manager_t :=
  match command_manager_new with Done cm => cm | Fault _ => mk_cm dict_new raxNew 0 end.

Lemma ex_cm_ids_ok : ids_ok (mk_cm dict_new raxNew 0).
Proof. apply ids_ok_new. Qed.

Lemma acl_ids_stable_witness :
  exists cm', get_ids [bs "get"; bs "SET"; bs "Get"] (mk_cm dict_new raxNew 0) = ([0; 1; 0], cm') /\ ids_ok cm'.
Proof.
  destruct (acl_ids_stable [bs "get"; bs "SET"; bs "Get"] (mk_cm dict_new raxNew 0)) as (ids & cm' & E & Hok & _).
  - exact ex_cm_ids_ok.
  - reflexivity.
  - assert (Hi : fst (get_ids [bs "get"; bs "SET"; bs "Get"] (mk_cm dict_new raxNew 0)) = [0; 1; 0])
      by (vm_compute; reflexivity).
    rewrite E in Hi. cbn in Hi. subst ids. exists cm'. split; [exact E|exact Hok].
Defined.

Lemma command_manager_register_correct_witness :
  exists id r cm', command_manager_register_command (mk_cm dict_new raxNew 0)
      (builtin (bs "set") dispatcher_proc (-3) (bs "write")) = (r, cm')
    /\ command_manager_lookup cm' (bs "SET")
       = Some (set_cmd_id (builtin (bs "set") dispatcher_proc (-3) (bs "write")) (i32 id)).
Proof.
  destruct (command_manager_register_correct (mk_cm dict_new raxNew 0)
    (builtin (bs "set") dispatcher_proc (-3) (bs "write"))) as (id & r & cm' & E & _ & H).
  - exact ex_cm_ids_ok.
  - reflexivity.
  - exists id, r, cm'. split; [exact E|]. destruct H as [_ H]. rewrite H; [reflexivity|]. apply (bool_decide_unpack _). vm_compute. exact I.
Defined.

Lemma parse_flag_word_truncates_witness :
  parse_flag_words [bs "write"; bs "fast"] 0 = parse_flag_words [bs "fast"] (Z.lor 0 2097153)
  /\ parse_flag_words [bs "@admin"] 16 = (16, false).
Proof.
  split.
  - apply (parse_flag_word_truncates (bs "write") [bs "fast"] 0). vm_compute. split; reflexivity.
  - apply (parse_flag_word_truncates (bs "@admin") [] 16). reflexivity.
Defined.

Lemma command_manager_new_correct_witness :
  exists cm, command_manager_new = Done cm /\ nextid cm = 5 /\ proc <$> command_manager_lookup cm (bs "Ping") = Some ping_proc
    /\ command_manager_lookup cm (bs "set") = None.
Proof.
  destruct command_manager_new_correct as (cm & E & Hl & Hn). exists cm. split; [exact E|]. split; [exact Hn|].
  rewrite !Hl by (apply (bool_decide_unpack _); vm_compute; exact I). split; vm_compute; reflexivity.
Defined.
