(* ===== verification/Module.v ===== *)
(** * Modules (src/redis/module.c, src/redis/redis_module.h)

    The interface that loaded modules use: registration of commands, look-up
    and update of keys, replies; and the loading of a module file.  The
    operating system side of loading ([stat], [dlopen], [dlsym]) is a
    parameter. *)

From S2P Require Import Prelude LatteC LatteCModel KvStore State Db Reply Protocol CommandManager.

Section Module.
Context {L : LatteC}.

(** ** Command flags of modules *)

Definition flag_words : list (bytes * Z) :=
  [ (bs "write", CMD_WRITE); (bs "readonly", CMD_READONLY); (bs "admin", CMD_ADMIN);
    (bs "deny-oom", CMD_DENYOOM); (bs "deny-script", CMD_NOSCRIPT); (bs "allow-loading", CMD_LOADING);
    (bs "pubsub", CMD_PUBSUB); (bs "random", CMD_RANDOM); (bs "allow-stale", CMD_STALE);
    (bs "no-monitor", CMD_SKIP_MONITOR); (bs "no-slowlog", CMD_SKIP_SLOWLOG); (bs "fast", CMD_FAST);
    (bs "no-auth", CMD_NO_AUTH); (bs "may-replicate", CMD_MAY_REPLICATE);
    (bs "getkeys-api", CMD_MODULE_GETKEYS); (bs "no-cluster", CMD_MODULE_NO_CLUSTER);
    (bs "swap-nop", 0); (bs "swap-get", 0); (bs "swap-put", 0); (bs "swap-del", 0) ].

(** The chain of [else if]: the bits of a token, None for an unknown one. *)
Fixpoint flag_of_token (t : bytes) (words : list (bytes * Z)) : option Z :=
  match words with
  | [] => None
  | (n, f) :: words => if strcasecmp_eq t n then Some f else flag_of_token t words
  end.

Fixpoint flags_of_tokens (tokens : list bytes) (flags : Z) : Z :=
  match tokens with
  | [] => flags
  | t :: tokens =>
      match flag_of_token t flag_words with
      | Some f => flags_of_tokens tokens (Z.lor flags f)
      | None => -1
      end
  end.

Definition command_flags_from_string (s : bytes) : Z := flags_of_tokens (sds_split_len (cstr s) [SP]) 0.

(** ** Contexts *)

Record redis_module_ctx_t := mk_ctx {
  ctx_server : redis_server_t;
  ctx_module : option redis_module_t
}.

Definition redis_module_use_create_command (ctx : redis_module_ctx_t) (name : bytes)
    (cmdfunc : redis_module_cmd_func) (strflags : option bytes) (fk lk ks : Z) : Z * redis_module_ctx_t :=
  let flags := match strflags with Some s => command_flags_from_string s | None => 0 end in
  if flags =? -1 then (-1, ctx)
  else
    let server := ctx_server ctx in
    let cmdname := sds_new name in
    match command_manager_lookup (command_manager server) cmdname with
    | Some _ => (-1, ctx)
    | None =>
        let cp := mk_proxy (ctx_module ctx) cmdfunc in
        let c := mk_command cmdname dispatcher_proc (-1) [] (Z.lor flags CMD_MODULE) (Some cp) 0 fk lk ks 0 0 0 0 0 in
        let '(_, cm) := command_manager_register_command (command_manager server) c in
        (0, mk_ctx (set_command_manager server cm) (ctx_module ctx))
    end.

Definition redis_module_use_is_module_name_busy (ctx : redis_module_ctx_t) (name : bytes) : bool :=
  bool_decide (is_Some (dict_find (modules (ctx_server ctx)) (sds_new name))).

Definition redis_module_use_set_module_attribs (ctx : redis_module_ctx_t) (name : bytes) (v av : Z)
    : redis_module_ctx_t :=
  match ctx_module ctx with
  | Some _ => ctx
  | None => mk_ctx (ctx_server ctx) (Some (mk_module (sds_new name) v av 0 0 0))
  end.

(** redis_module.h; the function pointers it fetches are those registered by
    [module_register_core_api] (see [redis_module_use_get_api] below). *)
Definition redis_module_init (ctx : redis_module_ctx_t) (name : bytes) (v av : Z) : Z * redis_module_ctx_t :=
  if redis_module_use_is_module_name_busy ctx name then (-1, ctx)
  else (0, redis_module_use_set_module_attribs ctx name v av).

(** *** The table of functions offered to modules *)

Inductive api_func :=
  | api_malloc | api_calloc | api_realloc | api_free | api_create_command | api_is_module_name_busy
  | api_get_api | api_set_module_attribs | api_reply_with_simple_string | api_lookup_key
  | api_object_incr_count | api_object_decr_count | api_db_add | api_db_entry_get_value
  | api_db_entry_set_value | api_object_is_string | api_reply_with_wrong_type_error
  | api_reply_with_null | api_reply_with_object.

Definition api_names : list (bytes * api_func) :=
  [ (bs "redis_module_malloc", api_malloc); (bs "redis_module_calloc", api_calloc);
    (bs "redis_module_realloc", api_realloc); (bs "redis_module_free", api_free);
    (bs "redis_module_create_command", api_create_command);
    (bs "redis_module_is_module_name_busy", api_is_module_name_busy);
    (bs "redis_module_get_api", api_get_api);
    (bs "redis_module_set_module_attribs", api_set_module_attribs);
    (bs "redis_module_reply_with_simple_string", api_reply_with_simple_string);
    (bs "redis_module_lookup_key", api_lookup_key);
    (bs "redis_module_object_incr_count", api_object_incr_count);
    (bs "redis_module_object_decr_count", api_object_decr_count);
    (bs "redis_module_db_add", api_db_add);
    (bs "redis_module_db_entry_get_value", api_db_entry_get_value);
    (bs "redis_module_db_entry_set_value", api_db_entry_set_value);
    (bs "redis_module_object_is_string", api_object_is_string);
    (bs "redis_module_reply_with_wrong_type_error", api_reply_with_wrong_type_error);
    (bs "redis_module_reply_with_null", api_reply_with_null);
    (bs "redis_module_reply_with_object", api_reply_with_object) ].

Definition module_register_api (api : dict_t CStringCompare api_func) (funname : bytes) (f : api_func)
    : Z * dict_t CStringCompare api_func :=
  dict_add api funname f.

Definition module_register_core_api : dict_t CStringCompare api_func :=
  foldl (fun api nf => snd (module_register_api api (fst nf) (snd nf))) dict_new api_names.

Definition redis_module_use_get_api (api : dict_t CStringCompare api_func) (funcname : bytes) : option api_func :=
  match dict_find api funcname with
  | None => None
  | Some he => dict_get_entry_val api he
  end.

(** The names a module asks for in [redis_module_init]. *)
Definition requested_api : list bytes :=
  [ bs "redis_module_create_command"; bs "redis_module_is_module_name_busy"; bs "redis_module_get_api";
    bs "redis_module_set_module_attribs"; bs "redis_module_reply_with_simple_string";
    bs "redis_module_lookup_key"; bs "redis_module_db_add"; bs "redis_module_db_entry_get_value";
    bs "redis_module_db_entry_set_value"; bs "redis_module_object_is_string";
    bs "redis_module_object_incr_count"; bs "redis_module_object_decr_count";
    bs "redis_module_reply_with_wrong_type_error"; bs "redis_module_reply_with_null";
    bs "redis_module_reply_with_object" ].

(** ** Loading *)

(** What the operating system answers for a path: the mode bits when [stat]
    succeeds, whether [dlopen] succeeds, the function [redis_module_onload]
    when [dlsym] finds it. *)
Record module_file := mk_module_file {
  mf_mode : option Z;
  mf_opens : bool;
  mf_onload : option (redis_module_ctx_t -> outcome (Z * redis_module_ctx_t))
}.

(** S_IXUSR | S_IXGRP | S_IXOTH *)
Definition EXEC_BITS : Z := 73.

Definition module_load (f : module_file) (server : redis_server_t) : outcome (Z * redis_server_t) :=
  let no_exec := match mf_mode f with Some mode => negb (has_flag mode EXEC_BITS) | None => false end in
  if no_exec then Done (-1, server)
  else if negb (mf_opens f) then Done (-1, server)
  else match mf_onload f with
  | None => Done (-1, server)
  | Some onload =>
      '(r, ctx) ← onload (mk_ctx server None);
      if r =? -1 then Done (-1, ctx_server ctx)
      else
        m ← deref (ctx_module ctx);
        let server := ctx_server ctx in
        let '(_, ms) := dict_add (modules server) (module_name m) m in
        Done (0, set_modules server ms)
  end.

(** ** Keys and replies, on behalf of the client whose command runs *)

Definition redis_module_use_reply_with_simple_string (msg : bytes) : M Z :=
  _ ← reply_proto (bs "+");
  _ ← reply_proto (cstr msg);
  _ ← reply_proto CRLF;
  mret 0.

(** A reading of the clock is taken whether or not the key has a time. *)
Definition redis_module_use_lookup_key (key : loc) : M (option dict_entry_t) :=
  kobj ← read_obj key;
  if negb (obj_type kobj =? OBJ_STRING) then mret None
  else
    let len := string_object_len kobj in
    raw ← lift (ptr_bytes kobj);
    let key_sds := sds_new_len raw len in
    db ← current_db;
    now ← read_mstime;
    h ← gets w_heap;
    '(r, db, h) ← lift (expire_if_needed now db key_sds h);
    _ ← put_current_db db;
    _ ← mod_heap (fun _ => h);
    if negb (r =? 0) then mret None
    else lift (kv_store_dict_find (keys db) (get_kv_store_index_for_key key_sds) key_sds).

Definition redis_module_use_object_incr_count (o : loc) : M unit :=
  _ ← read_obj o; mod_heap (latte_object_incr_ref_count o).

Definition redis_module_use_object_decr_count (o : loc) : M unit :=
  _ ← read_obj o; mod_heap (latte_object_decr_ref_count o).

Definition redis_module_use_db_add (key val : loc) : M Z :=
  db ← current_db;
  server ← get_server;
  now ← read_mstime;
  h ← gets w_heap;
  '(r, db, h) ← lift (db_add_key_value server now db key val h);
  _ ← put_current_db db;
  _ ← mod_heap (fun _ => h);
  mret r.

(** Entries come from the key table (shard 0) of the current database. *)
Definition redis_module_use_db_entry_get_value (de : dict_entry_t) : M loc :=
  db ← current_db;
  lift (kv_entry_val (keys db) 0 de).

Definition redis_module_use_db_entry_set_value (de : dict_entry_t) (value : loc) : M unit :=
  old ← redis_module_use_db_entry_get_value de;
  _ ← read_obj old;
  _ ← mod_heap (latte_object_decr_ref_count old);
  db ← current_db;
  ks ← lift (kv_store_dict_set_val (keys db) 0 de value);
  put_current_db (set_keys db ks).

Definition redis_module_use_object_is_string (o : loc) : M bool :=
  obj ← read_obj o;
  mret (obj_type obj =? OBJ_STRING).

Definition redis_module_use_reply_with_wrong_type_error : M unit :=
  sh ← gets w_shared; add_reply (sh_wrongtypeerr sh).

Definition redis_module_use_reply_with_null : M unit := reply_proto (bs "*-1" ++ CRLF).

Definition redis_module_use_reply_with_object (o : loc) : M unit := add_reply_bulk o.

(** The body of a module command is found through the proxy. *)
Definition redis_module_command_dispatcher (func_body : redis_module_cmd_func -> M Z) : M unit :=
  c ← get_client;
  cmd ← lift (deref (cmd c));
  cp ← lift (deref (get_keys_proc cmd));
  _ ← func_body (cp_func cp);
  mret tt.

(** ** Module commands of the console *)

Definition module_help : list bytes :=
  [ bs "LIST"; bs "  Return a list of loaded modules."; bs "LOAD <path> [<arg> ...]";
    bs "  Load a module library from <path>, passing to it any optional arguments.";
    bs "UNLOAD <name>"; bs "  Unload a module." ].

Definition module_help_command : M unit := add_reply_help module_help.

(** [files] is the file system as the loader sees it. *)
Definition module_load_command (files : bytes -> module_file) : M unit :=
  c ← get_client;
  l ← lift (argv_at c 2);
  o ← read_obj l;
  path ← lift (ptr_bytes o);
  server ← get_server;
  '(r, server) ← lift (module_load (files (cstr path)) server);
  _ ← put_server server;
  if r =? 0 then sh ← gets w_shared; add_reply (sh_ok sh)
  else add_reply_error (bs "Error loading the extension. Please check the server logs.").

Definition module_unload_command : M unit := mret tt.
Definition module_list_command : M unit := mret tt.

Definition module_command (files : bytes -> module_file) : M unit :=
  c ← get_client;
  l ← lift (argv_at c 1);
  o ← read_obj l;
  subcmd ← lift (ptr_bytes o);
  if (argc c =? 2) && strcasecmp_eq subcmd (bs "help") then module_help_command
  else if strcasecmp_eq subcmd (bs "load") && (3 <=? argc c) then module_load_command files
  else if strcasecmp_eq subcmd (bs "unload") && (3 <=? argc c) then module_unload_command
  else if strcasecmp_eq subcmd (bs "list") && (3 <=? argc c) then module_list_command
  else mret tt.

(** ** Lemmas on the key interface *)

Context {LL : LatteCLaws}.

(** The database of the client. *)
Definition db_at (w : world) (db : redis_db_t) : Prop :=
  0 <= dbid (w_client w) /\ dbs (w_server w) !! Z.to_nat (dbid (w_client w)) = Some db.

Definition with_db (w : world) (db : redis_db_t) : world :=
  set_w_server w (set_dbs (w_server w) (<[Z.to_nat (dbid (w_client w)) := db]> (dbs (w_server w)))).

Lemma bind_current_db {B} (k : redis_db_t -> M B) (w : world) (db : redis_db_t) :
  db_at w db -> (x ← current_db; k x) w = k db w.
Proof.
  intros [H1 H2]. apply bind_Done. unfold current_db. by rewrite (array_get_Done _ _ db).
Qed.

Lemma bind_put_current_db {B} (k : unit -> M B) (w : world) (db db' : redis_db_t) :
  db_at w db -> (x ← put_current_db db'; k x) w = k tt (with_db w db').
Proof.
  intros [H1 H2]. apply bind_Done. unfold put_current_db. rewrite array_set_Done; [done|].
  apply lookup_lt_Some in H2. unfold zlen. lia.
Qed.

Lemma put_current_db_ok (w : world) (db db' : redis_db_t) :
  db_at w db -> put_current_db db' w = Done (tt, with_db w db').
Proof.
  intros [H1 H2]. unfold put_current_db. rewrite array_set_Done; [done|].
  apply lookup_lt_Some in H2. unfold zlen. lia.
Qed.

Lemma db_at_with (w : world) (db db' : redis_db_t) : db_at w db -> db_at (with_db w db') db'.
Proof.
  intros [H1 H2]. split; [done|]. cbn. apply list_lookup_insert_eq. by eapply lookup_lt_Some.
Qed.

Lemma with_db_same (w : world) (db : redis_db_t) : db_at w db -> with_db w db = w.
Proof.
  intros [_ H]. unfold with_db. rewrite list_insert_id by done. by destruct w as [? ? [] ? ?].
Qed.

(** What the keyspace looks like to a reader at time [now]. *)
Definition live_keys (db : redis_db_t) (now : Z) (k : bytes) : gmap bytes loc :=
  if expired db now k then delete k (keys_map db) else keys_map db.

Definition live_heap (db : redis_db_t) (now : Z) (k : bytes) (h : heap) : heap :=
  if expired db now k then release db k h else h.

Lemma lookup_key_ok (w : world) (key : loc) (k : bytes) (db : redis_db_t) :
  db_at w db -> db_wf db -> holds (w_heap w) key k ->
  let now := mstime (w_ticks w) in
  exists oe db', redis_module_use_lookup_key key w
      = Done (oe, set_w_heap (with_db (set_w_ticks w (S (w_ticks w))) db') (live_heap db now k (w_heap w)))
    /\ db_wf db' /\ grows_by 0 db db' /\ keys_map db' = live_keys db now k
    /\ expires_map db' = (if expired db now k then delete k (expires_map db) else expires_map db)
    /\ match oe with
       | Some e => exists l, keys_map db' !! k = Some l /\ kv_entry_at (keys db') 0 e k
       | None => keys_map db' !! k = None
       end.
Proof.
  intros Hat Hwf (ko & Hk & Hko). cbn zeta. unfold redis_module_use_lookup_key.
  rewrite (bind_read_obj _ _ _ _ Hk). pose proof Hko as (Ht & _ & Hp). rewrite Ht, Z.eqb_refl. cbn [negb].
  rewrite (bind_lift _ _ _ k) by (unfold ptr_bytes; by rewrite Hp).
  rewrite (string_object_len_spec _ _ Hko), sds_new_len_spec by (pose proof (zlen_nonneg k); lia).
  unfold zlen. rewrite Nat2Z.id, firstn_all.
  rewrite (bind_current_db _ _ _ Hat). erewrite bind_Done by reflexivity.
  set (w1 := set_w_ticks w (S (w_ticks w))). assert (Hat1 : db_at w1 db) by exact Hat. mstep.
  change (w_heap w1) with (w_heap w). unfold live_keys, live_heap.
  destruct (expire_if_needed_ok db (mstime (w_ticks w)) k (w_heap w) Hwf) as [Hno Hyes].
  destruct (expired db (mstime (w_ticks w)) k) eqn:Eexp.
  - destruct Hyes as (db' & E & Hwf' & Hkm & Hem & Hroom); [done|].
    rewrite (bind_lift _ _ _ _ E). cbn iota beta. rewrite (bind_put_current_db _ _ _ _ Hat1). mstep.
    exists None, db'. split; [reflexivity|]. split_and!; try done. by rewrite Hkm, lookup_delete_eq.
  - rewrite (bind_lift _ _ _ _ (Hno eq_refl)). cbn iota beta. rewrite (bind_put_current_db _ _ _ _ Hat1). mstep.
    destruct (find_ok (keys db) 0 k (db_keys_wf _ Hwf)) as (oe & Ef & Hoe); [by apply kv_in_range_0, Hwf|].
    exists oe, db. cbn [negb]. simpl (negb (0 =? 0)). cbv iota. unfold lift, get_kv_store_index_for_key. rewrite Ef.
    split_and!; try done; [split; lia|]. destruct oe as [e|]; [|done].
    destruct Hoe as [He (v & Hv & _)]. by exists v.
Qed.

End Module.
