(* ===== verification/ModuleApi.v ===== *)
(** * The module interface: names and memory (src/redis/redis_module.h, src/redis/module.c)

    A module fetches the functions of the server by name, as untyped pointers,
    from a dictionary filled by [module_register_core_api], and allocates its
    memory through the server. *)

From S2P Require Import Prelude LatteC LatteCModel KvStore State Db Reply Protocol CommandManager Module.

#[export] Instance api_func_eq_dec : EqDecision api_func.
Proof. solve_decision. Defined.

Section ModuleApi.
Context {L : LatteC} {LL : LatteCLaws}.

(** Names registered one after the other are all found. *)
Lemma register_all_map (l : list (bytes * api_func)) (d : dict_t CStringCompare api_func) :
  Forall (fun nf => cstr (fst nf) = fst nf) l -> NoDup (fst <$> l) -> (forall n, n ∈ fst <$> l -> dict_map d !! n = None) ->
  dict_map (foldl (fun api nf => snd (module_register_api api (fst nf) (snd nf))) d l) = list_to_map l ∪ dict_map d.
Proof.
  revert d. induction l as [|[n f] l IH]; intros d Hc Hnd Hno; simpl; [by rewrite (left_id_L ∅ (∪))|].
  apply Forall_cons in Hc as [Hn Hc]. rewrite fmap_cons in Hnd. apply NoDup_cons in Hnd as [Hni Hnd]. simpl in Hn, Hni.
  destruct (dict_add_new CStringCompare _ d n f I) as (d' & E & Hd').
  { simpl. rewrite Hn. apply Hno. by left. }
  assert (E' : module_register_api d n f = (DICT_OK, d')) by exact E. rewrite E'. simpl snd. simpl in Hd'. rewrite Hn in Hd'. rewrite IH; [|done|done|].
  - rewrite Hd', <- insert_union_l. symmetry. apply insert_union_r. by apply not_elem_of_list_to_map_1.
  - intros m Hm. rewrite Hd', lookup_insert_ne by (intros ->; done). apply Hno. by right.
Qed.

Lemma core_api_map : dict_map module_register_core_api = list_to_map api_names.
Proof.
  unfold module_register_core_api. rewrite register_all_map.
  - by rewrite dict_new_map, (right_id_L ∅ (∪)).
  - apply (bool_decide_unpack _). by vm_compute.
  - apply (bool_decide_unpack _). by vm_compute.
  - intros m _. by rewrite dict_new_map, lookup_empty.
Qed.

Lemma get_api_ok (api : dict_t CStringCompare api_func) (n : bytes) :
  redis_module_use_get_api api n = dict_map api !! cstr n.
Proof.
  unfold redis_module_use_get_api. destruct (dict_find api n) as [e|] eqn:E.
  - by rewrite (dict_get_entry_val_spec _ _ _ _ _ (dict_find_Some CStringCompare _ _ _ _ I E)).
  - apply (dict_find_None CStringCompare _ _ _ I) in E. by rewrite <- E.
Qed.

(** [redis_module_init] finds a function under every name it asks for, the one
    registered under it; a name that is not registered is not found. *)
Lemma module_api_found :
  Forall (fun n => exists f, redis_module_use_get_api module_register_core_api n = Some f /\ (n, f) ∈ api_names) requested_api
  /\ (forall n, cstr n ∉ fst <$> api_names -> redis_module_use_get_api module_register_core_api n = None).
Proof.
  split.
  - apply (Forall_impl (fun n => exists f, (list_to_map api_names : gmap bytes api_func) !! cstr n = Some f /\ (n, f) ∈ api_names)).
    + unfold requested_api. repeat (apply Forall_cons_2; [eexists; (split; [vm_compute; reflexivity|]);
        apply (bool_decide_unpack _); by vm_compute|]). apply Forall_nil_2.
    + intros n. by rewrite get_api_ok, core_api_map.
  - intros n Hn. rewrite get_api_ok, core_api_map. by apply not_elem_of_list_to_map_1.
Qed.
End ModuleApi.

(** ** Memory for modules (src/redis/module.c)

    The allocator (zmalloc/zmalloc.h) works on a memory of its own; a pointer is
    a number, 0 is NULL. *)
Class AllocOps := {
  mem_t : Type;
  zmalloc : Z -> mem_t -> Z * mem_t;
  zcalloc : Z -> mem_t -> Z * mem_t;
  zrealloc : Z -> Z -> mem_t -> Z * mem_t;
  zfree : Z -> mem_t -> mem_t;
  (** size asked for when the block was allocated, for specifications *)
  block_size : mem_t -> Z -> option Z
}.

(** A block of the size that was asked for, or NULL; nothing else changes. *)
Definition allocates (A : AllocOps) (n : Z) (m : mem_t) (r : Z * mem_t) : Prop :=
  (fst r = 0 /\ snd r = m) \/
  (fst r <> 0 /\ block_size m (fst r) = None
   /\ forall p, block_size (snd r) p = if p =? fst r then Some n else block_size m p).

Class AllocLaws {A : AllocOps} : Prop := {
  zmalloc_spec : forall n m, 0 <= n < 2 ^ 64 -> allocates A n m (zmalloc n m);
  zcalloc_spec : forall n m, 0 <= n < 2 ^ 64 -> allocates A n m (zcalloc n m);
  zfree_spec : forall p m q, block_size (zfree p m) q = if q =? p then None else block_size m q
}.

Section Memory.
Context {A : AllocOps}.

Definition redis_module_use_malloc (bytes : Z) (m : mem_t) : Z * mem_t := zmalloc bytes m.

(** The product of two [size_t] wraps around. *)
Definition redis_module_use_calloc (nmemb size : Z) (m : mem_t) : Z * mem_t := zcalloc (u64 (nmemb * size)) m.

Definition redis_module_use_realloc (ptr bytes : Z) (m : mem_t) : Z * mem_t := zrealloc ptr bytes m.

Definition redis_module_use_free (ptr : Z) (m : mem_t) : mem_t := zfree ptr m.

Context {AL : AllocLaws}.

(** Memory for an array: a block of the whole array when its size fits 64 bits;
    otherwise the block that comes back is too small for it.  Freeing a block
    that was just allocated gives back the memory as it was. *)
Lemma module_memory (nmemb size : Z) (m : mem_t) :
  0 <= nmemb < 2 ^ 64 -> 0 <= size < 2 ^ 64 ->
  let r := redis_module_use_calloc nmemb size m in
  fst r = 0 \/
  (exists n, block_size (snd r) (fst r) = Some n
     /\ (if nmemb * size <? 2 ^ 64 then n = nmemb * size else n < nmemb * size))
  /\ (forall p, block_size (redis_module_use_free (fst r) (snd r)) p = block_size m p).
Proof.
  intros Hn Hs r. unfold redis_module_use_calloc in r.
  assert (Hr : 0 <= u64 (nmemb * size) < 2 ^ 64) by (apply Z.mod_pos_bound; lia).
  destruct (zcalloc_spec (u64 (nmemb * size)) m Hr) as [[H0 _]|(Hne & Hnew & Hb)]; [by left|right].
  fold r in Hne, Hnew, Hb. split.
  - exists (u64 (nmemb * size)). rewrite Hb, Z.eqb_refl. split; [done|]. destruct (Z.ltb_spec (nmemb * size) (2 ^ 64)).
    + apply wrap_u_small. lia.
    + lia.
  - intros p. unfold redis_module_use_free. rewrite zfree_spec, Hb.
    destruct (Z.eqb_spec p (fst r)) as [->|]; [done|done].
Qed.
End Memory.
