(* ===== verification/StringModule.v ===== *)
(** * The string commands (src/modules/string.c, latte.c, src/module_demo/hello.c) *)

From S2P Require Import Prelude LatteC LatteCModel KvStore State Db Reply Protocol CommandManager Module.

Section StringModule.
Context {L : LatteC}.

Definition set_command : M Z :=
  c ← get_client;
  if negb (argc c =? 3) then
    _ ← redis_module_use_reply_with_simple_string (bs "ERR wrong number of arguments for 'set' command");
    mret (-1)
  else
    key ← lift (argv_at c 1);
    o ← redis_module_use_lookup_key key;
    match o with
    | None =>
        value ← lift (argv_at c 2);
        _ ← redis_module_use_object_incr_count value;
        _ ← redis_module_use_db_add key value;
        _ ← redis_module_use_reply_with_simple_string (bs "OK");
        mret 0
    | Some e =>
        value ← redis_module_use_db_entry_get_value e;
        is_str ← redis_module_use_object_is_string value;
        if (is_str : bool) then
          value ← lift (argv_at c 2);
          _ ← redis_module_use_object_incr_count value;
          _ ← redis_module_use_db_entry_set_value e value;
          _ ← redis_module_use_reply_with_simple_string (bs "OK");
          mret 0
        else
          _ ← redis_module_use_reply_with_wrong_type_error;
          mret (-1)
    end.

Definition get_command : M Z :=
  c ← get_client;
  if negb (argc c =? 2) then
    _ ← redis_module_use_reply_with_simple_string (bs "ERR wrong number of arguments for 'get' command");
    mret (-1)
  else
    key ← lift (argv_at c 1);
    o ← redis_module_use_lookup_key key;
    match o with
    | None => _ ← redis_module_use_reply_with_null; mret 0
    | Some e =>
        value ← redis_module_use_db_entry_get_value e;
        is_str ← redis_module_use_object_is_string value;
        if (is_str : bool) then
          _ ← redis_module_use_reply_with_object value;
          mret 0
        else
          _ ← redis_module_use_reply_with_wrong_type_error;
          mret (-1)
    end.

(** src/module_demo/hello.c *)
Definition hello_test_redis_command : M Z :=
  _ ← redis_module_use_reply_with_simple_string (bs "OK");
  mret 0.

(** The bodies behind the function pointers of module commands. *)
Definition module_func_body (f : redis_module_cmd_func) : M Z :=
  match f with
  | set_command_func => set_command
  | get_command_func => get_command
  | hello_test_func => hello_test_redis_command
  end.

Definition init_string_module (ctx : redis_module_ctx_t) : Z * redis_module_ctx_t :=
  let '(r, ctx) := redis_module_use_create_command ctx (bs "set") set_command_func
    (Some (bs "write deny-oom")) 0 0 0 in
  if r =? -1 then (-1, ctx)
  else
    let '(r, ctx) := redis_module_use_create_command ctx (bs "get") get_command_func
      (Some (bs "readonly")) 0 0 0 in
    if r =? -1 then (-1, ctx) else (0, ctx).

(** [redis_module_onload] of src/modules/latte.c *)
Definition latte_onload (ctx : redis_module_ctx_t) : outcome (Z * redis_module_ctx_t) :=
  let '(r, ctx) := redis_module_init ctx (bs "latte") 1 1 in
  if r =? -1 then Done (-1, ctx)
  else
    let '(r, ctx) := init_string_module ctx in
    if r =? -1 then Done (-1, ctx) else Done (0, ctx).

(** [redis_module_onload] of src/module_demo/hello.c *)
Definition hello_onload (ctx : redis_module_ctx_t) : outcome (Z * redis_module_ctx_t) :=
  let '(r, ctx) := redis_module_init ctx (bs "hello") 1 1 in
  if r =? -1 then Done (-1, ctx)
  else
    let '(r, ctx) := redis_module_use_create_command ctx (bs "hello.test") hello_test_func
      (Some (bs "readonly")) 0 0 0 in
    if r =? -1 then Done (-1, ctx) else Done (0, ctx).

(** ** Lemmas *)

Context {LL : LatteCLaws}.

Lemma simple_string_ok (w : world) (msg : bytes) :
  exists lc, redis_module_use_reply_with_simple_string msg w = Done (0, with_output w lc)
    /\ out_step (client (w_client w)) lc ("+"%char :: cstr msg ++ CRLF).
Proof.
  destruct (writes_status w msg) as (lc & E & Ho). exists lc. split; [|done].
  revert E. unfold redis_module_use_reply_with_simple_string, add_reply_status, add_reply_status_length.
  unfold mbind, M_bind. destruct (reply_proto (bs "+") w) as [[[] w1]|]; [|done].
  destruct (reply_proto (cstr msg) w1) as [[[] w2]|]; [|done].
  destruct (reply_proto CRLF w2) as [[[] w3]|]; [|done]. by intros [= ->].
Qed.

(** The keyspace after [redis_module_use_lookup_key] ran at time [now]. *)
Definition looked_up (w : world) (db' : redis_db_t) (h : heap) : world :=
  set_w_heap (with_db (set_w_ticks w (S (w_ticks w))) db') h.

Lemma holds_live_heap (db : redis_db_t) (now : Z) (k s : bytes) (h : heap) (l : loc) :
  holds h l s -> (forall l' , keys_map db !! k = Some l' -> l' <> l /\ exists o, h !! l' = Some o /\ droppable o) ->
  holds (live_heap db now k h) l s.
Proof.
  intros (o & Hl & Ho) Hd. unfold live_heap, release. destruct (expired db now k); [|by exists o].
  destruct (keys_map db !! k) as [l'|]; [|by exists o].
  destruct (Hd l') as (Hne & o' & Ho' & Hdr); [done|]. rewrite (decr_dropped _ _ _ Ho' Hdr).
  exists o. by rewrite lookup_partial_alter_ne.
Qed.

Definition bulk_reply (v : bytes) : bytes := "$"%char :: dec (zlen v) ++ CRLF ++ v ++ CRLF.

Definition wrongtype_reply : bytes :=
  bs "-WRONGTYPE Operation against a key holding the wrong kind of value" ++ CRLF.

(** What GET answers for the value object of a key. *)
Definition get_reply (h : heap) (ol : option loc) : Z * bytes :=
  match ol ≫= fun l => h !! l with
  | None => (0, bs "*-1" ++ CRLF)
  | Some o =>
      if obj_type o =? OBJ_STRING then
        (0, match ptr o with PSds v => bulk_reply v | _ => [] end)
      else (-1, wrongtype_reply)
  end.

(** The value of a key is an object of the store; strings have a sane length. *)
Definition value_ok (h : heap) (ol : option loc) : Prop :=
  forall l, ol = Some l -> exists o, h !! l = Some o
    /\ (obj_type o = OBJ_STRING -> exists v, string_obj o v /\ zlen v < 2 ^ 63).

Lemma bind_writes {B} (m : M unit) (k : unit -> M B) (w : world) (s : bytes) :
  writes m w s -> exists lc, (x ← m; k x) w = k tt (with_output w lc) /\ out_step (client (w_client w)) lc s.
Proof. intros (lc & E & Ho). exists lc. split; [|done]. by rewrite (bind_Done _ _ _ _ _ E). Qed.

Lemma get_command_ok (w : world) (key : loc) (k : bytes) (db : redis_db_t) :
  argc (w_client w) = 2 -> argv_at (w_client w) 1 = Done key -> holds (w_heap w) key k ->
  db_at w db -> db_wf db ->
  let now := mstime (w_ticks w) in let h := live_heap db now k (w_heap w) in
  shared_ok (w_shared w) h -> value_ok h (live_keys db now k !! k) ->
  exists db' lc, get_command w = Done (fst (get_reply h (live_keys db now k !! k)), with_output (looked_up w db' h) lc)
    /\ db_wf db' /\ keys_map db' = live_keys db now k
    /\ expires_map db' = (if expired db now k then delete k (expires_map db) else expires_map db)
    /\ grows_by 0 db db'
    /\ out_step (client (w_client w)) lc (snd (get_reply h (live_keys db now k !! k))).
Proof.
  intros Hargc Hargv Hkey Hat Hwf now h Hsh Hval. unfold get_command. mstep. rewrite Hargc. simpl (negb (2 =? 2)). cbv iota.
  rewrite (bind_lift _ _ _ _ Hargv).
  destruct (lookup_key_ok w key k db Hat Hwf Hkey) as (oe & db' & E & Hwf' & Hgr & Hkm & Hem & Hoe).
  rewrite (bind_Done _ _ _ _ _ E). fold now h. fold now in Hkm, Hoe. fold (looked_up w db' h).
  set (w1 := looked_up w db' h). exists db'. rewrite <- Hkm.
  assert (Hat1 : db_at w1 db') by (by apply (db_at_with (set_w_ticks w (S (w_ticks w))) db)).
  destruct oe as [e|].
  - destruct Hoe as (l & Hl & He). rewrite <- Hkm in Hval. rewrite Hl in *.
    destruct (Hval l eq_refl) as (o & Ho & Hstr). unfold get_reply. simpl. rewrite Ho.
    assert (Hread : redis_module_use_db_entry_get_value e w1 = Done (l, w1)).
    { unfold redis_module_use_db_entry_get_value. rewrite (bind_current_db _ _ _ Hat1). unfold lift.
      by rewrite (kv_entry_val_ok (keys db') 0 e k l). }
    rewrite (bind_Done _ _ _ _ _ Hread).
    assert (Hst : redis_module_use_object_is_string l w1 = Done (obj_type o =? OBJ_STRING, w1)).
    { unfold redis_module_use_object_is_string. by rewrite (bind_read_obj l o _ w1 Ho). }
    rewrite (bind_Done _ _ _ _ _ Hst). destruct (Z.eqb_spec (obj_type o) OBJ_STRING) as [Ht|Ht].
    + destruct (Hstr Ht) as (v & Hv & Hz). rewrite (proj2 (proj2 Hv)).
      destruct (bind_writes (redis_module_use_reply_with_object l) (fun _ => mret 0) w1 (bulk_reply v)) as (lc & E1 & Ho1).
      { apply writes_bulk; [done|by exists o|done]. }
      exists lc. by rewrite E1.
    + destruct (bind_writes redis_module_use_reply_with_wrong_type_error (fun _ => mret (-1)) w1 wrongtype_reply)
        as (lc & E1 & Ho1).
      { eapply writes_read; [reflexivity|]. apply writes_add_reply, Hsh. }
      exists lc. by rewrite E1.
  - rewrite Hoe. destruct (bind_writes redis_module_use_reply_with_null (fun _ => mret 0) w1 (bs "*-1" ++ CRLF))
      as (lc & E1 & Ho1); [apply writes_proto|]. exists lc. by rewrite E1.
Qed.

(** C16: GET replies the value of a live key as a bulk string, the null array
    for a missing key or one whose time has come (which is then deleted), and
    WRONGTYPE for a value that is not a string. *)
Theorem get_command_correct (w : world) (key : loc) (k : bytes) (db : redis_db_t) :
  argc (w_client w) = 2 -> argv_at (w_client w) 1 = Done key -> holds (w_heap w) key k ->
  db_at w db -> db_wf db ->
  let now := mstime (w_ticks w) in let h := live_heap db now k (w_heap w) in
  shared_ok (w_shared w) h -> value_ok h (live_keys db now k !! k) ->
  exists db' lc, get_command w = Done (fst (get_reply h (live_keys db now k !! k)), with_output (looked_up w db' h) lc)
    /\ db_wf db' /\ keys_map db' = live_keys db now k
    /\ out_step (client (w_client w)) lc (snd (get_reply h (live_keys db now k !! k))).
Proof.
  intros Hargc Hargv Hkey Hat Hwf now h Hsh Hval.
  destruct (get_command_ok w key k db Hargc Hargv Hkey Hat Hwf Hsh Hval) as (db' & lc & E & Hwf' & Hkm & _ & _ & Ho).
  by exists db', lc.
Qed.

Lemma entry_set_value_ok (w : world) (db : redis_db_t) (e : dict_entry_t) (k : bytes) (l val : loc) (old : latte_object_t) :
  db_at w db -> db_wf db -> kv_entry_at (keys db) 0 e k -> keys_map db !! k = Some l ->
  w_heap w !! l = Some old -> droppable old ->
  exists db', redis_module_use_db_entry_set_value e val w
      = Done (tt, with_db (set_w_heap w (partial_alter (fun _ => dropped old) l (w_heap w))) db')
    /\ db_wf db' /\ keys_map db' = <[k := val]> (keys_map db) /\ expires_map db' = expires_map db
    /\ grows_by 1 db db'.
Proof.
  intros Hat Hwf He Hl Hold Hd. unfold redis_module_use_db_entry_set_value, redis_module_use_db_entry_get_value.
  assert (Hread : (x ← current_db; lift (kv_entry_val (keys x) 0 e)) w = Done (l, w)).
  { rewrite (bind_current_db _ _ _ Hat). unfold lift. by rewrite (kv_entry_val_ok (keys db) 0 e k l). }
  rewrite (bind_Done _ _ _ _ _ Hread), (bind_read_obj _ _ _ _ Hold). mstep. rewrite (decr_dropped _ _ _ Hold Hd).
  set (w1 := set_w_heap w _). assert (Hat1 : db_at w1 db) by exact Hat.
  rewrite (bind_current_db _ _ _ Hat1).
  pose proof (kv_in_range_0 _ (db_keys_wf _ Hwf)) as Hr.
  destruct (set_val_ok (keys db) 0 e k val (db_keys_wf _ Hwf) Hr He) as (ks & E & Hwf1 & _ & Ht & Hv & _ & _).
  rewrite (bind_lift _ _ _ _ E). rewrite (put_current_db_ok _ _ _ Hat1). exists (set_keys db ks).
  assert (Hkm : keys_map (set_keys db ks) = <[k := val]> (keys_map db)) by exact (shard_insert _ _ _ _ (db_keys_wf _ Hwf) Hr Hv).
  split_and!; try done.
  2:{ split; simpl; [|lia]. rewrite (total_insert _ _ _ _ (db_keys_wf _ Hwf) Hr Hv), map_size_insert.
      destruct (kv_shard (keys db) 0 !! k); simpl; lia. }
  constructor; simpl; try apply Hwf; try done.
  - rewrite Ht. apply Hwf.
  - change (dom (expires_map (set_keys db ks))) with (dom (expires_map db)). rewrite Hkm, dom_insert_L.
    pose proof (db_expires_dom _ Hwf). set_solver.
Qed.

(** The objects SET works on: the key and value arguments, and the value the
    key has had so far. *)
Record set_args (w : world) (db : redis_db_t) (key val : loc) (k : bytes) (o : latte_object_t) : Prop := {
  sa_argc : argc (w_client w) = 3;
  sa_key : argv_at (w_client w) 1 = Done key;
  sa_val : argv_at (w_client w) 2 = Done val;
  sa_key_obj : holds (w_heap w) key k;
  sa_key_nul : cstr k = k;
  sa_val_obj : w_heap w !! val = Some o;
  sa_val_count : counted (refcount o);
  sa_key_val : key <> val;
  sa_old : forall l, keys_map db !! k = Some l -> l <> key /\ l <> val
    /\ exists old, w_heap w !! l = Some old /\ droppable old /\ obj_type old = OBJ_STRING
}.

(** How the store differs after SET: the value argument has one more
    reference, the old value one less. *)
Record set_heap (w : world) (db : redis_db_t) (val : loc) (k : bytes) (o : latte_object_t) (h' : heap) : Prop := {
  sh_val : exists n, h' !! val = Some (set_lru (set_refcount o (refcount o + 1)) n);
  sh_old : forall l, keys_map db !! k = Some l -> h' !! l = w_heap w !! l ≫= dropped;
  sh_other : forall l, l <> val -> keys_map db !! k <> Some l -> h' !! l = w_heap w !! l
}.

Lemma live_heap_lookup (db : redis_db_t) (now : Z) (k : bytes) (h : heap) (l : loc) :
  (forall l', keys_map db !! k = Some l' -> exists o, h !! l' = Some o /\ droppable o) ->
  live_heap db now k h !! l
  = if expired db now k && bool_decide (keys_map db !! k = Some l) then h !! l ≫= dropped else h !! l.
Proof.
  intros Hd. unfold live_heap, release. destruct (expired db now k); [|done]. simpl.
  destruct (keys_map db !! k) as [l'|]; [|done].
  destruct (Hd l') as (o' & Ho' & Hdr); [done|]. rewrite (decr_dropped _ _ _ Ho' Hdr).
  case_bool_decide as Hl.
  - injection Hl as ->. by rewrite lookup_partial_alter_eq, Ho'.
  - rewrite lookup_partial_alter_ne; [done|congruence].
Qed.

(** SET on a key that is absent, or whose time has come. *)
Lemma set_absent_ok (w1 : world) (db1 : redis_db_t) (key val : loc) (k : bytes) (o : latte_object_t) :
  db_at w1 db1 -> db_wf db1 -> db_room db1 -> 0 < hz (w_server w1) ->
  holds (w_heap w1) key k -> cstr k = k -> w_heap w1 !! val = Some o -> counted (refcount o) -> key <> val ->
  keys_map db1 !! k = None ->
  exists db' n, (_ ← redis_module_use_object_incr_count val; redis_module_use_db_add key val) w1
      = Done (0, set_w_heap (with_db (set_w_ticks w1 (S (w_ticks w1))) db')
          (<[val := set_lru (set_refcount o (refcount o + 1)) n]> (w_heap w1)))
    /\ db_wf db' /\ keys_map db' = <[k := val]> (keys_map db1) /\ expires_map db' = expires_map db1
    /\ grows_by 1 db1 db'.
Proof.
  intros Hat Hwf Hroom Hhz (ko & Hk & Hko) Hnul Hv Hc Hne Hnone.
  assert (Hincr : redis_module_use_object_incr_count val w1
    = Done (tt, set_w_heap w1 (<[val := set_refcount o (refcount o + 1)]> (w_heap w1)))).
  { unfold redis_module_use_object_incr_count. rewrite (bind_read_obj _ _ _ _ Hv).
    by rewrite <- (incr_ref_count_spec val o (w_heap w1)). }
  rewrite (bind_Done _ _ _ _ _ Hincr). set (w2 := set_w_heap w1 _).
  assert (Hat2 : db_at w2 db1) by exact Hat. unfold redis_module_use_db_add.
  rewrite (bind_current_db _ _ _ Hat2). mstep. erewrite bind_Done by reflexivity. mstep.
  destruct (db_add_new_ok (w_server w2) (mstime (w_ticks w2)) db1 key val (w_heap w2) ko k
    (set_refcount o (refcount o + 1))) as (db' & n & E & Hwf' & He & Hgr & Hkm); try done.
  - cbn. by rewrite lookup_insert_ne.
  - cbn. apply lookup_insert_eq.
  - by rewrite Hnul.
  - change (w_heap (set_w_ticks w2 (S (w_ticks w2)))) with (w_heap w2). rewrite (bind_lift _ _ _ _ E). cbn iota beta.
    rewrite (bind_put_current_db _ _ db1) by exact Hat. mstep. exists db', n. rewrite Hnul in Hkm.
    split_and!; try done.
    + unfold mret, M_ret. cbn. by rewrite insert_insert_eq.
    + unfold expires_map. by rewrite He.
Qed.

Lemma reply_ok_string (w : world) :
  exists lc, (_ ← redis_module_use_reply_with_simple_string (bs "OK"); mret 0 : M Z) w = Done (0, with_output w lc)
    /\ out_step (client (w_client w)) lc (bs "+OK" ++ CRLF).
Proof.
  destruct (simple_string_ok w (bs "OK")) as (lc & E & Ho). exists lc. split; [|done].
  by rewrite (bind_Done _ _ _ _ _ E).
Qed.

(** The clock is read to look the key up, and once more to add a new one. *)
Definition set_ticks (w : world) (db : redis_db_t) (k : bytes) : nat :=
  match live_keys db (mstime (w_ticks w)) k !! k with
  | Some _ => S (w_ticks w)
  | None => S (S (w_ticks w))
  end.

(** The state after SET, apart from the output. *)
Definition set_post (w : world) (t : nat) (db' : redis_db_t) (h' : heap) : world :=
  set_w_heap (with_db (set_w_ticks w t) db') h'.

(** SET on a key that is live: its entry [e] gets the new value, which has one
    more reference; the old value has one less. *)
Lemma set_present_ok (w1 : world) (db1 : redis_db_t) (c : redis_client_t) (e : dict_entry_t) (val l : loc) (k : bytes)
    (o old : latte_object_t) (K F : M Z) :
  db_at w1 db1 -> db_wf db1 -> keys_map db1 !! k = Some l -> kv_entry_at (keys db1) 0 e k -> argv_at c 2 = Done val ->
  w_heap w1 !! val = Some o -> counted (refcount o) -> l <> val ->
  w_heap w1 !! l = Some old -> droppable old -> obj_type old = OBJ_STRING ->
  exists db', (value ← redis_module_use_db_entry_get_value e;
      is_str ← redis_module_use_object_is_string value;
      if (is_str : bool) then
        value ← lift (argv_at c 2);
        _ ← redis_module_use_object_incr_count value;
        _ ← redis_module_use_db_entry_set_value e value; K
      else F) w1
      = K (with_db (set_w_heap w1 (partial_alter (fun _ => dropped old) l
          (<[val := set_refcount o (refcount o + 1)]> (w_heap w1)))) db')
    /\ db_wf db' /\ keys_map db' = <[k := val]> (keys_map db1) /\ expires_map db' = expires_map db1 /\ grows_by 1 db1 db'.
Proof.
  intros Hat Hwf Hl He Hv Hval Hcnt Hne Hol Hdo Hty.
  assert (Hread : redis_module_use_db_entry_get_value e w1 = Done (l, w1)).
  { unfold redis_module_use_db_entry_get_value. rewrite (bind_current_db _ _ _ Hat). unfold lift.
    by rewrite (kv_entry_val_ok (keys db1) 0 e k l). }
  rewrite (bind_Done _ _ _ _ _ Hread).
  erewrite bind_Done by (unfold redis_module_use_object_is_string; rewrite (bind_read_obj _ _ _ _ Hol); reflexivity).
  rewrite Hty, Z.eqb_refl, (bind_lift _ _ _ _ Hv).
  erewrite bind_Done by (unfold redis_module_use_object_incr_count; rewrite (bind_read_obj _ _ _ _ Hval); reflexivity).
  rewrite (incr_ref_count_spec val o _ Hval Hcnt).
  destruct (entry_set_value_ok (set_w_heap w1 (<[val := set_refcount o (refcount o + 1)]> (w_heap w1))) db1 e k l val old)
    as (db2 & E2 & Hwf2 & Hkm2 & Hem2 & Hgr2); try done.
  { cbn. by rewrite lookup_insert_ne. }
  rewrite (bind_Done _ _ _ _ _ E2). by exists db2.
Qed.

(** The store after SET, for a key that is live and for one that is not. *)
Lemma set_heap_present (w : world) (db : redis_db_t) (val l : loc) (k : bytes) (o old : latte_object_t) :
  keys_map db !! k = Some l -> l <> val -> w_heap w !! l = Some old ->
  set_heap w db val k o (partial_alter (fun _ => dropped old) l (<[val := set_refcount o (refcount o + 1)]> (w_heap w))).
Proof.
  intros Hl Hne Hol. split.
  - exists (lru o). rewrite lookup_partial_alter_ne, lookup_insert_eq by done. by destruct o.
  - intros l' Hl'. assert (l' = l) as -> by congruence. by rewrite lookup_partial_alter_eq, Hol.
  - intros l' Hv Hl'. assert (l' <> l) by congruence. by rewrite lookup_partial_alter_ne, lookup_insert_ne.
Qed.

Lemma set_heap_absent (w : world) (db : redis_db_t) (val : loc) (k : bytes) (o : latte_object_t) (now n : Z) :
  (forall l, keys_map db !! k = Some l ->
     expired db now k = true /\ l <> val /\ exists old, w_heap w !! l = Some old /\ droppable old) ->
  set_heap w db val k o (<[val := set_lru (set_refcount o (refcount o + 1)) n]> (live_heap db now k (w_heap w))).
Proof.
  intros Hold.
  assert (Hh : forall l, live_heap db now k (w_heap w) !! l = if expired db now k && bool_decide (keys_map db !! k = Some l)
    then w_heap w !! l ≫= dropped else w_heap w !! l) by (intros l; apply live_heap_lookup; intros l' Hl'; by apply Hold).
  split.
  - exists n. by rewrite lookup_insert_eq.
  - intros l Hl. destruct (Hold l Hl) as (Hx & Hne & _). by rewrite lookup_insert_ne, Hh, Hx, bool_decide_true.
  - intros l Hne Hl. by rewrite lookup_insert_ne, Hh, (bool_decide_false _ Hl), andb_false_r.
Qed.

Lemma set_command_ok (w : world) (db : redis_db_t) (key val : loc) (k : bytes) (o : latte_object_t) :
  set_args w db key val k o -> db_at w db -> db_wf db -> db_room db -> 0 < hz (w_server w) ->
  exists db' h' lc, set_command w = Done (0, with_output (set_post w (set_ticks w db k) db' h') lc)
    /\ out_step (client (w_client w)) lc (bs "+OK" ++ CRLF)
    /\ db_wf db' /\ keys_map db' = <[k := val]> (keys_map db)
    /\ expires_map db' = (if expired db (mstime (w_ticks w)) k then delete k (expires_map db) else expires_map db)
    /\ grows_by 1 db db' /\ set_heap w db val k o h'.
Proof.
  intros [Hargc Hk Hv Hkey Hnul Hval Hcnt Hkv Hold] Hat Hwf Hroom Hhz.
  set (now := mstime (w_ticks w)). set (h := live_heap db now k (w_heap w)).
  assert (Hdr : forall l', keys_map db !! k = Some l' -> exists o, w_heap w !! l' = Some o /\ droppable o).
  { intros l' Hl'. destruct (Hold l' Hl') as (_ & _ & old & ? & ? & _). eauto. }
  assert (Hh : forall l, h !! l = if expired db now k && bool_decide (keys_map db !! k = Some l)
    then w_heap w !! l ≫= dropped else w_heap w !! l) by (intros l; by apply live_heap_lookup).
  unfold set_command. mstep. rewrite Hargc. simpl (negb (3 =? 3)). cbv iota. rewrite (bind_lift _ _ _ _ Hk).
  destruct (lookup_key_ok w key k db Hat Hwf Hkey) as (oe & db1 & E & Hwf1 & Hgr1 & Hkm & Hem & Hoe).
  rewrite (bind_Done _ _ _ _ _ E). fold now h. fold (looked_up w db1 h). set (w1 := looked_up w db1 h).
  assert (Hat1 : db_at w1 db1) by (by apply (db_at_with (set_w_ticks w (S (w_ticks w))) db)).
  assert (Hval1 : w_heap w1 !! val = Some o).
  { cbn. rewrite Hh, bool_decide_false; [by rewrite andb_false_r|]. intros Hl. by destruct (Hold val Hl) as (_ & Hne & _). }
  assert (Hins : <[k := val]> (keys_map db1) = <[k := val]> (keys_map db)).
  { rewrite Hkm. unfold live_keys. destruct (expired db _ k); [apply insert_delete_eq|done]. }
  unfold live_keys in Hkm. fold now in Hkm. destruct oe as [e|].
  - destruct Hoe as (l & Hl & He).
    assert (Hexp : expired db now k = false) by (destruct (expired db now k); [by rewrite Hkm, lookup_delete_eq in Hl|done]).
    assert (Hl0 : keys_map db !! k = Some l) by (by rewrite Hkm, Hexp in Hl).
    destruct (Hold l Hl0) as (Hlk & Hlv & old & Hol & Hdo & Hty).
    edestruct (set_present_ok w1 db1 (w_client w) e val l k o old) as (db2 & E2 & Hwf2 & Hkm2 & Hem2 & Hgr2); try done.
    { cbn. by rewrite Hh, Hexp. }
    rewrite E2. set (w3 := with_db _ db2). destruct (reply_ok_string w3) as (lc & E3 & Hout).
    exists db2, (w_heap w3), lc. rewrite E3. split_and!; try done; [|by rewrite Hkm2, Hins|by rewrite Hem2, Hem|destruct Hgr1, Hgr2; split; lia|].
    + assert (Ht : set_ticks w db k = S (w_ticks w)) by (unfold set_ticks, live_keys; fold now; by rewrite Hexp, Hl0).
      rewrite Ht. unfold w3, set_post, with_output, with_db. cbn. by rewrite list_insert_insert_eq.
    + unfold w3, h, live_heap. cbn. unfold h, live_heap. rewrite Hexp. by apply set_heap_present.
  - rewrite (bind_lift _ _ _ _ Hv).
    destruct (set_absent_ok w1 db1 key val k o) as (db2 & n & E2 & Hwf2 & Hkm2 & Hem2 & Hgr2); try done.
    { destruct Hgr1, Hroom. split; lia. }
    { apply holds_live_heap; [done|]. intros l' Hl'. destruct (Hold l' Hl') as (? & _ & old & ? & ? & _). eauto. }
    rewrite M_bind_assoc. rewrite (bind_Done _ _ _ _ _ E2). set (w3 := set_w_heap _ _).
    destruct (reply_ok_string w3) as (lc & E3 & Hout).
    exists db2, (w_heap w3), lc. rewrite E3. split_and!; try done; [|by rewrite Hkm2, Hins|by rewrite Hem2, Hem|destruct Hgr1, Hgr2; split; lia|].
    + assert (Ht : set_ticks w db k = S (S (w_ticks w))) by (unfold set_ticks, live_keys; fold now; by rewrite <- Hkm, Hoe).
      rewrite Ht. unfold w3, set_post, with_output, with_db. cbn. by rewrite list_insert_insert_eq.
    + apply set_heap_absent. intros l Hl. destruct (Hold l Hl) as (_ & ? & old & ? & ? & _). split; [|by eauto].
      rewrite Hkm in Hoe. destruct (expired db now k); [done|congruence].
Qed.

(** C15: SET on a string key or a missing key replies OK and makes the value
    argument the value of the key, taking one reference to it and giving up
    the reference to the old value; a key whose time had come loses its time
    to live, a live key keeps it; no other key and no other object changes and
    the database stays well formed. *)
Theorem set_command_correct (w : world) (db : redis_db_t) (key val : loc) (k : bytes) (o : latte_object_t) :
  set_args w db key val k o -> db_at w db -> db_wf db -> db_room db -> 0 < hz (w_server w) ->
  exists db' h' lc, set_command w = Done (0, with_output (set_post w (set_ticks w db k) db' h') lc)
    /\ out_step (client (w_client w)) lc (bs "+OK" ++ CRLF)
    /\ db_wf db' /\ keys_map db' = <[k := val]> (keys_map db)
    /\ expires_map db' = (if expired db (mstime (w_ticks w)) k then delete k (expires_map db) else expires_map db)
    /\ grows_by 1 db db' /\ set_heap w db val k o h'.
Proof. apply set_command_ok. Qed.

(** SET and GET with a wrong number of arguments change nothing and answer
    with the text of the error as a RESP simple string ("+ERR ..."), which a
    client reads as a success status. *)
Lemma string_commands_arity (w : world) :
  (argc (w_client w) <> 3 -> exists lc, set_command w = Done (-1, with_output w lc)
     /\ out_step (client (w_client w)) lc (bs "+ERR wrong number of arguments for 'set' command" ++ CRLF))
  /\ (argc (w_client w) <> 2 -> exists lc, get_command w = Done (-1, with_output w lc)
     /\ out_step (client (w_client w)) lc (bs "+ERR wrong number of arguments for 'get' command" ++ CRLF)).
Proof.
  split; intros Hc; [unfold set_command|unfold get_command]; mstep;
    rewrite (proj2 (Z.eqb_neq _ _) Hc); cbn [negb];
    (match goal with |- context [redis_module_use_reply_with_simple_string ?m] =>
       destruct (simple_string_ok w m) as (lc & E & Ho) end);
    exists lc; by rewrite (bind_Done _ _ _ _ _ E).
Qed.

(** ** Loading the module *)

(** A command of a module. *)
Definition module_cmd (name : bytes) (flags id : Z) (m : option redis_module_t) (f : redis_module_cmd_func) : redis_command_t :=
  mk_command name dispatcher_proc (-1) [] (Z.lor flags CMD_MODULE) (Some (mk_proxy m f)) 0 0 0 0 0 0 0 0 id.

Definition lookup_cmd (server : redis_server_t) (name : bytes) : option redis_command_t :=
  command_manager_lookup (command_manager server) name.

Lemma create_command_ok (ctx : redis_module_ctx_t) (name : bytes) (f : redis_module_cmd_func)
    (words : list bytes) (flags : Z) :
  ids_ok (command_manager (ctx_server ctx)) -> nextid (command_manager (ctx_server ctx)) + 2 < 2 ^ 64 ->
  words <> [] -> forallb plain_word words = true -> flags_of_tokens words 0 = flags -> flags <> -1 ->
  cstr name = name ->
  match lookup_cmd (ctx_server ctx) name with
  | Some _ => redis_module_use_create_command ctx name f (Some (join_sp words)) 0 0 0 = (-1, ctx)
  | None => exists cm id, redis_module_use_create_command ctx name f (Some (join_sp words)) 0 0 0
        = (0, mk_ctx (set_command_manager (ctx_server ctx) cm) (ctx_module ctx))
      /\ ids_ok cm /\ nextid cm <= nextid (command_manager (ctx_server ctx)) + 2
      /\ forall n, NUL ∉ n -> command_manager_lookup cm n = if strcasecmp_eq n name
           then Some (module_cmd name flags id (ctx_module ctx) f) else lookup_cmd (ctx_server ctx) n
  end.
Proof.
  intros Hok Hroom Hne Hw Hf Hf1 Hn. unfold lookup_cmd, redis_module_use_create_command, command_flags_from_string.
  rewrite cstr_line by (by apply plain_line). rewrite sds_split_len_plain, Hf by done.
  rewrite (proj2 (Z.eqb_neq _ _) Hf1), sds_new_spec, Hn.
  destruct (command_manager_lookup (command_manager (ctx_server ctx)) name) eqn:El; [done|].
  set (c := mk_command name _ _ _ _ _ _ _ _ _ _ _ _ _ _).
  destruct (register_ok (command_manager (ctx_server ctx)) c Hok Hroom) as (id & r & cm & -> & Hok' & _ & _ & Hnx & Hl).
  simpl cmd_name in Hl. rewrite Hn, El in Hl. destruct Hl as [_ Hl]. exists cm, (i32 id). done.
Qed.

Definition set_flags : Z := Z.lor CMD_WRITE CMD_DENYOOM.

(** A readable, executable library that exports an entry point. *)
Definition loadable (f : module_file) (onload : redis_module_ctx_t -> outcome (Z * redis_module_ctx_t)) : Prop :=
  (forall mode, mf_mode f = Some mode -> has_flag mode EXEC_BITS = true)
  /\ mf_opens f = true /\ mf_onload f = Some onload.

Lemma module_load_step (f : module_file) (onload : redis_module_ctx_t -> outcome (Z * redis_module_ctx_t))
    (server : redis_server_t) :
  loadable f onload ->
  module_load f server = ('(r, ctx) ← onload (mk_ctx server None);
    if r =? -1 then Done (-1, ctx_server ctx)
    else m ← deref (ctx_module ctx);
      let '(_, ms) := dict_add (modules (ctx_server ctx)) (module_name m) m in
      Done (0, set_modules (ctx_server ctx) ms)).
Proof.
  intros (Hm & Ho & Hl). unfold module_load. rewrite Ho, Hl.
  destruct (mf_mode f) as [mode|]; [|done]. by rewrite (Hm mode).
Qed.

Definition latte_module : redis_module_t := mk_module (bs "latte") 1 1 0 0 0.

Lemma latte_init_ok (server : redis_server_t) :
  dict_map (modules server) !! bs "latte" = None ->
  redis_module_init (mk_ctx server None) (bs "latte") 1 1
  = (0, mk_ctx server (Some latte_module)).
Proof.
  intros Hm. unfold redis_module_init, redis_module_use_is_module_name_busy. rewrite sds_new_spec.
  change (cstr (bs "latte")) with (bs "latte"). simpl ctx_server.
  rewrite (proj2 (dict_find_None SdsCaseCompare _ (modules server) (bs "latte") ltac:(by apply (bool_decide_unpack _)))) by exact Hm.
  rewrite bool_decide_false by (by intros [? ?]). cbn. by rewrite sds_new_spec.
Qed.

Lemma module_load_latte_ok (f : module_file) (server : redis_server_t) :
  loadable f latte_onload -> ids_ok (command_manager server) -> nextid (command_manager server) + 4 < 2 ^ 64 ->
  dict_map (modules server) !! bs "latte" = None ->
  lookup_cmd server (bs "set") = None -> lookup_cmd server (bs "get") = None ->
  exists server' id1 id2, module_load f server = Done (0, server')
    /\ (forall n, NUL ∉ n -> lookup_cmd server' n =
         if strcasecmp_eq n (bs "get") then Some (module_cmd (bs "get") CMD_READONLY id2 (Some latte_module) get_command_func)
         else if strcasecmp_eq n (bs "set") then Some (module_cmd (bs "set") set_flags id1 (Some latte_module) set_command_func)
         else lookup_cmd server n)
    /\ dict_map (modules server') = <[bs "latte" := latte_module]> (dict_map (modules server))
    /\ module_load f server' = Done (-1, server')
    /\ exists cm ms, server' = set_modules (set_command_manager server cm) ms.
Proof.
  intros Hf Hok Hroom Hm Hset Hget. rewrite (module_load_step f latte_onload server Hf).
  unfold latte_onload. rewrite latte_init_ok by done. simpl (0 =? -1). unfold init_string_module.
  set (ctx := mk_ctx server (Some latte_module)).
  pose proof (create_command_ok ctx (bs "set") set_command_func [bs "write"; bs "deny-oom"] set_flags) as H1.
  simpl ctx_server in H1. rewrite Hset in H1.
  destruct H1 as (cm1 & id1 & E1 & Hok1 & Hn1 & Hl1); try done; [lia|].
  change (join_sp [bs "write"; bs "deny-oom"]) with (bs "write deny-oom") in E1. fold ctx. rewrite E1. simpl (0 =? -1).
  set (ctx1 := mk_ctx _ _).
  pose proof (create_command_ok ctx1 (bs "get") get_command_func [bs "readonly"] CMD_READONLY) as H2.
  assert (Hg : lookup_cmd (ctx_server ctx1) (bs "get") = None).
  { unfold lookup_cmd, ctx1. cbn [command_manager set_command_manager ctx_server]. rewrite Hl1; [done|by apply (bool_decide_unpack _)]. }
  rewrite Hg in H2. destruct H2 as (cm2 & id2 & E2 & Hok2 & Hn2 & Hl2); try done; [simpl; lia|].
  change (join_sp [bs "readonly"]) with (bs "readonly") in E2. fold ctx1. rewrite E2. cbn [mbind outcome_bind ctx_module deref Z.eqb].
  simpl ctx_server. simpl modules.
  destruct (dict_add_new _ _ (modules server) (module_name latte_module) latte_module) as (ms & Ems & Hms); [by apply (bool_decide_unpack _)|exact Hm|].
  change (modules (set_command_manager (set_command_manager server cm1) cm2)) with (modules server).
  change (deref (ctx_module ctx1)) with (Done latte_module). cbn [mbind outcome_bind]. rewrite Ems. eexists _, id1, id2. split; [reflexivity|]. split_and!.
  - intros n Hn0. unfold lookup_cmd. cbn [command_manager set_modules set_command_manager]. rewrite Hl2 by done.
    destruct (strcasecmp_eq n (bs "get")); [done|].
    unfold lookup_cmd, ctx1. cbn [command_manager set_command_manager ctx_server]. by rewrite Hl1.
  - exact Hms.
  - rewrite (module_load_step f latte_onload _ Hf).
    unfold latte_onload, redis_module_init, redis_module_use_is_module_name_busy. rewrite sds_new_spec. simpl ctx_server.
    rewrite bool_decide_true; [done|]. simpl modules.
    destruct (dict_find ms (cstr (bs "latte"))) eqn:Ed; [done|]. apply dict_find_None in Ed; [|by apply (bool_decide_unpack _)].
    rewrite Hms in Ed. change (key_norm SdsCaseCompare (cstr (bs "latte"))) with (bs "latte") in Ed.
    by rewrite lookup_insert_eq in Ed.
  - by eexists _, _.
Qed.

(** C23: loading the latte module into a server that has neither the module nor
    its commands registers SET and GET, in every spelling and with their
    bodies and flags, keeps every other command, and records the module; a
    second load is then refused and changes nothing. *)
Theorem module_load_latte_correct (f : module_file) (server : redis_server_t) :
  loadable f latte_onload -> ids_ok (command_manager server) -> nextid (command_manager server) + 4 < 2 ^ 64 ->
  dict_map (modules server) !! bs "latte" = None ->
  lookup_cmd server (bs "set") = None -> lookup_cmd server (bs "get") = None ->
  exists server' id1 id2, module_load f server = Done (0, server')
    /\ (forall n, NUL ∉ n -> lookup_cmd server' n =
         if strcasecmp_eq n (bs "get") then Some (module_cmd (bs "get") CMD_READONLY id2 (Some latte_module) get_command_func)
         else if strcasecmp_eq n (bs "set") then Some (module_cmd (bs "set") set_flags id1 (Some latte_module) set_command_func)
         else lookup_cmd server n)
    /\ dict_map (modules server') = <[bs "latte" := latte_module]> (dict_map (modules server))
    /\ module_load f server' = Done (-1, server').
Proof.
  intros Hf Hok Hroom Hm Hset Hget.
  destruct (module_load_latte_ok f server Hf Hok Hroom Hm Hset Hget) as (s & id1 & id2 & ? & ? & ? & ? & _).
  by exists s, id1, id2.
Qed.

(** When the load fails half-way (GET is taken, SET is not) the module is
    not recorded and [module_load] returns -1, but SET stays registered and
    points to a body in the library that has just been closed: the code that
    would unregister it is commented out. *)
Lemma module_load_failure_leaves_set (f : module_file) (server : redis_server_t) (other : redis_command_t) :
  loadable f latte_onload -> ids_ok (command_manager server) -> nextid (command_manager server) + 4 < 2 ^ 64 ->
  dict_map (modules server) !! bs "latte" = None ->
  lookup_cmd server (bs "set") = None -> lookup_cmd server (bs "get") = Some other ->
  exists server' id1, module_load f server = Done (-1, server')
    /\ lookup_cmd server' (bs "set") = Some (module_cmd (bs "set") set_flags id1 (Some latte_module) set_command_func)
    /\ modules server' = modules server.
Proof.
  intros Hf Hok Hroom Hm Hset Hget. rewrite (module_load_step f latte_onload server Hf).
  unfold latte_onload. rewrite latte_init_ok by done. simpl (0 =? -1). unfold init_string_module.
  set (ctx := mk_ctx server (Some latte_module)).
  pose proof (create_command_ok ctx (bs "set") set_command_func [bs "write"; bs "deny-oom"] set_flags) as H1.
  simpl ctx_server in H1. rewrite Hset in H1.
  destruct H1 as (cm1 & id1 & E1 & Hok1 & Hn1 & Hl1); try done; [lia|].
  change (join_sp [bs "write"; bs "deny-oom"]) with (bs "write deny-oom") in E1. fold ctx. rewrite E1. simpl (0 =? -1).
  set (ctx1 := mk_ctx _ _).
  pose proof (create_command_ok ctx1 (bs "get") get_command_func [bs "readonly"] CMD_READONLY) as H2.
  assert (Hg : lookup_cmd (ctx_server ctx1) (bs "get") = Some other).
  { unfold lookup_cmd, ctx1. cbn [command_manager set_command_manager ctx_server]. rewrite Hl1; [done|by apply (bool_decide_unpack _)]. }
  rewrite Hg in H2. change (join_sp [bs "readonly"]) with (bs "readonly") in H2.
  rewrite H2; try done; [|simpl; lia]. eexists _, id1. split; [reflexivity|]. split; [|done].
  unfold lookup_cmd, ctx1. cbn [command_manager set_command_manager ctx_server]. rewrite Hl1; [done|by apply (bool_decide_unpack _)].
Qed.

End StringModule.

(** ** Concrete runs *)

#[local] Existing Instance model_latte.
#[local] Existing Instance model_latte_laws.

(** A server with one database, and a client with the given arguments. *)
Definition ex_cmd_world (db : redis_db_t) (args : list loc) : world :=
  set_w_server (ex_idle [] args) (set_dbs ex_server [db]).

Lemma ex_cmd_db_at (db : redis_db_t) (args : list loc) : db_at (ex_cmd_world db args) db.
Proof. split; reflexivity. Qed.

Lemma ex_heap_obj (l : loc) (s : string) :
  w_heap ex_world !! l = Some (ex_str s) -> holds (w_heap ex_world) l (bs s).
Proof. intros H. exists (ex_str s). split; [done|]. apply ex_str_obj. Qed.

Definition ex_get_world : world := ex_cmd_world ex_db1 [3%positive; 1%positive].

Lemma ex_get_heap : live_heap ex_db1 (mstime (w_ticks ex_get_world)) (bs "foo") (w_heap ex_get_world) = w_heap ex_world.
Proof.
  assert (E : expired ex_db1 (mstime (w_ticks ex_get_world)) (bs "foo") = false) by (vm_compute; reflexivity).
  unfold live_heap. by rewrite E.
Qed.

Lemma ex_get_lookup : live_keys ex_db1 (mstime (w_ticks ex_get_world)) (bs "foo") !! bs "foo" = Some 2%positive.
Proof. vm_compute. reflexivity. Qed.

Lemma ex_get_key : holds (w_heap ex_get_world) 1 (bs "foo").
Proof. change (w_heap ex_get_world) with (w_heap ex_world). apply ex_heap_obj. vm_compute. reflexivity. Qed.

Lemma ex_get_value : value_ok (w_heap ex_world) (Some 2%positive).
Proof.
  intros l [= <-]. exists (ex_str "bar"). split; [vm_compute; reflexivity|].
  intros _. exists (bs "bar"). split; [apply ex_str_obj|reflexivity].
Qed.

Lemma ex_get_reply : get_reply (w_heap ex_world) (Some 2%positive) = (0, bulk_reply (bs "bar")).
Proof. vm_compute. reflexivity. Qed.

Lemma get_command_correct_witness :
  exists db' lc, get_command ex_get_world = Done (0, with_output (looked_up ex_get_world db' (w_heap ex_world)) lc)
    /\ out_step (client (w_client ex_get_world)) lc (bulk_reply (bs "bar")).
Proof.
  pose proof (get_command_correct ex_get_world 1 (bs "foo") ex_db1 eq_refl eq_refl ex_get_key
    (ex_cmd_db_at _ _) ex_db1_wf) as H.
  cbv zeta in H. rewrite ex_get_heap, ex_get_lookup, ex_get_reply in H.
  destruct (H ex_shared_ok ex_get_value) as (db' & lc & E & _ & _ & Ho).
  exists db', lc. split; [exact E|exact Ho].
Defined.

Lemma set_command_correct_witness :
  exists db' h' lc, set_command (ex_cmd_world ex_db1 [1%positive; 1%positive; 3%positive])
      = Done (0, with_output (set_post (ex_cmd_world ex_db1 [1%positive; 1%positive; 3%positive]) 1 db' h') lc)
    /\ keys_map db' !! bs "foo" = Some 3%positive /\ h' !! 2%positive = None.
Proof.
  destruct (set_command_correct (ex_cmd_world ex_db1 [1%positive; 1%positive; 3%positive]) ex_db1 1 3
    (bs "foo") (ex_str "baz")) as (db' & h' & lc & E & _ & _ & Hk & _ & _ & [_ Hold _]).
  - assert (Hl : keys_map ex_db1 !! bs "foo" = Some 2%positive) by (vm_compute; reflexivity).
    constructor.
    + reflexivity.
    + reflexivity.
    + reflexivity.
    + apply ex_heap_obj. vm_compute. reflexivity.
    + reflexivity.
    + vm_compute. reflexivity.
    + vm_compute. auto.
    + discriminate.
    + intros l. rewrite Hl. intros [= <-]. split; [discriminate|]. split; [discriminate|].
      exists (ex_str "bar"). split; [vm_compute; reflexivity|]. split; [left; reflexivity|reflexivity].
  - apply ex_cmd_db_at.
  - exact ex_db1_wf.
  - exact ex_db1_room.
  - reflexivity.
  - exists db', h', lc. split; [exact E|]. split; [rewrite Hk; apply lookup_insert_eq|].
    rewrite (Hold 2%positive) by (vm_compute; reflexivity). vm_compute. reflexivity.
Defined.

Lemma string_commands_arity_witness :
  exists lc, set_command (ex_cmd_world ex_db1 [1%positive]) = Done (-1, with_output (ex_cmd_world ex_db1 [1%positive]) lc)
    /\ out_step ex_lclient lc (bs "+ERR wrong number of arguments for 'set' command" ++ CRLF).
Proof. apply (proj1 (string_commands_arity (ex_cmd_world ex_db1 [1%positive]))). discriminate. Defined.

Definition ex_latte_file : module_file := mk_module_file (Some 493) true (Some latte_onload).

Lemma ex_loadable : loadable ex_latte_file latte_onload.
Proof. split; [|split; reflexivity]. intros mode [= <-]. reflexivity. Qed.

Lemma module_load_latte_correct_witness :
  exists server' id1 id2, module_load ex_latte_file ex_server = Done (0, server')
    /\ lookup_cmd server' (bs "SET") = Some (module_cmd (bs "set") set_flags id1 (Some latte_module) set_command_func)
    /\ lookup_cmd server' (bs "gEt") = Some (module_cmd (bs "get") CMD_READONLY id2 (Some latte_module) get_command_func).
Proof.
  destruct (module_load_latte_correct ex_latte_file ex_server) as (s & id1 & id2 & E & Hl & _).
  - exact ex_loadable.
  - exact ex_cm_ids_ok.
  - reflexivity.
  - reflexivity.
  - reflexivity.
  - reflexivity.
  - exists s, id1, id2. split; [exact E|]. split; (rewrite Hl; [reflexivity|apply (bool_decide_unpack _); vm_compute; exact I]).
Defined.

(** A server where GET is already a command. *)
Definition ex_get_taken : redis_server_t :=
  set_command_manager ex_server
    (snd (command_manager_register_command (mk_cm dict_new raxNew 0) (builtin (bs "get") ping_proc 2 (bs "admin")))).

Lemma module_load_failure_leaves_set_witness :
  exists server' id1, module_load ex_latte_file ex_get_taken = Done (-1, server')
    /\ lookup_cmd server' (bs "set") = Some (module_cmd (bs "set") set_flags id1 (Some latte_module) set_command_func).
Proof.
  destruct (module_load_failure_leaves_set ex_latte_file ex_get_taken (builtin (bs "get") ping_proc 2 (bs "admin")))
    as (s & id1 & E & Hl & _).
  - exact ex_loadable.
  - destruct (register_ok (mk_cm dict_new raxNew 0) (builtin (bs "get") ping_proc 2 (bs "admin")) ex_cm_ids_ok)
      as (id & r & cm & Er & Hok & _); [reflexivity|]. unfold ex_get_taken. rewrite Er. exact Hok.
  - reflexivity.
  - reflexivity.
  - reflexivity.
  - reflexivity.
  - exists s, id1. split; [exact E|exact Hl].
Defined.
