(* ===== verification/Commands.v ===== *)
(** * The built-in commands (src/commands/command_manager.c, info.c, module.c)

    QUIT, PING, INFO and EXPIRE, and the table of procedures behind
    [redis_command_t.proc]. *)

From S2P Require Import Prelude LatteC LatteCModel KvStore State Db Reply Protocol CommandManager Module StringModule.

Section Commands.
Context {L : LatteC}.

Definition quit_command : M unit :=
  sh ← gets w_shared;
  _ ← add_reply (sh_ok sh);
  mod_latte_client (fun lc => set_cflags lc (Z.lor (cflags lc) CLIENT_CLOSE_AFTER_REPLY)).

(** The 16 bytes of the literal, its terminator included. *)
Definition info_command : M unit := reply_proto (bs "Not implemented" ++ [NUL]).

(** [add_reply_error_format(c, "wrong number of arguments for '%s' command", c->cmd->name)] *)
Definition wrong_arity : M unit :=
  c ← get_client;
  cmd ← lift (deref (cmd c));
  add_reply_error_format (bs "wrong number of arguments for '" ++ cstr (cmd_name cmd) ++ bs "' command").

Definition ping_command : M unit :=
  c ← get_client;
  if 2 <? argc c then wrong_arity
  else if argc c =? 1 then sh ← gets w_shared; add_reply (sh_pong sh)
  else l ← lift (argv_at c 1); add_reply_bulk l.

(** The bytes of an argument, [argv[i]->ptr] with [string_object_len(argv[i])]. *)
Definition arg_bytes (i : Z) : M bytes :=
  c ← get_client;
  l ← lift (argv_at c i);
  o ← read_obj l;
  raw ← lift (ptr_bytes o);
  mret (take (Z.to_nat (string_object_len o)) raw).

Definition expire_command : M unit :=
  db ← current_db;
  c ← get_client;
  if negb (argc c =? 3) then wrong_arity
  else
    arg ← arg_bytes 2;
    match string2ll arg with
    | None => add_reply_error (bs "ERR value is not an integer or out of range")
    | Some seconds =>
        if seconds <? 0 then add_reply_error (bs "ERR value is not an integer or out of range")
        else
          key ← arg_bytes 1;
          let key_sds := sds_new_len key (zlen key) in
          de ← lift (kv_store_dict_find (keys db) (get_kv_store_index_for_key key_sds) key_sds);
          match de with
          | None => add_reply_long_long_with_prefix 0 ":"%char
          | Some _ =>
              now ← read_mstime;
              ms ← lift (checked_i64 (seconds * 1000));
              when_ms ← lift (checked_i64 (now + ms));
              '(r, db) ← lift (db_set_expire db key_sds when_ms);
              _ ← put_current_db db;
              if negb (r =? 0) then add_reply_error (bs "ERR could not set expire")
              else add_reply_long_long_with_prefix 1 ":"%char
          end
    end.

(** [rc->cmd->proc(rc)]: the procedures that can stand in a command. *)
Definition run_proc (files : bytes -> module_file) (p : redis_command_proc_func) : M unit :=
  match p with
  | quit_proc => quit_command
  | module_proc => module_command files
  | ping_proc => ping_command
  | info_proc => info_command
  | expire_proc => expire_command
  | dispatcher_proc => redis_module_command_dispatcher module_func_body
  end.

(** ** Lemmas *)

Context {LL : LatteCLaws}.

Lemma arg_bytes_ok {B} (w : world) (i : Z) (l : loc) (s : bytes) (k : bytes -> M B) :
  argv_at (w_client w) i = Done l -> holds (w_heap w) l s -> (x ← arg_bytes i; k x) w = k s w.
Proof.
  intros Ha (o & Ho & Hs). apply bind_Done. unfold arg_bytes. mstep.
  rewrite (bind_lift _ _ _ _ Ha), (bind_read_obj _ _ _ _ Ho).
  rewrite (bind_lift _ _ _ s) by (unfold ptr_bytes; by rewrite (proj2 (proj2 Hs))).
  rewrite (string_object_len_spec _ _ Hs). unfold zlen. by rewrite Nat2Z.id, firstn_all.
Qed.

Lemma wrong_arity_ok (w : world) (c : redis_command_t) :
  cmd (w_client w) = Some c -> Forall line_byte (cmd_name c) -> cstr (cmd_name c) = cmd_name c ->
  writes wrong_arity w (error_line (bs "wrong number of arguments for '" ++ cmd_name c ++ bs "' command")).
Proof.
  intros Hc Hl Hn. unfold wrong_arity. eapply writes_read; [reflexivity|].
  eapply writes_read; [unfold lift; by rewrite Hc|]. rewrite Hn.
  destruct (writes_error_format w (bs "wrong number of arguments for '" ++ cmd_name c ++ bs "' command"))
    as (s & _ & Hs & Hw). rewrite Hs in Hw; [done|].
  rewrite !Forall_app. split; [|split; [done|]]; repeat constructor; done.
Qed.

Lemma writes_error (w : world) (msg : bytes) :
  NUL ∉ msg -> writes (add_reply_error msg) w (error_line msg).
Proof. intros Hn. unfold add_reply_error. rewrite cstr_line by done. apply writes_error_length. Qed.

(** The replies of the simple commands: PING answers PONG or echoes its
    argument, QUIT answers OK and asks for the connection to be closed after
    the reply, INFO sends the 16 bytes of a C literal (with its NUL, and
    without any RESP framing); too many arguments to PING give an error. *)
Lemma simple_commands_reply (w : world) :
  shared_ok (w_shared w) (w_heap w) ->
  (argc (w_client w) = 1 -> writes ping_command w (bs "+PONG" ++ CRLF))
  /\ (forall l s, argc (w_client w) = 2 -> argv_at (w_client w) 1 = Done l -> holds (w_heap w) l s ->
       zlen s < 2 ^ 63 -> writes ping_command w (bulk_reply s))
  /\ (forall c, 2 < argc (w_client w) -> cmd (w_client w) = Some c -> cmd_name c = bs "ping" ->
       writes ping_command w (bs "-ERR wrong number of arguments for 'ping' command" ++ CRLF))
  /\ writes info_command w (bs "Not implemented" ++ [NUL])
  /\ (exists lc, quit_command w = Done (tt, with_output w
         (set_cflags lc (Z.lor (cflags (client (w_client w))) CLIENT_CLOSE_AFTER_REPLY)))
       /\ out_step (client (w_client w)) lc (bs "+OK" ++ CRLF)).
Proof.
  intros Hsh. unfold ping_command. split_and!.
  - intros Hc. eapply writes_read; [reflexivity|]. rewrite Hc. simpl. eapply writes_read; [reflexivity|].
    apply writes_add_reply, Hsh.
  - intros l s Hc Ha Hl Hz. eapply writes_read; [reflexivity|]. rewrite Hc. simpl.
    eapply writes_read; [unfold lift; by rewrite Ha|]. by apply writes_bulk.
  - intros c Hc Hcmd Hn. eapply writes_read; [reflexivity|].
    rewrite (proj2 (Z.ltb_lt 2 (argc (w_client w))) Hc). pose proof (wrong_arity_ok w c Hcmd) as H.
    rewrite Hn in H. apply H; [repeat constructor; done|done].
  - apply writes_proto.
  - unfold quit_command. mstep. destruct (writes_add_reply w (sh_ok (w_shared w)) (bs "+OK" ++ CRLF)) as (lc & E & Ho).
    { apply Hsh. }
    exists lc. rewrite (bind_Done _ _ _ _ _ E). split; [|done].
    unfold mod_latte_client, mod_client, modify, with_output. cbn. by rewrite (out_cflags _ _ _ Ho).
Qed.

(** ** EXPIRE *)

Definition int_reply (n : Z) : bytes := ":"%char :: dec n ++ CRLF.

Section Expire.
Context (w : world) (db : redis_db_t) (k arg : bytes) (lk la : loc).
Hypothesis Hat : db_at w db.
Hypothesis Hwf : db_wf db.
Hypothesis Hroom : db_room db.
Hypothesis Hsh : shared_ok (w_shared w) (w_heap w).
Hypothesis Hargc : argc (w_client w) = 3.
Hypothesis Hk : argv_at (w_client w) 1 = Done lk /\ holds (w_heap w) lk k.
Hypothesis Ha : argv_at (w_client w) 2 = Done la /\ holds (w_heap w) la arg.

(** The state after the time was recorded. *)
Definition expire_post (db' : redis_db_t) : world := with_db (set_w_ticks w (S (w_ticks w))) db'.

Lemma expire_find (n : Z) :
  string2ll arg = Some n -> 0 <= n ->
  exists de, kv_store_dict_find (keys db) 0 k = Done de
    /\ (keys_map db !! k = None <-> de = None)
    /\ expire_command w = (match de with
          | None => add_reply_long_long_with_prefix 0 ":"%char
          | Some _ =>
              now ← read_mstime;
              ms ← lift (checked_i64 (n * 1000));
              when_ms ← lift (checked_i64 (now + ms));
              '(r, db) ← lift (db_set_expire db k when_ms);
              _ ← put_current_db db;
              if negb (r =? 0) then add_reply_error (bs "ERR could not set expire")
              else add_reply_long_long_with_prefix 1 ":"%char
          end) w.
Proof.
  intros Hn H0. destruct (find_ok (keys db) 0 k (db_keys_wf _ Hwf)) as (de & E & Hde); [by apply kv_in_range_0, Hwf|].
  exists de. split; [done|]. split.
  { destruct de as [e|]; [|done]. destruct Hde as [_ (v & Hv & _)]. unfold keys_map. rewrite Hv. done. }
  unfold expire_command. rewrite (bind_current_db _ _ _ Hat). mstep. rewrite Hargc. simpl (negb (3 =? 3)). cbv iota.
  destruct Ha as [Ha1 Ha2], Hk as [Hk1 Hk2].
  rewrite (arg_bytes_ok _ _ _ _ _ Ha1 Ha2), Hn, (proj2 (Z.ltb_ge n 0)) by lia.
  rewrite (arg_bytes_ok _ _ _ _ _ Hk1 Hk2).
  rewrite sds_new_len_spec by (pose proof (zlen_nonneg k); lia). unfold zlen. rewrite Nat2Z.id, firstn_all.
  by rewrite (bind_lift _ _ _ _ E).
Qed.

Lemma expire_set (n : Z) (de : dict_entry_t) :
  0 <= n -> n * 1000 < 2 ^ 63 -> - 2 ^ 63 <= mstime (w_ticks w) + n * 1000 < 2 ^ 63 ->
  k ∈ dom (keys_map db) ->
  exists db' lc, db_wf db' /\ keys db' = keys db /\ grows_by 1 db db'
    /\ (now ← read_mstime;
        ms ← lift (checked_i64 (n * 1000));
        when_ms ← lift (checked_i64 (now + ms));
        '(r, db) ← lift (db_set_expire db k when_ms);
        _ ← put_current_db db;
        if negb (r =? 0) then add_reply_error (bs "ERR could not set expire")
        else add_reply_long_long_with_prefix 1 ":"%char) w = Done (tt, with_output (expire_post db') lc)
    /\ match expires_map db !! k with
       | None => expires_map db' = <[k := u64 (mstime (w_ticks w) + n * 1000)]> (expires_map db)
                 /\ out_step (client (w_client w)) lc (int_reply 1)
       | Some _ => db' = db
                 /\ out_step (client (w_client w)) lc (error_line (bs "ERR could not set expire"))
       end.
Proof.
  intros H0 Hms Hwhen Hdom. erewrite bind_Done by reflexivity.
  set (w1 := set_w_ticks w (S (w_ticks w))). assert (Hat1 : db_at w1 db) by exact Hat.
  rewrite (bind_lift _ _ _ (n * 1000)) by (unfold checked_i64; rewrite decide_True; [done|lia]).
  rewrite (bind_lift _ _ _ (mstime (w_ticks w) + n * 1000)) by (unfold checked_i64; rewrite decide_True; [done|lia]).
  destruct (expires_map db !! k) as [v|] eqn:Ee.
  - rewrite (bind_lift _ _ _ _ (db_set_expire_existing db k _ v Hwf Ee)). cbn iota beta.
    rewrite (bind_put_current_db _ _ _ _ Hat1). simpl (negb _). cbv iota.
    destruct (writes_error (expire_post db) (bs "ERR could not set expire")) as (lc & E & Ho); [by apply (bool_decide_unpack _)|].
    exists db, lc. split_and!; try done. split; lia.
  - destruct (db_set_expire_new db k (mstime (w_ticks w) + n * 1000) Hwf Hroom Hdom Ee) as (db' & E & Hwf' & Hkeys & Hem & Hgr).
    rewrite (bind_lift _ _ _ _ E). cbn iota beta.
    rewrite (bind_put_current_db _ _ _ _ Hat1). simpl (negb _). cbv iota.
    destruct (writes_long_long (expire_post db') 1 ":"%char) as (lc & E2 & Ho); [exact Hsh|lia|].
    exists db', lc. done.
Qed.

Lemma expire_command_ok :
  let now := mstime (w_ticks w) in
  match string2ll arg with
  | None => writes expire_command w (error_line (bs "ERR value is not an integer or out of range"))
  | Some n =>
      if n <? 0 then writes expire_command w (error_line (bs "ERR value is not an integer or out of range"))
      else match keys_map db !! k with
      | None => writes expire_command w (int_reply 0)
      | Some _ =>
          (2 ^ 63 <= n * 1000 -> expire_command w = Fault SignedOverflow)
          /\ (n * 1000 < 2 ^ 63 -> - 2 ^ 63 <= now + n * 1000 < 2 ^ 63 ->
              exists db' lc, db_wf db' /\ keys db' = keys db /\ grows_by 1 db db'
              /\ expire_command w = Done (tt, with_output (expire_post db') lc)
              /\ match expires_map db !! k with
                 | None => expires_map db' = <[k := u64 (now + n * 1000)]> (expires_map db)
                           /\ out_step (client (w_client w)) lc (int_reply 1)
                 | Some _ => db' = db
                           /\ out_step (client (w_client w)) lc (error_line (bs "ERR could not set expire"))
                 end)
      end
  end.
Proof.
  cbn zeta. destruct Ha as [Ha1 Ha2].
  destruct (string2ll arg) as [n|] eqn:En.
  - destruct (Z.ltb_spec n 0) as [Hneg|Hpos].
    + destruct (writes_error w (bs "ERR value is not an integer or out of range")) as (lc & E & Ho);
        [by apply (bool_decide_unpack _)|].
      exists lc. split; [|done]. rewrite <- E. unfold expire_command. rewrite (bind_current_db _ _ _ Hat). mstep.
      rewrite Hargc. simpl (negb (3 =? 3)). cbv iota.
      rewrite (arg_bytes_ok _ _ _ _ _ Ha1 Ha2), En, (proj2 (Z.ltb_lt n 0)) by lia. done.
    + destruct (expire_find n En Hpos) as (de & _ & Hde & E).
      destruct (keys_map db !! k) as [l|] eqn:El.
      * destruct de as [e|]; [|by pose proof (proj2 Hde eq_refl)]. rewrite E. split.
        -- intros Hov. erewrite bind_Done by reflexivity. unfold checked_i64.
           rewrite decide_False by lia. done.
        -- intros Hms Hwhen. apply (expire_set n e Hpos Hms Hwhen). by apply elem_of_dom.
      * rewrite (proj1 Hde eq_refl) in E.
        destruct (writes_long_long w 0 ":"%char Hsh) as (lc & E2 & Ho); [lia|].
        exists lc. by rewrite E.
  - destruct (writes_error w (bs "ERR value is not an integer or out of range")) as (lc & E & Ho);
      [by apply (bool_decide_unpack _)|].
    exists lc. split; [|done]. rewrite <- E. unfold expire_command. rewrite (bind_current_db _ _ _ Hat). mstep.
    rewrite Hargc. simpl (negb (3 =? 3)). cbv iota. by rewrite (arg_bytes_ok _ _ _ _ _ Ha1 Ha2), En.
Qed.

(** C25: EXPIRE rejects a time that is not a non-negative integer, answers 0 for
    a missing key, records the time [now + 1000 * seconds] of a key that has
    none and answers 1, and refuses a key that already has a time; nothing
    else of the database changes.  A number of seconds whose milliseconds do
    not fit 64 bits is a signed overflow. *)
Theorem expire_command_correct :
  let now := mstime (w_ticks w) in
  match string2ll arg with
  | None => writes expire_command w (error_line (bs "ERR value is not an integer or out of range"))
  | Some n =>
      if n <? 0 then writes expire_command w (error_line (bs "ERR value is not an integer or out of range"))
      else match keys_map db !! k with
      | None => writes expire_command w (int_reply 0)
      | Some _ =>
          (2 ^ 63 <= n * 1000 -> expire_command w = Fault SignedOverflow)
          /\ (n * 1000 < 2 ^ 63 -> - 2 ^ 63 <= now + n * 1000 < 2 ^ 63 ->
              exists db' lc, db_wf db' /\ keys db' = keys db /\ grows_by 1 db db'
              /\ expire_command w = Done (tt, with_output (expire_post db') lc)
              /\ match expires_map db !! k with
                 | None => expires_map db' = <[k := u64 (now + n * 1000)]> (expires_map db)
                           /\ out_step (client (w_client w)) lc (int_reply 1)
                 | Some _ => db' = db
                           /\ out_step (client (w_client w)) lc (error_line (bs "ERR could not set expire"))
                 end)
      end
  end.
Proof. exact expire_command_ok. Qed.
End Expire.

End Commands.

(** ** Concrete runs *)

#[local] Existing Instance model_latte.
#[local] Existing Instance model_latte_laws.

Lemma simple_commands_reply_witness :
  writes ping_command ex_world (bs "+PONG" ++ CRLF).
Proof. apply (simple_commands_reply ex_world ex_shared_ok). reflexivity. Defined.

(** "expire foo 100" on a database where foo has no time. *)
Definition ex_expire_heap : heap := <[1000%positive := ex_str "100"]> (w_heap ex_world).

Definition ex_expire_world : world :=
  set_w_heap (ex_cmd_world ex_db1 [1%positive; 1%positive; 1000%positive]) ex_expire_heap.

Lemma ex_expire_sub : w_heap ex_world ⊆ ex_expire_heap.
Proof. apply insert_subseteq. vm_compute. reflexivity. Qed.

Lemma ex_expire_key : argv_at (w_client ex_expire_world) 1 = Done 1%positive /\ holds (w_heap ex_expire_world) 1 (bs "foo").
Proof.
  split; [reflexivity|]. change (w_heap ex_expire_world) with ex_expire_heap.
  apply (holds_mono _ _ _ _ ex_expire_sub), ex_heap_obj. vm_compute. reflexivity.
Qed.

Lemma ex_expire_arg : argv_at (w_client ex_expire_world) 2 = Done 1000%positive /\ holds (w_heap ex_expire_world) 1000 (bs "100").
Proof.
  split; [reflexivity|]. change (w_heap ex_expire_world) with ex_expire_heap.
  exists (ex_str "100"). split; [apply lookup_insert_eq|apply ex_str_obj].
Qed.

Lemma ex_expire_shared : shared_ok (w_shared ex_expire_world) (w_heap ex_expire_world).
Proof. apply (shared_ok_mono _ _ _ ex_expire_sub), ex_shared_ok. Qed.

Lemma ex_expire_facts : string2ll (bs "100") = Some 100 /\ keys_map ex_db1 !! bs "foo" = Some 2%positive
  /\ expires_map ex_db1 !! bs "foo" = None /\ - 2 ^ 63 <= mstime (w_ticks ex_expire_world) + 100 * 1000 < 2 ^ 63.
Proof. vm_compute. repeat split; congruence. Qed.

Lemma ex_expire_db_at : db_at ex_expire_world ex_db1.
Proof. split; reflexivity. Qed.

Lemma expire_command_correct_witness :
  exists db' lc, expire_command ex_expire_world = Done (tt, with_output (expire_post ex_expire_world db') lc)
    /\ expires_map db' = <[bs "foo" := u64 (mstime (w_ticks ex_expire_world) + 100 * 1000)]> (expires_map ex_db1)
    /\ out_step (client (w_client ex_expire_world)) lc (int_reply 1).
Proof.
  pose proof (expire_command_correct ex_expire_world ex_db1 (bs "foo") (bs "100") 1 1000
    ex_expire_db_at ex_db1_wf ex_db1_room ex_expire_shared eq_refl ex_expire_key ex_expire_arg) as H.
  destruct ex_expire_facts as (E1 & E2 & E3 & E4). cbv zeta in H. rewrite E1, E2, E3 in H.
  change (100 <? 0) with false in H. cbv iota in H.
  destruct (proj2 H eq_refl E4) as (db' & lc & _ & _ & _ & E & Hx & Ho).
  exists db', lc. split; [exact E|]. split; [exact Hx|exact Ho].
Defined.
