(* ===== verification/Client.v ===== *)
(** * Clients (src/redis/client.c, second part)

    Execution of a request, the loop over the query buffer, creation and
    closing of clients. *)

From S2P Require Import Prelude LatteC LatteCModel KvStore State Db Reply Protocol CommandManager Module.
From S2P Require Import StringModule Commands.

Section Client.
Context {L : LatteC}.
(** The file system as the module loader sees it. *)
Context (files : bytes -> module_file).

(** ** Executing a request *)

Definition call : M unit :=
  c ← get_client;
  cmd ← lift (deref (cmd c));
  run_proc files (proc cmd).

Definition process_command : M Z :=
  c ← get_client;
  server ← get_server;
  l ← lift (argv_at c 0);
  o ← read_obj l;
  let cmdlen := string_object_len o in
  raw ← lift (ptr_bytes o);
  let cmd_sds := sds_new_len raw cmdlen in
  let found := command_manager_lookup (command_manager server) cmd_sds in
  _ ← mod_client (fun c => set_cmd (set_lastcmd c found) found);
  match found with
  | None => mret (-1)
  | Some _ => _ ← call; mret 0
  end.

Definition set_current (o : option cid) : M unit :=
  server ← get_server; put_server (set_current_client server o).

Definition process_command_and_reset_client : M Z :=
  c ← get_client;
  server ← get_server;
  let old_client := current_client server in
  _ ← set_current (Some (client_id c));
  r ← process_command;
  _ ← (if r =? 0 then command_processed else mret tt);
  server ← get_server;
  let deadclient := bool_decide (current_client server = None) in
  _ ← set_current old_client;
  mret (if deadclient then -1 else 0).

(** ** The loop over the query buffer *)

(** How an iteration ends. *)
Inductive input_step :=
  | NextIteration
  | Break
  | Return (r : Z).

(** One iteration; [lf] is the indeterminate [linefeed_chars] of
    [process_inline_buffer]. *)
Definition input_iteration (lf : Z) : M input_step :=
  c ← get_client;
  if has_flag (cflags (client c)) (Z.lor CLIENT_CLOSE_AFTER_REPLY CLIENT_CLOSE_ASAP) then mret Break
  else
    _ ← (if req_type c =? 0 then
           p ← lift (qb_str (client c));
           mod_client (fun c => set_req_type c
             (if bool_decide (first_byte p = "*"%char) then PROTO_REQ_MULTIBULK else PROTO_REQ_INLINE))
         else mret tt);
    c ← get_client;
    r ← (if req_type c =? PROTO_REQ_INLINE then process_inline_buffer lf
         else if req_type c =? PROTO_REQ_MULTIBULK then process_multibulk_buffer
         else fail (Panicked "Unknown request type"));
    if negb (r =? 0) then mret Break
    else
      c ← get_client;
      if argc c =? 0 then _ ← reset_redis_client; mret NextIteration
      else
        r ← process_command_and_reset_client;
        mret (if r =? -1 then Return 0 else NextIteration).

(** [garbage] supplies the indeterminate value of each iteration. *)
Fixpoint input_loop (garbage : nat -> Z) (fuel : nat) : M Z :=
  match fuel with
  | O => fail OutOfFuel
  | S fuel =>
      c ← get_client;
      let finish := (c ← get_client; mret (if negb (qb_pos (client c) =? 0) then 1 else 0)) in
      if qb_pos (client c) <? sds_len (querybuf (client c)) then
        s ← input_iteration (garbage fuel);
        match s with
        | NextIteration => input_loop garbage fuel
        | Break => finish
        | Return r => mret r
        end
      else finish
  end.

Definition redis_process_input_buffer (garbage : nat -> Z) (fuel : nat) : M Z := input_loop garbage fuel.

Definition redis_client_handle (garbage : nat -> Z) (fuel : nat) (nread : Z) : M Z :=
  c ← get_client;
  _ ← (if has_flag (flag c) CLIENT_MASTER then
         off ← lift (checked_i64 (read_reploff c + nread));
         mod_client (fun c => set_read_reploff c off)
       else mret tt);
  redis_process_input_buffer garbage fuel.

(** ** Creating and closing clients *)

(** [zmalloc] does not clear: the members that are not assigned keep whatever
    the block [mem] contained. *)
Definition create_redis_client (mem : redis_client_t) : redis_client_t :=
  let lc := client mem in
  mk_client
    (mk_latte_client (querybuf lc) (qb_pos lc) 0 (reply lc) (conn lc) 0 0 (client_priv lc))
    (client_id mem) (flag mem) (req_type mem) (read_reploff mem) (argc mem) (argv mem) (cmd mem) (lastcmd mem)
    (argv_len_sum mem) (-1) 0 (reply_bytes mem) (repl_ack_time mem) 0 0 0 0.

Definition free_redis_client : M unit :=
  c ← get_client;
  if has_flag (cflags (client c)) CLIENT_CLOSE_ASAP then
    server ← get_server;
    let l := clients_to_close server in
    let ln := list_search_key l (client_id c) in
    _ ← lift (latte_assert (bool_decide (is_Some ln)) "ln != NULL");
    ln ← lift (deref ln);
    put_server (set_clients_to_close server (fst (list_del_node (fun _ (u : unit) => u) l ln tt)))
  else mret tt.

Definition free_redis_client_async : M unit :=
  c ← get_client;
  if has_flag (cflags (client c)) CLIENT_CLOSE_ASAP || has_flag (flag c) CLIENT_LUA then mret tt
  else
    _ ← mod_latte_client (fun lc => set_cflags lc (Z.lor (cflags lc) CLIENT_CLOSE_ASAP));
    server ← get_server;
    put_server (set_clients_to_close server (list_add_node_tail (clients_to_close server) (client_id c))).

(** src/redis/client_reply.c; the limits are never exceeded, since
    [check_client_output_buffer_limits] is a stub. *)
Definition check_client_output_buffer_limits (c : redis_client_t) : bool := false.

Definition close_client_on_output_buffer_limit_reached (async : bool) : M Z :=
  c ← get_client;
  if negb (conn (client c)) then mret 0
  else
    _ ← lift (latte_assert (reply_bytes c <? 2 ^ 64 - 1 - 1024 * 64) "c->reply_bytes < SIZE_MAX-(1024*64)");
    if (reply_bytes c =? 0) || has_flag (cflags (client c)) CLIENT_CLOSE_ASAP then mret 0
    else if check_client_output_buffer_limits c then
      _ ← (if async then free_redis_client_async else free_redis_client);
      mret 1
    else mret 0.

Context {LL : LatteCLaws}.

Lemma parsing_server (D : gset loc) (w : world) (s : redis_server_t) (n : nat) (bl : Z) (u : bytes) (acc : list bytes) :
  parsing D w n bl u acc -> parsing D (set_w_server w s) n bl u acc.
Proof. intros []. split; assumption. Qed.

Lemma bind_set_current {B} (o : option cid) (k : unit -> M B) (w : world) :
  (x ← set_current o; k x) w = k tt (set_w_server w (set_current_client (w_server w) o)).
Proof. reflexivity. Qed.

(** ** A whole request in the query buffer *)

(** The arguments of a request that has arrived are new objects. *)
Lemma request_parsed (w : world) (args : list bytes) (rest : bytes) :
  parsing ∅ w 0 (-1) (enc_request args ++ rest) [] -> parser_ctx w ->
  request_ok (proto_max_bulk_len (w_server w)) args ->
  exists w' ls cells, process_multibulk_buffer w = Done (0, w') /\ parse_frame w w' []
    /\ qb_ok (client (w_client w')) rest /\ multi_bulk_len (w_client w') = 0 /\ argc (w_client w') = zlen args
    /\ argv (w_client w') = Some (map Some ls ++ cells) /\ args_own (w_heap w') ls args
    /\ Forall (fun l => l ∉ dom (w_heap w)) ls.
Proof.
  intros Hp Hctx Hreq. set (D := dom (w_heap w)).
  assert (HpD : parsing D w 0 (-1) (enc_request args ++ rest) []).
  { destruct Hp. split; try done. simpl. lia. }
  destruct (multibulk_buffer_ok D w 0 (-1) _ [] HpD) as (ret & w' & E & Hpost); [|done|].
  { intros _. split_and!; [done..|]. by right. }
  pose proof (spec_parse_progress (proto_max_bulk_len (w_server w)) rest [] (proj2 Hctx) 0 (-1) [] args
    (enc_request args ++ rest) Hreq) as Hsp.
  rewrite app_nil_r in Hsp. specialize (Hsp (or_introl (conj eq_refl (conj eq_refl (conj eq_refl eq_refl))))).
  destruct (spec_parse _ _ _ _ _) as [n bl u acc|n u acc out|u acc]; simpl in Hsp, Hpost.
  - destruct Hsp as [_ Hsp]. pose proof (zlen_nonneg rest). change (zlen []) with 0 in Hsp. lia.
  - done.
  - destruct Hsp as [-> Hu]. rewrite app_nil_r in Hu. subst u. destruct Hpost as (-> & Hf & Hp').
    destruct (p_argv _ _ _ _ _ _ Hp') as (ls & cells & Ha & _ & Hown & Hfresh).
    { destruct Hreq as [[Hlen _] _]. unfold zlen in Hlen. lia. }
    exists w', ls, cells. destruct Hp'. done.
Qed.

Lemma has_flag_lor (x f : Z) : f <> 0 -> has_flag (Z.lor x f) f = true.
Proof.
  intros Hf. unfold has_flag. rewrite Z.land_comm, Z.land_lor_distr_r, Z.land_diag.
  destruct (Z.eqb_spec (Z.lor (Z.land f x) f) 0) as [E|]; [|done]. apply Z.lor_eq_0_iff in E. naive_solver.
Qed.

(** No flag asks for the connection to be closed. *)
Definition not_closing (c : redis_client_t) : Prop :=
  has_flag (cflags (client c)) (Z.lor CLIENT_CLOSE_AFTER_REPLY CLIENT_CLOSE_ASAP) = false.

(** The first part of an iteration, on a client between two requests. *)
Lemma input_request_parsed (lf : Z) (w : world) (args : list bytes) (rest : bytes) :
  parsing ∅ w 0 (-1) (enc_request args ++ rest) [] -> parser_ctx w ->
  request_ok (proto_max_bulk_len (w_server w)) args -> req_type (w_client w) = 0 -> not_closing (w_client w) ->
  exists w' ls cells,
    input_iteration lf w = (r ← process_command_and_reset_client;
      mret (if r =? -1 then Return 0 else NextIteration)) w'
    /\ parse_frame (set_w_client w (set_req_type (w_client w) PROTO_REQ_MULTIBULK)) w' []
    /\ qb_ok (client (w_client w')) rest /\ multi_bulk_len (w_client w') = 0 /\ argc (w_client w') = zlen args
    /\ argv (w_client w') = Some (map Some ls ++ cells) /\ args_own (w_heap w') ls args
    /\ Forall (fun l => l ∉ dom (w_heap w)) ls.
Proof.
  intros Hp Hctx Hreq Hrt Hncl. set (w1 := set_w_client w (set_req_type (w_client w) PROTO_REQ_MULTIBULK)).
  assert (Hp1 : parsing ∅ w1 0 (-1) (enc_request args ++ rest) []) by (destruct Hp; split; assumption).
  destruct (request_parsed w1 args rest Hp1 Hctx Hreq) as (w' & ls & cells & E & Hf & Hq & Hmb & Hc & Ha & Ho & Hd).
  exists w', ls, cells. split; [|done].
  unfold input_iteration. mstep. rewrite Hncl, Hrt. simpl (0 =? 0). cbv iota.
  erewrite bind_Done.
  2:{ rewrite (bind_lift _ _ _ (enc_request args ++ rest)) by (apply qb_str_ok; apply Hp).
      rewrite bool_decide_true by done. reflexivity. }
  fold w1. mstep. cbn [req_type w_client w1 set_w_client set_req_type].
  rewrite (bind_Done _ _ _ _ _ E). simpl (negb _). cbv iota. mstep. rewrite Hc.
  destruct Hreq as [[Hlen _] _]. replace (zlen args =? 0) with false by lia. reflexivity.
Qed.

(** ** A request nobody understands *)

Lemma unknown_request (w : world) (l0 : loc) (o0 : latte_object_t) (name : bytes) :
  argv_at (w_client w) 0 = Done l0 -> w_heap w !! l0 = Some o0 -> string_obj o0 name ->
  lookup_cmd (w_server w) name = None ->
  process_command_and_reset_client w
  = Done (0, set_w_client w (set_cmd (set_lastcmd (w_client w) None) None)).
Proof.
  intros Ha Ho Hs Hl. unfold process_command_and_reset_client. mstep. rewrite bind_set_current.
  set (w1 := set_w_server w _).
  assert (E : process_command w1 = Done (-1, set_w_client w1 (set_cmd (set_lastcmd (w_client w1) None) None))).
  { unfold process_command. mstep. rewrite (bind_lift _ _ _ l0) by exact Ha. rewrite (bind_read_obj l0 o0) by exact Ho.
    rewrite (bind_lift _ _ _ name) by (unfold ptr_bytes; by rewrite (proj2 (proj2 Hs))).
    rewrite (string_object_len_spec _ _ Hs), sds_new_len_spec by (pose proof (zlen_nonneg name); lia).
    unfold zlen. rewrite Nat2Z.id, firstn_all. unfold lookup_cmd in Hl.
    change (command_manager (w_server w1)) with (command_manager (w_server w)). rewrite Hl. reflexivity. }
  rewrite (bind_Done _ _ _ _ _ E). simpl (-1 =? 0). cbv iota. mstep.
  rewrite bool_decide_false by done. rewrite bind_set_current. cbv iota.
  unfold w1. by destruct w as [h sh [] c t].
Qed.

Lemma input_unknown (lf : Z) (w : world) (args : list bytes) (rest : bytes) :
  parsing ∅ w 0 (-1) (enc_request args ++ rest) [] -> parser_ctx w ->
  request_ok (proto_max_bulk_len (w_server w)) args -> req_type (w_client w) = 0 -> not_closing (w_client w) ->
  lookup_cmd (w_server w) (default [] (head args)) = None ->
  exists w', input_iteration lf w = Done (NextIteration, w') /\ output w' = output w
    /\ argc (w_client w') = zlen args /\ multi_bulk_len (w_client w') = 0
    /\ req_type (w_client w') = PROTO_REQ_MULTIBULK /\ qb_ok (client (w_client w')) rest
    /\ not_closing (w_client w').
Proof.
  intros Hp Hctx Hreq Hrt Hncl Hl.
  destruct (input_request_parsed lf w args rest Hp Hctx Hreq Hrt Hncl)
    as (w1 & ls & cells & E & Hf & Hq & Hmb & Hc & Ha & [_ Ho] & _).
  destruct args as [|a args]; [destruct Hreq as [[H _] _]; done|].
  inversion Ho as [|l ? ls' ? (o & Hol & Hso & _) _]; subst ls.
  assert (Hargv : argv_at (w_client w1) 0 = Done l) by (unfold argv_at; by rewrite Ha).
  assert (Hl1 : lookup_cmd (w_server w1) a = None) by (rewrite (pf_server _ _ _ Hf); exact Hl).
  eexists. rewrite E, (bind_Done _ _ _ _ _ (unknown_request w1 l o a Hargv Hol Hso Hl1)).
  split; [reflexivity|]. split_and!; try done.
  - transitivity (output w1); [done|]. rewrite (pf_out _ _ _ Hf). unfold output. cbn.
    rewrite append_last_nil; auto with latte.
  - cbn. by rewrite (pf_req_type _ _ _ Hf).
  - unfold not_closing. cbn. rewrite (pf_cflags _ _ _ Hf). exact Hncl.
Qed.

(** The next byte after such a request fails the assertion of the parser. *)
Lemma input_wedged (garbage : nat -> Z) (fuel : nat) (w : world) (rest : bytes) :
  argc (w_client w) <> 0 -> multi_bulk_len (w_client w) = 0 -> req_type (w_client w) = PROTO_REQ_MULTIBULK ->
  qb_ok (client (w_client w)) rest -> rest <> [] -> not_closing (w_client w) ->
  input_loop garbage (S fuel) w = Fault (AssertFailed "client argc ! = 0").
Proof.
  intros Hc Hmb Hrt (Hpos & _ & Hu) Hne Hncl. simpl input_loop. mstep.
  pose proof (zlen_unparsed _ _ Hpos Hu) as Hz. rewrite sds_len_spec.
  assert (0 < zlen rest) by (destruct rest; [done|]; rewrite zlen_cons; pose proof (zlen_nonneg rest); lia).
  replace (_ <? _) with true by lia. apply bind_Fault.
  unfold input_iteration. mstep. rewrite Hncl, Hrt. simpl (PROTO_REQ_MULTIBULK =? 0). cbv iota. mstep.
  rewrite Hrt. simpl (_ =? _). cbv iota. apply bind_Fault.
  unfold process_multibulk_buffer. mstep. rewrite Hmb. simpl (0 =? 0). cbv iota. apply bind_Fault.
  unfold lift, latte_assert. by rewrite (proj2 (Z.eqb_neq _ _) Hc).
Qed.

(** ** An empty line *)

Lemma set_w_client_same (w : world) : set_w_client w (w_client w) = w.
Proof. by destruct w. Qed.

Lemma inline_empty_ok (lf : Z) (w : world) (rest : bytes) :
  qb_ok (client (w_client w)) (LF :: rest) -> 0 <= lf <= 1 + zlen rest ->
  exists w', process_inline_buffer lf w = Done (0, w') /\ argc (w_client w') = 0
    /\ qb_ok (client (w_client w')) (drop (Z.to_nat lf) (LF :: rest))
    /\ cflags (client (w_client w')) = cflags (client (w_client w)) /\ output w' = output w.
Proof.
  intros (Hpos & Hsize & Hu) Hlf. pose proof (zlen_unparsed _ _ Hpos Hu) as Hz. rewrite zlen_cons in Hz.
  unfold process_inline_buffer. mstep. rewrite (bind_lift _ _ _ (LF :: rest)) by (by apply qb_str_ok).
  change (strchr (LF :: rest) LF) with (Some 0%nat). cbv iota. simpl (0 <? 0)%nat. rewrite andb_false_l. cbv iota.
  rewrite sds_new_len_spec by (rewrite zlen_cons; pose proof (zlen_nonneg rest); lia).
  change (take _ _) with (join_sp []). rewrite sds_split_args_plain by done. mstep.
  set (slave := (Z.of_nat 0 =? 0) && _).
  set (c := if slave then set_repl_ack_time (w_client w) (unixtime (w_server w)) else w_client w).
  assert (Hc : client c = client (w_client w)) by (unfold c; by destruct slave).
  rewrite (bind_Done _ _ w (set_w_client w c) tt)
    by (unfold c; destruct slave; [reflexivity|by rewrite set_w_client_same]).
  simpl (negb _). rewrite andb_false_l. cbv iota. mstep. rewrite (bool_decide_false ([] <> @nil bytes)) by congruence. mstep.
  eexists. split; [reflexivity|]. split; [reflexivity|].
  unfold output. cbn [w_client client set_w_client set_client set_argc cflags set_qb_pos]. rewrite Hc. split; [|done].
  assert (Hpos' : u64 (qb_pos (client (w_client w)) + u64 (Z.of_nat 0 + lf)) = qb_pos (client (w_client w)) + lf).
  { rewrite (wrap_u_small 64 (Z.of_nat 0 + lf)), wrap_u_small; lia. }
  unfold qb_ok. cbn [qb_pos querybuf set_qb_pos]. rewrite Hpos'. destruct (skip_unparsed _ _ Hpos Hu lf) as [H1 H2].
  { rewrite zlen_cons. lia. }
  done.
Qed.

Lemma input_empty_line (lf : Z) (w : world) (rest : bytes) :
  qb_ok (client (w_client w)) (LF :: rest) -> 0 <= lf <= 1 + zlen rest ->
  req_type (w_client w) = 0 -> not_closing (w_client w) ->
  exists w', input_iteration lf w = Done (NextIteration, w')
    /\ qb_ok (client (w_client w')) (drop (Z.to_nat lf) (LF :: rest))
    /\ req_type (w_client w') = 0 /\ not_closing (w_client w') /\ output w' = output w.
Proof.
  intros Hq Hlf Hrt Hncl.
  destruct (inline_empty_ok lf (set_w_client w (set_req_type (w_client w) PROTO_REQ_INLINE)) rest Hq Hlf)
    as (w1 & E & Hc & Hq1 & Hf & Ho).
  destruct (reset_ok w1 [] [] _ Hq1 Hc) as (h & Er & _); [done|constructor|by intros ? ?%elem_of_nil|].
  eexists. split_and!.
  - unfold input_iteration. mstep. rewrite Hncl, Hrt. simpl (0 =? 0). cbv iota.
    erewrite bind_Done.
    2:{ destruct Hq as (Hpos & Hsize & Hu). rewrite (bind_lift _ _ _ (LF :: rest)) by (by apply qb_str_ok).
        rewrite bool_decide_false by done. reflexivity. }
    mstep. cbn [req_type w_client set_w_client set_req_type].
    rewrite (bind_Done _ _ _ _ _ E). simpl (negb _). cbv iota. mstep. rewrite Hc. simpl (0 =? 0). cbv iota.
    rewrite (bind_Done _ _ _ _ _ Er). reflexivity.
  - exact Hq1.
  - done.
  - unfold not_closing. cbn. rewrite Hf. exact Hncl.
  - exact Ho.
Qed.

Lemma input_stuck (fuel : nat) (w : world) (rest : bytes) :
  qb_ok (client (w_client w)) (LF :: rest) -> req_type (w_client w) = 0 -> not_closing (w_client w) ->
  input_loop (fun _ => 0) fuel w = Fault OutOfFuel.
Proof.
  revert w. induction fuel as [|fuel IH]; [done|]. intros w Hq Hrt Hncl. simpl input_loop. mstep.
  pose proof Hq as (Hpos & _ & Hu). pose proof (zlen_unparsed _ _ Hpos Hu) as Hz. rewrite zlen_cons in Hz.
  pose proof (zlen_nonneg rest). rewrite sds_len_spec. replace (_ <? _) with true by lia.
  destruct (input_empty_line 0 w rest Hq ltac:(lia) Hrt Hncl) as (w' & E & Hq' & Hrt' & Hncl' & _).
  rewrite (bind_Done _ _ _ _ _ E). by apply IH.
Qed.

(** ** The theorems *)

(** An unknown command wedges its client: the request is parsed, nothing is
    sent to the client, and since the client is not reset the next byte it has
    sent, whatever it is, fails the assertion of the parser, which stops the
    server. *)
Lemma unknown_command_wedges_client (garbage : nat -> Z) (w : world) (args : list bytes) (rest : bytes) (fuel : nat) :
  parsing ∅ w 0 (-1) (enc_request args ++ rest) [] -> parser_ctx w ->
  request_ok (proto_max_bulk_len (w_server w)) args -> req_type (w_client w) = 0 -> not_closing (w_client w) ->
  lookup_cmd (w_server w) (default [] (head args)) = None ->
  (exists w', input_iteration (garbage (S fuel)) w = Done (NextIteration, w') /\ output w' = output w
     /\ argc (w_client w') = zlen args /\ qb_ok (client (w_client w')) rest)
  /\ (rest <> [] ->
      redis_process_input_buffer garbage (S (S fuel)) w = Fault (AssertFailed "client argc ! = 0")).
Proof.
  intros Hp Hctx Hreq Hrt Hncl Hl.
  destruct (input_unknown (garbage (S fuel)) w args rest Hp Hctx Hreq Hrt Hncl Hl) as (w' & E & Ho & Hc & Hmb & Hrt' & Hq & Hncl').
  split; [by exists w'|]. intros Hne. unfold redis_process_input_buffer.
  change (input_loop garbage (S (S fuel)) w) with
    ((c ← get_client;
      let finish := (c ← get_client; mret (if negb (qb_pos (client c) =? 0) then 1 else 0)) in
      if qb_pos (client c) <? sds_len (querybuf (client c)) then
        s ← input_iteration (garbage (S fuel));
        match s with NextIteration => input_loop garbage (S fuel) | Break => finish | Return r => mret r end
      else finish) w).
  mstep. destruct Hp as [_ Hpos _ Hu _ _ _ _ _]. pose proof (zlen_unparsed _ _ Hpos Hu) as Hz.
  rewrite enc_request_app, zlen_cons in Hz. match type of Hz with 1 + zlen ?x = _ => pose proof (zlen_nonneg x) end.
  rewrite sds_len_spec. replace (_ <? _) with true by lia. rewrite (bind_Done _ _ _ _ _ E).
  destruct Hreq as [[Hlen _] _]. apply (input_wedged garbage fuel w' rest); try done. lia.
Qed.

(** C26: an empty line sent inline to a client between two requests is consumed when the uninitialised local
    [linefeed_chars] happens to hold 1, and nothing is sent; when it holds 0 every
    iteration leaves the client where it was: no amount of fuel is enough, the
    loop never ends and the server serves nobody any more. *)
Theorem inline_empty_line (w : world) (rest : bytes) :
  qb_ok (client (w_client w)) (LF :: rest) -> req_type (w_client w) = 0 -> not_closing (w_client w) ->
  (exists w', input_iteration 1 w = Done (NextIteration, w') /\ qb_ok (client (w_client w')) rest
     /\ output w' = output w)
  /\ (forall fuel, redis_process_input_buffer (fun _ => 0) fuel w = Fault OutOfFuel).
Proof.
  intros Hq Hrt Hncl. split; [|intros fuel; by apply (input_stuck fuel w rest)].
  pose proof (zlen_nonneg rest).
  destruct (input_empty_line 1 w rest Hq ltac:(lia) Hrt Hncl) as (w' & E & Hq' & _ & _ & Ho). by exists w'.
Qed.

(** Closing a client later: the first request to close it marks the client
    and appends it to the list of clients to close, a second one changes
    nothing; freeing it takes exactly that entry out again, and freeing a
    marked client that is not in the list fails the assertion. *)
Lemma async_close_correct (w : world) :
  has_flag (cflags (client (w_client w))) CLIENT_CLOSE_ASAP = false ->
  has_flag (flag (w_client w)) CLIENT_LUA = false ->
  client_id (w_client w) ∉ list_elems (clients_to_close (w_server w)) ->
  exists w1 w2, free_redis_client_async w = Done (tt, w1)
    /\ list_elems (clients_to_close (w_server w1))
       = list_elems (clients_to_close (w_server w)) ++ [client_id (w_client w)]
    /\ free_redis_client_async w1 = Done (tt, w1)
    /\ free_redis_client w1 = Done (tt, w2)
    /\ list_elems (clients_to_close (w_server w2)) = list_elems (clients_to_close (w_server w))
    /\ free_redis_client w2 = Fault (AssertFailed "ln != NULL").
Proof.
  intros Ha Hl Hni. set (w1 := set_w_server (set_w_client w (set_client (w_client w)
    (set_cflags (client (w_client w)) (Z.lor (cflags (client (w_client w))) CLIENT_CLOSE_ASAP))))
    (set_clients_to_close (w_server w) (list_add_node_tail (clients_to_close (w_server w)) (client_id (w_client w))))).
  assert (Hf : has_flag (cflags (client (w_client w1))) CLIENT_CLOSE_ASAP = true) by (apply has_flag_lor, close_flags_nonzero).
  assert (He : list_elems (clients_to_close (w_server w1))
    = list_elems (clients_to_close (w_server w)) ++ [client_id (w_client w)]) by apply list_add_node_tail_elems.
  set (es := list_elems (clients_to_close (w_server w))) in *. set (c := client_id (w_client w)) in *.
  pose proof (list_search_key_spec _ (clients_to_close (w_server w1)) c) as Hs.
  destruct (list_search_key _ c) as [ln|] eqn:Els; [|rewrite He in Hs; set_solver].
  destruct Hs as (i & Hi & Hx & _). rewrite He in Hx.
  assert (Hi' : i = length es).
  { apply lookup_snoc_Some in Hx as [[_ Hx]|[-> _]]; [|done]. destruct Hni. by eapply list_elem_of_lookup_2. }
  subst i. destruct (list_del_node_spec _ _ (fun _ (u : unit) => u) _ _ _ c tt Hi) as (l' & Ed & Hl'); [by rewrite He|].
  rewrite He, (delete_middle es [] c), app_nil_r in Hl'.
  set (w2 := set_w_server w1 (set_clients_to_close (w_server w1) l')).
  exists w1, w2. split_and!; try done.
  - unfold free_redis_client_async. mstep. by rewrite Ha, Hl.
  - unfold free_redis_client_async. mstep. by rewrite Hf.
  - unfold free_redis_client. mstep. rewrite Hf. mstep. change (client_id (w_client w1)) with c. rewrite Els.
    rewrite (bind_lift _ _ _ tt) by done. rewrite (bind_lift _ _ _ ln) by done. by rewrite Ed.
  - unfold free_redis_client. mstep. change (w_client w2) with (w_client w1). rewrite Hf. mstep.
    change (client_id (w_client w1)) with c. pose proof (list_search_key_spec _ (clients_to_close (w_server w2)) c) as Hs2.
    destruct (list_search_key (clients_to_close (w_server w2)) c) as [ln2|] eqn:E2; [|done].
    destruct Hs2 as (j & _ & Hj & _). destruct Hni. change (clients_to_close (w_server w2)) with l' in Hj.
    rewrite Hl' in Hj. by eapply list_elem_of_lookup_2.
Qed.

End Client.

(** ** Concrete runs *)

#[local] Existing Instance model_latte.
#[local] Existing Instance model_latte_laws.

(** A server after start: the command table, the string module, an empty database. *)
Definition ex_boot_server : redis_server_t :=
  set_dbs match module_load ex_latte_file (set_command_manager ex_server ex_cm) with
          | Done (_, s) => s
          | Fault _ => ex_server
          end [ex_db0].

Definition ex_boot_world (buf : bytes) : world := set_w_server (ex_idle buf []) ex_boot_server.

Definition ex_files (path : bytes) : module_file := ex_latte_file.

Lemma ex_boot_limit : proto_max_bulk_len ex_boot_server = proto_max_bulk_len ex_server /\ hz ex_boot_server = hz ex_server
  /\ dbs ex_boot_server = [ex_db0].
Proof. split; [vm_compute; reflexivity|]. split; [vm_compute; reflexivity|]. apply eq_refl. Qed.

Lemma ex_boot_parsing (buf : bytes) : zlen buf < 2 ^ 62 -> parsing ∅ (ex_boot_world buf) 0 (-1) buf [].
Proof. intros H. exact (parsing_server ∅ (ex_idle buf []) ex_boot_server 0 (-1) buf [] (ex_idle_parsing buf H)). Qed.

Lemma ex_boot_ctx (buf : bytes) : parser_ctx (ex_boot_world buf).
Proof.
  split; [reflexivity|]. unfold ex_boot_world. cbn [w_server set_w_server]. rewrite (proj1 ex_boot_limit). reflexivity.
Qed.

Definition ex_unknown : bytes := enc_request [bs "FOO"; bs "bar"].

Lemma unknown_command_wedges_client_witness :
  redis_process_input_buffer ex_files (fun _ => 0) 2 (ex_boot_world (ex_unknown ++ bs "*"))
  = Fault (AssertFailed "client argc ! = 0").
Proof.
  apply (unknown_command_wedges_client ex_files (fun _ => 0) (ex_boot_world (ex_unknown ++ bs "*"))
    [bs "FOO"; bs "bar"] (bs "*") 0).
  - apply ex_boot_parsing. reflexivity.
  - apply ex_boot_ctx.
  - cbn [w_server set_w_server ex_boot_world]. rewrite (proj1 ex_boot_limit).
    repeat constructor; vm_compute; discriminate.
  - reflexivity.
  - reflexivity.
  - vm_compute. reflexivity.
  - discriminate.
Defined.

Lemma inline_empty_line_witness :
  redis_process_input_buffer ex_files (fun _ => 0) 1000 (ex_idle (LF :: bs "PING") []) = Fault OutOfFuel.
Proof.
  apply (inline_empty_line ex_files (ex_idle (LF :: bs "PING") []) (bs "PING")).
  - split; [split; vm_compute; discriminate|]. split; reflexivity.
  - reflexivity.
  - reflexivity.
Defined.

Lemma async_close_correct_witness :
  exists w1 w2, free_redis_client_async (ex_idle [] []) = Done (tt, w1)
    /\ free_redis_client w1 = Done (tt, w2) /\ free_redis_client w2 = Fault (AssertFailed "ln != NULL").
Proof.
  destruct (async_close_correct (ex_idle [] [])) as (w1 & w2 & E1 & _ & _ & E2 & _ & E3).
  - reflexivity.
  - reflexivity.
  - by apply (bool_decide_unpack _).
  - exists w1, w2. split; [exact E1|]. split; [exact E2|exact E3].
Defined.
