(* ===== verification/Service.v ===== *)
(** * The service: any number of clients on one server

    The parser, the command table, the commands, the databases and the replies
    put together.  The specification is a sequential machine on a map of
    strings with times to live; the requests of concurrent clients, whose bytes
    arrive in pieces in any order, are served as that machine serves them one
    after the other. *)

From S2P Require Import Prelude LatteC LatteCModel KvStore State Db Reply Protocol CommandManager Module.
From S2P Require Import StringModule Commands Client.

(** ** Specification: the sequential server *)
Section Spec.
Context {L : LatteC}.

Inductive verb := VSet | VGet | VPing | VExpire | VInfo | VQuit | VModule.

#[export] Instance verb_eq_dec : EqDecision verb.
Proof. solve_decision. Defined.

Definition verb_named (n : bytes) : option verb :=
  if strcasecmp_eq n (bs "set") then Some VSet
  else if strcasecmp_eq n (bs "get") then Some VGet
  else if strcasecmp_eq n (bs "ping") then Some VPing
  else if strcasecmp_eq n (bs "expire") then Some VExpire
  else if strcasecmp_eq n (bs "info") then Some VInfo
  else if strcasecmp_eq n (bs "quit") then Some VQuit
  else if strcasecmp_eq n (bs "module") then Some VModule
  else None.

Definition verb_of (args : list bytes) : option verb := verb_named (default [] (head args)).

Definition quits (args : list bytes) : bool := bool_decide (verb_of args = Some VQuit).

(** Values, times to live, and the number of clock readings so far. *)
Record sstate := mk_sstate {
  s_vals : gmap bytes bytes;
  s_times : gmap bytes Z;
  s_reads : nat
}.

Definition due (s : sstate) (k : bytes) : bool :=
  match s_times s !! k with
  | Some t => negb (mstime (s_reads s) <? t)
  | None => false
  end.

(** Looking a key up reads the clock; a key whose time has come goes. *)
Definition touch (s : sstate) (k : bytes) : sstate :=
  if due s k then mk_sstate (delete k (s_vals s)) (delete k (s_times s)) (S (s_reads s))
  else mk_sstate (s_vals s) (s_times s) (S (s_reads s)).

(** A new key reads the clock once more. *)
Definition spec_set (s : sstate) (k v : bytes) : sstate :=
  let s1 := touch s k in
  mk_sstate (<[k := v]> (s_vals s1)) (s_times s1)
    match s_vals s1 !! k with Some _ => s_reads s1 | None => S (s_reads s1) end.

Definition spec_expire (s : sstate) (k : bytes) (n : Z) : sstate * bytes :=
  match s_vals s !! k with
  | None => (s, int_reply 0)
  | Some _ =>
      match s_times s !! k with
      | Some _ => (mk_sstate (s_vals s) (s_times s) (S (s_reads s)), error_line (bs "ERR could not set expire"))
      | None => (mk_sstate (s_vals s) (<[k := mstime (s_reads s) + n * 1000]> (s_times s)) (S (s_reads s)), int_reply 1)
      end
  end.

Definition arity_error (name : bytes) : bytes :=
  error_line (bs "wrong number of arguments for '" ++ name ++ bs "' command").

Definition load_error : bytes := error_line (bs "Error loading the extension. Please check the server logs.").

Definition spec_exec (s : sstate) (args : list bytes) : sstate * bytes :=
  match verb_of args, args with
  | Some VSet, [_; k; v] => (spec_set s k v, bs "+OK" ++ CRLF)
  | Some VSet, _ => (s, bs "+ERR wrong number of arguments for 'set' command" ++ CRLF)
  | Some VGet, [_; k] =>
      let s1 := touch s k in
      (s1, match s_vals s1 !! k with Some v => bulk_reply v | None => bs "*-1" ++ CRLF end)
  | Some VGet, _ => (s, bs "+ERR wrong number of arguments for 'get' command" ++ CRLF)
  | Some VPing, [_] => (s, bs "+PONG" ++ CRLF)
  | Some VPing, [_; m] => (s, bulk_reply m)
  | Some VPing, _ => (s, arity_error (bs "ping"))
  | Some VExpire, [_; k; n] =>
      match string2ll n with
      | Some n => if n <? 0 then (s, error_line (bs "ERR value is not an integer or out of range"))
                  else spec_expire s k n
      | None => (s, error_line (bs "ERR value is not an integer or out of range"))
      end
  | Some VExpire, _ => (s, arity_error (bs "expire"))
  | Some VInfo, _ => (s, bs "Not implemented" ++ [NUL])
  | Some VQuit, _ => (s, bs "+OK" ++ CRLF)
  | Some VModule, [n; sub] => (s, if strcasecmp_eq sub (bs "help") then help_reply n module_help else [])
  | Some VModule, _ :: sub :: _ => (s, if strcasecmp_eq sub (bs "load") then load_error else [])
  | Some VModule, _ => (s, [])
  | None, _ => (s, [])
  end.

(** What a connection makes the server do: execute a request, report a protocol
    error, fail the assertion of the parser (there are bytes behind an unknown
    command), or read a line that is no multibulk request. *)
Inductive item :=
  | Execute (args : list bytes)
  | Complain (out : bytes)
  | Abort
  | Inline.

Definition spec_item (s : sstate) (it : item) : sstate * bytes :=
  match it with
  | Execute args => spec_exec s args
  | Complain out => (s, out)
  | Abort | Inline => (s, [])
  end.

(** Items tagged with the client that caused them, in order. *)
Fixpoint spec_run {A} (s : sstate) (tr : list (A * item)) : sstate * list (A * bytes) :=
  match tr with
  | [] => (s, [])
  | (i, it) :: tr =>
      let '(s, out) := spec_item s it in
      let '(s, outs) := spec_run s tr in
      (s, (i, out) :: outs)
  end.

(** The file system as the loader of modules sees it. *)
Context (files : bytes -> module_file).

(** A file that is no module: it is not executable, or it cannot be opened, or
    it has no [redis_module_onload]. *)
Definition unloadable (f : module_file) : bool :=
  match mf_mode f with Some mode => negb (has_flag mode EXEC_BITS) | None => false end
  || negb (mf_opens f) || match mf_onload f with Some _ => false | None => true end.

(** The requests the specification speaks about: any command, but of MODULE not
    the word alone and no LOAD of a file that is a module; the name of the
    command and a key to be set have no NUL, a time to live fits the clock. *)
Definition command_valid (args : list bytes) : Prop :=
  (NUL ∉ default [] (head args)) /\
  match verb_of args, args with
  | Some VSet, [_; k; _] => cstr k = k
  | Some VExpire, [_; _; n] => forall z, string2ll n = Some z -> z * 1000 < 2 ^ 62
  | Some VModule, [_] => False
  | Some VModule, _ :: sub :: path :: _ => strcasecmp_eq sub (bs "load") = true -> unloadable (files (cstr path)) = true
  | _, _ => True
  end.

(** Within the limits of the protocol. *)
Definition request_valid (limit : Z) (args : list bytes) : Prop := request_ok limit args /\ command_valid args.

(** The scope of the theorems on sessions, the event loop and connections.  What is
    left out is not harmless: an inline request depends on an uninitialised
    variable ([process_inline_buffer_args] in Protocol.v, [inline_empty_line] in
    Client.v), MODULE alone reads out of bounds ([module_alone_faults] below), a
    key with a NUL is not found again, a large time to live overflows, and a
    module changes the command table (StringModule.v). *)
Definition item_ok (it : item) : Prop :=
  match it with
  | Execute args => command_valid args
  | Complain _ | Abort => True
  | Inline => False
  end.

(** Does an item stop the server? *)
Definition aborts (it : item) : bool := match it with Abort => true | _ => false end.

(** ** The representation of the state in the server *)

Definition shared_loc (sh : shared_objects_t) (l : loc) : Prop :=
  l = sh_crlf sh \/ l = sh_ok sh \/ l = sh_pong sh \/ l = sh_wrongtypeerr sh
  \/ exists j, 0 <= j < OBJ_SHARED_BULKHDR_LEN
      /\ (array_get (sh_mbulkhdr sh) j = Done l \/ array_get (sh_bulkhdr sh) j = Done l).

Definition key_loc (db : redis_db_t) (l : loc) : Prop := exists k, keys_map db !! k = Some l.

(** Each key has its own object in the store, with one reference; times are
    kept as 64-bit words. *)
Record serving (w : world) (db : redis_db_t) (s : sstate) : Prop := {
  sv_db : dbs (w_server w) !! 0%nat = Some db;
  sv_wf : db_wf db;
  sv_reads : w_ticks w = s_reads s;
  sv_times : expires_map db = u64 <$> s_times s;
  sv_range : map_Forall (fun _ t => 0 <= t < 2 ^ 63) (s_times s);
  sv_shared : shared_ok (w_shared w) (w_heap w);
  sv_hz : 0 < hz (w_server w);
  sv_dom : forall k, keys_map db !! k = None <-> s_vals s !! k = None;
  sv_vals : forall k l v, keys_map db !! k = Some l -> s_vals s !! k = Some v ->
    exists o, w_heap w !! l = Some o /\ string_obj o v /\ refcount o = 1;
  sv_keys : forall l, key_loc db l -> ~ shared_loc (w_shared w) l;
  sv_inj : forall k k' l, keys_map db !! k = Some l -> keys_map db !! k' = Some l -> k = k';
  sv_len : map_Forall (fun _ v => zlen v < 2 ^ 63) (s_vals s)
}.

(** What has to be registered for a verb. *)
Definition serves (c : redis_command_t) (v : verb) : Prop :=
  match v with
  | VSet => proc c = dispatcher_proc /\ exists m, get_keys_proc c = Some (mk_proxy m set_command_func)
  | VGet => proc c = dispatcher_proc /\ exists m, get_keys_proc c = Some (mk_proxy m get_command_func)
  | VPing => proc c = ping_proc /\ cmd_name c = bs "ping"
  | VExpire => proc c = expire_proc /\ cmd_name c = bs "expire"
  | VInfo => proc c = info_proc
  | VQuit => proc c = quit_proc
  | VModule => proc c = module_proc
  end.

Record commands_ok (server : redis_server_t) : Prop := {
  cm_known : forall n v, NUL ∉ n -> verb_named n = Some v -> exists c, lookup_cmd server n = Some c /\ serves c v;
  cm_unknown : forall n, NUL ∉ n -> verb_named n = None -> lookup_cmd server n = None
}.

Lemma commands_ok_same (a b : redis_server_t) :
  command_manager b = command_manager a -> commands_ok a -> commands_ok b.
Proof. intros E [Hk Hu]. split; unfold lookup_cmd; rewrite E; [exact Hk|exact Hu]. Qed.

(** A parsed request: the objects at [ls] hold the arguments, and nothing else
    refers to them. *)
Record parsed (w : world) (db : redis_db_t) (ls : list loc) (args : list bytes) : Prop := {
  pa_argv : exists cells, argv (w_client w) = Some (map Some ls ++ cells);
  pa_argc : argc (w_client w) = zlen args;
  pa_own : args_own (w_heap w) ls args;
  pa_dbid : dbid (w_client w) = 0;
  pa_keys : forall l, key_loc db l -> l ∉ ls;
  pa_shared : forall l, shared_loc (w_shared w) l -> l ∉ ls
}.

(** A command body has run, with a state [s'], a database [db'] and a store [h]
    as its results: an argument that became a value has two references, no
    object but the arguments and the values has changed. *)
Record executed (w : world) (db : redis_db_t) (ls : list loc) (s' : sstate)
    (db' : redis_db_t) (h : heap) : Prop := {
  ex_wf : db_wf db';
  ex_times : expires_map db' = u64 <$> s_times s';
  ex_range : map_Forall (fun _ t => 0 <= t < 2 ^ 63) (s_times s');
  ex_grows : grows_by 1 db db';
  ex_dom : forall k, keys_map db' !! k = None <-> s_vals s' !! k = None;
  ex_vals : forall k l v, keys_map db' !! k = Some l -> s_vals s' !! k = Some v ->
    exists o, h !! l = Some o /\ string_obj o v /\ refcount o = (if bool_decide (l ∈ ls) then 2 else 1);
  ex_keys : forall l, key_loc db' l -> key_loc db l \/ l ∈ ls;
  ex_inj : forall k k' l, keys_map db' !! k = Some l -> keys_map db' !! k' = Some l -> k = k';
  ex_args : forall l, l ∈ ls -> exists o, h !! l = Some o /\ droppable o;
  ex_frame : forall l, ~ key_loc db l -> l ∉ ls -> h !! l = w_heap w !! l;
  (** no new objects; a value that is no value any more is freed *)
  ex_new : forall l, is_Some (h !! l) -> is_Some (w_heap w !! l);
  ex_gone : forall l, key_loc db l -> ~ key_loc db' l -> h !! l = None;
  ex_free : forall l o, l ∈ ls -> ~ key_loc db' l -> h !! l = Some o -> refcount o = 1;
  ex_len : map_Forall (fun _ v => zlen v < 2 ^ 63) (s_vals s')
}.

(** QUIT asks for the connection to be closed after the reply. *)
Definition closing_if (b : bool) (lc : latte_client_t client_priv_t) : latte_client_t client_priv_t :=
  if b then set_cflags lc (Z.lor (cflags lc) CLIENT_CLOSE_AFTER_REPLY) else lc.

End Spec.

(** ** The commands implement the specification *)
Section Execution.
Context {L : LatteC} {LL : LatteCLaws}.
Context (files : bytes -> module_file).

Lemma serving_db_at (w : world) (db : redis_db_t) (s : sstate) :
  serving w db s -> dbid (w_client w) = 0 -> db_at w db.
Proof. intros [] Hd. unfold db_at. rewrite Hd. done. Qed.

Lemma shared_loc_in (sh : shared_objects_t) (h : heap) (l : loc) :
  shared_ok sh h -> shared_loc sh l -> l ∈ dom h.
Proof.
  intros Hok Hl. apply elem_of_dom. assert (Hh : forall l s, holds h l s -> is_Some (h !! l)).
  { intros l' s (o & Ho & _). eauto. }
  destruct Hok, Hl as [->|[->|[->|[->|(j & Hj & [Hl|Hl])]]]]; eauto.
  - destruct (ok_mbulkhdr j Hj) as (l' & E & ?). rewrite Hl in E. injection E as ->. eauto.
  - destruct (ok_bulkhdr j Hj) as (l' & E & ?). rewrite Hl in E. injection E as ->. eauto.
Qed.

Lemma shared_ok_frame (sh : shared_objects_t) (h h' : heap) :
  shared_ok sh h -> (forall l, shared_loc sh l -> h' !! l = h !! l) -> shared_ok sh h'.
Proof.
  intros [] Hf. assert (Hh : forall l s, shared_loc sh l -> holds h l s -> holds h' l s).
  { intros l s Hl (o & Ho & ?). exists o. by rewrite Hf. }
  unfold shared_loc in Hh. split; try (apply Hh; [naive_solver|done]); intros j Hj.
  - destruct (ok_mbulkhdr j Hj) as (l & E & ?). exists l. split; [done|]. apply Hh; [|done]. naive_solver.
  - destruct (ok_bulkhdr j Hj) as (l & E & ?). exists l. split; [done|]. apply Hh; [|done]. naive_solver.
Qed.

(** A key of the database has a value in the state, and its object. *)
Lemma serving_key (w : world) (db : redis_db_t) (s : sstate) (k : bytes) (l : loc) :
  serving w db s -> keys_map db !! k = Some l ->
  exists v o, s_vals s !! k = Some v /\ w_heap w !! l = Some o /\ string_obj o v /\ refcount o = 1.
Proof.
  intros [] Hl. destruct (s_vals s !! k) as [v|] eqn:Hv.
  - destruct (sv_vals0 k l v Hl Hv) as (o & ?). by exists v, o.
  - apply sv_dom0 in Hv. congruence.
Qed.

Lemma parsed_arg (w : world) (db : redis_db_t) (ls : list loc) (args : list bytes) (i : nat) (a : bytes) :
  parsed w db ls args -> args !! i = Some a ->
  exists l o, ls !! i = Some l /\ argv_at (w_client w) (Z.of_nat i) = Done l
    /\ w_heap w !! l = Some o /\ string_obj o a /\ refcount o = 1.
Proof.
  intros [(cells & Ha) _ [_ Hf] _ _ _] Hi. destruct (Forall2_lookup_r _ _ _ _ _ Hf Hi) as (l & Hl & o & Ho & ?).
  exists l, o. split; [done|]. split; [|done]. unfold argv_at. rewrite Ha. cbn.
  rewrite (array_get_Done _ _ (Some l)); [done|lia|]. rewrite Nat2Z.id, lookup_app_l.
  - by rewrite list_lookup_fmap, Hl.
  - rewrite length_map. by eapply lookup_lt_Some.
Qed.

Lemma parsed_one (w : world) (db : redis_db_t) (ls : list loc) (args : list bytes) (l : loc) :
  parsed w db ls args -> l ∈ ls -> exists o, w_heap w !! l = Some o /\ refcount o = 1.
Proof.
  intros [_ _ [_ Hf] _ _ _] [i Hi]%list_elem_of_lookup.
  destruct (Forall2_lookup_l _ _ _ _ _ Hf Hi) as (a & _ & o & Ho & _ & Hr). by exists o.
Qed.

Lemma parsed_droppable (w : world) (db : redis_db_t) (ls : list loc) (args : list bytes) (l : loc) :
  parsed w db ls args -> l ∈ ls -> exists o, w_heap w !! l = Some o /\ droppable o.
Proof. intros Hp Hl. destruct (parsed_one _ _ _ _ _ Hp Hl) as (o & ? & ?). exists o. split; [done|by left]. Qed.

(** Commands that leave keys and values alone. *)
Lemma executed_same (w : world) (db db' : redis_db_t) (ls : list loc) (args : list bytes) (s s' : sstate) :
  serving w db s -> parsed w db ls args -> db_wf db' -> keys_map db' = keys_map db -> grows_by 1 db db' ->
  s_vals s' = s_vals s -> expires_map db' = u64 <$> s_times s' ->
  map_Forall (fun _ t => 0 <= t < 2 ^ 63) (s_times s') -> executed w db ls s' db' (w_heap w).
Proof.
  intros Hs Hp Hwf Hk Hg Ev Ht Hrg. pose proof Hs as []. pose proof Hp as [].
  split; rewrite ?Hk, ?Ev; try done.
  - intros k l v Hl Hv. destruct (sv_vals0 k l v Hl Hv) as (o & Ho & Hso & Hr).
    exists o. rewrite bool_decide_false by (apply pa_keys0; by exists k). done.
  - intros l Hl. left. unfold key_loc in *. by rewrite Hk in Hl.
  - intros l Hl. by eapply parsed_droppable.
  - intros l Hl Hn. destruct Hn. unfold key_loc in *. by rewrite Hk.
  - intros l o Hl _ Ho. destruct (parsed_one _ _ _ _ _ Hp Hl) as (o' & ? & ?). congruence.
Qed.

Lemma executed_id (w : world) (db : redis_db_t) (ls : list loc) (args : list bytes) (s : sstate) :
  serving w db s -> parsed w db ls args -> executed w db ls s db (w_heap w).
Proof. intros Hs Hp. pose proof Hs as []. eapply executed_same; try done. split; lia. Qed.

Lemma due_expired (w : world) (db : redis_db_t) (s : sstate) (k : bytes) :
  serving w db s -> expired db (mstime (w_ticks w)) k = due s k.
Proof.
  intros []. unfold expired, due. rewrite sv_times0, sv_reads0, lookup_fmap.
  destruct (s_times s !! k) as [t|] eqn:Et; [|done]. simpl. pose proof (sv_range0 k t Et).
  rewrite i64_u64; [done|]. simpl in *. lia.
Qed.

Lemma touch_reads (s : sstate) (k : bytes) : s_reads (touch s k) = S (s_reads s).
Proof. unfold touch. by destruct (due s k). Qed.

Lemma touch_times (s : sstate) (k : bytes) : s_times (touch s k) = if due s k then delete k (s_times s) else s_times s.
Proof. unfold touch. by destruct (due s k). Qed.

Lemma touch_range (s : sstate) (k : bytes) (P : bytes -> Z -> Prop) :
  map_Forall P (s_times s) -> map_Forall P (s_times (touch s k)).
Proof. intros H. rewrite touch_times. destruct (due s k); [by apply map_Forall_delete|done]. Qed.

(** Which keys a reader sees. *)
Lemma live_dom (w : world) (db : redis_db_t) (s : sstate) (k k' : bytes) :
  serving w db s ->
  live_keys db (mstime (w_ticks w)) k !! k' = None <-> s_vals (touch s k) !! k' = None.
Proof.
  intros Hs. unfold live_keys, touch. rewrite (due_expired _ _ _ _ Hs). destruct (due s k); simpl; [|apply Hs].
  rewrite !lookup_delete_None. destruct (sv_dom _ _ _ Hs k'). naive_solver.
Qed.

(** The effect of looking up a key. *)
Lemma executed_touch (w : world) (db db1 : redis_db_t) (ls : list loc) (args : list bytes) (s : sstate) (k : bytes) :
  serving w db s -> parsed w db ls args -> db_wf db1 -> grows_by 0 db db1 ->
  let now := mstime (w_ticks w) in
  keys_map db1 = live_keys db now k ->
  expires_map db1 = (if expired db now k then delete k (expires_map db) else expires_map db) ->
  executed w db ls (touch s k) db1 (live_heap db now k (w_heap w)).
Proof.
  intros Hs Hp Hwf Hg now Hk He. pose proof Hs as []. pose proof Hp as [].
  assert (Hdr : forall l', keys_map db !! k = Some l' -> exists o, w_heap w !! l' = Some o /\ droppable o).
  { intros l' Hl'. destruct (serving_key _ _ _ _ _ Hs Hl') as (v & o & _ & ? & _ & ?). exists o. split; [done|by left]. }
  pose proof (fun l => live_heap_lookup db now k (w_heap w) l Hdr) as Hh.
  pose proof (due_expired w db s k Hs) as Hd. fold now in Hd. rewrite Hd in *.
  assert (Hother : forall l, keys_map db !! k <> Some l -> live_heap db now k (w_heap w) !! l = w_heap w !! l).
  { intros l Hl. rewrite Hh, bool_decide_false by done. by rewrite andb_false_r. }
  assert (Hsub : forall k' l, keys_map db1 !! k' = Some l -> keys_map db !! k' = Some l).
  { intros k' l. rewrite Hk. unfold live_keys. destruct (expired db now k); [|done]. by intros [_ ?]%lookup_delete_Some. }
  split; try done.
  - rewrite He, sv_times0, touch_times. destruct (due s k); [by rewrite fmap_delete|done].
  - by apply touch_range.
  - destruct Hg. split; lia.
  - intros k'. rewrite Hk. by apply live_dom.
  - intros k' l v Hl Hv. pose proof (Hsub k' l Hl) as Hl0.
    assert (Hv0 : s_vals s !! k' = Some v).
    { revert Hv. unfold touch. destruct (due s k); [|done]. simpl. by intros [_ ?]%lookup_delete_Some. }
    destruct (sv_vals0 k' l v Hl0 Hv0) as (o & Ho & Hso & Hr). exists o.
    rewrite bool_decide_false by (apply pa_keys0; by exists k'). split_and!; try done.
    rewrite Hh. destruct (due s k) eqn:Edue; [|done]. rewrite bool_decide_false; [done|].
    intros Hkl. assert (k' = k) as -> by (by eapply sv_inj0). rewrite Hk in Hl. unfold live_keys in Hl.
    by rewrite Hd, lookup_delete_eq in Hl.
  - intros l (k' & Hl). left. exists k'. by apply Hsub.
  - intros k1 k2 l H1 H2. by eapply sv_inj0; apply Hsub.
  - intros l Hl. rewrite Hother; [by eapply parsed_droppable|]. intros Hkl. apply (pa_keys0 l); [by exists k|done].
  - intros l Hl _. apply Hother. intros Hkl. apply Hl. by exists k.
  - intros l. rewrite Hh. destruct (_ && _); [|done]. destruct (w_heap w !! l); [by eexists|by intros [? ?]].
  - intros l (k' & Hl) Hn. rewrite Hh. destruct (decide (k' = k)) as [->|Hne].
    + destruct (serving_key _ _ _ _ _ Hs Hl) as (v & o & _ & Ho & _ & Hr). rewrite bool_decide_true by done.
      destruct (due s k) eqn:Edue; simpl; [rewrite Ho; unfold dropped; simpl; by rewrite Hr|].
      destruct Hn. exists k. rewrite Hk. unfold live_keys. by rewrite Hd.
    + destruct Hn. exists k'. rewrite Hk. unfold live_keys. destruct (expired db now k); [|done]. by rewrite lookup_delete_ne.
  - intros l o Hl _. rewrite Hother by (intros Hkl; apply (pa_keys0 l); [by exists k|done]). intros Ho.
    destruct (parsed_one _ _ _ _ _ Hp Hl) as (o' & ? & ?). congruence.
  - unfold touch. destruct (due s k); [by apply map_Forall_delete|done].
Qed.

Lemma with_output_post (w : world) (db : redis_db_t) (lc : latte_client_t client_priv_t) :
  db_at w db -> with_output w lc = with_output (set_post w (w_ticks w) db (w_heap w)) lc.
Proof. intros Hat. unfold set_post. rewrite with_db_same by exact Hat. by destruct w. Qed.

(** What a body has to do for a request. *)
Definition performs (m : M unit) (w : world) (db : redis_db_t) (ls : list loc) (s : sstate) (args : list bytes) : Prop :=
  exists db' h n lc, m w = Done (tt, with_bytes (set_post w (s_reads (fst (spec_exec s args))) db' h) n (closing_if (quits args) lc))
    /\ replied (client (w_client w)) lc (snd (spec_exec s args))
    /\ executed w db ls (fst (spec_exec s args)) db' h.

(** Bodies that leave the counter of reply bytes alone. *)
Lemma performs_intro (m : M unit) (w : world) (db : redis_db_t) (ls : list loc) (s : sstate) (args : list bytes) :
  (exists db' h lc, m w = Done (tt, with_output (set_post w (s_reads (fst (spec_exec s args))) db' h) (closing_if (quits args) lc))
    /\ out_step (client (w_client w)) lc (snd (spec_exec s args))
    /\ executed w db ls (fst (spec_exec s args)) db' h) -> performs m w db ls s args.
Proof.
  intros (db' & h & lc & E & Ho & Hex). rewrite with_output_bytes in E. eexists db', h, _, lc.
  split; [exact E|]. split; [by apply out_replied|done].
Qed.

(** Bodies that only reply. *)
Lemma performs_writes (m : M unit) (w : world) (db : redis_db_t) (ls : list loc) (s : sstate) (args : list bytes) (out : bytes) :
  serving w db s -> parsed w db ls args -> quits args = false -> spec_exec s args = (s, out) -> writes m w out ->
  performs m w db ls s args.
Proof.
  intros Hs Hp Hq E (lc & Em & Ho). apply performs_intro. exists db, (w_heap w), lc. rewrite E, Hq. cbn [fst snd closing_if].
  split; [|split; [done|by eapply executed_id]].
  rewrite <- (sv_reads _ _ _ Hs), <- with_output_post; [done|]. eapply serving_db_at; [done|apply Hp].
Qed.

Lemma serving_shared_live (w : world) (db : redis_db_t) (s : sstate) (k : bytes) :
  serving w db s -> shared_ok (w_shared w) (live_heap db (mstime (w_ticks w)) k (w_heap w)).
Proof.
  intros Hs. eapply shared_ok_frame; [apply Hs|]. intros l Hl. rewrite live_heap_lookup.
  - rewrite bool_decide_false; [by rewrite andb_false_r|]. intros Hk. eapply (sv_keys _ _ _ Hs l); [by exists k|done].
  - intros l' Hl'. destruct (serving_key _ _ _ _ _ Hs Hl') as (v & o & _ & ? & _ & ?). exists o. split; [done|by left].
Qed.

Lemma exec_get (w : world) (db : redis_db_t) (ls : list loc) (s : sstate) (n k : bytes) :
  serving w db s -> parsed w db ls [n; k] -> verb_named n = Some VGet ->
  performs (_ ← get_command; mret tt) w db ls s [n; k].
Proof.
  intros Hs Hp Hn. destruct (parsed_arg _ _ _ _ 1 k Hp eq_refl) as (lk & ok & _ & Hak & Hok & Hko & _).
  assert (Hat : db_at w db) by (eapply serving_db_at; [done|apply Hp]).
  pose proof (due_expired w db s k Hs) as Hd. set (now := mstime (w_ticks w)) in *.
  assert (Hsp : spec_exec s [n; k] = (touch s k, match s_vals (touch s k) !! k with
    | Some v => bulk_reply v | None => bs "*-1" ++ CRLF end)) by (unfold spec_exec, verb_of; simpl; by rewrite Hn).
  pose proof (executed_touch w db) as Hex.
  assert (Hval : value_ok (live_heap db now k (w_heap w)) (live_keys db now k !! k)
    /\ snd (get_reply (live_heap db now k (w_heap w)) (live_keys db now k !! k)) = snd (spec_exec s [n; k])).
  { rewrite Hsp. unfold live_keys, live_heap, touch. rewrite Hd. destruct (due s k); simpl.
    - rewrite !lookup_delete_eq. split; [by intros l|done].
    - destruct (keys_map db !! k) as [l|] eqn:El.
      + destruct (serving_key _ _ _ _ _ Hs El) as (v & o & Hv & Ho & Hso & _). rewrite Hv. split.
        * intros l' [= <-]. exists o. split; [done|]. intros _. exists v. split; [done|]. by apply (sv_len _ _ _ Hs k).
        * unfold get_reply. simpl. rewrite Ho. destruct Hso as (-> & _ & ->). by rewrite Z.eqb_refl.
      + rewrite (proj1 (sv_dom _ _ _ Hs k) El). split; [by intros l|done]. }
  destruct Hval as [Hval Hrep].
  destruct (get_command_ok w lk k db (pa_argc _ _ _ _ Hp) Hak) as (db' & lc & E & Hwf' & Hkm & Hem & Hgr & Ho);
    [by exists ok|done|apply Hs|by eapply serving_shared_live|done|].
  apply performs_intro. exists db', (live_heap db now k (w_heap w)), lc.
  replace (quits [n; k]) with false by (unfold quits, verb_of; simpl; by rewrite Hn). split.
  - rewrite (bind_Done _ _ _ _ _ E), Hsp. cbn [fst]. rewrite touch_reads, <- (sv_reads _ _ _ Hs). reflexivity.
  - split; [by rewrite <- Hrep|]. rewrite Hsp. cbn [fst]. by eapply executed_touch.
Qed.

Lemma string_obj_count (o : latte_object_t) (v : bytes) (n m : Z) :
  string_obj o v -> string_obj (set_lru (set_refcount o n) m) v.
Proof. intros (? & He & ?). split_and!; try done. rewrite <- He. by apply sds_encoded_encoding. Qed.

Lemma counted_one : counted 1 /\ counted (2 - 1).
Proof. unfold counted. destruct special_refcounts. lia. Qed.

Lemma spec_set_vals (s : sstate) (k v : bytes) : s_vals (spec_set s k v) = <[k := v]> (s_vals s).
Proof. unfold spec_set, touch. destruct (due s k); [|done]. apply insert_delete_eq. Qed.

(** The three arguments of SET and the values of the keys are different objects. *)
Lemma set_args_ok (w : world) (db : redis_db_t) (ls : list loc) (s : sstate) (n k v : bytes) :
  serving w db s -> parsed w db ls [n; k; v] -> cstr k = k ->
  exists l0 lk lv ov, ls = [l0; lk; lv] /\ (lv ∉ [l0; lk]) /\ set_args w db lk lv k ov
    /\ string_obj ov v /\ refcount ov = 1.
Proof.
  intros Hs Hp Hnul.
  destruct (parsed_arg _ _ _ _ 0 _ Hp eq_refl) as (l0 & o0 & Hl0 & _ & Ho0 & _ & Hr0).
  destruct (parsed_arg _ _ _ _ 1 _ Hp eq_refl) as (lk & ok & Hlk & Hak & Hok & Hsk & Hrk).
  destruct (parsed_arg _ _ _ _ 2 _ Hp eq_refl) as (lv & ov & Hlv & Hav & Hov & Hsv & Hrv).
  pose proof Hp as [_ Hargc [Hnd Hf] _ Hpk Hps].
  assert (ls = [l0; lk; lv]) as ->.
  { apply Forall2_length in Hf. destruct ls as [|a [|b [|c [|]]]]; simpl in *; congruence. }
  rewrite !NoDup_cons, !not_elem_of_cons in Hnd. exists l0, lk, lv, ov. split; [done|].
  split; [set_solver|]. split; [|done]. split; try done; [by exists ok|by rewrite Hrv; apply counted_one|naive_solver|].
  intros l Hl. assert (Hni : l ∉ [l0; lk; lv]) by (apply Hpk; by exists k). rewrite !not_elem_of_cons in Hni.
  split_and!; [naive_solver..|]. destruct (serving_key _ _ _ _ _ Hs Hl) as (v' & o & _ & Ho & (Ht & _) & Hr).
  exists o. split_and!; try done. by left.
Qed.

(** The state after SET. *)
Lemma executed_set (w : world) (db db' : redis_db_t) (ls : list loc) (s : sstate) (n k v : bytes) (lv : loc) (ov : latte_object_t) (h : heap) :
  serving w db s -> parsed w db ls [n; k; v] -> zlen v < 2 ^ 63 -> lv ∈ ls -> string_obj ov v -> refcount ov = 1 ->
  db_wf db' -> keys_map db' = <[k := lv]> (keys_map db) ->
  expires_map db' = (if expired db (mstime (w_ticks w)) k then delete k (expires_map db) else expires_map db) ->
  grows_by 1 db db' -> set_heap w db lv k ov h -> executed w db ls (spec_set s k v) db' h.
Proof.
  intros Hs Hp Hzv Hin Hsv Hrv Hwf' Hkm Hem Hgr [(m & Hhv) Hho Hhx].
  pose proof Hs as [_ Hwf Hrd Htm Hrg Hsh Hhz Hdom Hvals Hkl Hinj Hlen]. pose proof Hp as [_ _ _ _ Hpk Hps].
  assert (Hkeep : forall l, l <> lv -> ~ key_loc db l -> h !! l = w_heap w !! l).
  { intros l Hl Hnk. apply Hhx; [done|]. intros Hl'. apply Hnk. by exists k. }
  assert (Hlvk : forall k', keys_map db !! k' <> Some lv) by (intros k' Hl; by apply (Hpk lv); [exists k'|]).
  split; try done; rewrite ?spec_set_vals.
  - rewrite Hem, (due_expired w db s k Hs), Htm. unfold spec_set. cbn [s_times]. rewrite touch_times.
    destruct (due s k); [by rewrite fmap_delete|done].
  - by apply touch_range.
  - intros k'. rewrite Hkm. destruct (decide (k' = k)) as [->|Hd]; [by rewrite !lookup_insert_eq|].
    rewrite !lookup_insert_ne by done. apply Hdom.
  - intros k' l v'. rewrite Hkm. destruct (decide (k' = k)) as [->|Hd].
    + rewrite !lookup_insert_eq. intros [= <-] [= <-]. rewrite bool_decide_true by done.
      eexists. split; [exact Hhv|]. split; [by apply string_obj_count|]. simpl. lia.
    + rewrite !lookup_insert_ne by done. intros Hl Hv'. rewrite bool_decide_false by (apply Hpk; by exists k').
      destruct (Hvals k' l v' Hl Hv') as (o & Hol & ?). exists o. rewrite Hhx; [done|by intros ->; eapply Hlvk|].
      intros Hl2. by apply Hd, (Hinj k' k l).
  - intros l (k' & Hl). rewrite Hkm, lookup_insert_Some in Hl. destruct Hl as [[<- <-]|[_ Hl]]; [by right|left; by exists k'].
  - intros k1 k2 l. rewrite Hkm, !lookup_insert_Some. intros [[<- <-]|[? H1]] [[<- E2]|[? H2]]; try done.
    + by destruct (Hlvk k2).
    + subst l. by destruct (Hlvk k1).
    + by eapply Hinj.
  - intros l Hl. destruct (decide (l = lv)) as [->|Hne].
    + eexists. split; [exact Hhv|]. right. simpl. rewrite Hrv. split; [lia|]. apply counted_one.
    + rewrite Hkeep; [by eapply parsed_droppable|done|]. intros Hk. by apply (Hpk l).
  - intros l Hl Hls. apply Hkeep; [|done]. intros ->. done.
  - intros l Hl. destruct (decide (l = lv)) as [->|Hne].
    { destruct (parsed_one _ _ _ _ _ Hp Hin) as (o & -> & _). by eexists. }
    destruct (decide (keys_map db !! k = Some l)) as [Hold|Hold]; [|by rewrite Hhx in Hl].
    rewrite (Hho l Hold) in Hl. destruct (w_heap w !! l); [by eexists|by destruct Hl].
  - intros l (k' & Hl) Hnl. destruct (decide (k' = k)) as [->|Hne].
    + rewrite (Hho l Hl). destruct (serving_key _ _ _ _ _ Hs Hl) as (v' & o & _ & -> & _ & Hr).
      simpl. unfold dropped. by rewrite Hr.
    + destruct Hnl. exists k'. by rewrite Hkm, lookup_insert_ne.
  - intros l o Hl Hnl. destruct (decide (l = lv)) as [->|Hne].
    { destruct Hnl. exists k. by rewrite Hkm, lookup_insert_eq. }
    rewrite Hkeep; [|done|intros Hk; by apply (Hpk l)]. intros Hol.
    destruct (parsed_one _ _ _ _ _ Hp Hl) as (o' & ? & ?). congruence.
  - by apply map_Forall_insert_2.
Qed.

Lemma exec_set (w : world) (db : redis_db_t) (ls : list loc) (s : sstate) (n k v : bytes) :
  serving w db s -> parsed w db ls [n; k; v] -> verb_named n = Some VSet -> cstr k = k -> zlen v < 2 ^ 63 ->
  db_room db -> performs (_ ← set_command; mret tt) w db ls s [n; k; v].
Proof.
  intros Hs Hp Hn Hnul Hzv Hroom. assert (Hat : db_at w db) by (eapply serving_db_at; [done|apply Hp]).
  destruct (set_args_ok w db ls s n k v Hs Hp Hnul) as (l0 & lk & lv & ov & Els & Hni & Hsa & Hsv & Hrv).
  destruct (set_command_ok w db lk lv k ov Hsa Hat (sv_wf _ _ _ Hs) Hroom (sv_hz _ _ _ Hs)) as (db' & h & lc & E & Ho & Hwf' & Hkm & Hem & Hgr & Hh).
  assert (Hsp : spec_exec s [n; k; v] = (spec_set s k v, bs "+OK" ++ CRLF)) by (unfold spec_exec, verb_of; simpl; by rewrite Hn).
  apply performs_intro. rewrite Hsp. exists db', h, lc.
  replace (quits [n; k; v]) with false by (unfold quits, verb_of; simpl; by rewrite Hn). cbn [fst snd closing_if].
  split; [|split; [done|]].
  - rewrite (bind_Done _ _ _ _ _ E). unfold mret, M_ret. do 4 f_equal. unfold set_ticks, spec_set. cbn [s_reads].
    pose proof (live_dom w db s k k Hs) as Hld. rewrite touch_reads, <- (sv_reads _ _ _ Hs).
    destruct (live_keys _ _ k !! k), (s_vals (touch s k) !! k); naive_solver.
  - apply (executed_set w db db' ls s n k v lv ov h); try done. subst ls. rewrite !elem_of_cons. auto.
Qed.

Lemma exec_ping (w : world) (db : redis_db_t) (ls : list loc) (s : sstate) (args : list bytes) (c : redis_command_t) :
  serving w db s -> parsed w db ls args -> verb_of args = Some VPing -> args <> [] -> Forall (fun a => zlen a < 2 ^ 63) args ->
  cmd (w_client w) = Some c -> cmd_name c = bs "ping" -> performs ping_command w db ls s args.
Proof.
  intros Hs Hp Hv Hne Hlen Hc Hn. pose proof (pa_argc _ _ _ _ Hp) as Hargc. pose proof (sv_shared _ _ _ Hs) as Hsh.
  apply (performs_writes _ _ _ _ _ _ (snd (spec_exec s args)) Hs Hp).
  { unfold quits. by rewrite Hv. }
  { unfold spec_exec. rewrite Hv. by destruct args as [|? [|? [|? ?]]]. }
  unfold spec_exec, ping_command. rewrite Hv. eapply writes_read; [reflexivity|]. rewrite Hargc.
  destruct args as [|a [|b [|d args]]]; [done|..]; cbn [snd].
  - simpl. eapply writes_read; [reflexivity|]. apply writes_add_reply, Hsh.
  - rewrite !Forall_cons in Hlen. destruct (parsed_arg _ _ _ _ 1 b Hp eq_refl) as (l & o & _ & Hl & Ho & Hso & _).
    change (Z.of_nat 1) with 1 in Hl. eapply writes_read; [unfold lift; rewrite Hl; reflexivity|].
    apply writes_bulk; [done|by exists o|naive_solver].
  - rewrite (proj2 (Z.ltb_lt 2 _)) by (rewrite !zlen_cons; pose proof (zlen_nonneg args); lia).
    pose proof (wrong_arity_ok w c Hc) as H. rewrite Hn in H. apply H; [repeat constructor; done|done].
Qed.

(** EXPIRE with a number of seconds. *)
Lemma exec_expire_number (w : world) (db : redis_db_t) (ls : list loc) (s : sstate) (n k a : bytes) (z : Z) :
  serving w db s -> parsed w db ls [n; k; a] -> verb_named n = Some VExpire -> db_room db ->
  string2ll a = Some z -> 0 <= z -> z * 1000 < 2 ^ 62 -> performs expire_command w db ls s [n; k; a].
Proof.
  intros Hs Hp Hn Hroom Ea H0 Hz. assert (Hat : db_at w db) by (eapply serving_db_at; [done|apply Hp]).
  destruct (parsed_arg _ _ _ _ 1 k Hp eq_refl) as (lk & ok & _ & Hak & Hok & Hko & _).
  destruct (parsed_arg _ _ _ _ 2 a Hp eq_refl) as (la & oa & _ & Haa & Hoa & Hao & _).
  pose proof Hs as [_ Hwf Hrd Htm Hrg Hsh Hhz Hdom _ _ _ _].
  assert (Hsp : spec_exec s [n; k; a] = spec_expire s k z).
  { unfold spec_exec, verb_of. simpl. rewrite Hn, Ea. by rewrite (proj2 (Z.ltb_ge _ _) H0). }
  assert (Hq : quits [n; k; a] = false) by (unfold quits, verb_of; simpl; by rewrite Hn).
  pose proof (expire_command_ok w db k a lk la Hat Hwf Hroom Hsh (pa_argc _ _ _ _ Hp)
    (conj Hak (ex_intro _ ok (conj Hok Hko))) (conj Haa (ex_intro _ oa (conj Hoa Hao)))) as H.
  cbv zeta in H. rewrite Ea, (proj2 (Z.ltb_ge _ _) H0) in H. pose proof (mstime_range (w_ticks w)) as Hnow.
  unfold spec_expire in Hsp. destruct (keys_map db !! k) as [l|] eqn:El.
  - destruct (serving_key _ _ _ _ _ Hs El) as (v & _ & Hv & _). rewrite Hv in Hsp.
    destruct (proj2 H) as (db' & lc & Hwf' & Hks & Hg & E & Hrest); [lia..|].
    assert (Hkm : keys_map db' = keys_map db) by (unfold keys_map; by rewrite Hks).
    apply performs_intro. exists db', (w_heap w), lc. rewrite Hq. cbn [closing_if]. rewrite Htm, lookup_fmap in Hrest. rewrite Hsp. clear Hsp.
    destruct (s_times s !! k) as [t|] eqn:Et; cbn [fmap option_fmap option_map] in Hrest; cbn [fst snd s_reads].
    + destruct Hrest as [-> Ho]. rewrite <- Hrd. split; [exact E|]. split; [done|]. eapply executed_same; done.
    + destruct Hrest as [Hem Ho]. rewrite <- Hrd. split; [exact E|]. split; [done|].
      eapply executed_same; try done; cbn [s_times].
      * by rewrite Hem, fmap_insert.
      * apply map_Forall_insert_2; [|done]. lia.
  - rewrite (proj1 (Hdom k) El) in Hsp. by apply (performs_writes _ _ _ _ _ _ _ Hs Hp Hq Hsp).
Qed.

Lemma exec_expire (w : world) (db : redis_db_t) (ls : list loc) (s : sstate) (args : list bytes) (c : redis_command_t) :
  serving w db s -> parsed w db ls args -> verb_of args = Some VExpire -> db_room db ->
  match args with [_; _; n] => forall z, string2ll n = Some z -> z * 1000 < 2 ^ 62 | _ => True end ->
  cmd (w_client w) = Some c -> cmd_name c = bs "expire" -> performs expire_command w db ls s args.
Proof.
  intros Hs Hp Hv Hroom Hval Hc Hn. assert (Hat : db_at w db) by (eapply serving_db_at; [done|apply Hp]).
  assert (Hq : quits args = false) by (unfold quits; by rewrite Hv).
  destruct (decide (length args = 3%nat)) as [E3|Hne].
  - destruct args as [|n [|k [|a [|]]]]; try done.
    destruct (string2ll a) as [z|] eqn:Ea; [destruct (Z.ltb_spec z 0) as [Hneg|Hpos]|].
    2:{ by apply (exec_expire_number w db ls s n k a z); auto. }
    all: assert (Hsp : spec_exec s [n; k; a] = (s, error_line (bs "ERR value is not an integer or out of range")))
      by (unfold spec_exec; rewrite Hv, Ea; try rewrite (proj2 (Z.ltb_lt _ _) Hneg); done).
    all: apply (performs_writes _ _ _ _ _ _ _ Hs Hp Hq Hsp).
    all: destruct (parsed_arg _ _ _ _ 2 a Hp eq_refl) as (la & oa & _ & Haa & Hoa & Hao & _).
    all: destruct (parsed_arg _ _ _ _ 1 k Hp eq_refl) as (lk & ok & _ & Hak & Hok & Hko & _).
    all: pose proof (expire_command_ok w db k a lk la Hat (sv_wf _ _ _ Hs) Hroom (sv_shared _ _ _ Hs) (pa_argc _ _ _ _ Hp)
      (conj Hak (ex_intro _ ok (conj Hok Hko))) (conj Haa (ex_intro _ oa (conj Hoa Hao)))) as H;
      cbv zeta in H; rewrite Ea in H; try rewrite (proj2 (Z.ltb_lt _ _) Hneg) in H; exact H.
  - apply (performs_writes _ _ _ _ _ _ (arity_error (bs "expire")) Hs Hp Hq).
    { unfold spec_exec. rewrite Hv. by destruct args as [|? [|? [|? [|]]]]. }
    unfold expire_command, writes. rewrite (bind_current_db _ _ _ Hat). mstep.
    rewrite (pa_argc _ _ _ _ Hp), (proj2 (Z.eqb_neq _ _)) by (unfold zlen; lia). cbn [negb].
    pose proof (wrong_arity_ok w c Hc) as H. rewrite Hn in H. apply H; [repeat constructor; done|done].
Qed.

(** SET and GET with a wrong number of arguments. *)
Lemma exec_arity (body : M Z) (name : bytes) (w : world) (db : redis_db_t) (ls : list loc) (s : sstate) (args : list bytes) :
  serving w db s -> parsed w db ls args -> quits args = false ->
  spec_exec s args = (s, bs "+ERR wrong number of arguments for '" ++ name ++ bs "' command" ++ CRLF) ->
  body w = (_ ← redis_module_use_reply_with_simple_string (bs "ERR wrong number of arguments for '" ++ name ++ bs "' command");
            mret (-1)) w ->
  cstr name = name -> NUL ∉ name ->
  performs (_ ← body; mret tt) w db ls s args.
Proof.
  intros Hs Hp Hq Hsp Eb Hcn Hnn. apply (performs_writes _ _ _ _ _ _ _ Hs Hp Hq Hsp).
  destruct (simple_string_ok w (bs "ERR wrong number of arguments for '" ++ name ++ bs "' command")) as (lc & E & Ho).
  exists lc. unfold mbind at 1, M_bind at 1. rewrite Eb, (bind_Done _ _ _ _ _ E). split; [reflexivity|].
  revert Ho. rewrite cstr_line; [|rewrite !elem_of_app; intros [H|[H|H]]; [..|done|]; revert H; by apply (bool_decide_unpack _)].
  change ("+"%char :: bs "ERR wrong number of arguments for '") with (bs "+ERR wrong number of arguments for '").
  by rewrite !app_comm_cons, <- !app_assoc.
Qed.

Lemma exec_quit (w : world) (db : redis_db_t) (ls : list loc) (s : sstate) (args : list bytes) :
  serving w db s -> parsed w db ls args -> verb_of args = Some VQuit -> performs quit_command w db ls s args.
Proof.
  intros Hs Hp Hv. assert (Hat : db_at w db) by (eapply serving_db_at; [done|apply Hp]).
  destruct (writes_add_reply w (sh_ok (w_shared w)) (bs "+OK" ++ CRLF)) as (lc & E & Ho); [apply Hs|].
  apply performs_intro. exists db, (w_heap w), lc. unfold quits, spec_exec. rewrite Hv, bool_decide_true by done. cbn [fst snd closing_if].
  split; [|split; [done|by eapply executed_id]]. rewrite <- (sv_reads _ _ _ Hs), <- with_output_post by done.
  unfold quit_command. mstep. by rewrite (bind_Done _ _ _ _ _ E).
Qed.

Lemma module_load_unloadable (f : module_file) (server : redis_server_t) :
  unloadable f = true -> module_load f server = Done (-1, server).
Proof.
  unfold unloadable, module_load. destruct (match mf_mode f with Some _ => _ | None => _ end); [done|].
  destruct (mf_opens f); [|done]. by destruct (mf_onload f).
Qed.

(** A LOAD of a file that is no module. *)
Lemma writes_load_error (w : world) (l : loc) (o : latte_object_t) (path : bytes) :
  argv_at (w_client w) 2 = Done l -> w_heap w !! l = Some o -> string_obj o path -> unloadable (files (cstr path)) = true ->
  writes (module_load_command files) w load_error.
Proof.
  intros Hl Ho (_ & _ & Hso) Hun. unfold module_load_command. eapply writes_read; [reflexivity|].
  eapply writes_read; [unfold lift; rewrite Hl; reflexivity|]. eapply writes_read; [unfold read_obj; rewrite Ho; reflexivity|].
  eapply writes_read; [unfold lift, ptr_bytes; rewrite Hso; reflexivity|]. eapply writes_read; [reflexivity|].
  eapply writes_read; [unfold lift; rewrite module_load_unloadable by done; reflexivity|]. cbv beta iota.
  eapply writes_read; [by destruct w|]. apply writes_error_length.
Qed.

(** MODULE HELP. *)
Lemma exec_module_help (w : world) (db : redis_db_t) (ls : list loc) (s : sstate) (n sub : bytes) :
  serving w db s -> parsed w db ls [n; sub] -> verb_of [n; sub] = Some VModule -> strcasecmp_eq sub (bs "help") = true ->
  reply_ok (list_elems (reply (client (w_client w)))) -> performs module_help_command w db ls s [n; sub].
Proof.
  intros Hs Hp Hv Hsub Hok. assert (Hat : db_at w db) by (eapply serving_db_at; [done|apply Hp]).
  destruct (parsed_arg _ _ _ _ 0 n Hp eq_refl) as (l & o & _ & Hl & Ho & Hso & _).
  destruct (add_reply_help_ok w l n module_help) as (k & lc & E & Hr); [done|by exists o|done|done|].
  exists db, (w_heap w), k, lc. unfold quits, spec_exec. rewrite Hv, Hsub, bool_decide_false by done. cbn [fst snd closing_if].
  split; [|split; [done|by eapply executed_id]]. unfold module_help_command. rewrite E. do 2 f_equal.
  rewrite <- (sv_reads _ _ _ Hs). unfold with_bytes, set_post. rewrite with_db_same by done. by destruct w.
Qed.

(** The subcommands of MODULE. *)
Lemma exec_module (w : world) (db : redis_db_t) (ls : list loc) (s : sstate) (args : list bytes) :
  serving w db s -> parsed w db ls args -> verb_of args = Some VModule -> command_valid files args -> args <> [] ->
  reply_ok (list_elems (reply (client (w_client w)))) -> performs (module_command files) w db ls s args.
Proof.
  intros Hs Hp Hv [_ Hval] Hne Hok. rewrite Hv in Hval. destruct args as [|n [|sub rest]]; [done..|].
  destruct (parsed_arg _ _ _ _ 1 sub Hp eq_refl) as (l & o & _ & Hl & Ho & (_ & _ & Hso) & _). change (Z.of_nat 1) with 1 in Hl.
  assert (E : module_command files w =
    (if (zlen (n :: sub :: rest) =? 2) && strcasecmp_eq sub (bs "help") then module_help_command
     else if strcasecmp_eq sub (bs "load") && (3 <=? zlen (n :: sub :: rest)) then module_load_command files
     else mret tt) w).
  { unfold module_command. mstep. rewrite (bind_lift _ _ _ l) by exact Hl. rewrite (bind_read_obj l o) by exact Ho.
    rewrite (bind_lift _ _ _ sub) by (unfold ptr_bytes; by rewrite Hso). rewrite (pa_argc _ _ _ _ Hp).
    destruct (_ && strcasecmp_eq sub (bs "help")); [done|]. destruct (strcasecmp_eq sub (bs "load") && _); [done|].
    destruct (strcasecmp_eq sub (bs "unload") && _); [done|]. by destruct (strcasecmp_eq sub (bs "list") && _). }
  unfold performs. rewrite E. destruct rest as [|path rest].
  - change (zlen [n; sub] =? 2) with true. cbn [andb]. destruct (strcasecmp_eq sub (bs "help")) eqn:Eh; [by apply exec_module_help|].
    change (3 <=? zlen [n; sub]) with false. rewrite andb_false_r. apply (performs_writes _ _ _ _ _ _ [] Hs Hp); [unfold quits; by rewrite Hv| |apply writes_ret].
    unfold spec_exec. by rewrite Hv, Eh.
  - assert (Hz : 3 <= zlen (n :: sub :: path :: rest)) by (rewrite !zlen_cons; pose proof (zlen_nonneg rest); lia).
    rewrite (proj2 (Z.eqb_neq _ _)), (proj2 (Z.leb_le _ _)) by lia. cbn [andb]. rewrite andb_true_r.
    apply (performs_writes _ _ _ _ _ _ (if strcasecmp_eq sub (bs "load") then load_error else []) Hs Hp); [unfold quits; by rewrite Hv| |].
    + unfold spec_exec. by rewrite Hv.
    + destruct (strcasecmp_eq sub (bs "load")) eqn:El; [|apply writes_ret].
      destruct (parsed_arg _ _ _ _ 2 path Hp eq_refl) as (l2 & o2 & _ & Hl2 & Ho2 & Hso2 & _).
      by apply (writes_load_error w l2 o2 path); try apply Hval.
Qed.

(** MODULE without a subcommand reads behind the end of the argument array. *)
Lemma module_alone_faults (w : world) (l : loc) :
  argv (w_client w) = Some [Some l] -> module_command files w = Fault OutOfBounds.
Proof. intros Ha. unfold module_command. mstep. unfold argv_at. by rewrite Ha. Qed.

(** A module command, as the dispatcher reaches it. *)
Lemma run_dispatcher (w : world) (c : redis_command_t) (f : redis_module_cmd_func) (m : option redis_module_t) :
  cmd (w_client w) = Some c -> proc c = dispatcher_proc -> get_keys_proc c = Some (mk_proxy m f) ->
  run_proc files (proc c) w = (_ ← module_func_body f; mret tt) w.
Proof.
  intros Hc Hpr Hg. rewrite Hpr. simpl. unfold redis_module_command_dispatcher. mstep.
  rewrite (bind_lift _ _ _ c) by (by rewrite Hc). by rewrite (bind_lift _ _ _ (mk_proxy m f)) by (by rewrite Hg).
Qed.

Lemma exec_request (w : world) (db : redis_db_t) (ls : list loc) (s : sstate) (args : list bytes) (c : redis_command_t) (v : verb) :
  serving w db s -> parsed w db ls args -> db_room db -> reply_ok (list_elems (reply (client (w_client w)))) ->
  request_valid files (proto_max_bulk_len (w_server w)) args -> proto_max_bulk_len (w_server w) < 2 ^ 62 ->
  verb_of args = Some v -> serves c v -> cmd (w_client w) = Some c ->
  performs (run_proc files (proc c)) w db ls s args.
Proof.
  intros Hs Hp Hroom Hok [[Hargs Hlen] [Hnul Hval]] Hmax Hv Hc Hcmd.
  assert (Hlen' : Forall (fun a => zlen a < 2 ^ 63) args) by (eapply Forall_impl; [exact Hlen|]; intros a Ha; simpl in Ha; lia).
  rewrite Hv in Hval. destruct v; simpl in Hc.
  - destruct Hc as (Hpr & m & Hg). unfold performs. rewrite (run_dispatcher w c _ m Hcmd Hpr Hg).
    change (performs (_ ← set_command; mret tt) w db ls s args).
    destruct (decide (length args = 3%nat)) as [E|Hne].
    + destruct args as [|n [|k [|x [|]]]]; try done. rewrite !Forall_cons in Hlen'. by apply exec_set; try naive_solver.
    + apply (exec_arity _ (bs "set")); try done; [unfold quits; by rewrite Hv| | |by apply (bool_decide_unpack _)].
      * unfold spec_exec. rewrite Hv. by destruct args as [|? [|? [|? [|]]]].
      * unfold set_command. mstep. rewrite (pa_argc _ _ _ _ Hp), (proj2 (Z.eqb_neq _ _)) by (unfold zlen; lia). done.
  - destruct Hc as (Hpr & m & Hg). unfold performs. rewrite (run_dispatcher w c _ m Hcmd Hpr Hg).
    change (performs (_ ← get_command; mret tt) w db ls s args).
    destruct (decide (length args = 2%nat)) as [E|Hne].
    + destruct args as [|n [|k [|]]]; try done. by apply exec_get.
    + apply (exec_arity _ (bs "get")); try done; [unfold quits; by rewrite Hv| | |by apply (bool_decide_unpack _)].
      * unfold spec_exec. rewrite Hv. by destruct args as [|? [|? [|]]].
      * unfold get_command. mstep. rewrite (pa_argc _ _ _ _ Hp), (proj2 (Z.eqb_neq _ _)) by (unfold zlen; lia). done.
  - destruct Hc as [-> Hn]. apply (exec_ping w db ls s args c); try done. intros ->. by destruct Hargs.
  - destruct Hc as [-> Hn]. by apply (exec_expire w db ls s args c).
  - rewrite Hc. apply (performs_writes _ _ _ _ _ _ (bs "Not implemented" ++ [NUL]) Hs Hp).
    + unfold quits. by rewrite Hv.
    + unfold spec_exec. by rewrite Hv.
    + apply writes_proto.
  - rewrite Hc. by apply exec_quit.
  - rewrite Hc. apply exec_module; try done; [split; [done|by rewrite Hv]|]. intros ->. by destruct Hargs.
Qed.

(** ** One request *)

(** Locations that belong neither to the arguments of the client nor to the keyspace. *)
Definition protected (w : world) (db : redis_db_t) (l : loc) : Prop :=
  l ∈ dom (w_heap w) /\ (l ∉ arg_locs (w_client w)) /\ ~ key_loc db l.

(** Such objects stay as they are and stay out of reach; and they do not become
    more: an object the client has given up and that is no value is freed. *)
Definition keeps (w : world) (db : redis_db_t) (w' : world) (db' : redis_db_t) : Prop :=
  forall l, (protected w' db' l <-> protected w db l)
    /\ (protected w db l -> w_heap w' !! l = w_heap w !! l).

Lemma keeps_refl (w : world) (db : redis_db_t) : keeps w db w db.
Proof. by intros l. Qed.

Lemma keeps_trans (w1 w2 w3 : world) (db1 db2 db3 : redis_db_t) :
  keeps w1 db1 w2 db2 -> keeps w2 db2 w3 db3 -> keeps w1 db1 w3 db3.
Proof.
  intros H1 H2 l. destruct (H1 l) as [I1 E1], (H2 l) as [I2 E2]. split; [by rewrite I2|].
  intros Hl. rewrite E2 by (by apply I1). by apply E1.
Qed.

(** Objects that are out of reach before and after. *)
Lemma keeps_intro (w w' : world) (db db' : redis_db_t) :
  (forall l, protected w db l -> (l ∉ arg_locs (w_client w')) /\ ~ key_loc db' l /\ w_heap w' !! l = w_heap w !! l) ->
  (forall l, protected w' db' l -> protected w db l) -> keeps w db w' db'.
Proof.
  intros H1 H2 l. split; [split; [by apply H2|]|intros Hl; apply (H1 l Hl)]. intros Hl.
  destruct (H1 l Hl) as (? & ? & E). split_and!; try done. apply elem_of_dom. rewrite E. by apply elem_of_dom, Hl.
Qed.

(** Releasing the arguments after a command. *)
Lemma serving_reset (w : world) (db db' : redis_db_t) (ls : list loc) (s s' : sstate) (h h' : heap) (w3 : world) :
  executed w db ls s' db' h -> serving w db s -> (forall l, shared_loc (w_shared w) l -> l ∉ ls) ->
  (forall l, l ∈ ls -> h' !! l = h !! l ≫= dropped) -> (forall l, l ∉ ls -> h' !! l = h !! l) ->
  w_heap w3 = h' -> w_shared w3 = w_shared w -> dbs (w_server w3) !! 0%nat = Some db' -> 0 < hz (w_server w3) ->
  w_ticks w3 = s_reads s' -> serving w3 db' s'.
Proof.
  intros [] Hs Hps Hin Hout Eh Es Hat Hhz Ht. pose proof (sv_keys _ _ _ Hs) as Hkl. split; try done; rewrite ?Es, ?Eh.
  - eapply shared_ok_frame; [apply Hs|]. intros l Hl. rewrite Hout by (by apply Hps).
    apply ex_frame0; [|by apply Hps]. intros Hk. by apply (Hkl l).
  - intros k l v Hl Hv. destruct (ex_vals0 k l v Hl Hv) as (o & Ho & Hso & Hr).
    case_bool_decide as Hc.
    + eexists. split_and!; [rewrite Hin, Ho by done; unfold dropped; simpl; rewrite Hr; reflexivity| |].
      * destruct Hso as (? & He & ?). split_and!; try done. rewrite <- He. by apply sds_encoded_encoding.
      * simpl. lia.
    + exists o. by rewrite Hout.
  - intros l Hl Hsl. destruct (ex_keys0 l Hl) as [Hk|Hk]; [by apply (Hkl l)|by apply (Hps l)].
Qed.

(** After the release every object is out of reach that was so before, and no other. *)
Lemma keeps_reset (w w' : world) (db db' : redis_db_t) (ls : list loc) (s' : sstate) (h : heap) :
  executed w db ls s' db' h -> arg_locs (w_client w) = ls -> argc (w_client w') = 0 ->
  (forall l, l ∈ ls -> w_heap w' !! l = h !! l ≫= dropped) -> (forall l, l ∉ ls -> w_heap w' !! l = h !! l) ->
  keeps w db w' db'.
Proof.
  intros [] Eal H0 Hin Hout. apply keeps_intro.
  - intros l (Hl1 & Hl2 & Hl3). rewrite Eal in Hl2. rewrite arg_locs_none by done. split; [apply not_elem_of_nil|].
    split; [|rewrite Hout by done; by apply ex_frame0]. intros Hk. by destruct (ex_keys0 l Hk).
  - intros l ([o Ho]%elem_of_dom & _ & Hk). destruct (decide (l ∈ ls)) as [Hl|Hl].
    + rewrite (Hin l Hl) in Ho. destruct (h !! l) as [o'|] eqn:E; [|done]. simpl in Ho. unfold dropped in Ho.
      by rewrite (ex_free0 l o' Hl Hk E) in Ho.
    + rewrite (Hout l Hl) in Ho. assert (Hnk : ~ key_loc db l) by (intros Hkl; rewrite (ex_gone0 l Hkl Hk) in Ho; done).
      split_and!; [|by rewrite Eal|done]. apply elem_of_dom. by rewrite <- (ex_frame0 l Hnk Hl), Ho.
Qed.

(** What the metrics are computed from, and the slow log. *)
Definition counters (r : redis_server_t) : metric_t * Z * slowlog_manager_t :=
  (metric r, metric_stat_numcommands r, slowlog_manager r).

(** What a request leaves alone besides the keyspace. *)
Definition same_setup (w w' : world) : Prop :=
  command_manager (w_server w') = command_manager (w_server w)
  /\ proto_max_bulk_len (w_server w') = proto_max_bulk_len (w_server w)
  /\ flag (w_client w') = flag (w_client w) /\ dbid (w_client w') = dbid (w_client w)
  /\ zlen (querybuf (client (w_client w'))) <= zlen (querybuf (client (w_client w)))
  /\ w_shared w' = w_shared w /\ counters (w_server w') = counters (w_server w).

Lemma same_setup_refl (w : world) : same_setup w w.
Proof. by split_and!. Qed.

Lemma same_setup_trans (a b c : world) : same_setup a b -> same_setup b c -> same_setup a c.
Proof. intros (?&?&?&?&?&?&?) (?&?&?&?&?&?&?). split_and!; try congruence. lia. Qed.

Lemma serving_mono (w w' : world) (db : redis_db_t) (s : sstate) :
  dbs (w_server w') = dbs (w_server w) -> hz (w_server w') = hz (w_server w) ->
  w_shared w' = w_shared w -> w_ticks w' = w_ticks w ->
  w_heap w ⊆ w_heap w' -> serving w db s -> serving w' db s.
Proof.
  intros Es Ehz Esh Et Hh []. split; rewrite ?Es, ?Ehz, ?Esh, ?Et; try done.
  - by eapply shared_ok_mono.
  - intros k l v Hl Hv. destruct (sv_vals0 k l v Hl Hv) as (o & Ho & ?). exists o. split; [|done].
    by eapply lookup_weaken.
Qed.

Lemma client_segs_closing (b : bool) (lc : latte_client_t client_priv_t) :
  client_segs (closing_if b lc) = client_segs lc /\ querybuf (closing_if b lc) = querybuf lc
  /\ qb_pos (closing_if b lc) = qb_pos lc.
Proof. by destruct b. Qed.

(** The connection is to be closed exactly after QUIT. *)
Lemma not_closing_if (b : bool) (c : redis_client_t) (lc : latte_client_t client_priv_t) (out : bytes) :
  not_closing c -> replied (client c) lc out ->
  has_flag (cflags (closing_if b lc)) (Z.lor CLIENT_CLOSE_AFTER_REPLY CLIENT_CLOSE_ASAP) = b.
Proof.
  intros Hn Ho. unfold not_closing in Hn. unfold closing_if. destruct b; [|by rewrite (rp_cflags _ _ _ Ho)].
  simpl. unfold has_flag. apply negb_true_iff, Z.eqb_neq. rewrite Z.land_lor_distr_r. intros E.
  apply Z.lor_eq_0_iff in E as [E _]. pose proof (has_flag_lor (cflags lc) CLIENT_CLOSE_AFTER_REPLY) as H.
  unfold has_flag in H. rewrite E in H. destruct close_flags_nonzero. by specialize (H ltac:(done)).
Qed.

Lemma run_request_ok (w : world) (db : redis_db_t) (ls : list loc) (s : sstate) (args : list bytes) (u : bytes) (v : verb) :
  verb_of args = Some v -> serving w db s -> parsed w db ls args -> qb_ok (client (w_client w)) u -> db_room db ->
  reply_ok (list_elems (reply (client (w_client w)))) -> request_valid files (proto_max_bulk_len (w_server w)) args -> proto_max_bulk_len (w_server w) < 2 ^ 62 ->
  commands_ok (w_server w) -> not_closing (w_client w) ->
  exists w' db', process_command_and_reset_client files w = Done (0, w') /\ serving w' db' (fst (spec_exec s args))
    /\ grows_by 1 db db' /\ output w' = append_last (output w) (snd (spec_exec s args))
    /\ parsing ∅ w' 0 (-1) u [] /\ req_type (w_client w') = 0 /\ same_setup w w' /\ keeps w db w' db'
    /\ reply_ok (list_elems (reply (client (w_client w'))))
    /\ has_flag (cflags (client (w_client w'))) (Z.lor CLIENT_CLOSE_AFTER_REPLY CLIENT_CLOSE_ASAP) = quits args.
Proof.
  intros Hv Hs Hp Hq Hroom Hok Hval Hmax Hcmds Hncl. set (name := default [] (head args)).
  destruct (cm_known _ Hcmds name v (proj1 (proj2 Hval)) Hv) as (c & Hc & Hserves).
  assert (Ha0 : args !! 0%nat = Some name).
  { destruct args; [|done]. destruct Hval as [[[H _] _] _]. done. }
  destruct (parsed_arg _ _ _ _ 0 _ Hp Ha0) as (l0 & o0 & _ & Hargv0 & Ho0 & Hso0 & _).
  set (w1 := set_w_client (set_w_server w (set_current_client (w_server w) (Some (client_id (w_client w)))))
    (set_cmd (set_lastcmd (w_client w) (Some c)) (Some c))).
  assert (Hs1 : serving w1 db s) by (eapply serving_mono; [..|exact Hs]; done).
  assert (Hp1 : parsed w1 db ls args) by (by destruct Hp).
  destruct (exec_request w1 db ls s args c v Hs1 Hp1) as (db' & h & n & lc & E & Ho & Hex); try done.
  set (s' := fst (spec_exec s args)) in *. set (lc' := closing_if (quits args) lc) in *.
  set (w2 := with_bytes (set_post w1 (s_reads s') db' h) n lc') in *.
  destruct (client_segs_closing (quits args) lc) as (Hseg & Hqb & Hqp). fold lc' in Hseg, Hqb, Hqp.
  pose proof Hp as [(cells & Hargv) Hargc [Hnd Hf] Hdb Hpk Hps].
  assert (Hzl : argc (w_client w) = zlen ls) by (rewrite Hargc; unfold zlen; by rewrite (Forall2_length _ _ _ Hf)).
  destruct (reset_ok w2 ls cells u) as (h' & Er & Hpar & Hin & Hout); try done.
  { destruct Hq as (? & ? & ?). unfold qb_ok. cbn. rewrite Hqb, Hqp, (rp_querybuf _ _ _ Ho), (rp_qb_pos _ _ _ Ho). done. }
  { intros l Hl. by apply (ex_args _ _ _ _ _ _ Hex). }
  set (w3 := set_w_client (set_w_heap w2 h') _) in *.
  set (w4 := set_w_server w3 (set_current_client (w_server w3) (current_client (w_server w)))).
  assert (Hserv : serving w4 db' s').
  { eapply (serving_reset w1 db db' ls s s' h h'); try done; [|apply Hs1]. cbn. rewrite Hdb.
    apply list_lookup_insert_eq. eapply lookup_lt_Some. apply (sv_db _ _ _ Hs). }
  exists w4, db'. split; [|split; [exact Hserv|split; [exact (ex_grows _ _ _ _ _ _ Hex)|split_and!]]].
  - unfold process_command_and_reset_client. mstep. rewrite bind_set_current.
    assert (Epc : process_command files (set_w_server w (set_current_client (w_server w) (Some (client_id (w_client w)))))
      = Done (0, w2)).
    { unfold process_command. mstep. rewrite (bind_lift _ _ _ l0) by exact Hargv0.
      rewrite (bind_read_obj l0 o0) by exact Ho0.
      rewrite (bind_lift _ _ _ name) by (unfold ptr_bytes; by rewrite (proj2 (proj2 Hso0))).
      rewrite (string_object_len_spec _ _ Hso0), sds_new_len_spec by (pose proof (zlen_nonneg name); lia).
      unfold zlen. rewrite Nat2Z.id, firstn_all. unfold lookup_cmd in Hc.
      change (command_manager (w_server (set_w_server w _))) with (command_manager (w_server w)). rewrite Hc. mstep.
      fold w1. assert (Ecall : call files w1 = Done (tt, w2)).
      { unfold call. mstep. rewrite (bind_lift _ _ _ c) by done. exact E. }
      by rewrite (bind_Done _ _ _ _ _ Ecall). }
    rewrite (bind_Done _ _ _ _ _ Epc). simpl (0 =? 0). cbv iota. rewrite (bind_Done _ _ _ _ _ Er). mstep.
    rewrite bool_decide_false by done. rewrite bind_set_current. cbv iota. reflexivity.
  - unfold output. cbn. rewrite Hseg. apply (rp_segs _ _ _ Ho).
  - by apply parsing_server.
  - reflexivity.
  - unfold same_setup. split_and!; [reflexivity..| |reflexivity|reflexivity]. cbn. by rewrite Hqb, (rp_querybuf _ _ _ Ho).
  - change (keeps w1 db w4 db'). apply (keeps_reset w1 w4 db db' ls s' h); try done. by eapply arg_locs_eq.
  - change (reply_ok (list_elems (reply lc'))). unfold lc'. destruct (quits args); by apply (rp_ok _ _ _ Ho).
  - exact (not_closing_if _ _ _ _ Hncl Ho).
Qed.

(** A command nobody has registered: the client keeps its arguments. *)
Lemma run_unknown_ok (w : world) (db : redis_db_t) (ls : list loc) (s : sstate) (args : list bytes) :
  verb_of args = None -> command_valid files args -> parsed w db ls args -> args <> [] -> commands_ok (w_server w) ->
  process_command_and_reset_client files w = Done (0, set_w_client w (set_cmd (set_lastcmd (w_client w) None) None)).
Proof.
  intros Hv [Hnul _] Hp Hne Hcmds. destruct args as [|a args]; [done|].
  destruct (parsed_arg _ _ _ _ 0 a Hp eq_refl) as (l0 & o0 & _ & Hargv0 & Ho0 & Hso0 & _).
  apply (unknown_request files w l0 o0 a); try done. by apply (cm_unknown _ Hcmds).
Qed.
End Execution.
