(* ===== verification/Streams.v ===== *)
(** * Streams: what the bytes of a connection ask for

    The specification of a connection on bytes alone: the state of the
    specified parser of Protocol.v, the bytes it has not consumed and the phase
    of the connection; each piece of bytes that arrives yields a list of items
    (requests, protocol errors) and a new state.  Nothing is assumed of the
    bytes.  The second half shows that the stream a client library sends,
    however it is cut, yields exactly the requests it encodes. *)

From S2P Require Import Prelude LatteC LatteCModel KvStore State Db Reply Protocol CommandManager Module.
From S2P Require Import StringModule Commands Client Service.

Section Streams.
Context {L : LatteC}.

(** A connection is open, or has sent a command nobody knows, or has quit. *)
Inductive phase := Open | Wedged | Closing.

#[export] Instance phase_eq_dec : EqDecision phase.
Proof. solve_decision. Defined.

(** What the specification knows of a connection. *)
Record peer := mk_peer {
  pr_n : nat;             (* arguments that are missing *)
  pr_bl : Z;              (* length of the next one, -1 if not known *)
  pr_acc : list bytes;    (* arguments read *)
  pr_buf : bytes;         (* bytes not consumed *)
  pr_phase : phase
}.

Definition new_peer : peer := mk_peer 0 (-1) [] [] Open.

(** Bytes behind an unknown command. *)
Definition abort_if (u : bytes) : list item := match u with [] => [] | _ => [Abort] end.

(** One request from the buffer: what it asks for, the state after it, and
    whether to look for another one. *)
Definition drain_step (limit : Z) (n : nat) (bl : Z) (u : bytes) (acc : list bytes) : list item * peer * bool :=
  if (n =? 0)%nat && negb (bool_decide (first_byte u = "*"%char)) then ([Inline], mk_peer n bl acc u Open, false)
  else
    match spec_parse limit n bl u acc with
    | PMore n bl u acc => ([], mk_peer n bl acc u Open, false)
    | PErr n u acc out => ([Complain out], mk_peer n (-1) acc u Open, false)
    | PDone u [] => ([], mk_peer 0 (-1) [] u Open, true)
    | PDone u args =>
        ([Execute args],
         match verb_of args with
         | None => mk_peer 0 (-1) args u Wedged
         | Some VQuit => mk_peer 0 (-1) [] u Closing
         | Some _ => mk_peer 0 (-1) [] u Open
         end, true)
    end.

(** Requests from the buffer until more bytes are needed, a protocol error, an
    unknown command or QUIT; a request costs at least a byte, so a fuel of the
    length of the buffer is enough. *)
Fixpoint drain (limit : Z) (fuel : nat) (n : nat) (bl : Z) (u : bytes) (acc : list bytes) : list item * peer :=
  match fuel, u with
  | O, _ | _, [] => ([], mk_peer n bl acc u Open)
  | S fuel, _ =>
      let '(its, p, again) := drain_step limit n bl u acc in
      if (again : bool) then
        match pr_phase p with
        | Open => let '(its', q) := drain limit fuel (pr_n p) (pr_bl p) (pr_buf p) (pr_acc p) in (its ++ its', q)
        | Wedged => (its ++ abort_if (pr_buf p), p)
        | Closing => (its, p)
        end
      else (its, p)
  end.

Lemma drain_S (limit : Z) (fuel : nat) (n : nat) (bl : Z) (u : bytes) (acc : list bytes) :
  u <> [] ->
  drain limit (S fuel) n bl u acc =
  let '(its, p, again) := drain_step limit n bl u acc in
  if (again : bool) then
    match pr_phase p with
    | Open => let '(its', q) := drain limit fuel (pr_n p) (pr_bl p) (pr_buf p) (pr_acc p) in (its ++ its', q)
    | Wedged => (its ++ abort_if (pr_buf p), p)
    | Closing => (its, p)
    end
  else (its, p).
Proof. by destruct u. Qed.

Definition peer_step (limit : Z) (s : bytes) (p : peer) : list item * peer :=
  let u := pr_buf p ++ s in
  match pr_phase p with
  | Open => drain limit (length u) (pr_n p) (pr_bl p) u (pr_acc p)
  | Wedged => (abort_if u, mk_peer (pr_n p) (pr_bl p) (pr_acc p) u Wedged)
  | Closing => ([], mk_peer (pr_n p) (pr_bl p) (pr_acc p) u Closing)
  end.

(** The pieces of a connection one after the other. *)
Fixpoint feed_all (limit : Z) (ss : list bytes) (p : peer) : list item * peer :=
  match ss with
  | [] => ([], p)
  | s :: ss =>
      let '(its, p) := peer_step limit s p in
      let '(its', p) := feed_all limit ss p in
      (its ++ its', p)
  end.

(** Parser states that can be reached: a request is within the limits so far. *)
Record bounded (limit : Z) (n : nat) (bl : Z) (acc : list bytes) : Prop := {
  bd_count : Z.of_nat n + zlen acc <= 1024 * 1024;
  bd_args : Forall (fun a => zlen a <= limit) acc;
  bd_len : -1 <= bl <= Z.max (-1) limit;
  bd_zero : n = 0%nat -> bl = -1 /\ acc = []
}.

(** ** The parser on any bytes *)

Lemma spec_bulks_bounds (limit : Z) (n : nat) (bl : Z) (u : bytes) (acc : list bytes) :
  Z.of_nat n + zlen acc <= 1024 * 1024 -> Forall (fun a => zlen a <= limit) acc ->
  -1 <= bl <= Z.max (-1) limit ->
  match spec_bulks limit n bl u acc with
  | PMore n' bl' u' acc' => bounded limit n' bl' acc' /\ (0 < n')%nat
  | PErr n' u' acc' _ => bounded limit n' (-1) acc' /\ (0 < n')%nat
  | PDone u' args => zlen args = Z.of_nat n + zlen acc /\ Forall (fun a => zlen a <= limit) args
      /\ (length u' <= length u)%nat /\ ((0 < n)%nat -> (length u' < length u)%nat)
  end.
Proof.
  revert bl u acc. induction n as [|n IH]; intros bl u acc Hc Ha Hb; simpl.
  { split_and!; [lia|done|lia|lia]. }
  destruct (if bl =? -1 then spec_bulk_len limit u else LOk bl u) as [out| |ll u'] eqn:E.
  - split; [split; [done..|lia|lia]|lia].
  - split; [split; [done..|lia|lia]|lia].
  - assert (Hl : 0 <= ll <= limit /\ (length u' <= length u)%nat).
    { destruct (Z.eqb_spec bl (-1)) as [->|].
      - split; [by eapply spec_bulk_len_range|]. unfold spec_bulk_len in E.
        repeat case_match; simplify_eq. rewrite length_drop. lia.
      - injection E as -> ->. lia. }
    destruct Hl as [Hll Hlu]. destruct (Z.ltb_spec (zlen u') (ll + 2)) as [Hs|Hs].
    + split; [split; [done..|lia|lia]|lia].
    + specialize (IH (-1) (drop (Z.to_nat (ll + 2)) u') (acc ++ [take (Z.to_nat ll) u'])).
      rewrite zlen_app in IH. change (zlen [_]) with 1 in IH.
      assert (Hd : (length (drop (Z.to_nat (ll + 2)) u') < length u)%nat).
      { rewrite length_drop. unfold zlen in Hs. lia. }
      assert (Ht : zlen (take (Z.to_nat ll) u') <= limit) by (unfold zlen; rewrite length_take; lia).
      destruct (spec_bulks limit n (-1) _ _) as [n2 bl2 u2 acc2|n2 u2 acc2 out2|u2 args].
      * apply IH; [lia|by apply Forall_app; auto|lia].
      * apply IH; [lia|by apply Forall_app; auto|lia].
      * destruct IH as (? & ? & ? & _); [lia|by apply Forall_app; auto|lia|]. split_and!; [lia|done|lia|lia].
Qed.

(** What is known of a result of the parser. *)
Definition parse_bounds (limit : Z) (n : nat) (u : bytes) (r : parse_result) : Prop :=
  match r with
  | PMore n' bl' u' acc' => bounded limit n' bl' acc' /\ (n' = 0%nat -> n = 0%nat /\ u' = u)
  | PErr n' u' acc' _ => bounded limit n' (-1) acc' /\ (n' = 0%nat -> n = 0%nat /\ u' = u)
  | PDone u' args => zlen args <= 1024 * 1024 /\ Forall (fun a => zlen a <= limit) args /\ (length u' < length u)%nat
  end.

Lemma bounded_start (limit : Z) : bounded limit 0 (-1) [].
Proof. split; [vm_compute; discriminate|constructor|lia|done]. Qed.

Lemma spec_parse_bounds (limit : Z) (n : nat) (bl : Z) (u : bytes) (acc : list bytes) :
  bounded limit n bl acc -> u <> [] -> parse_bounds limit n u (spec_parse limit n bl u acc).
Proof.
  intros [Hc Ha Hb H0] Hu. destruct n as [|n]; unfold spec_parse.
  - destruct (H0 eq_refl) as [-> ->]. unfold spec_request.
    assert (Hst : forall r, r = PMore 0 (-1) u [] \/ (exists out, r = PErr 0 u [] out) -> parse_bounds limit 0 u r).
    { intros r [->|[out ->]]; (split; [apply bounded_start|done]). }
    destruct (spec_line u) as [| |k] eqn:El; [case_match; apply Hst; eauto|apply Hst; eauto|].
    destruct (string2ll (header_digits u k)) as [ll|]; [|apply Hst; eauto].
    destruct (Z.ltb_spec (1024 * 1024) ll) as [|Hll]; [apply Hst; eauto|].
    assert (Hk : (k + 2 <= length u)%nat).
    { unfold spec_line in El. repeat case_match; simplify_eq. unfold zlen in *. lia. }
    pose proof (spec_bulks_bounds limit (Z.to_nat ll) (-1) (drop (k + 2) u) []) as H.
    change (zlen []) with 0 in H. rewrite length_drop in H.
    destruct (spec_bulks limit (Z.to_nat ll) (-1) (drop (k + 2) u) []) as [n2 bl2 u2 acc2|n2 u2 acc2 out2|u2 args]; simpl.
    + destruct H; [lia|constructor|lia|]. split; [done|lia].
    + destruct H; [lia|constructor|lia|]. split; [done|lia].
    + destruct H as (? & ? & ? & _); [lia|constructor|lia|]. split_and!; [lia|done|lia].
  - pose proof (spec_bulks_bounds limit (S n) bl u acc Hc Ha Hb) as H.
    destruct (spec_bulks limit (S n) bl u acc) as [n2 bl2 u2 acc2|n2 u2 acc2 out2|u2 args]; simpl.
    + destruct H. split; [done|lia].
    + destruct H. split; [done|lia].
    + destruct H as (? & ? & ? & ?). split_and!; [lia|done|lia].
Qed.

(** What is known of a step: the new state is within the limits, and going on
    means that bytes have been consumed. *)
Lemma drain_step_bounds (limit : Z) (n : nat) (bl : Z) (u : bytes) (acc : list bytes) (its : list item) (p : peer) (again : bool) :
  bounded limit n bl acc -> u <> [] -> drain_step limit n bl u acc = (its, p, again) ->
  (pr_phase p = Open -> bounded limit (pr_n p) (pr_bl p) (pr_acc p))
  /\ (again = true -> (length (pr_buf p) < length u)%nat) /\ existsb aborts its = false.
Proof.
  intros Hb Hu. unfold drain_step. destruct (_ && _)%bool; [by intros [= <- <- <-]|].
  pose proof (spec_parse_bounds limit n bl u acc Hb Hu) as H.
  destruct (spec_parse limit n bl u acc) as [n' bl' u' acc'|n' u' acc' out|u' [|a r]]; simpl in H; intros [= <- <- <-];
    (split; [|split; [|done]]); try done; try (by intros _; apply H); try apply bounded_start.
  - intros _. apply bounded_start.
  - destruct (verb_of (a :: r)) as [[]|]; try done; intros _; apply bounded_start.
  - destruct (verb_of (a :: r)) as [[]|]; intros _; apply H.
Qed.

(** ** The stream of a client library *)

Definition enc_requests (rs : list (list bytes)) : bytes := mjoin (enc_request <$> rs).

Lemma enc_requests_cons (r : list bytes) (rs : list (list bytes)) :
  enc_requests (r :: rs) = enc_request r ++ enc_requests rs.
Proof. apply mjoin_cons. Qed.

(** In the parser state (n, bl, acc), the bytes [s] complete the requests [rs]. *)
Definition expects (n : nat) (bl : Z) (acc : list bytes) (rs : list (list bytes)) (s : bytes) : Prop :=
  match rs with
  | [] => n = 0%nat /\ bl = -1 /\ acc = [] /\ s = []
  | r :: rs => completes n bl acc r (enc_requests rs) s
  end.

(** Nothing after QUIT is executed. *)
Fixpoint until_quit (rs : list (list bytes)) : list (list bytes) :=
  match rs with
  | [] => []
  | r :: rs => if quits r then [r] else r :: until_quit rs
  end.

(** A connection that is in the middle of the requests [rs], of which the bytes
    [rest] have not arrived; or that has quit. *)
Definition streams (p : peer) (rs : list (list bytes)) (rest : bytes) : Prop :=
  pr_phase p = Open /\ expects (pr_n p) (pr_bl p) (pr_acc p) rs (pr_buf p ++ rest).

Lemma completes_longer (n : nat) (bl : Z) (acc r : list bytes) (t s : bytes) :
  completes n bl acc r t s -> zlen t < zlen s.
Proof.
  intros [(_ & _ & _ & ->)|(todo & -> & Hn & _ & [[_ ->]|(a & todo' & -> & _ & ->)])].
  - rewrite enc_request_app, zlen_cons, !zlen_app. pose proof (zlen_nonneg (dec (zlen r))).
    pose proof (zlen_nonneg (enc_bulks r)). pose proof (zlen_nonneg CRLF). lia.
  - destruct todo as [|a todo]; [simpl in Hn; lia|]. rewrite enc_bulks_cons, zlen_cons, !zlen_app.
    pose proof (zlen_nonneg (dec (zlen a))). pose proof (zlen_nonneg a). pose proof (zlen_nonneg (enc_bulks todo)).
    pose proof (zlen_nonneg CRLF). lia.
  - rewrite !zlen_app. change (zlen CRLF) with 2. pose proof (zlen_nonneg a). pose proof (zlen_nonneg (enc_bulks todo')). lia.
Qed.

Context {LL : LatteCLaws}.

(** Requests with known commands within the limits of the protocol. *)
Definition sendable (limit : Z) (r : list bytes) : Prop := request_ok limit r /\ verb_of r <> None.

(** Draining part of a stream executes the requests that are complete: those,
    and the ones that are left, are the requests of the stream. *)
Lemma drain_stream (limit : Z) (rest : bytes) (rs : list (list bytes)) (fuel : nat) (n : nat) (bl : Z) (u : bytes) (acc : list bytes) :
  limit < 2 ^ 62 -> Forall (sendable limit) rs -> expects n bl acc rs (u ++ rest) -> (length u <= fuel)%nat ->
  exists d left, rs = d ++ left /\ fst (drain limit fuel n bl u acc) = Execute <$> until_quit d
    /\ (if existsb quits d then pr_phase (snd (drain limit fuel n bl u acc)) = Closing
        else streams (snd (drain limit fuel n bl u acc)) left rest)
    /\ (rest = [] -> existsb quits d = false -> left = []).
Proof.
  intros Hlim. revert fuel n bl u acc. induction rs as [|r rs IH]; intros fuel n bl u acc Hv Hex Hfuel.
  { destruct Hex as (-> & -> & -> & [-> ->]%app_eq_nil). exists [], []. destruct fuel; by split_and!. }
  inversion Hv as [|? ? [Hr Hk] Hvs]; subst. simpl expects in Hex.
  assert (Hstay : forall p, streams p (r :: rs) rest -> rest <> [] ->
    exists d left, r :: rs = d ++ left /\ [] = Execute <$> until_quit d
      /\ (if existsb quits d then pr_phase p = Closing else streams p left rest)
      /\ (rest = [] -> existsb quits d = false -> left = [])).
  { intros p Hp Hne. exists [], (r :: rs). by split_and!. }
  destruct fuel as [|fuel], u as [|c u]; try (simpl in Hfuel; lia);
    try (apply Hstay; [done|]; intros ->; apply completes_longer in Hex; pose proof (zlen_nonneg (enc_requests rs));
         change (zlen ([] ++ [])) with 0 in Hex; lia).
  pose proof (completes_start _ _ _ _ _ _ _ Hex) as H0. cbn [drain]. unfold drain_step.
  replace ((n =? 0)%nat && negb (bool_decide (first_byte (c :: u) = "*"%char))) with false.
  2:{ destruct (Nat.eqb_spec n 0) as [->|]; [|done]. destruct H0 as (_ & _ & [?|Hs]); [done..|].
      by rewrite bool_decide_true. }
  pose proof (spec_parse_progress limit (enc_requests rs) rest Hlim n bl acc r (c :: u) Hr Hex) as Hsp.
  pose proof (zlen_nonneg (enc_requests rs)) as Hnn.
  destruct (spec_parse limit n bl (c :: u) acc) as [n' bl' u' acc'| |u' args] eqn:Esp; simpl in Hsp; [|done|].
  { destruct Hsp as [Hc' Ht]. apply Hstay; [by split|]. intros ->. change (zlen []) with 0 in Ht. lia. }
  destruct Hsp as [-> Eu]. destruct Hr as [[Hlen _] _].
  assert (Hsh : (length u' <= fuel)%nat).
  { apply (f_equal zlen) in Eu. apply completes_longer in Hex. rewrite <- Eu, !zlen_app in Hex.
    unfold zlen in Hex. simpl in Hex, Hfuel. lia. }
  destruct r as [|a r]; [done|].
  assert (Hn2 : expects 0 (-1) [] rs (u' ++ rest)).
  { rewrite Eu. destruct rs as [|r2 rs]; [done|]. left. by rewrite enc_requests_cons. }
  destruct (IH fuel 0%nat (-1) u' [] Hvs Hn2 Hsh) as (d & left & -> & Hits & Hph & Hall).
  destruct (verb_of (a :: r)) as [v|] eqn:Ev; [|done].
  assert (Hq : quits (a :: r) = bool_decide (v = VQuit)).
  { unfold quits. rewrite Ev. apply bool_decide_ext. split; congruence. }
  destruct (decide (v = VQuit)) as [->|Hnq].
  - exists ((a :: r) :: d), left. simpl. rewrite Hq, bool_decide_true by done. by split_and!.
  - exists ((a :: r) :: d), left. rewrite (bool_decide_false _ Hnq) in Hq. simpl. rewrite Hq. simpl.
    destruct v; try done; cbn [pr_phase pr_n pr_bl pr_buf pr_acc];
      destruct (drain limit fuel 0 (-1) u' []); cbn [fst snd] in *; by rewrite Hits.
Qed.

Lemma until_quit_app (a b : list (list bytes)) :
  until_quit (a ++ b) = if existsb quits a then until_quit a else until_quit a ++ until_quit b.
Proof. induction a as [|r a IH]; [done|]. simpl. destruct (quits r); [done|]. simpl. rewrite IH. by destruct (existsb quits a). Qed.

Lemma peer_step_closing (limit : Z) (s : bytes) (p : peer) :
  pr_phase p = Closing -> fst (peer_step limit s p) = [] /\ pr_phase (snd (peer_step limit s p)) = Closing.
Proof. intros H. unfold peer_step. by rewrite H. Qed.

Lemma feed_all_cons (limit : Z) (s : bytes) (ss : list bytes) (p : peer) :
  feed_all limit (s :: ss) p =
  (fst (peer_step limit s p) ++ fst (feed_all limit ss (snd (peer_step limit s p))),
   snd (feed_all limit ss (snd (peer_step limit s p)))).
Proof. simpl. destruct (peer_step limit s p) as [its q]. simpl. by destruct (feed_all limit ss q). Qed.

Lemma feed_all_closing (limit : Z) (ss : list bytes) (p : peer) :
  pr_phase p = Closing -> fst (feed_all limit ss p) = [] /\ pr_phase (snd (feed_all limit ss p)) = Closing.
Proof.
  revert p. induction ss as [|s ss IH]; intros p H; [done|]. rewrite feed_all_cons. cbn [fst snd].
  destruct (peer_step_closing limit s p H) as [-> H']. by apply IH.
Qed.

(** A stream in pieces of any sizes: exactly its requests up to QUIT are
    executed, nothing else happens, and the connection is idle in the end. *)
Lemma feed_all_stream (limit : Z) (ss : list bytes) (rs : list (list bytes)) (p : peer) :
  limit < 2 ^ 62 -> Forall (sendable limit) rs -> streams p rs (mjoin ss) -> ss <> [] ->
  fst (feed_all limit ss p) = Execute <$> until_quit rs
  /\ (if existsb quits rs then pr_phase (snd (feed_all limit ss p)) = Closing
      else snd (feed_all limit ss p) = new_peer).
Proof.
  intros Hlim. revert rs p. induction ss as [|s ss IH]; intros rs p Hv [Hop Hex] Hne; [done|].
  rewrite mjoin_cons, app_assoc in Hex. rewrite feed_all_cons. cbn [fst snd].
  destruct (drain_stream limit (mjoin ss) rs (length (pr_buf p ++ s)) (pr_n p) (pr_bl p) (pr_buf p ++ s) (pr_acc p))
    as (d & left & -> & Hits & Hph & Hall); [done..|].
  assert (Es : peer_step limit s p = drain limit (length (pr_buf p ++ s)) (pr_n p) (pr_bl p) (pr_buf p ++ s) (pr_acc p)).
  { unfold peer_step. by rewrite Hop. }
  rewrite Es, Hits, until_quit_app, existsb_app. destruct (existsb quits d) eqn:Eq.
  - destruct (feed_all_closing limit ss _ Hph) as [-> ->]. by rewrite app_nil_r.
  - apply Forall_app in Hv as [_ Hv]. rewrite orb_false_l, fmap_app.
    destruct ss as [|s2 ss]; [|destruct (IH left _ Hv Hph) as [-> Hfin]; done].
    rewrite (Hall eq_refl eq_refl) in *. cbn [feed_all fst snd until_quit existsb fmap list_fmap].
    split; [by rewrite !app_nil_r|]. destruct Hph as [Hop' (Hn & Hb & Ha & Hbuf)].
    destruct (snd _) as [n bl acc u ph]. cbn in *. rewrite app_nil_r in Hbuf. by subst.
Qed.

End Streams.
