(* ===== verification/Sessions.v ===== *)
(** * Sessions: connections and concurrent clients

    Bytes arrive on a connection in pieces; the event loop of the library
    appends each piece to the query buffer and calls [redis_client_handle]
    (src/redis/client.c).  Several clients do so in any order on one server.
    For all bytes but those [item_ok] of Service.v excludes (inline requests among
    them) the server does what Streams.v specifies. *)

From S2P Require Import Prelude LatteC LatteCModel KvStore State Db Reply Protocol CommandManager Module.
From S2P Require Import StringModule Commands Client Service Streams.

(** The assertion of the parser that the client has been reset. *)
Abbreviation ASSERT_ARGC := (AssertFailed "client argc ! = 0").

(** ** One connection *)
Section Connection.
Context {L : LatteC} {LL : LatteCLaws}.
Context (files : bytes -> module_file).

(** No inline request has begun. *)
Definition no_inline (c : redis_client_t) : Prop := req_type c = 0 \/ req_type c = PROTO_REQ_MULTIBULK.

(** A client that has sent QUIT. *)
Definition closed (w : world) : Prop :=
  argc (w_client w) = 0 /\ no_inline (w_client w)
  /\ has_flag (cflags (client (w_client w))) (Z.lor CLIENT_CLOSE_AFTER_REPLY CLIENT_CLOSE_ASAP) = true.

(** A client of a server that represents [s]. *)
Record attached (w : world) (db : redis_db_t) (s : sstate) : Prop := {
  at_serving : serving w db s;
  at_commands : commands_ok (w_server w);
  at_ctx : parser_ctx w;
  at_reply : reply_ok (list_elems (reply (client (w_client w))));
  at_dbid : dbid (w_client w) = 0;
  at_keys : forall l, key_loc db l -> l ∉ arg_locs (w_client w);
  at_shared : forall l, shared_loc (w_shared w) l -> l ∉ arg_locs (w_client w)
}.

Lemma parsing_own (w : world) (n : nat) (bl : Z) (u : bytes) (acc : list bytes) :
  parsing ∅ w n bl u acc ->
  parsing (dom (w_heap w) ∖ list_to_set (arg_locs (w_client w))) w n bl u acc.
Proof.
  intros []. split; try done; [set_solver|]. intros Hpos. destruct (p_argv Hpos) as (ls & cells & Ha & Hn & Hown & _).
  exists ls, cells. split_and!; try done. apply Forall_forall. intros l Hl.
  rewrite (arg_locs_eq _ ls cells); [set_solver|done|].
  rewrite p_argc. unfold zlen. by rewrite (Forall2_length _ _ _ (proj2 Hown)).
Qed.

Lemma parsing_args (D : gset loc) (w : world) (n : nat) (bl : Z) (u : bytes) (acc : list bytes) :
  parsing D w n bl u acc ->
  Forall (fun l => l ∉ D) (arg_locs (w_client w)) /\ args_own (w_heap w) (arg_locs (w_client w)) acc
  /\ (acc <> [] -> exists cells, argv (w_client w) = Some (map Some (arg_locs (w_client w)) ++ cells)).
Proof.
  intros []. destruct acc as [|a acc].
  - rewrite arg_locs_none by done. split_and!; [constructor| |done]. by repeat constructor.
  - destruct p_argv as (ls & cells & Ha & _ & Hown & Hd); [simpl; lia|].
    assert (Eal : arg_locs (w_client w) = ls).
    { apply (arg_locs_eq _ ls cells Ha). rewrite p_argc. unfold zlen. by rewrite (Forall2_length _ _ _ (proj2 Hown)). }
    rewrite Eal. split_and!; try done. intros _. by exists cells.
Qed.

(** The request type of an open connection: multibulk, or not known between two
    requests. *)
Definition open_type (c : redis_client_t) (n : nat) : Prop :=
  (req_type c = 0 /\ n = 0%nat) \/ req_type c = PROTO_REQ_MULTIBULK.

(** The client is in the state [p] of the specification. *)
Definition represents (w : world) (p : peer) : Prop :=
  match pr_phase p with
  | Open => parsing ∅ w (pr_n p) (pr_bl p) (pr_buf p) (pr_acc p)
      /\ bounded (proto_max_bulk_len (w_server w)) (pr_n p) (pr_bl p) (pr_acc p)
      /\ open_type (w_client w) (pr_n p) /\ not_closing (w_client w)
  | Wedged => parsing ∅ w 0 (-1) (pr_buf p) (pr_acc p) /\ pr_acc p <> []
      /\ req_type (w_client w) = PROTO_REQ_MULTIBULK /\ not_closing (w_client w)
  | Closing => closed w
  end.

Lemma parsing_weaken (D : gset loc) (w : world) (n : nat) (bl : Z) (u : bytes) (acc : list bytes) :
  parsing D w n bl u acc -> parsing ∅ w n bl u acc.
Proof.
  intros []. split; try done. intros Hpos. destruct (p_argv Hpos) as (ls & cells & ? & ? & ? & _).
  exists ls, cells. split_and!; try done. apply Forall_true. intros l. apply not_elem_of_empty.
Qed.

(** The parsing half of an iteration, on any bytes that do not begin a line. *)
Lemma iteration_parse (lf : Z) (w : world) (n : nat) (bl : Z) (u : bytes) (acc : list bytes) :
  let D := dom (w_heap w) ∖ list_to_set (arg_locs (w_client w)) in
  parsing ∅ w n bl u acc -> bounded (proto_max_bulk_len (w_server w)) n bl acc -> open_type (w_client w) n ->
  u <> [] -> (n = 0%nat -> first_byte u = "*"%char) -> not_closing (w_client w) -> parser_ctx w ->
  exists ret w', parse_post D (set_w_client w (set_req_type (w_client w) PROTO_REQ_MULTIBULK)) w' ret
      (spec_parse (proto_max_bulk_len (w_server w)) n bl u acc)
    /\ input_iteration files lf w = (if negb (ret =? 0) then mret Break else
         c ← get_client;
         if argc c =? 0 then _ ← reset_redis_client; mret NextIteration
         else x ← process_command_and_reset_client files; mret (if x =? -1 then Return 0 else NextIteration)) w'.
Proof.
  intros D Hp Hb Hty Hu Hstar Hncl Hctx. set (w1 := set_w_client w (set_req_type (w_client w) PROTO_REQ_MULTIBULK)).
  assert (HpD : parsing D w1 n bl u acc) by (destruct (parsing_own _ _ _ _ _ Hp); split; assumption).
  assert (E1 : forall {B} (k : unit -> M B), (x ← (if req_type (w_client w) =? 0 then
      p ← lift (qb_str (client (w_client w)));
      mod_client (fun c => set_req_type c
        (if bool_decide (first_byte p = "*"%char) then PROTO_REQ_MULTIBULK else PROTO_REQ_INLINE))
    else mret tt); k x) w = k tt w1).
  { intros B k. apply bind_Done. destruct Hty as [[Ht ->]|Ht]; rewrite Ht.
    - simpl (0 =? 0). cbv iota. rewrite (bind_lift _ _ _ u) by (apply qb_str_ok; apply Hp).
      by rewrite (bool_decide_true _ (Hstar eq_refl)).
    - assert (Ew : w1 = w) by (unfold w1; rewrite <- Ht; by destruct w as [? ? ? [] ?]). by rewrite Ew. }
  destruct (multibulk_buffer_ok D w1 n bl u acc HpD) as (ret & w' & E & Hpost); [|done|].
  { intros H0. destruct (bd_zero _ _ _ _ Hb H0). split_and!; [done..|]. right. by apply Hstar. }
  exists ret, w'. split; [exact Hpost|]. unfold input_iteration. mstep. rewrite Hncl, E1. mstep.
  cbn [req_type w_client w1 set_w_client set_req_type]. by rewrite (bind_Done _ _ _ _ _ E).
Qed.

(** Parsing does not disturb the server, and takes no object it does not own. *)
Lemma attached_parse (w w' : world) (db : redis_db_t) (s : sstate) (n : nat) (bl : Z) (u : bytes) (acc : list bytes) (out : bytes) :
  attached w db s -> parse_frame (set_w_client w (set_req_type (w_client w) PROTO_REQ_MULTIBULK)) w' out ->
  parsing (dom (w_heap w) ∖ list_to_set (arg_locs (w_client w))) w' n bl u acc ->
  attached w' db s /\ keeps w db w' db /\ same_setup w w' /\ output w' = append_last (output w) out
  /\ req_type (w_client w') = PROTO_REQ_MULTIBULK /\ (not_closing (w_client w) -> not_closing (w_client w')).
Proof.
  intros [Hs Hc Hctx Hrep Hd Hk Hsh] [] Hp. cbn in pf_server, pf_shared, pf_ticks, pf_heap, pf_flag, pf_req_type, pf_dbid, pf_cflags, pf_size.
  destruct (parsing_args _ _ _ _ _ _ Hp) as (Hfr & _). rewrite Forall_forall in Hfr.
  assert (Hs' : serving w' db s) by (by eapply serving_mono; [rewrite pf_server..| | | |exact Hs]).
  assert (Hout : forall l, l ∈ dom (w_heap w) -> l ∉ arg_locs (w_client w) -> l ∉ arg_locs (w_client w')).
  { intros l H1 H2 Hl. apply (Hfr l Hl). apply elem_of_difference. split; [done|]. by rewrite elem_of_list_to_set. }
  split_and!; try done.
  - split; try done.
    + by rewrite pf_server.
    + destruct Hctx. split; congruence.
    + by apply pf_reply.
    + congruence.
    + intros l Hl. apply Hout; [|by apply Hk]. destruct Hl as (k & Hl).
      destruct (serving_key _ _ _ _ _ Hs Hl) as (v & o & _ & Ho & _). apply elem_of_dom. eauto.
    + rewrite pf_shared. intros l Hl. apply Hout; [|by apply Hsh]. eapply shared_loc_in; [apply Hs|done].
  - apply keeps_intro.
    + intros l (H1 & H2 & H3). split_and!; [by apply Hout|done|]. apply elem_of_dom in H1 as [o Ho].
      rewrite Ho. by eapply lookup_weaken.
    + intros l (H1%elem_of_dom & H2 & H3). split_and!; [|intros Hl; by apply H2, pf_args|done].
      apply elem_of_dom. by destruct (pf_new l H1).
  - unfold same_setup. split_and!; congruence || done.
  - unfold not_closing. by rewrite pf_cflags.
Qed.

(** Giving up no arguments. *)
Lemma reset_nothing (w : world) (u : bytes) :
  parsing ∅ w 0 (-1) u [] ->
  exists w', reset_redis_client w = Done (tt, w') /\ parsing ∅ w' 0 (-1) u [] /\ req_type (w_client w') = 0
    /\ w_heap w' = w_heap w /\ w_server w' = w_server w /\ w_shared w' = w_shared w /\ w_ticks w' = w_ticks w
    /\ client (w_client w') = client (w_client w) /\ flag (w_client w') = flag (w_client w)
    /\ dbid (w_client w') = dbid (w_client w).
Proof.
  intros Hp. pose proof Hp as [_ Hpos Hsz Hu _ _ _ Hargc _].
  destruct (reset_ok w [] [] u) as (h' & E & Hp' & _ & Hh); [done|done|done|constructor|by intros l ?%elem_of_nil|].
  assert (h' = w_heap w) as -> by (apply map_eq; intros l; apply Hh, not_elem_of_nil).
  eexists. split; [exact E|]. by split_and!.
Qed.

(** Room for [n] more keys and times. *)
Definition rooms (n : Z) (db : redis_db_t) : Prop :=
  total_keys (keys db) + n < 2 ^ 64 /\ total_keys (expires db) + n < 2 ^ 64.

Lemma input_loop_S (garbage : nat -> Z) (fuel : nat) (w : world) :
  input_loop files garbage (S fuel) w =
  let finish := fun w => Done (if negb (qb_pos (client (w_client w)) =? 0) then 1 else 0, w) in
  if qb_pos (client (w_client w)) <? sds_len (querybuf (client (w_client w))) then
    (st ← input_iteration files (garbage fuel);
     match st with
     | NextIteration => input_loop files garbage fuel
     | Break => finish
     | Return r => mret r
     end) w
  else finish w.
Proof. simpl. mstep. by destruct (_ <? _). Qed.

(** A closed client: whatever arrives, nothing happens any more. *)
Lemma closed_loop (garbage : nat -> Z) (fuel : nat) (w : world) :
  closed w -> exists r, input_loop files garbage (S fuel) w = Done (r, w).
Proof.
  intros (_ & _ & Hcl). rewrite input_loop_S. destruct (_ <? _); [|by eexists].
  erewrite bind_Done by (unfold input_iteration; mstep; rewrite Hcl; reflexivity). by eexists.
Qed.

Definition replies {A} (log : list (A * bytes)) : bytes := mjoin (snd <$> log).

Lemma spec_run_cons {A} (s : sstate) (i : A) (it : item) (tr : list (A * item)) :
  spec_run s ((i, it) :: tr)
  = (fst (spec_run (fst (spec_item s it)) tr), (i, snd (spec_item s it)) :: snd (spec_run (fst (spec_item s it)) tr)).
Proof. simpl. destruct (spec_item s it) as [s1 out]. simpl. by destruct (spec_run s1 tr). Qed.

Lemma spec_run_app {A} (s : sstate) (a b : list (A * item)) :
  spec_run s (a ++ b) = (fst (spec_run (fst (spec_run s a)) b), snd (spec_run s a) ++ snd (spec_run (fst (spec_run s a)) b)).
Proof.
  revert s. induction a as [|[i r] a IH]; intros s; [apply surjective_pairing|].
  cbn [app]. by rewrite !spec_run_cons, IH.
Qed.

(** The items [its] of client [i] have been dealt with. *)
Record served {A} (i : A) (its : list item) (w : world) (db : redis_db_t) (s : sstate)
    (w' : world) (db' : redis_db_t) : Prop := {
  sd_attached : attached w' db' (fst (spec_run s (pair i <$> its)));
  sd_output : output w' = append_last (output w) (replies (snd (spec_run s (pair i <$> its))));
  sd_keeps : keeps w db w' db';
  sd_setup : same_setup w w';
  sd_grows : grows_by (zlen its) db db'
}.

Lemma served_nil {A} (i : A) (w : world) (db : redis_db_t) (s : sstate) : attached w db s -> served i [] w db s w db.
Proof.
  intros Ha. split; try done; [|change (grows_by 0 db db); split; lia].
  change (output w = append_last (output w) []). unfold output. rewrite append_last_nil; auto with latte.
Qed.

Lemma served_trans {A} (i : A) (a b : list item) (w w1 w2 : world) (db db1 db2 : redis_db_t) (s : sstate) :
  served i a w db s w1 db1 -> served i b w1 db1 (fst (spec_run s (pair i <$> a))) w2 db2 ->
  served i (a ++ b) w db s w2 db2.
Proof.
  intros [H1 H2 H3 H4 H5] [G1 G2 G3 G4 G5]. split; rewrite ?fmap_app, ?spec_run_app; cbn [fst snd]; try done.
  - rewrite G2, H2. unfold output, replies. rewrite append_last_app by auto with latte. by rewrite fmap_app, join_app.
  - by eapply keeps_trans.
  - by eapply same_setup_trans.
  - rewrite zlen_app. unfold grows_by in *. lia.
Qed.

(** What the parser does alone: nothing, or a protocol error. *)
Lemma served_parse {A} (i : A) (its : list item) (w w' : world) (db : redis_db_t) (s : sstate) (n : nat) (bl : Z)
    (u : bytes) (acc : list bytes) (out : bytes) :
  attached w db s -> parse_frame (set_w_client w (set_req_type (w_client w) PROTO_REQ_MULTIBULK)) w' out ->
  parsing (dom (w_heap w) ∖ list_to_set (arg_locs (w_client w))) w' n bl u acc ->
  (its = [] /\ out = []) \/ its = [Complain out] -> served i its w db s w' db.
Proof.
  intros Hat Hf Hp Hits. destruct (attached_parse w w' db s _ _ _ _ _ Hat Hf Hp) as (Hat' & Hk & Hset & Ho & _).
  assert (Hr : fst (spec_run s (pair i <$> its)) = s /\ replies (snd (spec_run s (pair i <$> its))) = out).
  { destruct Hits as [[-> ->]| ->]; [done|]. split; [done|]. unfold replies. simpl. apply app_nil_r. }
  destruct Hr as [Hr1 Hr2]. split; rewrite ?Hr1, ?Hr2; try done. pose proof (zlen_nonneg its). unfold grows_by. lia.
Qed.

(** After an attempt to parse a client is still open. *)
Lemma represents_open (w w' : world) (n' : nat) (bl' : Z) (u' : bytes) (acc' : list bytes) (D : gset loc) :
  parsing D w' n' bl' u' acc' -> bounded (proto_max_bulk_len (w_server w)) n' bl' acc' ->
  same_setup w w' -> req_type (w_client w') = PROTO_REQ_MULTIBULK -> not_closing (w_client w') ->
  represents w' (mk_peer n' bl' acc' u' Open).
Proof.
  intros Hp Hb (_ & El & _) Ht Hn. split; [by eapply parsing_weaken|]. cbn [pr_n pr_bl pr_acc pr_buf].
  rewrite El. split; [done|]. split; [by right|done].
Qed.

(** A complete request. *)
Lemma parsed_request (w : world) (db : redis_db_t) (s : sstate) (D : gset loc) (u : bytes) (r : list bytes) :
  attached w db s -> parsing D w 0 (-1) u r -> r <> [] -> parsed w db (arg_locs (w_client w)) r.
Proof.
  intros [] Hp Hne. destruct (parsing_args _ _ _ _ _ _ Hp) as (_ & Hown & Hargv).
  split; try done; [by apply Hargv|by destruct Hp].
Qed.

(** The server after a command that is known. *)
Lemma request_served {A} (i : A) (w : world) (db : redis_db_t) (s : sstate) (D : gset loc) (u : bytes) (r : list bytes) (v : verb) :
  attached w db s -> parsing D w 0 (-1) u r -> request_valid files (proto_max_bulk_len (w_server w)) r ->
  verb_of r = Some v -> db_room db -> not_closing (w_client w) ->
  exists w' db', process_command_and_reset_client files w = Done (0, w') /\ served i [Execute r] w db s w' db'
    /\ represents w' (mk_peer 0 (-1) [] u (if quits r then Closing else Open)).
Proof.
  intros Hat Hp Hval Hv Hroom Hncl. pose proof Hat as [Hs Hc Hctx Hrep Hd Hak Hash].
  assert (Hne : r <> []) by (intros ->; by destruct Hval as [[[? _] _] _]).
  destruct (run_request_ok files w db _ s r u v Hv Hs (parsed_request _ _ _ _ _ _ Hat Hp Hne))
    as (w2 & db2 & Er & Hs2 & Hg & Ho2 & Hp2 & Ht2 & Hset2 & Hk2 & Hrep2 & Hcl); try done.
  { by destruct Hp. } { apply Hctx. }
  pose proof Hset2 as (E1 & E2 & E3 & E4 & _). assert (Hnone : argc (w_client w2) = 0) by (by destruct Hp2).
  exists w2, db2. split; [done|]. cbn [fmap list_fmap]. split.
  - split; cbn [fmap list_fmap]; rewrite ?spec_run_cons; cbn [fst snd spec_item spec_run]; try done.
    + split; try done.
      * by eapply commands_ok_same.
      * split; [rewrite E3; apply Hctx|rewrite E2; apply Hctx].
      * by rewrite E4.
      * intros l _. rewrite arg_locs_none by done. apply not_elem_of_nil.
      * intros l _. rewrite arg_locs_none by done. apply not_elem_of_nil.
    + rewrite Ho2. unfold replies. simpl. by rewrite app_nil_r.
  - unfold represents. cbn [pr_phase]. destruct (quits r); [split_and!; [done|by left|done]|]. cbn [pr_n pr_bl pr_acc pr_buf].
    split_and!; [done|apply bounded_start|by left|done].
Qed.

(** The server after a command nobody knows. *)
Lemma unknown_served {A} (i : A) (w : world) (db : redis_db_t) (s : sstate) (D : gset loc) (u : bytes) (r : list bytes) :
  attached w db s -> parsing D w 0 (-1) u r -> r <> [] -> command_valid files r -> verb_of r = None ->
  req_type (w_client w) = PROTO_REQ_MULTIBULK -> not_closing (w_client w) ->
  exists w', process_command_and_reset_client files w = Done (0, w') /\ served i [Execute r] w db s w' db
    /\ represents w' (mk_peer 0 (-1) r u Wedged).
Proof.
  intros Hat Hp Hne Hval Hv Ht Hncl. pose proof (parsed_request _ _ _ _ _ _ Hat Hp Hne) as Hpd.
  eexists. split; [by apply (run_unknown_ok files w db _ s r Hv Hval Hpd Hne), Hat|].
  assert (Hsp : spec_item s (Execute r) = (s, [])) by (simpl; unfold spec_exec; by rewrite Hv).
  split; [split; cbn [fmap list_fmap]; rewrite ?spec_run_cons, ?Hsp; cbn [fst snd spec_run]; try done|].
  - destruct Hat. split; try done. eapply serving_mono; [..|exact at_serving0]; done.
  - change (output w = append_last (output w) []). unfold output. rewrite append_last_nil; auto with latte.
  - unfold grows_by. change (zlen [_]) with 1. lia.
  - split; [|done]. apply parsing_weaken in Hp. destruct Hp. by split.
Qed.
(** Nothing is left to parse. *)
Lemma loop_idle (garbage : nat -> Z) (fuel : nat) (w : world) (D : gset loc) (n : nat) (bl : Z) (acc : list bytes) :
  parsing D w n bl [] acc -> exists x, input_loop files garbage (S fuel) w = Done (x, w).
Proof.
  intros [_ Hpos _ Hu _ _ _ _ _]. rewrite input_loop_S. pose proof (zlen_unparsed _ _ Hpos Hu) as Hz.
  change (zlen []) with 0 in Hz. rewrite sds_len_spec. replace (_ <? _) with false by lia. by eexists.
Qed.

(** An iteration that leaves the loop, and one that does not. *)
Lemma loop_step (garbage : nat -> Z) (fuel : nat) (w : world) (D : gset loc) (n : nat) (bl : Z) (u : bytes) (acc : list bytes) :
  parsing D w n bl u acc -> u <> [] ->
  input_loop files garbage (S fuel) w =
  (st ← input_iteration files (garbage fuel);
   match st with
   | NextIteration => input_loop files garbage fuel
   | Break => fun w => Done (if negb (qb_pos (client (w_client w)) =? 0) then 1 else 0, w)
   | Return r => mret r
   end) w.
Proof.
  intros [_ Hpos _ Hu _ _ _ _ _] Hne. rewrite input_loop_S. pose proof (zlen_unparsed _ _ Hpos Hu) as Hz.
  destruct u as [|c u]; [done|]. rewrite zlen_cons in Hz. pose proof (zlen_nonneg u).
  rewrite sds_len_spec. by replace (_ <? _) with true by lia.
Qed.

(** The end of the loop, the items [its] having been dealt with. *)
Definition loop_post {A} (i : A) (its : list item) (p : peer) (w : world) (db : redis_db_t) (s : sstate) (o : outcome (Z * world)) : Prop :=
  if existsb aborts its then o = Fault ASSERT_ARGC
  else exists x w' db', o = Done (x, w') /\ served i its w db s w' db' /\ represents w' p.

Lemma loop_post_cons {A} (i : A) (a b : list item) (p : peer) (w w1 : world) (db db1 : redis_db_t) (s : sstate) (o : outcome (Z * world)) :
  existsb aborts a = false -> served i a w db s w1 db1 ->
  loop_post i b p w1 db1 (fst (spec_run s (pair i <$> a))) o -> loop_post i (a ++ b) p w db s o.
Proof.
  intros Ha Hs. unfold loop_post. rewrite existsb_app, Ha, orb_false_l. destruct (existsb aborts b); [done|].
  intros (x & w' & db' & E & Hs' & Hr). exists x, w', db'. split; [done|]. split; [by eapply served_trans|done].
Qed.

Lemma abort_if_aborts (u : bytes) : existsb aborts (abort_if u) = bool_decide (u <> []).
Proof. by destruct u. Qed.

(** Bytes behind an unknown command, or none. *)
Lemma loop_wedged {A} (i : A) (garbage : nat -> Z) (fuel : nat) (w : world) (db : redis_db_t) (s : sstate) (u : bytes) (acc : list bytes) :
  attached w db s -> represents w (mk_peer 0 (-1) acc u Wedged) ->
  loop_post i (abort_if u) (mk_peer 0 (-1) acc u Wedged) w db s (input_loop files garbage (S fuel) w).
Proof.
  intros Hat Hre. pose proof Hre as (Hp & Hne & Ht & Hncl). cbn [pr_buf pr_acc] in *. unfold loop_post.
  rewrite abort_if_aborts. case_bool_decide as Hu.
  - apply (input_wedged files garbage fuel w u); try done; [|by destruct Hp|by destruct Hp].
    rewrite (p_argc _ _ _ _ _ _ Hp). destruct acc as [|a acc]; [done|]. rewrite zlen_cons. pose proof (zlen_nonneg acc). lia.
  - subst u. destruct (loop_idle garbage fuel w _ _ _ _ Hp) as (x & E).
    exists x, w, db. split; [done|]. split; [by apply served_nil|done].
Qed.

(** An empty request. *)
Lemma empty_served {A} (i : A) (w : world) (db : redis_db_t) (s : sstate) (D : gset loc) (u : bytes) :
  attached w db s -> parsing D w 0 (-1) u [] -> not_closing (w_client w) ->
  exists w', reset_redis_client w = Done (tt, w') /\ served i [] w db s w' db /\ represents w' (mk_peer 0 (-1) [] u Open).
Proof.
  intros Hat Hp Hncl.
  destruct (reset_nothing w u (parsing_weaken _ _ _ _ _ _ Hp)) as (w' & Er & Hp' & Ht & Hh & Hsr & Hshr & Htk & Hcl & Hfl & Hdb).
  assert (Ha' : arg_locs (w_client w') = []) by (apply arg_locs_none; by destruct Hp').
  assert (Ha : arg_locs (w_client w) = []) by (apply arg_locs_none; by destruct Hp).
  exists w'. split; [done|]. split.
  - split; try done; [destruct Hat; split; rewrite ?Hsr, ?Hshr, ?Ha', ?Hdb, ?Hcl; try done|..|change (grows_by 0 db db); split; lia].
    + eapply serving_mono; [..|exact at_serving0]; rewrite ?Hsr, ?Hshr, ?Htk, ?Hh; done.
    + destruct at_ctx0. split; congruence.
    + intros l _. apply not_elem_of_nil.
    + intros l _. apply not_elem_of_nil.
    + change (output w' = append_last (output w) []). unfold output. rewrite Hcl, append_last_nil; auto with latte.
    + intros l. unfold protected. rewrite Hh, Ha, Ha'. done.
    + unfold same_setup. rewrite Hsr, Hshr, Hcl, Hfl, Hdb. by split_and!.
  - split; [done|]. split; [apply bounded_start|]. split; [by left|]. unfold not_closing in *. by rewrite Hcl.
Qed.

(** A request, whatever the command. *)
Lemma command_served {A} (i : A) (w : world) (db : redis_db_t) (s : sstate) (D : gset loc) (u a : bytes) (r : list bytes) :
  attached w db s -> parsing D w 0 (-1) u (a :: r) -> request_valid files (proto_max_bulk_len (w_server w)) (a :: r) -> db_room db ->
  req_type (w_client w) = PROTO_REQ_MULTIBULK -> not_closing (w_client w) ->
  exists w' db', process_command_and_reset_client files w = Done (0, w') /\ served i [Execute (a :: r)] w db s w' db'
    /\ represents w' match verb_of (a :: r) with
        | None => mk_peer 0 (-1) (a :: r) u Wedged
        | Some VQuit => mk_peer 0 (-1) [] u Closing
        | Some _ => mk_peer 0 (-1) [] u Open
        end.
Proof.
  intros Hat Hp Hval Hroom Ht Hncl. destruct (verb_of (a :: r)) as [v|] eqn:Ev.
  - destruct (request_served i w db s D u (a :: r) v Hat Hp Hval Ev Hroom Hncl) as (w' & db' & E & Hs & Hre).
    exists w', db'. split; [done|]. split; [done|]. revert Hre. unfold quits. rewrite Ev. by destruct v.
  - destruct (unknown_served i w db s D u (a :: r) Hat Hp) as (w' & E & Hs & Hre); try done; [apply Hval|]. by exists w', db.
Qed.

(** One iteration does what the specification says of one request. *)
Lemma iteration_ok {A} (i : A) (lf : Z) (w : world) (db : redis_db_t) (s : sstate) (n : nat) (bl : Z) (u : bytes) (acc : list bytes)
    (its : list item) (p : peer) (again : bool) :
  attached w db s -> represents w (mk_peer n bl acc u Open) -> u <> [] ->
  drain_step (proto_max_bulk_len (w_server w)) n bl u acc = (its, p, again) ->
  Forall (item_ok files) its -> rooms (zlen its) db ->
  exists w' db', input_iteration files lf w = Done (if again then NextIteration else Break, w')
    /\ served i its w db s w' db' /\ represents w' p.
Proof.
  intros Hat (Hp & Hb & Hty & Hncl) Hu. cbn [pr_n pr_bl pr_acc pr_buf] in *. unfold drain_step.
  destruct ((n =? 0)%nat && negb (bool_decide (first_byte u = "*"%char))) eqn:Ei.
  { intros [= <- <- <-] Hok. by inversion Hok. }
  assert (Hstar : n = 0%nat -> first_byte u = "*"%char).
  { intros ->. simpl in Ei. apply negb_false_iff, bool_decide_eq_true in Ei. done. }
  destruct (iteration_parse lf w n bl u acc Hp Hb Hty Hu Hstar Hncl (at_ctx _ _ _ Hat)) as (ret & w1 & Hpost & Eit).
  rewrite Eit. clear Eit. pose proof (spec_parse_bounds _ n bl u acc Hb Hu) as Hbd.
  destruct (spec_parse _ n bl u acc) as [n' bl' u' acc'|n' u' acc' out|u' r]; simpl in Hpost, Hbd.
  1, 2: destruct Hpost as (-> & Hf & Hp'), Hbd as [Hb' H0]; intros [= <- <- <-] _ _;
    destruct (attached_parse w w1 db s _ _ _ _ _ Hat Hf Hp') as (_ & _ & Hset & _ & Ht & Hn);
    exists w1, db; (split; [done|]); (split; [eapply served_parse; eauto|]); eapply (represents_open w w1); eauto.
  destruct Hpost as (-> & Hf & Hp'), Hbd as (Hlen & Hall & Hsh).
  destruct (attached_parse w w1 db s _ _ _ _ _ Hat Hf Hp') as (Hat1 & _ & Hset & _ & Ht & Hn). specialize (Hn Hncl).
  assert (Hsv1 : served i [] w db s w1 db) by (by eapply served_parse; [..|by left]).
  pose proof Hset as (_ & El & _). simpl (negb (0 =? 0)). cbv iota. mstep.
  rewrite (p_argc _ _ _ _ _ _ Hp'). destruct r as [|a r]; intros [= <- <- <-] Hok Hroom.
  - destruct (empty_served i w1 db s _ u' Hat1 Hp' Hn) as (w2 & Er & Hsv & Hre). exists w2, db.
    simpl (zlen [] =? 0). cbv iota. rewrite (bind_Done _ _ _ _ _ Er). split; [done|]. split; [|done].
    by apply (served_trans i [] [] w w1 w2 db db db s).
  - inversion Hok as [|? ? Hcv _]; subst.
    destruct (command_served i w1 db s _ u' a r Hat1 Hp') as (w2 & db2 & Er & Hsv & Hre); try done.
    { rewrite El. split; [|done]. split; [|done]. rewrite zlen_cons in *. pose proof (zlen_nonneg r). lia. }
    exists w2, db2. replace (zlen (a :: r) =? 0) with false by (rewrite zlen_cons; pose proof (zlen_nonneg r); lia).
    cbv iota. rewrite (bind_Done _ _ _ _ _ Er). split; [done|]. split; [|done].
    by apply (served_trans i [] [Execute (a :: r)] w w1 w2 db db db2 s).
Qed.

(** The loop over the query buffer does what the specification says of the
    bytes in it. *)
Lemma loop_ok {A} (i : A) (garbage : nat -> Z) (k fuel : nat) (w : world) (db : redis_db_t) (s : sstate)
    (n : nat) (bl : Z) (u : bytes) (acc : list bytes) :
  attached w db s -> represents w (mk_peer n bl acc u Open) -> (length u <= k)%nat -> (length u < fuel)%nat ->
  let r := drain (proto_max_bulk_len (w_server w)) k n bl u acc in
  Forall (item_ok files) (fst r) -> rooms (zlen (fst r)) db ->
  loop_post i (fst r) (snd r) w db s (input_loop files garbage fuel w).
Proof.
  revert fuel w db s n bl u acc. induction k as [|k IH]; intros fuel w db s n bl u acc Hat Hre Hk Hfuel; cbv zeta;
    (destruct fuel as [|fuel]; [lia|]); pose proof Hre as (Hp & Hb & _ & _); cbn [pr_n pr_bl pr_acc pr_buf] in *;
    (destruct u as [|c u]; [intros _ _; destruct (loop_idle garbage fuel w _ _ _ _ Hp) as (x & E);
       exists x, w, db; by auto using served_nil|]).
  { simpl in Hk. lia. }
  rewrite (loop_step garbage fuel w _ _ _ _ _ Hp) by done. set (u0 := c :: u) in *. assert (Hu0 : u0 <> []) by done.
  set (lim := proto_max_bulk_len (w_server w)) in *. rewrite drain_S by done. clearbody u0.
  destruct (drain_step lim n bl u0 acc) as [[its p] again] eqn:Est.
  destruct (drain_step_bounds _ _ _ _ _ _ _ _ Hb Hu0 Est) as (Hbp & Hsh & Hna).
  assert (Hit : Forall (item_ok files) its -> rooms (zlen its) db ->
    exists w' db', input_iteration files (garbage fuel) w = Done (if again then NextIteration else Break, w')
      /\ served i its w db s w' db' /\ represents w' p) by (by apply (iteration_ok i (garbage fuel) w db s n bl u0 acc)).
  destruct again.
  2:{ intros Hok Hroom. destruct (Hit Hok Hroom) as (w1 & db1 & E & Hsv & Hre1). rewrite (bind_Done _ _ _ _ _ E).
      unfold loop_post. cbn [fst snd]. rewrite Hna. by eexists _, w1, db1. }
  specialize (Hsh eq_refl). destruct fuel as [|fuel]; [simpl in Hfuel; lia|]. destruct (pr_phase p) eqn:Eph.
  - destruct p as [n1 bl1 acc1 u1 ph]. cbn [pr_n pr_bl pr_acc pr_buf pr_phase] in *. subst ph.
    destruct (drain lim k n1 bl1 u1 acc1) as [its2 q] eqn:Ed. cbn [fst snd]. rewrite Forall_app, zlen_app.
    intros [Hok Hok2] Hroom. pose proof (zlen_nonneg its2). destruct Hit as (w1 & db1 & E & Hsv & Hre1); [done|unfold rooms in *; lia|].
    rewrite (bind_Done _ _ _ _ _ E). apply (loop_post_cons i its its2 q w w1 db db1 s); try done.
    pose proof (IH (S fuel) w1 db1 (fst (spec_run s (pair i <$> its))) n1 bl1 u1 acc1 (sd_attached _ _ _ _ _ _ _ Hsv) Hre1) as IH2.
    pose proof (sd_setup _ _ _ _ _ _ _ Hsv) as (_ & El & _). fold lim in El. rewrite El, Ed in IH2. cbn [fst snd] in IH2.
    apply IH2; try done; [lia|lia|]. pose proof (sd_grows _ _ _ _ _ _ _ Hsv). unfold rooms, grows_by in *. lia.
  - destruct p as [n1 bl1 acc1 u1 ph]. cbn [pr_n pr_bl pr_acc pr_buf pr_phase fst snd] in *. subst ph.
    rewrite Forall_app, zlen_app. pose proof (zlen_nonneg (abort_if u1)).
    intros [Hok _] Hroom. destruct Hit as (w1 & db1 & E & Hsv & Hre1); [done|unfold rooms in *; lia|].
    rewrite (bind_Done _ _ _ _ _ E). apply (loop_post_cons i its (abort_if u1) _ w w1 db db1 s); try done.
    apply loop_wedged; [apply Hsv|done].
  - cbn [fst snd]. intros Hok Hroom. destruct (Hit Hok Hroom) as (w1 & db1 & E & Hsv & Hre1). rewrite (bind_Done _ _ _ _ _ E).
    pose proof Hre1 as Hcl. unfold represents in Hcl. rewrite Eph in Hcl.
    destruct (closed_loop garbage fuel w1 Hcl) as (x & Ex). unfold loop_post. rewrite Hna. by exists x, w1, db1.
Qed.
End Connection.

(** ** Concurrent clients *)
Section System.
Context {L : LatteC} {LL : LatteCLaws}.
Context (files : bytes -> module_file).

(** Bytes have arrived on the connection of a client. *)
Record event := mk_event {
  ev_client : cid;
  ev_trim : bool;
  ev_bytes : bytes;
  ev_garbage : nat -> Z
}.

(** The server with its clients; the client of [sys_world] plays no role. *)
Record system := mk_system {
  sys_world : world;
  sys_clients : gmap cid redis_client_t
}.

Definition client_world (n : system) (c : redis_client_t) : world := set_w_client (sys_world n) c.

Definition read_event (fuel : nat) (e : event) : M Z :=
  _ ← deliver (ev_trim e) (ev_bytes e);
  redis_client_handle files (ev_garbage e) fuel (zlen (ev_bytes e)).

Definition serve_event (fuel : nat) (e : event) (n : system) : outcome system :=
  c ← deref (sys_clients n !! ev_client e);
  '(_, w) ← read_event fuel e (client_world n c);
  Done (mk_system w (<[ev_client e := w_client w]> (sys_clients n))).

(** The items in the order in which the last bytes they depend on arrive. *)
Fixpoint schedule (limit : Z) (ps : gmap cid peer) (es : list event) : list (cid * item) * gmap cid peer :=
  match es with
  | [] => ([], ps)
  | e :: es =>
      match ps !! ev_client e with
      | None => schedule limit ps es
      | Some p =>
          let '(its, p') := peer_step limit (ev_bytes e) p in
          let '(tr, ps') := schedule limit (<[ev_client e := p']> ps) es in
          ((pair (ev_client e) <$> its) ++ tr, ps')
      end
  end.

(** The pieces client [i] sends in [es], what it is answered in [log], and its
    items in [tr]. *)
Definition pieces (i : cid) (es : list event) : list bytes := ev_bytes <$> filter (fun e => ev_client e = i) es.

Definition sent (i : cid) (es : list event) : bytes := mjoin (pieces i es).

Definition replies_to (i : cid) (log : list (cid * bytes)) : bytes :=
  replies (filter (fun x => fst x = i) log).

Definition items_of (i : cid) (tr : list (cid * item)) : list item := snd <$> filter (fun x => fst x = i) tr.

(** One client of a system. *)
Record connected (w : world) (db : redis_db_t) (p : peer) : Prop := {
  co_ctx : parser_ctx w;
  co_reply : reply_ok (list_elems (reply (client (w_client w))));
  co_dbid : dbid (w_client w) = 0;
  co_keys : forall l, key_loc db l -> l ∉ arg_locs (w_client w);
  co_shared : forall l, shared_loc (w_shared w) l -> l ∉ arg_locs (w_client w);
  co_state : represents w p
}.

Record system_ok (n : system) (db : redis_db_t) (s : sstate) (ps : gmap cid peer) : Prop := {
  so_serving : serving (sys_world n) db s;
  so_commands : commands_ok (w_server (sys_world n));
  so_dom : dom ps = dom (sys_clients n);
  so_client : forall i c p, sys_clients n !! i = Some c -> ps !! i = Some p -> connected (client_world n c) db p;
  so_disjoint : forall i j c c' l, i <> j -> sys_clients n !! i = Some c -> sys_clients n !! j = Some c' ->
    l ∈ arg_locs c -> l ∉ arg_locs c'
}.

(** An object that is neither a value of the database nor an argument of a client. *)
Definition stray (n : system) (db : redis_db_t) (l : loc) : Prop :=
  l ∈ dom (w_heap (sys_world n)) /\ ~ key_loc db l
  /\ forall i c, sys_clients n !! i = Some c -> l ∉ arg_locs c.

(** Between [n] and [n'] no object has been lost or taken: the same objects are
    stray, and they have not changed. *)
Definition no_leaks (n : system) (db : redis_db_t) (n' : system) (db' : redis_db_t) : Prop :=
  forall l, (stray n' db' l <-> stray n db l)
    /\ (stray n db l -> w_heap (sys_world n') !! l = w_heap (sys_world n) !! l).

Lemma no_leaks_refl (n : system) (db : redis_db_t) : no_leaks n db n db.
Proof. by intros l. Qed.

Lemma no_leaks_trans (n1 n2 n3 : system) (db1 db2 db3 : redis_db_t) :
  no_leaks n1 db1 n2 db2 -> no_leaks n2 db2 n3 db3 -> no_leaks n1 db1 n3 db3.
Proof.
  intros H1 H2 l. destruct (H1 l) as [I1 E1], (H2 l) as [I2 E2]. split; [by rewrite I2|].
  intros Hl. rewrite E2 by (by apply I1). by apply E1.
Qed.

(** Query buffers stay below the fuel and the width of their sizes when the
    clients send what they send in [es]. *)
Definition ample (fuel : nat) (n : system) (es : list event) : Prop :=
  Forall (fun e => is_Some (sys_clients n !! ev_client e)) es
  /\ forall i c, sys_clients n !! i = Some c ->
     zlen (querybuf (client c)) + zlen (sent i es) < Z.min (Z.of_nat fuel) (2 ^ 62).

Lemma args_own_frame (h h' : heap) (ls : list loc) (args : list bytes) :
  args_own h ls args -> (forall l, l ∈ ls -> h' !! l = h !! l) -> args_own h' ls args.
Proof.
  intros [Hnd Hf] Hh. split; [done|]. clear Hnd.
  induction Hf as [|l a ls args (o & Ho & Hr) Hf IH]; constructor.
  - exists o. by rewrite Hh by (by left).
  - apply IH. intros l' Hl'. apply Hh. by right.
Qed.

Lemma parsing_frame (w w' : world) (c : redis_client_t) (n : nat) (bl : Z) (u : bytes) (acc : list bytes) :
  parsing ∅ (set_w_client w c) n bl u acc ->
  (forall l, l ∈ arg_locs c -> w_heap w' !! l = w_heap w !! l) -> parsing ∅ (set_w_client w' c) n bl u acc.
Proof.
  intros [] Hf. split; try done. intros Hpos.
  destruct (p_argv Hpos) as (ls & cells & Ha & Hn & Hown & Hfr). exists ls, cells. split_and!; try done.
  eapply args_own_frame; [exact Hown|]. intros l Hl. apply Hf. rewrite (arg_locs_eq c ls cells Ha); [done|].
  change (argc c = zlen acc) in p_argc. rewrite p_argc. unfold zlen. by rewrite (Forall2_length _ _ _ (proj2 Hown)).
Qed.

(** Another client sees nothing of what a client does. *)
Lemma connected_frame (w w' : world) (c : redis_client_t) (db db' : redis_db_t) (p : peer) :
  connected (set_w_client w c) db p -> w_shared w' = w_shared w ->
  proto_max_bulk_len (w_server w') = proto_max_bulk_len (w_server w) ->
  (forall l, l ∈ arg_locs c -> w_heap w' !! l = w_heap w !! l /\ ~ key_loc db' l) ->
  connected (set_w_client w' c) db' p.
Proof.
  intros [[Hm Hlim] Hrep Hd Hk Hsh Hst] Es E2 Hf. split; cbn in *; rewrite ?Es; try done.
  - split; [done|]. cbn. by rewrite E2.
  - intros l Hl Hin. by destruct (Hf l Hin).
  - assert (Hpar : forall n bl u acc, parsing ∅ (set_w_client w c) n bl u acc -> parsing ∅ (set_w_client w' c) n bl u acc).
    { intros n bl u acc Hp. apply (parsing_frame w w' c); [done|]. intros l Hl. apply (Hf l Hl). }
    unfold represents in *. destruct (pr_phase p); [|destruct Hst as (Hp & Hst); split; [by apply Hpar|done]|done].
    destruct Hst as (Hp & Hb & Hst). split; [by apply Hpar|]. split; [|done]. cbn in *. by rewrite E2.
Qed.

Lemma deliver_represents (w : world) (trim : bool) (a : bytes) (p : peer) :
  represents w p -> zlen (querybuf (client (w_client w))) + zlen a < 2 ^ 62 ->
  exists w', deliver trim a w = Done (tt, w')
    /\ represents w' (mk_peer (pr_n p) (pr_bl p) (pr_acc p) (pr_buf p ++ a) (pr_phase p))
    /\ w_server w' = w_server w /\ w_heap w' = w_heap w /\ w_shared w' = w_shared w /\ w_ticks w' = w_ticks w
    /\ arg_locs (w_client w') = arg_locs (w_client w) /\ flag (w_client w') = flag (w_client w)
    /\ dbid (w_client w') = dbid (w_client w) /\ output w' = output w
    /\ reply (client (w_client w')) = reply (client (w_client w))
    /\ (pr_phase p <> Closing -> zlen (querybuf (client (w_client w'))) <= zlen (querybuf (client (w_client w))) + zlen a).
Proof.
  intros Hre Hsz. eexists. split; [reflexivity|]. set (w' := set_w_client w _).
  assert (Hpar : forall n bl u acc, parsing ∅ w n bl u acc -> parsing ∅ w' n bl (u ++ a) acc
    /\ zlen (querybuf (client (w_client w'))) <= zlen (querybuf (client (w_client w))) + zlen a).
  { intros n bl u acc Hp. destruct (deliver_ok ∅ w trim a n bl u acc Hp Hsz) as (w1 & [= <-] & _ & Hp' & Hz). done. }
  assert (Hn : not_closing (w_client w) -> not_closing (w_client w')) by (unfold not_closing; by destruct trim).
  assert (Ht : req_type (w_client w') = req_type (w_client w)) by (by destruct trim).
  unfold represents in *. cbn [pr_n pr_bl pr_acc pr_buf pr_phase]. destruct (pr_phase p).
  - destruct Hre as (Hp & Hb & Hty & Hncl). destruct (Hpar _ _ _ _ Hp) as [Hp' Hz']. split; [|split_and!; by destruct trim].
    split_and!; auto.
  - destruct Hre as (Hp & ? & ? & Hncl). destruct (Hpar _ _ _ _ Hp) as [Hp' Hz']. split; [|split_and!; by destruct trim]. rewrite Ht. auto.
  - split; [|split_and!; by destruct trim]. destruct Hre as (? & ? & ?). unfold closed, no_inline in *. rewrite Ht. by destruct trim.
Qed.

Lemma handle_loop (garbage : nat -> Z) (fuel : nat) (z : Z) (w : world) :
  parser_ctx w -> redis_client_handle files garbage fuel z w = input_loop files garbage fuel w.
Proof. intros [Hm _]. unfold redis_client_handle, redis_process_input_buffer. mstep. by rewrite Hm. Qed.

(** One event, seen by its client. *)
Lemma read_event_ok (fuel : nat) (e : event) (w : world) (db : redis_db_t) (s : sstate) (p : peer) :
  serving w db s -> commands_ok (w_server w) -> connected w db p ->
  zlen (querybuf (client (w_client w))) + zlen (ev_bytes e) < Z.min (Z.of_nat fuel) (2 ^ 62) ->
  let r := peer_step (proto_max_bulk_len (w_server w)) (ev_bytes e) p in
  Forall (item_ok files) (fst r) -> rooms (zlen (fst r)) db ->
  if existsb aborts (fst r) then read_event fuel e w = Fault ASSERT_ARGC
  else exists x w1 w' db', read_event fuel e w = Done (x, w') /\ served (ev_client e) (fst r) w1 db s w' db'
    /\ represents w' (snd r) /\ keeps w db w1 db /\ output w1 = output w /\ w_server w1 = w_server w
    /\ w_shared w1 = w_shared w
    /\ (zlen (querybuf (client (w_client w1))) <= zlen (querybuf (client (w_client w))) + zlen (ev_bytes e)).
Proof.
  intros Hs Hc [Hctx Hrep Hdb Hk Hsh Hst] Hsz r. pose proof (zlen_nonneg (ev_bytes e)). pose proof (zlen_nonneg (querybuf (client (w_client w)))).
  destruct (deliver_represents w (ev_trim e) (ev_bytes e) p Hst ltac:(lia)) as (w1 & E1 & Hre & Es & Eh & Esh & Et & Ea & Ef & Ed & Eo & Ere & Hz).
  assert (Hat : attached w1 db s).
  { split; rewrite ?Es, ?Ea, ?Esh, ?Ed, ?Ere; try done.
    - eapply serving_mono; [..|exact Hs]; rewrite ?Es, ?Eh, ?Esh; done.
    - destruct Hctx. split; congruence. }
  assert (Hz1 : zlen (querybuf (client (w_client w1))) <= zlen (querybuf (client (w_client w))) + zlen (ev_bytes e)).
  { destruct (decide (pr_phase p = Closing)) as [Hcl|Hcl]; [|by apply Hz]. injection E1 as <-. destruct (ev_trim e); cbn; rewrite zlen_app; [|lia].
    assert (zlen (drop (Z.to_nat (qb_pos (client (w_client w)))) (querybuf (client (w_client w)))) <= zlen (querybuf (client (w_client w)))).
    { unfold zlen. rewrite length_drop. lia. }
    lia. }
  unfold read_event. rewrite (bind_Done _ _ _ _ _ E1), handle_loop by apply Hat.
  destruct fuel as [|fuel]; [lia|].
  assert (Hloop : Forall (item_ok files) (fst r) -> rooms (zlen (fst r)) db ->
    loop_post (ev_client e) (fst r) (snd r) w1 db s (input_loop files (ev_garbage e) (S fuel) w1)).
  { subst r. unfold peer_step. rewrite <- Es. destruct (pr_phase p) eqn:Eph.
    - destruct Hre as (Hp & Hre). intros Hok Hroom.
      assert (Hlen : (length (pr_buf p ++ ev_bytes e) < S fuel)%nat).
      { cbn [pr_buf] in Hp. pose proof (zlen_unparsed _ _ (p_pos _ _ _ _ _ _ Hp) (p_unparsed _ _ _ _ _ _ Hp)) as Hu.
        pose proof (p_pos _ _ _ _ _ _ Hp). unfold zlen in *. lia. }
      by apply loop_ok; try done.
    - intros Hok Hroom. pose proof Hre as (Hp & _). by apply loop_wedged.
    - intros _ _. destruct (closed_loop files (ev_garbage e) fuel w1 Hre) as (x & Ex). exists x, w1, db.
      split; [done|]. split; [by apply served_nil|done]. }
  intros Hok Hroom. specialize (Hloop Hok Hroom). unfold loop_post in Hloop.
  destruct (existsb aborts (fst r)); [done|]. destruct Hloop as (x & w' & db' & E & Hsv & Hre').
  exists x, w1, w', db'. split_and!; try done. intros l. unfold protected. by rewrite Eh, Ea.
Qed.

(** The arguments of a client are in the store. *)
Lemma args_in_store (w : world) (db : redis_db_t) (p : peer) (l : loc) :
  connected w db p -> l ∈ arg_locs (w_client w) -> l ∈ dom (w_heap w).
Proof.
  intros [_ _ _ _ _ Hst] Hl.
  assert (Hin : forall m bl u acc, parsing ∅ w m bl u acc -> l ∈ dom (w_heap w)).
  { intros m bl u acc Hp. destruct (parsing_args _ _ _ _ _ _ Hp) as (_ & [_ Hf] & _).
    apply list_elem_of_lookup in Hl as [k Hl]. destruct (Forall2_lookup_l _ _ _ _ _ Hf Hl) as (a & _ & o & Hlo & _).
    apply elem_of_dom. eauto. }
  unfold represents in Hst. destruct (pr_phase p); [by eapply Hin, Hst|by eapply Hin, Hst|].
  destruct Hst as [H0 _]. rewrite (arg_locs_none _ H0) in Hl. by apply elem_of_nil in Hl.
Qed.

(** The arguments of the others are out of reach of a client. *)
Lemma args_protected (n : system) (db : redis_db_t) (s : sstate) (ps : gmap cid peer) (i j : cid) (c cj : redis_client_t) (l : loc) :
  system_ok n db s ps -> j <> i -> sys_clients n !! i = Some c -> sys_clients n !! j = Some cj -> l ∈ arg_locs cj ->
  protected (client_world n c) db l.
Proof.
  intros [_ _ Hdom Hcl Hdis] Hne Hi Hj Hl. assert (Hpj : exists pj, ps !! j = Some pj).
  { apply elem_of_dom. rewrite Hdom. apply elem_of_dom. eauto. }
  destruct Hpj as (pj & Hpj). pose proof (Hcl j cj pj Hj Hpj) as Hco.
  split_and!; [exact (args_in_store _ _ _ _ Hco Hl)|by apply (Hdis j i cj c l)|intros Hkl; by apply (co_keys _ _ _ Hco l Hkl)].
Qed.

(** What an event does to a system, besides its effect on the state: the replies
    go to the client, no object is lost or taken, query buffers grow by the
    bytes that have arrived. *)
Record event_effect (e : event) (its : list item) (s : sstate) (n : system) (db : redis_db_t) (n' : system) (db' : redis_db_t) : Prop := {
  ee_output : forall i c, sys_clients n !! i = Some c -> exists c', sys_clients n' !! i = Some c'
    /\ client_segs (client c') = append_last (client_segs (client c))
         (if decide (ev_client e = i) then replies (snd (spec_run s (pair (ev_client e) <$> its))) else [])
    /\ zlen (querybuf (client c')) <= zlen (querybuf (client c)) + (if decide (ev_client e = i) then zlen (ev_bytes e) else 0);
  ee_dom : dom (sys_clients n') = dom (sys_clients n);
  ee_leaks : no_leaks n db n' db';
  ee_grows : grows_by (zlen its) db db';
  ee_limit : proto_max_bulk_len (w_server (sys_world n')) = proto_max_bulk_len (w_server (sys_world n));
  ee_counters : counters (w_server (sys_world n')) = counters (w_server (sys_world n))
}.

(** A client that keeps what it does not own loses nothing of the system. *)
Lemma keeps_no_leaks (n : system) (db db' : redis_db_t) (w' : world) (i : cid) (c : redis_client_t) :
  sys_clients n !! i = Some c -> keeps (client_world n c) db w' db' ->
  no_leaks n db (mk_system w' (<[i := w_client w']> (sys_clients n))) db'.
Proof.
  intros Hi Hk l. destruct (Hk l) as [Hp Eh].
  assert (Hst : stray n db l <-> protected (client_world n c) db l
    /\ forall j cj, j <> i -> sys_clients n !! j = Some cj -> l ∉ arg_locs cj).
  { unfold stray, protected. split; [intros (? & ? & Ha); split_and!; eauto|].
    intros ((? & ? & ?) & Ha). split_and!; try done. intros j cj Hj. destruct (decide (j = i)) as [->|]; [|by eapply Ha].
    by assert (cj = c) as -> by congruence. }
  assert (Hst' : stray (mk_system w' (<[i := w_client w']> (sys_clients n))) db' l <-> protected w' db' l
    /\ forall j cj, j <> i -> sys_clients n !! j = Some cj -> l ∉ arg_locs cj).
  { unfold stray, protected. cbn [sys_world sys_clients]. split.
    - intros (? & ? & Ha). split; [split_and!; try done; apply (Ha i), lookup_insert_eq|].
      intros j cj Hne Hj. apply (Ha j). by rewrite lookup_insert_ne.
    - intros ((? & ? & ?) & Ha). split_and!; try done. intros j cj. destruct (decide (j = i)) as [->|Hne].
      + rewrite lookup_insert_eq. by intros [= <-].
      + rewrite lookup_insert_ne by done. by apply Ha. }
  rewrite Hst, Hst', Hp. split; [done|]. intros [Hl _]. by apply Eh.
Qed.

(** One event, seen by the system. *)
Lemma serve_event_ok (fuel : nat) (e : event) (n : system) (db : redis_db_t) (s : sstate) (ps : gmap cid peer) (p : peer) (c : redis_client_t) :
  system_ok n db s ps -> ps !! ev_client e = Some p -> sys_clients n !! ev_client e = Some c ->
  zlen (querybuf (client c)) + zlen (ev_bytes e) < Z.min (Z.of_nat fuel) (2 ^ 62) ->
  let r := peer_step (proto_max_bulk_len (w_server (sys_world n))) (ev_bytes e) p in
  Forall (item_ok files) (fst r) -> rooms (zlen (fst r)) db ->
  if existsb aborts (fst r) then serve_event fuel e n = Fault ASSERT_ARGC
  else exists n' db', serve_event fuel e n = Done n'
    /\ system_ok n' db' (fst (spec_run s (pair (ev_client e) <$> fst r))) (<[ev_client e := snd r]> ps)
    /\ event_effect e (fst r) s n db n' db'.
Proof.
  intros Hok Hp Hc Hsz r Hits Hroom. pose proof Hok as [Hs Hcm Hdom Hcl Hdis]. set (i := ev_client e) in *.
  pose proof (Hcl i c p Hc Hp) as Hco. set (w := client_world n c) in *.
  assert (Hs1 : serving w db s) by (eapply serving_mono; [..|exact Hs]; done).
  pose proof (read_event_ok fuel e w db s p Hs1 Hcm Hco Hsz Hits Hroom) as H.
  change (peer_step (proto_max_bulk_len (w_server w)) (ev_bytes e) p) with r in H.
  unfold serve_event. fold i. rewrite Hc. cbn [deref mbind outcome_bind]. fold w.
  destruct (existsb aborts (fst r)); [by rewrite H|].
  destruct H as (x & w1 & w' & db' & E & [Hat' Ho Hk2 Hset Hg] & Hre & Hk1 & Eo1 & Es1 & Esh1 & Hz1). rewrite E.
  assert (Hk : keeps w db w' db') by (by eapply keeps_trans). fold i in Hat', Ho.
  destruct Hset as (_ & El & _ & _ & Hz2 & Esh & Ect). rewrite Es1 in El, Ect. rewrite Esh1 in Esh.
  exists (mk_system w' (<[i := w_client w']> (sys_clients n))), db'. split; [done|].
  pose proof (args_protected n db s ps i) as Hprot. split.
  - split; cbn [sys_world sys_clients]; [apply Hat'|apply Hat'|by rewrite !dom_insert_L, Hdom|..].
    + intros j cj pj. destruct (decide (j = i)) as [->|Hne].
      * rewrite !lookup_insert_eq. intros [= <-] [= <-]. unfold client_world. cbn [sys_world].
        rewrite set_w_client_same. destruct Hat'. by split.
      * rewrite !lookup_insert_ne by done. intros Hj Hpj. apply (connected_frame w w' cj db db' pj); [exact (Hcl j cj pj Hj Hpj)|done..|].
        intros l Hl. pose proof (Hprot j c cj l Hok Hne Hc Hj Hl) as Hpl. destruct (Hk l) as [Hiff Eh].
        split; [by apply Eh|]. apply Hiff in Hpl as (_ & _ & ?). done.
    + assert (Hnew : forall j cj l, j <> i -> sys_clients n !! j = Some cj -> l ∈ arg_locs cj -> l ∉ arg_locs (w_client w')).
      { intros j cj l Hne Hj Hl. pose proof (Hprot j c cj l Hok Hne Hc Hj Hl) as Hpl. by apply Hk in Hpl as (_ & ? & _). }
      intros j k cj ck l Hne. destruct (decide (j = i)) as [->|Hji], (decide (k = i)) as [->|Hki]; try done.
      * rewrite lookup_insert_eq, lookup_insert_ne by done. intros [= <-] Hck Hl Hl2. by eapply Hnew.
      * rewrite lookup_insert_eq, lookup_insert_ne by done. intros Hj [= <-] Hl. by eapply Hnew.
      * rewrite !lookup_insert_ne by done. by apply Hdis.
  - split; cbn [sys_world sys_clients]; try done; [|by rewrite dom_insert_lookup_L; [|eauto]|by eapply keeps_no_leaks].
    intros j cj Hj. fold i. destruct (decide (i = j)) as [<-|Hne].
    + rewrite lookup_insert_eq. assert (cj = c) as -> by congruence. exists (w_client w'). split; [done|].
      split; [rewrite Eo1 in Ho; exact Ho|]. change (w_client w) with c in Hz1. lia.
    + rewrite lookup_insert_ne by done. exists cj. split; [done|]. split; [rewrite append_last_nil; auto with latte|lia].
Qed.

(** *** The schedule *)

Lemma pieces_cons (i : cid) (e : event) (es : list event) :
  pieces i (e :: es) = (if decide (ev_client e = i) then [ev_bytes e] else []) ++ pieces i es.
Proof. unfold pieces. rewrite filter_cons. by destruct (decide (ev_client e = i)). Qed.

Lemma sent_cons (i : cid) (e : event) (es : list event) :
  sent i (e :: es) = (if decide (ev_client e = i) then ev_bytes e else []) ++ sent i es.
Proof.
  unfold sent. rewrite pieces_cons. destruct (decide (ev_client e = i)); [|done]. exact (mjoin_cons _ _).
Qed.

Lemma sent_app (i : cid) (a b : list event) : sent i (a ++ b) = sent i a ++ sent i b.
Proof. induction a as [|e a IH]; [done|]. cbn [app]. by rewrite !sent_cons, IH, app_assoc. Qed.

Lemma items_of_app (i : cid) (a b : list (cid * item)) : items_of i (a ++ b) = items_of i a ++ items_of i b.
Proof. unfold items_of. by rewrite filter_app, fmap_app. Qed.

Lemma items_of_tagged (i j : cid) (its : list item) :
  items_of i (pair j <$> its) = if decide (j = i) then its else [].
Proof.
  unfold items_of. induction its as [|it its IH]; [by destruct (decide (j = i))|].
  rewrite fmap_cons, filter_cons. simpl. destruct (decide (j = i)) as [->|]; [|done]. by rewrite fmap_cons, IH.
Qed.

Lemma replies_to_app (i : cid) (a b : list (cid * bytes)) : replies_to i (a ++ b) = replies_to i a ++ replies_to i b.
Proof. unfold replies_to, replies. rewrite filter_app, fmap_app. apply join_app. Qed.

Lemma replies_to_tagged (i j : cid) (s : sstate) (its : list item) :
  replies_to i (snd (spec_run s (pair j <$> its))) = if decide (j = i) then replies (snd (spec_run s (pair j <$> its))) else [].
Proof.
  unfold replies_to, replies. revert s. induction its as [|it its IH]; intros s; [by destruct (decide (j = i))|].
  rewrite fmap_cons, spec_run_cons. cbn [snd]. rewrite filter_cons. cbn [fst]. specialize (IH (fst (spec_item s it))).
  destruct (decide (j = i)); [|done]. by rewrite !fmap_cons, !mjoin_cons, IH.
Qed.

Lemma schedule_cons (limit : Z) (ps : gmap cid peer) (e : event) (es : list event) (p : peer) :
  ps !! ev_client e = Some p ->
  schedule limit ps (e :: es) =
  let r := peer_step limit (ev_bytes e) p in
  let q := schedule limit (<[ev_client e := snd r]> ps) es in
  ((pair (ev_client e) <$> fst r) ++ fst q, snd q).
Proof.
  intros Hp. cbn [schedule]. rewrite Hp. destruct (peer_step _ _ p) as [d p']. cbn [fst snd]. by destruct (schedule _ _ es).
Qed.

Lemma schedule_app (limit : Z) (ps : gmap cid peer) (a b : list event) :
  schedule limit ps (a ++ b) =
  let r := schedule limit ps a in
  let q := schedule limit (snd r) b in (fst r ++ fst q, snd q).
Proof.
  revert ps. induction a as [|e a IH]; intros ps; [cbn; by destruct (schedule limit ps b)|]. cbn [app].
  destruct (ps !! ev_client e) as [p|] eqn:E.
  - rewrite !(schedule_cons _ _ _ _ _ E). cbv zeta. rewrite IH. cbn [fst snd]. by rewrite app_assoc.
  - cbn [schedule]. rewrite E. apply IH.
Qed.

(** The schedule does for each client what its own bytes ask for, whatever the
    other clients send in between. *)
Lemma schedule_items (limit : Z) (es : list event) (ps : gmap cid peer) (i : cid) (p : peer) :
  ps !! i = Some p ->
  items_of i (fst (schedule limit ps es)) = fst (feed_all limit (pieces i es) p)
  /\ snd (schedule limit ps es) !! i = Some (snd (feed_all limit (pieces i es) p)).
Proof.
  revert ps p. induction es as [|e es IH]; intros ps p Hp; [done|]. rewrite pieces_cons.
  destruct (ps !! ev_client e) as [q|] eqn:Eq.
  - rewrite (schedule_cons _ _ _ _ _ Eq). cbv zeta. cbn [fst snd]. rewrite items_of_app, items_of_tagged.
    destruct (decide (ev_client e = i)) as [<-|Hne].
    + assert (q = p) as -> by congruence. cbn [app]. rewrite feed_all_cons. cbn [fst snd].
      destruct (IH (<[ev_client e := snd (peer_step limit (ev_bytes e) p)]> ps) _ (lookup_insert_eq _ _ _)) as [-> ->]. done.
    + apply IH. by rewrite lookup_insert_ne.
  - cbn [schedule]. rewrite Eq. rewrite decide_False by (intros <-; congruence). by apply IH.
Qed.

Lemma zlen_tagged {A} (i : cid) (d : list A) : zlen (pair i <$> d) = zlen d.
Proof. unfold zlen. by rewrite length_fmap. Qed.

(** *** Room for what the clients send *)

Lemma ample_here (fuel : nat) (n : system) (e : event) (es : list event) :
  ample fuel n (e :: es) -> exists c, sys_clients n !! ev_client e = Some c
    /\ zlen (querybuf (client c)) + zlen (ev_bytes e) < Z.min (Z.of_nat fuel) (2 ^ 62).
Proof.
  intros [Hex Hb]. inversion Hex as [|? ? [c Hc] _]; subst. exists c. split; [done|]. specialize (Hb _ c Hc).
  rewrite sent_cons, decide_True, zlen_app in Hb by done. pose proof (zlen_nonneg (sent (ev_client e) es)). lia.
Qed.

Lemma ample_app_l (fuel : nat) (n : system) (a b : list event) : ample fuel n (a ++ b) -> ample fuel n a.
Proof.
  intros [[Hex _]%Forall_app Hb]. split; [done|]. intros i c Hi. specialize (Hb i c Hi). rewrite sent_app, zlen_app in Hb.
  pose proof (zlen_nonneg (sent i b)). lia.
Qed.

Lemma ample_mono (fuel : nat) (n n' : system) (es : list event) (grow : cid -> Z) (es' : list event) :
  ample fuel n es -> dom (sys_clients n') = dom (sys_clients n) ->
  Forall (fun e => is_Some (sys_clients n !! ev_client e)) es' ->
  (forall i c, sys_clients n !! i = Some c -> exists c', sys_clients n' !! i = Some c'
     /\ zlen (querybuf (client c')) <= zlen (querybuf (client c)) + grow i) ->
  (forall i, grow i + zlen (sent i es') <= zlen (sent i es)) -> ample fuel n' es'.
Proof.
  intros [_ Hb] Hdom Hex Hc Hs. split.
  - eapply Forall_impl; [exact Hex|]. intros e [c He]. destruct (Hc _ _ He) as (c' & ? & _). by exists c'.
  - intros i c' Hi. assert (Hci : exists c, sys_clients n !! i = Some c).
    { apply elem_of_dom. rewrite <- Hdom. apply elem_of_dom. eauto. }
    destruct Hci as (c & Hci). destruct (Hc i c Hci) as (c2 & Hi2 & Hz). assert (c2 = c') as -> by congruence.
    specialize (Hb i c Hci). specialize (Hs i). lia.
Qed.

(** C10: one call of the input loop on the bytes in the query buffer of a client,
    from any state of its parser. The bytes are those of [item_ok]: multibulk
    requests, whole or broken at any place, but no line that would begin an inline
    request, no command name or key of a SET with a NUL, no EXPIRE of 2^62
    milliseconds or more, no MODULE without a subcommand and no MODULE LOAD of a
    file that is a module. The complete requests are executed in order, with the
    specified replies and effects, up to QUIT; a protocol error is reported and
    leaves its bytes in the buffer; an incomplete request stays in the parser
    state for the next call; objects that belong to others keep their contents,
    and every object that was created is a value, an argument or freed. If there
    are bytes behind an unknown command the assertion of the parser fails. On
    these bytes the loop ends within as many iterations as there are bytes; on an
    empty inline line, which is outside the scope, it may run for ever (lemma
    inline_empty_line). *)
Theorem redis_process_input_buffer_refines {A} (i : A) (garbage : nat -> Z) (fuel : nat) (w : world) (db : redis_db_t)
    (s : sstate) (p : peer) :
  attached w db s -> represents w p -> zlen (querybuf (client (w_client w))) < Z.of_nat fuel ->
  let r := peer_step (proto_max_bulk_len (w_server w)) [] p in
  Forall (item_ok files) (fst r) -> rooms (zlen (fst r)) db ->
  if existsb aborts (fst r) then redis_process_input_buffer files garbage fuel w = Fault ASSERT_ARGC
  else exists x w' db', redis_process_input_buffer files garbage fuel w = Done (x, w')
    /\ served i (fst r) w db s w' db' /\ represents w' (snd r).
Proof.
  intros Hat Hre Hfuel r. destruct fuel as [|fuel]; [pose proof (zlen_nonneg (querybuf (client (w_client w)))); lia|].
  subst r. unfold peer_step. rewrite app_nil_r. destruct p as [n bl acc u ph]. cbn [pr_n pr_bl pr_acc pr_buf pr_phase].
  destruct ph.
  - pose proof Hre as (Hp & _). cbn [pr_buf] in Hp.
    pose proof (zlen_unparsed _ _ (p_pos _ _ _ _ _ _ Hp) (p_unparsed _ _ _ _ _ _ Hp)) as Hu.
    pose proof (p_pos _ _ _ _ _ _ Hp). apply loop_ok; try done. unfold zlen in *. lia.
  - intros _ _. exact (loop_wedged files i garbage fuel w db s u acc Hat Hre).
  - intros _ _. destruct (closed_loop files garbage fuel w Hre) as (x & Ex). exists x, w, db.
    split; [done|]. split; [by apply served_nil|done].
Qed.

(** *** New clients *)

Record fresh_client (c : redis_client_t) : Prop := {
  fc_buf : querybuf (client c) = [] /\ qb_pos (client c) = 0;
  fc_type : no_inline c;
  fc_argc : argc c = 0;
  fc_mbl : multi_bulk_len c = 0;
  fc_bl : bulk_len c = -1;
  fc_reply : reply_ok (list_elems (reply (client c)));
  fc_dbid : dbid c = 0;
  fc_master : has_flag (flag c) CLIENT_MASTER = false;
  fc_open : not_closing c
}.

(** Of memory without stale arguments, [create_redis_client] makes such a client. *)
Lemma create_redis_client_fresh (mem : redis_client_t) :
  querybuf (client mem) = [] -> qb_pos (client mem) = 0 -> no_inline mem -> argc mem = 0 ->
  has_flag (flag mem) CLIENT_MASTER = false ->
  reply_ok (list_elems (reply (client mem))) -> fresh_client (create_redis_client mem).
Proof. intros Hq Hp Ht Ha Hf Hr. by split. Qed.

Lemma fresh_represents (w : world) (c : redis_client_t) : fresh_client c -> represents (set_w_client w c) new_peer.
Proof.
  intros [[Hq Hp] Ht Ha Hm Hb _ _ _ Ho]. split; [|split; [apply bounded_start|split; [by destruct Ht; [left|right]|done]]].
  split; cbn; rewrite ?Hq, ?Hp; try done. simpl. lia.
Qed.

Lemma fresh_connected (w : world) (c : redis_client_t) (db : redis_db_t) :
  fresh_client c -> proto_max_bulk_len (w_server w) < 2 ^ 62 -> connected (set_w_client w c) db new_peer.
Proof.
  intros Hf Hlim. assert (Hno : arg_locs c = []) by (apply arg_locs_none, Hf).
  pose proof Hf as []. split; try done; [..|by apply fresh_represents]; intros l _; cbn; rewrite Hno; apply not_elem_of_nil.
Qed.

Definition fresh_peers (cs : gmap cid redis_client_t) : gmap cid peer := (fun _ => new_peer) <$> cs.

Lemma system_fresh (w : world) (db : redis_db_t) (s : sstate) (cs : gmap cid redis_client_t) :
  serving w db s -> commands_ok (w_server w) -> proto_max_bulk_len (w_server w) < 2 ^ 62 ->
  map_Forall (fun _ c => fresh_client c) cs -> system_ok (mk_system w cs) db s (fresh_peers cs).
Proof.
  intros Hs Hc Hlim Hfr.
  assert (Hnone : forall i c, cs !! i = Some c -> arg_locs c = []) by (intros i c Hi; apply arg_locs_none, (Hfr i c Hi)).
  split; cbn [sys_world sys_clients]; try done.
  - unfold fresh_peers. by rewrite dom_fmap_L.
  - intros i c p Hi. unfold fresh_peers. rewrite lookup_fmap, Hi. intros [= <-].
    apply fresh_connected; [by apply (Hfr i)|done].
  - intros i j c c' l _ Hi _ Hl. rewrite (Hnone i c Hi) in Hl. by apply elem_of_nil in Hl.
Qed.

Lemma serving_empty (w : world) (db : redis_db_t) :
  dbs (w_server w) !! 0%nat = Some db -> db_wf db -> keys_map db = ∅ -> expires_map db = ∅ ->
  shared_ok (w_shared w) (w_heap w) -> 0 < hz (w_server w) -> serving w db (mk_sstate ∅ ∅ (w_ticks w)).
Proof.
  intros Hat Hwf Ek Ee Hsh Hhz. split; cbn [s_vals s_times s_reads]; rewrite ?Ek; try done.
  intros l (k & Hl). by rewrite Ek, lookup_empty in Hl.
Qed.
End System.

(** A name that matches no name of a table is not in the table. *)
Lemma tolower_NUL (y : ascii) : tolower y = NUL -> y = NUL.
Proof. destruct y as [[] [] [] [] [] [] [] []]; vm_compute; done. Qed.

Lemma unlisted_name {A} (m : gmap bytes A) (names : list bytes) (n : bytes) :
  forallb (fun k => existsb (strcasecmp_eq k) names) (fst <$> map_to_list m) = true ->
  Forall (fun a => strcasecmp_eq n a = false) names -> m !! lower (cstr n) = None.
Proof.
  intros Hall Hn. destruct (m !! lower (cstr n)) as [c|] eqn:E; [|done]. exfalso.
  rewrite forallb_forall in Hall. specialize (Hall (lower (cstr n))).
  assert (Hin : In (lower (cstr n)) (fst <$> map_to_list m)).
  { apply list_elem_of_In, list_elem_of_fmap. exists (lower (cstr n), c). split; [done|]. by apply elem_of_map_to_list. }
  apply existsb_exists in Hall as (a & Ha & Heq); [|done].
  rewrite Forall_forall in Hn. specialize (Hn a (proj2 (list_elem_of_In _ _) Ha)).
  unfold strcasecmp_eq in *. apply bool_decide_eq_true in Heq. apply bool_decide_eq_false in Hn. apply Hn.
  rewrite cstr_line, lower_idemp in Heq; [done|]. intros Hnul. apply list_elem_of_fmap in Hnul as (y & Hy & Hyin).
  symmetry in Hy. apply tolower_NUL in Hy as ->. by apply (cstr_no_NUL n).
Qed.

(** ** Concrete runs *)

#[local] Existing Instance model_latte.
#[local] Existing Instance model_latte_laws.

Lemma ex_boot_commands : commands_ok ex_boot_server.
Proof.
  assert (H : forall n a, (NUL ∉ n) -> (NUL ∉ a) -> strcasecmp_eq n a = true ->
    lookup_cmd ex_boot_server n = lookup_cmd ex_boot_server a).
  { intros n a Hn0 Ha0 Ha%bool_decide_eq_true. unfold lookup_cmd, command_manager_lookup.
    rewrite !dict_fetch_value_spec by done. cbn [key_norm]. by rewrite Ha. }
  split.
  - intros n v Hn0 Hv. unfold verb_named in Hv.
    repeat match type of Hv with
    | (if strcasecmp_eq n ?a then _ else _) = _ => destruct (strcasecmp_eq n a) eqn:?
    end; try discriminate Hv; injection Hv as <-;
    match goal with E : strcasecmp_eq n ?a = true |- _ => rewrite (H n a Hn0 ltac:(by apply (bool_decide_unpack _)) E) end;
    eexists; (split; [vm_compute; reflexivity|]); cbn; eauto.
  - intros n Hn0 Hv. unfold verb_named in Hv.
    repeat match type of Hv with
    | (if strcasecmp_eq n ?a then _ else _) = _ => destruct (strcasecmp_eq n a) eqn:?; [discriminate Hv|]
    end. unfold lookup_cmd, command_manager_lookup. rewrite dict_fetch_value_spec by done.
    apply (unlisted_name _ [bs "set"; bs "get"; bs "ping"; bs "expire"; bs "info"; bs "quit"; bs "module"]);
      [vm_compute; reflexivity|]. repeat constructor; assumption.
Qed.

Lemma ex_boot_serving (buf : bytes) : serving (ex_boot_world buf) ex_db0 (mk_sstate ∅ ∅ 0).
Proof.
  destruct ex_boot_limit as (_ & Eh & Ed).
  apply (serving_empty (ex_boot_world buf)); [|exact ex_db0_wf|vm_compute; reflexivity|vm_compute; reflexivity|exact ex_shared_ok|].
  - cbn [w_server set_w_server ex_boot_world]. by rewrite Ed.
  - cbn [w_server set_w_server ex_boot_world]. by rewrite Eh.
Qed.

Definition ex_reqs1 : list (list bytes) := [[bs "SET"; bs "foo"; bs "bar"]; [bs "PING"]].
Definition ex_reqs2 : list (list bytes) := [[bs "GET"; bs "foo"]; [bs "get"; bs "foo"]; [bs "QUIT"]].

(** Three clients; the first request of client 2 arrives in the middle of the
    first request of client 1, client 3 does not speak the protocol. *)
Definition ex_clients : gmap cid redis_client_t :=
  {[ 1%nat := w_client (ex_idle [] []); 2%nat := w_client (ex_idle [] []); 3%nat := w_client (ex_idle [] []) ]}.

Definition ex_system : system := mk_system (ex_boot_world []) ex_clients.

Definition ex_event (i : cid) (s : bytes) : event := mk_event i false s (fun _ => 0).

Definition ex_garbled : bytes := bs "*1" ++ CRLF ++ bs "$x" ++ CRLF.

Definition ex_events : list event :=
  [ ex_event 1 (take 9 (enc_requests ex_reqs1));
    ex_event 2 (enc_request [bs "GET"; bs "foo"]);
    ex_event 1 (drop 9 (enc_requests ex_reqs1));
    ex_event 3 ex_garbled;
    ex_event 2 (enc_requests (drop 1 ex_reqs2)) ].

Lemma ex_clients_fresh : map_Forall (fun _ c => fresh_client c) ex_clients.
Proof.
  intros i c. unfold ex_clients. rewrite !lookup_insert_Some, lookup_singleton_Some.
  intros [[_ <-]|[_ [[_ <-]|(_ & _ & <-)]]]; (split; [by split|by left|reflexivity..|constructor|reflexivity|reflexivity|reflexivity]).
Qed.

Lemma ex_boot_max : proto_max_bulk_len (w_server (ex_boot_world [])) = 1024 * 1024.
Proof. cbn [w_server set_w_server ex_boot_world]. by rewrite (proj1 ex_boot_limit). Qed.

Lemma ex_system_ok : system_ok ex_system ex_db0 (mk_sstate ∅ ∅ 0) (fresh_peers ex_clients).
Proof.
  apply system_fresh; [apply ex_boot_serving|exact ex_boot_commands|by rewrite ex_boot_max|exact ex_clients_fresh].
Qed.

Lemma ex_ample : ample 200 ex_system ex_events.
Proof.
  split; [apply (bool_decide_unpack _); vm_compute; exact I|].
  intros i c. change (sys_clients ex_system) with ex_clients. unfold ex_clients.
  rewrite !lookup_insert_Some, lookup_singleton_Some.
  intros [[<- <-]|[_ [[<- <-]|(_ & <- & <-)]]]; vm_compute; reflexivity.
Qed.

(** What the five events ask for. *)
Definition ex_trace : list (cid * item) :=
  [ (2%nat, Execute [bs "GET"; bs "foo"]); (1%nat, Execute [bs "SET"; bs "foo"; bs "bar"]); (1%nat, Execute [bs "PING"]);
    (3%nat, Complain (proto_err (bs "invalid bulk length")));
    (2%nat, Execute [bs "get"; bs "foo"]); (2%nat, Execute [bs "QUIT"]) ].

Lemma ex_schedule : fst (schedule (1024 * 1024) (fresh_peers ex_clients) ex_events) = ex_trace.
Proof. vm_compute. reflexivity. Qed.

Ltac valid_items := repeat first [constructor | apply (bool_decide_unpack _); vm_compute; exact I].

Lemma ex_trace_ok : Forall (fun x => item_ok ex_files (snd x)) ex_trace.
Proof. valid_items. Qed.

(** A buffer with a whole request and the beginning of another. *)
Definition ex_half : bytes := take 12 (enc_request [bs "PING"]).
Definition ex_buffer : bytes := enc_request [bs "SET"; bs "foo"; bs "bar"] ++ ex_half.
Definition ex_half_peer : peer := mk_peer 1 4 [] (bs "PING") Open.

Lemma ex_boot_represents : represents (ex_boot_world ex_buffer) (mk_peer 0 (-1) [] ex_buffer Open).
Proof.
  split; [apply ex_boot_parsing; reflexivity|]. split; [apply bounded_start|]. split; [by left|reflexivity].
Qed.

Lemma ex_boot_attached (buf : bytes) : attached (ex_boot_world buf) ex_db0 (mk_sstate ∅ ∅ 0).
Proof.
  split; [apply ex_boot_serving|exact ex_boot_commands|apply ex_boot_ctx|constructor|reflexivity|..];
    intros l _; apply not_elem_of_nil.
Qed.

Lemma redis_process_input_buffer_refines_witness :
  exists x w', redis_process_input_buffer ex_files (fun _ => 0) 100 (ex_boot_world ex_buffer) = Done (x, w')
    /\ output w' = [bs "+OK" ++ CRLF] /\ represents w' ex_half_peer.
Proof.
  pose proof (redis_process_input_buffer_refines ex_files tt (fun _ => 0) 100 (ex_boot_world ex_buffer) ex_db0 (mk_sstate ∅ ∅ 0)
    (mk_peer 0 (-1) [] ex_buffer Open) (ex_boot_attached ex_buffer) ex_boot_represents ltac:(vm_compute; reflexivity)) as H.
  cbv zeta in H. change (w_server (ex_boot_world ex_buffer)) with (w_server (ex_boot_world [])) in H. rewrite ex_boot_max in H.
  assert (E : peer_step (1024 * 1024) [] (mk_peer 0 (-1) [] ex_buffer Open)
    = ([Execute [bs "SET"; bs "foo"; bs "bar"]], ex_half_peer)) by (vm_compute; reflexivity).
  rewrite E in H. destruct H as (x & w' & db' & Ew & Hs & Hr).
  - valid_items.
  - split; vm_compute; reflexivity.
  - exists x, w'. split; [exact Ew|]. split; [|exact Hr]. rewrite (sd_output _ _ _ _ _ _ _ Hs). vm_compute. reflexivity.
Defined.
