(* ===== verification/Metric.v ===== *)
(** * Instantaneous metrics (src/experiment/metric.c) and their cron job (src/redis/crons.c)

    A metric keeps, per name, a ring of the most recent rates of a counter. *)

From S2P Require Import Prelude LatteC LatteCModel State.

Section Metric.
Context {L : LatteC}.

Definition METRIC_SAMPLES : Z := 16.

Definition metric_entry_new (n : Z) : metric_entry_t :=
  let n := if n <=? 0 then METRIC_SAMPLES else n in
  mk_metric_entry 0 0 0 (replicate (Z.to_nat n) 0).

Definition metric_new (n : Z) : metric_t := mk_metric dict_new n.

(** [long long avg = base > 0 ? (value * factor) / base : 0] *)
Definition average_rate (base value factor : Z) : outcome Z :=
  if 0 <? base then
    product ← checked_i64 (value * factor);
    Done (Z.quot product base)
  else Done 0.

(** The new rate goes to [samples[idx]]. *)
Definition add_sample (m : metric_t) (e : metric_entry_t) (current_value current_base factor : Z) :
    outcome metric_entry_t :=
  if 0 <? last_sample_base e then
    base ← checked_i64 (current_base - last_sample_base e);
    value ← checked_i64 (current_value - last_sample_value e);
    avg ← average_rate base value factor;
    s ← array_set (samples e) (idx e) avg;
    next ← checked_i32 (idx e + 1);
    i ← checked_mod (u64 next) (metric_samples m);
    Done (mk_metric_entry (last_sample_base e) (last_sample_value e) (i32 i) s)
  else Done e.

Definition set_last (e : metric_entry_t) (base value : Z) : metric_entry_t :=
  mk_metric_entry base value (idx e) (samples e).

(** The entry is shared with the dict, so the assignments after the branch
    reach the stored entry. *)
Definition metric_track_instantaneous (m : metric_t) (name : bytes) (current_value current_base factor : Z) :
    outcome metric_t :=
  match dict_find (metrics m) name with
  | Some entry =>
      e ← deref (dict_get_entry_val (metrics m) entry);
      e ← add_sample m e current_value current_base factor;
      Done (mk_metric (dict_set_val (metrics m) entry (set_last e current_base current_value)) (metric_samples m))
  | None =>
      let e := metric_entry_new (i32 (metric_samples m)) in
      Done (mk_metric (snd (dict_add (metrics m) (sds_new name) (set_last e current_base current_value)))
              (metric_samples m))
  end.

(** [for (j = 0; j < metric->samples; j++) sum += samples[j]], [n] cells left. *)
Fixpoint sum_samples (n : nat) (j : Z) (s : list Z) (sum : Z) : outcome Z :=
  match n with
  | O => Done sum
  | S n =>
      x ← array_get s j;
      sum ← checked_i64 (sum + x);
      sum_samples n (j + 1) s sum
  end.

(** The sum is divided as a [size_t]. *)
Definition metric_get_instantaneous (m : metric_t) (name : bytes) : outcome Z :=
  entry ← deref (dict_find (metrics m) name);
  match dict_get_entry_val (metrics m) entry with
  | None => Done (-1)
  | Some e =>
      sum ← sum_samples (Z.to_nat (metric_samples m)) 0 (samples e) 0;
      q ← checked_div (u64 sum) (metric_samples m);
      Done (i64 q)
  end.

(** src/redis/crons.c *)
Definition set_unixtime (r : redis_server_t) (v : Z) : redis_server_t :=
  mk_server (command_manager r) (clients_to_close r) v (hz r) (current_client r) (modules r) (proto_max_bulk_len r)
    (maxmemory_policy r) (lruclock r) (dbs r) (db_num r) (slowlog_manager r) (metric r) (metric_stat_numcommands r).

Definition update_cache_time : M unit :=
  now ← read_ustime;
  server ← get_server;
  put_server (set_unixtime server now).

Definition update_metric_cron : M unit :=
  current_time ← read_ustime;
  rs ← get_server;
  m ← lift (metric_track_instantaneous (metric rs) (bs "command") (metric_stat_numcommands rs) current_time 1000000);
  put_server (set_metric rs m).

(** ** Specification *)

(** A reading of a counter: its value and the time. *)
Definition reading : Type := Z * Z.

Definition rate (factor : Z) (p q : reading) : Z :=
  if 0 <? snd q - snd p then Z.quot ((fst q - fst p) * factor) (snd q - snd p) else 0.

(** The rates between consecutive readings. *)
Fixpoint rates (factor : Z) (p : reading) (ps : list reading) : list Z :=
  match ps with
  | [] => []
  | q :: ps => rate factor p q :: rates factor q ps
  end.

(** The last [n] of a history, after [n] zeros. *)
Definition window (n : nat) (hist : list Z) : list Z := drop (length hist) (replicate n 0 ++ hist).

Fixpoint track_all (m : metric_t) (name : bytes) (factor : Z) (ps : list reading) : outcome metric_t :=
  match ps with
  | [] => Done m
  | (value, base) :: ps =>
      m ← metric_track_instantaneous m name value base factor;
      track_all m name factor ps
  end.

(** Readings small enough for the sum of [n] rates. *)
Definition small_reading (n factor vmax : Z) (p : reading) : Prop :=
  0 <= fst p <= vmax /\ 0 < snd p < 2 ^ 63.

(** The ring of an entry, from the oldest sample on, is the window. *)
Record ring (n : nat) (p : reading) (hist : list Z) (e : metric_entry_t) : Prop := {
  ring_idx : 0 <= idx e < Z.of_nat n;
  ring_samples : length (samples e) = n;
  ring_window : drop (Z.to_nat (idx e)) (samples e) ++ take (Z.to_nat (idx e)) (samples e) = window n hist;
  ring_last : last_sample_value e = fst p /\ last_sample_base e = snd p
}.

Context {LL : LatteCLaws}.

Lemma zsum_bound (B : Z) (l : list Z) : Forall (fun x => - B <= x <= B) l -> - (B * zlen l) <= zsum l <= B * zlen l.
Proof. induction 1 as [|x l Hx _ IH]; [unfold zlen; simpl; lia|]. rewrite zlen_cons. simpl. fold (zsum l). lia. Qed.

Lemma window_length (n : nat) (hist : list Z) : length (window n hist) = n.
Proof. unfold window. rewrite length_drop, length_app, length_replicate. lia. Qed.

Lemma window_snoc (n : nat) (hist : list Z) (x : Z) :
  (0 < n)%nat -> window n (hist ++ [x]) = drop 1 (window n hist) ++ [x].
Proof.
  intros Hn. unfold window. rewrite drop_drop, length_app, app_assoc. simpl length.
  rewrite drop_app_le; [done|]. rewrite length_app, length_replicate. lia.
Qed.

(** Writing at [i] and moving on drops the oldest of the ring. *)
Lemma rotate_middle (a b : list Z) (y x : Z) :
  let i' := ((length a + 1) mod (length a + S (length b)))%nat in
  drop i' (a ++ x :: b) ++ take i' (a ++ x :: b) = b ++ a ++ [x].
Proof.
  cbn zeta. destruct b as [|z b].
  - simpl length. rewrite Nat.Div0.mod_same. simpl. by rewrite app_nil_r.
  - rewrite Nat.mod_small by (simpl; lia).
    replace (a ++ x :: z :: b) with ((a ++ [x]) ++ z :: b) by (by rewrite <- app_assoc).
    rewrite drop_app_length', take_app_length' by (rewrite length_app; simpl; lia). done.
Qed.

Lemma rotate_write (n i : nat) (l w : list Z) (x : Z) :
  (i < n)%nat -> length l = n -> drop i l ++ take i l = w ->
  let i' := ((i + 1) mod n)%nat in
  drop i' (<[i := x]> l) ++ take i' (<[i := x]> l) = drop 1 w ++ [x].
Proof.
  intros Hi Hl <-. destruct (lookup_lt_is_Some_2 l i ltac:(lia)) as [y Hy].
  apply list_elem_of_split_length in Hy as (a & b & -> & ->).
  rewrite insert_app_r_alt, Nat.sub_diag by lia. simpl (<[0%nat:=x]> _).
  rewrite drop_app_length, take_app_length. subst n. rewrite length_app.
  transitivity (b ++ a ++ [x]); [exact (rotate_middle a b y x)|]. simpl. rewrite drop_0. by rewrite app_assoc.
Qed.

(** ** One reading *)

Lemma rate_bound (n factor vmax : Z) (p q : reading) :
  small_reading n factor vmax p -> small_reading n factor vmax q -> 0 <= factor ->
  - (vmax * factor) <= rate factor p q <= vmax * factor.
Proof.
  intros [Hp _] [Hq _] Hf. unfold rate. assert (0 <= vmax * factor) by nia.
  destruct (Z.ltb_spec 0 (snd q - snd p)); [|lia].
  set (a := (fst q - fst p) * factor). assert (- (vmax * factor) <= a <= vmax * factor) by (unfold a; nia).
  assert (Hq0 : Z.abs (Z.quot a (snd q - snd p)) <= Z.abs a).
  { rewrite <- Z.quot_abs by lia. rewrite Z.quot_div_nonneg by lia. apply Z.div_le_upper_bound; nia. }
  lia.
Qed.

Lemma add_sample_ok (m : metric_t) (n : nat) (factor vmax : Z) (p q : reading) (hist : list Z) (e : metric_entry_t) :
  metric_samples m = Z.of_nat n -> 0 < Z.of_nat n < 2 ^ 31 -> 0 <= factor -> vmax * factor * Z.of_nat n < 2 ^ 63 ->
  vmax < 2 ^ 63 -> small_reading (Z.of_nat n) factor vmax p -> small_reading (Z.of_nat n) factor vmax q ->
  ring n p hist e ->
  exists e', add_sample m e (fst q) (snd q) factor = Done e'
    /\ ring n q (hist ++ [rate factor p q]) (set_last e' (snd q) (fst q)).
Proof.
  intros Em Hn Hf Hb Hv Hp Hq [Hi Hl Hw [Ev Eb]]. pose proof Hp as [Hp1 Hp2]. pose proof Hq as [Hq1 Hq2].
  assert (Hvf : 0 <= vmax * factor < 2 ^ 63) by nia.
  unfold add_sample. rewrite Ev, Eb. replace (0 <? snd p) with true by lia.
  rewrite !checked_i64_Done by lia. cbn [mbind outcome_bind].
  assert (Er : average_rate (snd q - snd p) (fst q - fst p) factor = Done (rate factor p q)).
  { unfold average_rate, rate. destruct (_ <? _); [|done]. rewrite checked_i64_Done by nia. done. }
  rewrite Er. cbn [mbind outcome_bind]. rewrite array_set_Done by (unfold zlen; lia). cbn [mbind outcome_bind].
  rewrite checked_i32_Done by lia. cbn [mbind outcome_bind]. unfold checked_mod. rewrite Em.
  replace (Z.of_nat n =? 0) with false by lia. cbn [mbind outcome_bind]. eexists. split; [reflexivity|].
  assert (Hi' : i32 (u64 (idx e + 1) mod Z.of_nat n) = Z.of_nat ((Z.to_nat (idx e) + 1) mod n)).
  { rewrite wrap_u_small by lia. rewrite Nat2Z.inj_mod, Nat2Z.inj_add, Z2Nat.id by lia. change (Z.of_nat 1) with 1.
    pose proof (Z.mod_pos_bound (idx e + 1) (Z.of_nat n)). apply wrap_s_small; lia. }
  split; cbn; rewrite ?Hi'; try done.
  - pose proof (Nat.mod_upper_bound (Z.to_nat (idx e) + 1) n). lia.
  - by rewrite length_insert.
  - rewrite Nat2Z.id, window_snoc by lia. apply rotate_write; [lia|done|done].
Qed.

(** ** Sequences of readings *)

Definition tracked (n : nat) (name : bytes) (p : reading) (hist : list Z) (m : metric_t) : Prop :=
  metric_samples m = Z.of_nat n /\ exists e, dict_map (metrics m) = {[ cstr name := e ]} /\ ring n p hist e.

Section Readings.
Context (n : nat) (name : bytes) (factor vmax : Z).
Hypothesis Hn : 0 < Z.of_nat n < 2 ^ 31.
Hypothesis Hf : 0 <= factor.
Hypothesis Hvf : vmax * factor * Z.of_nat n < 2 ^ 63.
Hypothesis Hv : vmax < 2 ^ 63.

Lemma track_first (q : reading) :
  exists m, metric_track_instantaneous (metric_new (Z.of_nat n)) name (fst q) (snd q) factor = Done m
    /\ tracked n name q [] m.
Proof.
  unfold metric_track_instantaneous, metric_new. cbn [metrics metric_samples].
  assert (E : dict_find (@dict_new _ CStringCompare metric_entry_t) name = None).
  { apply (dict_find_None CStringCompare _ _ _ I). by rewrite dict_new_map, lookup_empty. }
  rewrite E. eexists. split; [reflexivity|]. split; [done|]. cbn [metrics].
  rewrite wrap_s_small by lia. unfold metric_entry_new. replace (Z.of_nat n <=? 0) with false by lia.
  rewrite sds_new_spec, Nat2Z.id. set (e := set_last _ _ _).
  destruct (dict_add_new CStringCompare _ (@dict_new _ CStringCompare metric_entry_t) (cstr name) e I) as (d & Ed & Hd).
  { by rewrite dict_new_map, lookup_empty. }
  rewrite Ed. exists e. cbn [snd]. rewrite Hd, dict_new_map. simpl key_norm. rewrite cstr_idemp.
  split; [done|]. split; cbn; try lia.
  - apply length_replicate.
  - unfold window. by rewrite drop_0, !app_nil_r.
Qed.

Lemma track_next (m : metric_t) (p q : reading) (hist : list Z) :
  small_reading (Z.of_nat n) factor vmax p -> small_reading (Z.of_nat n) factor vmax q ->
  tracked n name p hist m ->
  exists m', metric_track_instantaneous m name (fst q) (snd q) factor = Done m'
    /\ tracked n name q (hist ++ [rate factor p q]) m'.
Proof.
  intros Hp Hq (Em & e & Hd & Hr). unfold metric_track_instantaneous.
  destruct (dict_find (metrics m) name) as [en|] eqn:Ef.
  - apply (dict_find_Some CStringCompare _ _ _ _ I) in Ef. simpl in Ef. rewrite (dict_get_entry_val_spec _ _ _ _ _ Ef), Hd, lookup_singleton_eq.
    cbn [deref mbind outcome_bind].
    destruct (add_sample_ok m n factor vmax p q hist e) as (e' & -> & Hr'); try done.
    cbn [mbind outcome_bind]. eexists. split; [reflexivity|]. split; [done|]. eexists. split; [|exact Hr'].
    cbn [metrics]. rewrite (proj1 (dict_set_val_spec _ _ _ _ _ _ Ef)), Hd. apply insert_singleton_eq.
  - apply (dict_find_None CStringCompare _ _ _ I) in Ef. simpl in Ef. by rewrite Hd, lookup_singleton_eq in Ef.
Qed.

Lemma track_all_ok (ps : list reading) (m : metric_t) (p : reading) (hist : list Z) :
  small_reading (Z.of_nat n) factor vmax p -> Forall (small_reading (Z.of_nat n) factor vmax) ps ->
  tracked n name p hist m ->
  exists m' q, track_all m name factor ps = Done m' /\ tracked n name q (hist ++ rates factor p ps) m'
    /\ Forall (fun x => - (vmax * factor) <= x <= vmax * factor) (rates factor p ps).
Proof.
  intros Hp Hps. revert m p hist Hp. induction Hps as [|q ps Hq Hps IH]; intros m p hist Hp Hm.
  - exists m, p. simpl. rewrite app_nil_r. by split_and!.
  - destruct (track_next m p q hist Hp Hq Hm) as (m1 & E & Hm1).
    destruct (IH m1 q _ Hq Hm1) as (m' & q' & E' & Hm' & Hb). rewrite <- app_assoc in Hm'.
    exists m', q'. destruct q as [qv qb]. simpl. simpl in E. rewrite E. cbn [mbind outcome_bind]. split_and!; try done.
    constructor; [by eapply rate_bound|done].
Qed.
End Readings.

Lemma sum_samples_ok (B : Z) (s done : list Z) (todo : list Z) (acc : Z) :
  s = done ++ todo -> Forall (fun x => - B <= x <= B) todo -> 0 <= B ->
  - (B * zlen done) <= acc <= B * zlen done -> B * zlen s < 2 ^ 63 ->
  sum_samples (length todo) (zlen done) s acc = Done (acc + zsum todo).
Proof.
  intros -> Ht HB. revert done acc. induction Ht as [|x todo Hx Ht IH]; intros dn acc Hacc Hs; simpl.
  { f_equal. lia. }
  rewrite zlen_app, zlen_cons in Hs. pose proof (zlen_nonneg todo). pose proof (zlen_nonneg dn).
  rewrite (array_get_Done _ _ x); [|lia|].
  2:{ unfold zlen. rewrite Nat2Z.id, lookup_app_r, Nat.sub_diag by lia. done. }
  cbn [mbind outcome_bind]. rewrite checked_i64_Done by nia. cbn [mbind outcome_bind].
  replace (zlen dn + 1) with (zlen (dn ++ [x])) by (rewrite zlen_app; reflexivity).
  replace (dn ++ x :: todo) with ((dn ++ [x]) ++ todo) by (by rewrite <- app_assoc).
  rewrite IH; [f_equal; lia|..].
  - rewrite zlen_app. change (zlen [x]) with 1. nia.
  - rewrite !zlen_app. change (zlen [x]) with 1. nia.
Qed.

Lemma zsum_rotate (i : nat) (l : list Z) : zsum (drop i l ++ take i l) = zsum l.
Proof. rewrite zsum_app, Z.add_comm, <- zsum_app. by rewrite take_drop. Qed.

Lemma window_bound (n : nat) (B : Z) (hist : list Z) :
  0 <= B -> Forall (fun x => - B <= x <= B) hist -> Forall (fun x => - B <= x <= B) (window n hist).
Proof.
  intros HB Hh. apply Forall_drop, Forall_app. split; [|done]. apply Forall_replicate. lia.
Qed.

Lemma get_tracked (n : nat) (name : bytes) (p : reading) (hist : list Z) (B : Z) (m : metric_t) :
  0 < Z.of_nat n < 2 ^ 31 -> 0 <= B -> B * Z.of_nat n < 2 ^ 63 -> Forall (fun x => - B <= x <= B) hist ->
  tracked n name p hist m ->
  metric_get_instantaneous m name
  = Done (let total := zsum (window n hist) in
          if 0 <=? total then total / Z.of_nat n else i64 ((2 ^ 64 + total) / Z.of_nat n)).
Proof.
  intros Hn HB Hs Hh (Em & e & Hd & [Hi Hl Hw _]). unfold metric_get_instantaneous.
  destruct (dict_find (metrics m) name) as [en|] eqn:Ef.
  2:{ apply (dict_find_None CStringCompare _ _ _ I) in Ef. simpl in Ef. by rewrite Hd, lookup_singleton_eq in Ef. }
  apply (dict_find_Some CStringCompare _ _ _ _ I) in Ef. simpl in Ef. cbn [deref mbind outcome_bind].
  rewrite (dict_get_entry_val_spec _ _ _ _ _ Ef), Hd, lookup_singleton_eq, Em, Nat2Z.id.
  assert (Hsb : Forall (fun x => - B <= x <= B) (samples e)).
  { pose proof (window_bound n B hist HB Hh) as Hwb. rewrite <- Hw in Hwb. apply Forall_app in Hwb as [H1 H2].
    rewrite <- (take_drop (Z.to_nat (idx e)) (samples e)). by apply Forall_app. }
  assert (Hz : zlen (samples e) = Z.of_nat n) by (unfold zlen; by rewrite Hl).
  rewrite <- Hl at 1. change 0 with (zlen (@nil Z)) at 1.
  rewrite (sum_samples_ok B (samples e) [] (samples e) 0); [|done|done|done|unfold zlen; simpl; lia|by rewrite Hz].
  cbn [mbind outcome_bind]. rewrite <- Hw, zsum_rotate. cbn zeta. rewrite Z.add_0_l.
  pose proof (zsum_bound B (samples e) Hsb) as Hbd. rewrite Hz in Hbd. set (S := zsum (samples e)) in *.
  unfold checked_div. replace (Z.of_nat n =? 0) with false by lia. cbn [mbind outcome_bind]. f_equal.
  destruct (Z.leb_spec 0 S).
  - rewrite wrap_u_small by lia. apply wrap_s_small; [lia|].
    pose proof (Z.div_le_upper_bound S (Z.of_nat n) S). pose proof (Z.div_pos S (Z.of_nat n)). nia.
  - assert (Eu : u64 S = 2 ^ 64 + S). { unfold wrap_u. symmetry. apply Z.mod_unique with (q := -1); lia. }
    by rewrite Eu.
Qed.

(** ** The theorem *)

(** C30: after any sequence of readings of a counter under a name,
    [metric_get_instantaneous] returns the average of the last [n] rates
    (missing ones count as 0), rounded down, when their sum is not negative;
    a negative sum, which a counter that went down produces, is divided as an
    unsigned number instead.  A name that was never tracked dereferences NULL:
    the test for a missing entry comes too late. *)
Theorem metric_instantaneous_average (n : nat) (name : bytes) (factor vmax : Z) (p : reading) (ps : list reading) :
  0 < Z.of_nat n < 2 ^ 31 -> 0 <= factor -> vmax * factor * Z.of_nat n < 2 ^ 63 -> vmax < 2 ^ 63 ->
  Forall (small_reading (Z.of_nat n) factor vmax) (p :: ps) ->
  exists m, track_all (metric_new (Z.of_nat n)) name factor (p :: ps) = Done m
    /\ metric_get_instantaneous m name
       = Done (let total := zsum (window n (rates factor p ps)) in
               if 0 <=? total then total / Z.of_nat n else i64 ((2 ^ 64 + total) / Z.of_nat n))
    /\ forall other, cstr other <> cstr name -> metric_get_instantaneous m other = Fault NullDeref.
Proof.
  intros Hn Hf Hvf Hv Hall. inversion Hall as [|? ? Hp Hps]; subst.
  destruct (track_first n name factor Hn p) as (m1 & E1 & H1).
  destruct (track_all_ok n name factor vmax Hn Hf Hvf Hv ps m1 p [] Hp Hps H1) as (m & q & E & Hm & Hb).
  exists m. simpl in Hm. split_and!.
  - destruct p as [v b]. simpl in E1 |- *. rewrite E1. exact E.
  - apply (get_tracked n name q _ (vmax * factor)); try done. destruct Hp as [Hp _]. nia.
  - intros other Ho. destruct Hm as (_ & e & Hd & _). unfold metric_get_instantaneous.
    assert (Ef : dict_find (metrics m) other = None).
    { apply (dict_find_None CStringCompare _ _ _ I). simpl. by rewrite Hd, lookup_singleton_ne. }
    by rewrite Ef.
Qed.

End Metric.

(** ** Concrete runs *)

#[local] Existing Instance model_latte.
#[local] Existing Instance model_latte_laws.

(** 100 commands in one second, then 300 in the next: 200 per second over two samples. *)
Lemma metric_instantaneous_average_witness :
  exists m, track_all (metric_new 2) (bs "command") 1000000 [(0, 1000000); (100, 2000000); (400, 3000000)] = Done m
    /\ metric_get_instantaneous m (bs "command") = Done 200.
Proof.
  destruct (metric_instantaneous_average 2 (bs "command") 1000000 1000 (0, 1000000) [(100, 2000000); (400, 3000000)])
    as (m & E & H & _).
  - lia.
  - lia.
  - lia.
  - lia.
  - repeat constructor; cbn; lia.
  - exists m. split; [exact E|exact H].
Defined.
