(* ===== verification/MetricTest.v ===== *)
(** * The test of the metrics (src/experiment/metric_test.c, testhelp.h, testassert.h)

    A program of its own with a small test harness: two counters, two macros
    that print, and an assertion that returns from the function it stands in. *)

From S2P Require Import Prelude LatteC LatteCModel State Metric.

(** The global variables of testhelp.h, what is on the standard output, and the
    messages given to the log. *)
Record test_state := mk_test {
  test_num : Z;
  failed_tests : Z;
  out : bytes;
  logged : list bytes
}.

Definition print (st : test_state) (s : bytes) : test_state :=
  mk_test (test_num st) (failed_tests st) (out st ++ s) (logged st).

(** A program goes on with a result, or has called [exit]. *)
Inductive ended (A : Type) := Ran (r : A) (st : test_state) | Exited (status : Z) (st : test_state).
Arguments Ran {A} _ _.
Arguments Exited {A} _ _.

Definition quote : bytes := [ascii_of_nat 34].

(** [assert(e)] in line [line] of [file], when [e] is false. *)
Definition assert_failed (file : bytes) (line : Z) (e : bytes) (st : test_state) : test_state :=
  print st (cstr file ++ bs ":" ++ dec line ++ bs ": Failed assertion: " ++ quote ++ e ++ quote ++ [LF]).

Section MetricTest.
Context {L : LatteC}.

(** [test_cond(descr, c)]: the condition is evaluated after the name of the
    test has been printed. *)
Definition test_cond (descr : bytes) (c : test_state -> outcome (bool * test_state)) (st : test_state) :
    outcome test_state :=
  let st := mk_test (test_num st + 1) (failed_tests st) (out st) (logged st) in
  let st := print st (dec (test_num st) ++ bs " - " ++ descr ++ bs ": ") in
  '(ok, st) ← c st;
  Done (if ok : bool then print st (bs "PASSED" ++ [LF])
        else let st := print st (bs "FAILED" ++ [LF]) in
             mk_test (test_num st) (failed_tests st + 1) (out st) (logged st)).

Definition test_report (st : test_state) : ended unit :=
  let st := print st (dec (test_num st) ++ bs " tests, " ++ dec (test_num st - failed_tests st) ++ bs " passed, "
                      ++ dec (failed_tests st) ++ bs " failed" ++ [LF]) in
  if negb (failed_tests st =? 0) then Exited 1 (print st (bs "=== WARNING === We have failed tests here..." ++ [LF]))
  else Ran tt st.

(** [metric_delete] only frees memory. *)
Definition test_metric (st : test_state) : outcome (Z * test_state) :=
  m ← metric_track_instantaneous (metric_new 10) (bs "test") 100 100 10;
  value ← metric_get_instantaneous m (bs "test");
  Done (1, mk_test (test_num st) (failed_tests st) (out st) (logged st ++ [bs "value: " ++ dec value])).

(** [added] is the result of [log_add_stdout], [file] is [__FILE__]; the
    assertion stands in line 17. *)
Definition test_api (file : bytes) (added : Z) (st : test_state) : outcome (ended Z) :=
  if negb (added =? 1) then
    Done (Ran 0 (assert_failed file 17 (bs "log_add_stdout(LATTE_LIB, LOG_DEBUG) == 1") st))
  else
    st ← test_cond (bs "async io net write") (fun st => '(r, st) ← test_metric st; Done (r =? 1, st)) st;
    Done (match test_report st with
          | Ran _ st => Ran 1 st
          | Exited s st => Exited s st
          end).

(** The exit status, the output and the log. *)
Definition test_main (file : bytes) (added : Z) : outcome (Z * test_state) :=
  r ← test_api file added (mk_test 0 0 [] []);
  Done (match r with Ran _ st => (0, st) | Exited s st => (s, st) end).

Context {LL : LatteCLaws}.

(** The test of the metrics runs to its end, reads the rate 0 after a single
    reading, and reports one test that passed; whether the log could be opened or
    not, the exit status is 0. *)
Lemma metric_test_runs (file : bytes) (added : Z) :
  test_main file added
  = Done (0, if decide (added = 1)
             then mk_test 1 0 (bs "1 - async io net write: PASSED" ++ [LF] ++ bs "1 tests, 1 passed, 0 failed" ++ [LF]) [bs "value: 0"]
             else mk_test 0 0 (cstr file ++ bs ":17: Failed assertion: " ++ quote
                     ++ bs "log_add_stdout(LATTE_LIB, LOG_DEBUG) == 1" ++ quote ++ [LF]) []).
Proof.
  unfold test_main, test_api. destruct (Z.eqb_spec added 1) as [->|Hne]; cbn [negb].
  2:{ rewrite decide_False by done. reflexivity. }
  rewrite decide_True by done. unfold test_cond, test_metric.
  destruct (track_first 10 (bs "test") 10 ltac:(lia) (100, 100)) as (m & E & Hm).
  change (Z.of_nat 10) with 10 in E. cbn [fst snd] in E.
  pose proof (get_tracked 10 (bs "test") (100, 100) [] 0 m ltac:(lia) ltac:(lia) ltac:(lia) (Forall_nil_2 _) Hm) as Eg.
  rewrite E. cbn [mbind outcome_bind]. rewrite Eg. reflexivity.
Qed.
End MetricTest.
