(* ===== verification/Slowlog.v ===== *)
(** * The slow log (src/redis/slowlog.c) and the end of a command (src/redis/client.c)

    Commands that took longer than a limit are kept in a list of bounded
    length; the list owns one reference of every argument it keeps.  An entry
    cannot be deleted: slowlog.c gives the name of its command, an sds, to
    [zfree], which is the fault [InvalidFree] here. *)

From S2P Require Import Prelude LatteC LatteCModel State Db Reply Protocol.

Section Slowlog.
Context {L : LatteC}.

Definition SLOWLOG_ENTRY_MAX_ARGC : Z := 32.
Definition SLOWLOG_ENTRY_MAX_STRING : Z := 128.

(** [latte_object_new(OBJ_STRING, s)] *)
Definition new_string (s : bytes) : M loc :=
  w ← gets id;
  let '(l, h) := latte_object_new OBJ_STRING s (w_heap w) in
  _ ← mod_heap (fun _ => h);
  mret l.

(** The argument number [j] as the entry keeps it. *)
Definition log_arg (l : loc) : M loc :=
  o ← read_obj l;
  s ← (if (obj_type o =? OBJ_STRING) && sds_encoded_object o then s ← lift (ptr_bytes o); mret (Some s) else mret None);
  let long := match s with Some s => SLOWLOG_ENTRY_MAX_STRING <? sds_len s | None => false end in
  match s, long with
  | Some s, true =>
      new_string (sds_cat_printf (sds_new_len s SLOWLOG_ENTRY_MAX_STRING)
        (bs "... (" ++ dec (sds_len s - SLOWLOG_ENTRY_MAX_STRING) ++ bs " more bytes)"))
  | _, _ =>
      if refcount o =? OBJ_SHARED_REFCOUNT then mret l
      else
        w ← gets id;
        let '(l', h) := dup_string_object l (w_heap w) in
        _ ← mod_heap (fun _ => h);
        mret l'
  end.

(** [for (j = 0; j < argc; j++)], [n] iterations left. *)
Fixpoint log_args (n : nat) (j argc0 : Z) : M (list loc) :=
  match n with
  | O => mret []
  | S n =>
      c ← get_client;
      l ← (if negb (argc c =? argc0) && (j =? argc0 - 1) then
             new_string (sds_cat_printf sds_empty (bs "... (" ++ dec (argc0 - argc0 + 1) ++ bs " more arguments)"))
           else l ← lift (argv_at c j); log_arg l);
      ls ← log_args n (j + 1) argc0;
      mret (l :: ls)
  end.

Definition slowlog_entry_new (id : Z) : M slowlog_entry_t :=
  time ← read_ustime;
  c ← get_client;
  all ← lift (checked_i64 (end_time (client c) - start_time (client c)));
  last ← lift (deref (lastcmd c));
  let command := sds_new (cmd_name last) in
  let argc0 := if SLOWLOG_ENTRY_MAX_ARGC <? argc c then SLOWLOG_ENTRY_MAX_ARGC else argc c in
  args ← log_args (Z.to_nat argc0) 0 argc0;
  let name := match client_get_name (client c) with Some n => Some (sds_dup n) | None => None end in
  mret (mk_slowlog_entry id time all (current_decode_time c) (current_encode_time c) (current_call_time c)
          command name (sds_new (client_get_peer_id (client c))) args).

(** [zfree(s)] of an [sds]: the pointer is behind the header of the string, so it
    is not one the allocator has given out. *)
Definition zfree_sds (s : bytes) (h : heap) : outcome heap := Fault InvalidFree.

(** The name and the address are strings of their own; the references of the
    arguments are given up; then the name of the command, an [sds], is given to
    [zfree]. *)
Definition slowlog_entry_delete (e : slowlog_entry_t) (h : heap) : outcome heap :=
  let h := fold_left (fun h l => latte_object_decr_ref_count l h) (se_argv e) h in
  zfree_sds (se_command e) h.

(** The free method of the list of entries, as [slowlog_manager_new] sets it. *)
Definition entries_free (e : slowlog_entry_t) (h : outcome heap) : outcome heap := h ← h; slowlog_entry_delete e h.

Definition slowlog_manager_delete (m : slowlog_manager_t) (h : heap) : outcome heap :=
  list_delete entries_free (entries m) (Done h).

Definition slowlog_manager_new (max time_limit : Z) : slowlog_manager_t := mk_slowlog list_new max time_limit 0.

Definition slowlog_manager_set_time_limit_us (m : slowlog_manager_t) (limit : Z) : slowlog_manager_t :=
  set_time_limit_us m limit.

(** [while (list_length(entries) > max_len) list_del_node(entries, list_last(entries))];
    the length is unsigned, so [max_len] is compared as unsigned.  Each
    iteration shortens the list. *)
Fixpoint trim_entries (fuel : nat) (m : slowlog_manager_t) (h : heap) : outcome (slowlog_manager_t * heap) :=
  if u64 (max_len m) <? list_length (entries m) then
    match fuel with
    | O => Fault OutOfFuel
    | S fuel =>
        ln ← deref (list_last (entries m));
        let '(l, h) := list_del_node entries_free (entries m) ln (Done h) in
        h ← h;
        trim_entries fuel (set_entries m l) h
    end
  else Done (m, h).

Definition trim_log (m : slowlog_manager_t) (h : heap) : outcome (slowlog_manager_t * heap) :=
  trim_entries (Z.to_nat (list_length (entries m))) m h.

Definition slowlog_manager_set_max_len (m : slowlog_manager_t) (max : Z) (h : heap) :
    outcome (slowlog_manager_t * heap) :=
  trim_log (set_max_len m max) h.

Definition slowlog_manager_push_if_needed : M unit :=
  server ← get_server;
  let m := slowlog_manager server in
  if (max_len m <? 0) || (time_limit_us m <? 0) then mret tt
  else
    c ← get_client;
    took ← lift (checked_i64 (end_time (client c) - start_time (client c)));
    m ← (if time_limit_us m <? took then
           id ← lift (checked_i64 (next_id m + 1));
           e ← slowlog_entry_new (next_id m);
           mret (set_entries (set_next_id m id) (list_add_node_tail (entries m) e))
         else mret m);
    w ← gets id;
    r ← lift (trim_log m (w_heap w));
    _ ← mod_heap (fun _ => snd r);
    server ← get_server;
    put_server (set_slowlog_manager server (fst r)).

(** src/redis/client.c *)
Definition redis_client_command_end : M unit :=
  _ ← slowlog_manager_push_if_needed;
  server ← get_server;
  n ← lift (checked_i64 (metric_stat_numcommands server + 1));
  put_server (set_metric_stat_numcommands server n).

(** ** Specification *)

(** What an entry keeps of an argument, and of the arguments. *)
Definition slow_text (a : bytes) : bytes :=
  if 128 <? zlen a then take 128 a ++ bs "... (" ++ dec (zlen a - 128) ++ bs " more bytes)" else a.

Definition slow_texts (args : list bytes) : list bytes :=
  if zlen args <=? 32 then map slow_text args
  else map slow_text (take 31 args) ++ [bs "... (1 more arguments)"].

(** The objects at [ls] hold [args]. *)
Definition args_hold (h : heap) (ls : list loc) (args : list bytes) : Prop := Forall2 (holds h) ls args.

(** [h'] is [h] with new objects at [ls], of one reference each. *)
Definition adds (ls : list loc) (h h' : heap) : Prop :=
  NoDup ls /\ (forall l, l ∈ ls -> h !! l = None /\ exists o, h' !! l = Some o /\ refcount o = 1)
  /\ (forall l, l ∉ ls -> h' !! l = h !! l).

(** Objects that are not shared for ever. *)
Definition unshared (h : heap) (l : loc) : Prop :=
  forall o, h !! l = Some o -> refcount o <> OBJ_SHARED_REFCOUNT.

Context {LL : LatteCLaws}.

Lemma adds_nil (h : heap) : adds [] h h.
Proof. split; [constructor|]. split; [by intros l ?%elem_of_nil|done]. Qed.

Lemma adds_one (l : loc) (o : latte_object_t) (h : heap) :
  h !! l = None -> refcount o = 1 -> adds [l] h (<[l := o]> h).
Proof.
  intros Hl Hr. split; [apply NoDup_singleton|]. split.
  - intros x ->%list_elem_of_singleton. split; [done|]. exists o. by rewrite lookup_insert_eq.
  - intros x Hx. apply lookup_insert_ne. intros ->. by apply Hx, list_elem_of_singleton.
Qed.

Lemma adds_app (l1 l2 : list loc) (h h1 h2 : heap) : adds l1 h h1 -> adds l2 h1 h2 -> adds (l1 ++ l2) h h2.
Proof.
  intros (N1 & A1 & F1) (N2 & A2 & F2).
  assert (Hd : forall l, l ∈ l1 -> l ∉ l2).
  { intros l Hl Hl2. destruct (A1 l Hl) as (_ & o & E & _), (A2 l Hl2) as [? _]. congruence. }
  split; [by apply NoDup_app|]. split.
  - intros l [Hl|Hl]%elem_of_app.
    + rewrite (F2 l) by (by apply Hd). by apply A1.
    + destruct (A2 l Hl) as [E ?]. split; [|done]. rewrite <- F1; [done|]. intros Hl1. by apply (Hd l).
  - intros l Hl. rewrite elem_of_app in Hl. rewrite F2, F1; auto.
Qed.

Lemma adds_subseteq (ls : list loc) (h h' : heap) : adds ls h h' -> h ⊆ h'.
Proof.
  intros (_ & A & F). apply map_subseteq_spec. intros l o Ho. rewrite F; [done|]. intros Hl.
  destruct (A l Hl). congruence.
Qed.

Lemma set_w_heap_same (w : world) : set_w_heap w (w_heap w) = w.
Proof. by destruct w. Qed.

Lemma args_hold_mono (h h' : heap) (ls : list loc) (args : list bytes) :
  h ⊆ h' -> args_hold h ls args -> args_hold h' ls args.
Proof. intros Hh H. eapply Forall2_impl; [exact H|]. intros l a. by apply holds_mono. Qed.

Lemma new_string_ok (w : world) (s : bytes) :
  exists l h, new_string s w = Done (l, set_w_heap w h) /\ holds h l s /\ adds [l] (w_heap w) h.
Proof.
  destruct (latte_object_new_spec s (w_heap w)) as (l & o & E & Hl & Ho & Hr).
  exists l, (<[l := o]> (w_heap w)). unfold new_string. mstep. cbn [id]. rewrite E. split; [reflexivity|].
  split; [|by apply adds_one]. exists o. split; [apply lookup_insert_eq|done].
Qed.

Lemma log_arg_ok (w : world) (l : loc) (a : bytes) :
  holds (w_heap w) l a ->
  exists l' h, log_arg l w = Done (l', set_w_heap w h) /\ w_heap w ⊆ h /\ holds h l' (slow_text a)
    /\ (unshared (w_heap w) l -> adds [l'] (w_heap w) h).
Proof.
  intros (o & Ho & Hs). pose proof Hs as (Ht & He & Hp). unfold log_arg. rewrite (bind_read_obj l o) by done.
  rewrite Ht, Z.eqb_refl, He. simpl (true && true). cbv iota.
  rewrite (bind_Done _ _ w w (Some a)).
  2:{ rewrite (bind_lift _ _ _ a); [done|]. unfold ptr_bytes. by rewrite Hp. }
  rewrite sds_len_spec. unfold slow_text, SLOWLOG_ENTRY_MAX_STRING.
  destruct (Z.ltb_spec 128 (zlen a)) as [Hlong|Hshort].
  - rewrite sds_cat_printf_spec, sds_new_len_spec by lia. change (Z.to_nat 128) with 128%nat.
    destruct (new_string_ok w (take 128 a ++ bs "... (" ++ dec (zlen a - 128) ++ bs " more bytes)")) as (l' & h & E & Hh & Ha).
    exists l', h. split; [exact E|]. split; [by eapply adds_subseteq|done].
  - destruct (Z.eqb_spec (refcount o) OBJ_SHARED_REFCOUNT) as [Esh|_].
    + exists l, (w_heap w). split; [by rewrite set_w_heap_same|]. split; [done|]. split; [by exists o|]. intros Hun. by destruct (Hun o Ho).
    + mstep. cbn [id]. destruct (dup_string_object_spec l o a (w_heap w) Ho Hs) as (l' & o' & -> & Hn & Ho' & Hr).
      exists l', (<[l' := o']> (w_heap w)). split; [reflexivity|]. split; [by apply insert_subseteq|].
      split; [|intros _; by apply adds_one]. exists o'. split; [apply lookup_insert_eq|done].
Qed.

Definition logged_argc (args : list bytes) : Z := if 32 <? zlen args then 32 else zlen args.

Lemma slow_texts_length (args : list bytes) : length (slow_texts args) = Z.to_nat (logged_argc args).
Proof.
  unfold slow_texts, logged_argc. destruct (Z.leb_spec (zlen args) 32); destruct (Z.ltb_spec 32 (zlen args)); try lia.
  - rewrite length_map. unfold zlen. lia.
  - unfold zlen in *. rewrite length_app, length_map, length_take. change (length [_]) with 1%nat. lia.
Qed.

Lemma slow_texts_lookup (args : list bytes) (j : nat) (a : bytes) :
  Z.of_nat j < logged_argc args -> args !! j = Some a ->
  slow_texts args !! j = Some (if negb (zlen args =? logged_argc args) && (Z.of_nat j =? logged_argc args - 1)
                               then bs "... (1 more arguments)" else slow_text a).
Proof.
  unfold slow_texts, logged_argc. intros Hj Ha.
  destruct (Z.leb_spec (zlen args) 32); destruct (Z.ltb_spec 32 (zlen args)); try lia.
  - rewrite Z.eqb_refl. simpl. by rewrite list_lookup_fmap, Ha.
  - rewrite (proj2 (Z.eqb_neq (zlen args) 32)) by lia. simpl negb. simpl andb.
    assert (Hl : length (map slow_text (take 31 args)) = 31%nat).
    { rewrite length_map, length_take. unfold zlen in *. lia. }
    destruct (Z.eqb_spec (Z.of_nat j) (32 - 1)).
    + assert (j = 31%nat) as -> by lia. rewrite lookup_app_r, Hl by lia. done.
    + rewrite lookup_app_l by lia. rewrite list_lookup_fmap, lookup_take_lt, Ha by lia. done.
Qed.

Lemma log_args_ok (args : list bytes) (ls : list loc) (cells : list (option loc)) (n j : nat) (w : world) :
  argv (w_client w) = Some (map Some ls ++ cells) -> argc (w_client w) = zlen args ->
  args_hold (w_heap w) ls args -> Z.of_nat (j + n) = logged_argc args ->
  exists ls' h, log_args n (Z.of_nat j) (logged_argc args) w = Done (ls', set_w_heap w h)
    /\ w_heap w ⊆ h /\ args_hold h ls' (drop j (slow_texts args))
    /\ (Forall (unshared (w_heap w)) ls -> adds ls' (w_heap w) h).
Proof.
  revert j w. induction n as [|n IH]; intros j w Ha Hc Hh Hn.
  { exists [], (w_heap w). rewrite set_w_heap_same. split; [done|]. split; [done|].
    rewrite drop_ge by (rewrite slow_texts_length; lia). split; [constructor|intros _; apply adds_nil]. }
  assert (Hj : (j < length args)%nat). { unfold logged_argc, zlen in *. destruct (_ <? _) eqn:E; zify_bools; lia. }
  destruct (lookup_lt_is_Some_2 args j Hj) as [a Haj].
  destruct (Forall2_lookup_r _ _ _ _ _ Hh Haj) as (l & Hl & Hla).
  pose proof (slow_texts_lookup args j a ltac:(lia) Haj) as Ht.
  set (t := if negb _ && _ then _ else _) in Ht.
  simpl log_args. mstep. rewrite Hc.
  assert (Hstep : exists l' h, (if negb (zlen args =? logged_argc args) && (Z.of_nat j =? logged_argc args - 1) then
      new_string (sds_cat_printf sds_empty (bs "... (" ++ dec (logged_argc args - logged_argc args + 1) ++ bs " more arguments)"))
      else l ← lift (argv_at (w_client w) (Z.of_nat j)); log_arg l) w = Done (l', set_w_heap w h)
      /\ w_heap w ⊆ h /\ holds h l' t /\ (unshared (w_heap w) l -> adds [l'] (w_heap w) h)).
  { unfold t. destruct (_ && _).
    - rewrite Z.sub_diag, sds_cat_printf_spec, sds_empty_spec.
      destruct (new_string_ok w (bs "... (1 more arguments)")) as (l' & h & E & Hh' & Had).
      exists l', h. split; [exact E|]. split; [by eapply adds_subseteq|done].
    - rewrite (bind_lift _ _ _ l); [by apply log_arg_ok|]. unfold argv_at. rewrite Ha. cbn.
      rewrite (array_get_Done _ _ (Some l)); [done|lia|]. rewrite Nat2Z.id, lookup_app_l.
      + by rewrite list_lookup_fmap, Hl.
      + rewrite length_map. by eapply lookup_lt_Some. }
  destruct Hstep as (l' & h & E & Hsub & Hhold & Had). rewrite (bind_Done _ _ _ _ _ E).
  destruct (IH (S j) (set_w_heap w h)) as (ls' & h' & E' & Hsub' & Hh' & Had'); [done|done|by eapply args_hold_mono|lia|].
  rewrite Nat2Z.inj_succ in E'. unfold Z.succ in E'. rewrite (bind_Done _ _ _ _ _ E').
  exists (l' :: ls'), h'. split; [reflexivity|]. split; [by etrans|].
  rewrite (drop_S _ _ _ Ht). split; [constructor; [by eapply holds_mono|done]|].
  intros Hun. apply (adds_app [l'] ls' _ h).
  - apply Had. rewrite Forall_forall in Hun. apply Hun. by eapply list_elem_of_lookup_2.
  - apply Had'. apply Forall_forall. intros x Hx o Ho. rewrite Forall_forall in Hun. apply list_elem_of_lookup in Hx as [i Hi].
    destruct (Forall2_lookup_l _ _ _ _ _ Hh Hi) as (b & _ & o' & Ho' & _). pose proof (lookup_weaken _ _ _ _ Ho' Hsub) as Ho2.
    cbn in Ho. rewrite Ho in Ho2. injection Ho2 as <-. apply (Hun x); [by eapply list_elem_of_lookup_2|done].
Qed.

Definition took (w : world) : Z := end_time (client (w_client w)) - start_time (client (w_client w)).

Lemma slowlog_entry_ok (w : world) (id : Z) (args : list bytes) (ls : list loc) (cells : list (option loc)) (c : redis_command_t) :
  (args <> [] -> argv (w_client w) = Some (map Some ls ++ cells)) -> argc (w_client w) = zlen args ->
  args_hold (w_heap w) ls args -> lastcmd (w_client w) = Some c -> - 2 ^ 63 <= took w < 2 ^ 63 ->
  exists e h, slowlog_entry_new id w = Done (e, set_w_heap (set_w_ticks w (S (w_ticks w))) h)
    /\ w_heap w ⊆ h /\ se_id e = id /\ all_duration e = took w /\ se_command e = cstr (cmd_name c)
    /\ args_hold h (se_argv e) (slow_texts args) /\ (args = [] -> h = w_heap w)
    /\ (Forall (unshared (w_heap w)) ls -> adds (se_argv e) (w_heap w) h).
Proof.
  intros Ha Hc Hh Hl Ht. set (w1 := set_w_ticks w (S (w_ticks w))).
  assert (Hargs : exists ls' h, log_args (Z.to_nat (logged_argc args)) 0 (logged_argc args) w1
    = Done (ls', set_w_heap w1 h) /\ w_heap w ⊆ h /\ args_hold h ls' (slow_texts args) /\ (args = [] -> h = w_heap w)
    /\ (Forall (unshared (w_heap w)) ls -> adds ls' (w_heap w) h)).
  { destruct args as [|a args].
    - exists [], (w_heap w). split; [by rewrite <- (set_w_heap_same w1)|]. split_and!; try done; [constructor|]. intros _. apply adds_nil.
    - destruct (log_args_ok (a :: args) ls cells (Z.to_nat (logged_argc (a :: args))) 0 w1) as (ls' & h & E & H1 & H2 & H3);
        [by apply Ha|done|done| |by exists ls', h].
      unfold logged_argc. destruct (_ <? _); [done|]. unfold zlen. lia. }
  destruct Hargs as (ls' & h & E & Hsub & Hh' & Hnil & Had).
  unfold slowlog_entry_new. rewrite (bind_Done read_ustime _ w w1 (ustime (w_ticks w))) by reflexivity. mstep.
  rewrite (bind_lift _ _ _ (took w)) by (by apply checked_i64_Done). rewrite (bind_lift _ _ _ c) by (exact (f_equal deref Hl)).
  change (argc (w_client w1)) with (argc (w_client w)). rewrite Hc.
  change (if SLOWLOG_ENTRY_MAX_ARGC <? zlen args then SLOWLOG_ENTRY_MAX_ARGC else zlen args) with (logged_argc args).
  rewrite (bind_Done _ _ _ _ _ E). eexists _, h. split; [reflexivity|]. cbn [se_id all_duration se_command se_argv].
  rewrite sds_new_spec. done.
Qed.

(** ** The list of entries *)

(** Trimming the log: nothing happens to one that is short enough; the first
    entry to go is the end of the program. *)
Lemma trim_log_ok (m : slowlog_manager_t) (h : heap) :
  trim_log m h = if zlen (list_elems (entries m)) <=? u64 (max_len m) then Done (m, h) else Fault InvalidFree.
Proof.
  unfold trim_log. rewrite list_length_spec. set (es := list_elems (entries m)).
  assert (0 <= u64 (max_len m)) by (apply Z.mod_pos_bound; lia). pose proof (zlen_nonneg es).
  destruct (Z.to_nat (zlen es)) as [|fuel] eqn:Ef; simpl trim_entries; rewrite list_length_spec; fold es.
  { replace (u64 (max_len m) <? zlen es) with false by lia. by replace (zlen es <=? u64 (max_len m)) with true by lia. }
  destruct (Z.ltb_spec (u64 (max_len m)) (zlen es)) as [Hlt|Hge]; [|by replace (zlen es <=? u64 (max_len m)) with true by lia].
  replace (zlen es <=? u64 (max_len m)) with false by lia.
  pose proof (list_last_spec _ (entries m)) as Hlast. fold es in Hlast.
  destruct (list_last (entries m)) as [ln|]; [|rewrite Hlast in Hlt; change (zlen []) with 0 in Hlt; lia].
  destruct Hlast as [Hpos Hne]. destruct (exists_last Hne) as (es0 & e & Ees).
  destruct (list_del_node_spec _ _ entries_free (entries m) ln (length es0) e (Done h)) as (l & Ed & _).
  - rewrite Hpos, Ees, length_app. simpl. f_equal. lia.
  - fold es. rewrite Ees, lookup_app_r, Nat.sub_diag by lia. done.
  - cbn [deref mbind outcome_bind]. by rewrite Ed.
Qed.

(** The same for the whole list. *)
Lemma manager_delete_ok (m : slowlog_manager_t) (h : heap) :
  slowlog_manager_delete m h = if decide (list_elems (entries m) = []) then Done h else Fault InvalidFree.
Proof.
  unfold slowlog_manager_delete. rewrite list_delete_spec. destruct (list_elems (entries m)) as [|e es]; [done|].
  rewrite decide_False by done. cbn [fold_left]. change (entries_free e (Done h)) with (Fault InvalidFree : outcome heap). clear e.
  induction es as [|e es IH]; [done|]. exact IH.
Qed.

(** ** The end of a command *)

(** Everything but the log of the server. *)
Definition with_log (w : world) (t : nat) (m : slowlog_manager_t) (n : Z) : world :=
  set_w_server (set_w_ticks w t)
    (set_metric_stat_numcommands (set_slowlog_manager (w_server w) m) n).

(** The arguments a client holds at the end of a command. *)
Definition ended_with (w : world) (ls : list loc) (args : list bytes) : Prop :=
  (args <> [] -> exists cells, argv (w_client w) = Some (map Some ls ++ cells))
  /\ argc (w_client w) = zlen args /\ args_hold (w_heap w) ls args.

Section Push.
Context (w : world) (ls : list loc) (args : list bytes).
Abbreviation m := (slowlog_manager (w_server w)).
Abbreviation es := (list_elems (entries m)).
Hypothesis Hmax : 0 <= max_len m < 2 ^ 63.
Hypothesis Hlim : 0 <= time_limit_us m.
Hypothesis Htook : - 2 ^ 63 <= took w < 2 ^ 63.
Hypothesis Hargs : ended_with w ls args.
Hypothesis Hcount : - 2 ^ 63 <= metric_stat_numcommands (w_server w) < 2 ^ 63 - 1.
Hypothesis Hlen : zlen es <= max_len m.

Lemma push_start : slowlog_manager_push_if_needed w =
  (m' ← (if time_limit_us m <? took w then
           id ← lift (checked_i64 (next_id m + 1));
           e ← slowlog_entry_new (next_id m);
           mret (set_entries (set_next_id m id) (list_add_node_tail (entries m) e))
         else mret m);
   w ← gets id;
   r ← lift (trim_log m' (w_heap w));
   _ ← mod_heap (fun _ => snd r);
   server ← get_server;
   put_server (set_slowlog_manager server (fst r))) w.
Proof.
  unfold slowlog_manager_push_if_needed. mstep. replace (max_len m <? 0) with false by lia.
  replace (time_limit_us m <? 0) with false by lia. simpl (_ || _). cbv iota. mstep.
  by rewrite (bind_lift _ _ _ (took w)) by (by apply checked_i64_Done).
Qed.

Lemma command_end_fast :
  took w <= time_limit_us m ->
  redis_client_command_end w = Done (tt, with_log w (w_ticks w) m (metric_stat_numcommands (w_server w) + 1)).
Proof.
  clear Hargs. intros Hfast. unfold redis_client_command_end. erewrite bind_Done.
  2:{ rewrite push_start. replace (_ <? took w) with false by lia. mstep. cbn [id].
      rewrite (bind_lift _ _ _ (m, w_heap w)); [reflexivity|]. rewrite trim_log_ok, wrap_u_small by lia.
      by replace (zlen es <=? max_len m) with true by lia. }
  mstep. cbn [w_server set_w_server set_slowlog_manager metric_stat_numcommands set_w_heap].
  rewrite (bind_lift _ _ _ (metric_stat_numcommands (w_server w) + 1)) by (apply checked_i64_Done; lia).
  unfold with_log. by destruct w as [? ? [] ? ?].
Qed.

(** The log with the new entry, before it is trimmed. *)
Definition pushed (e : slowlog_entry_t) : slowlog_manager_t :=
  set_entries (set_next_id m (next_id m + 1)) (list_add_node_tail (entries m) e).

Lemma push_slow (c : redis_command_t) :
  time_limit_us m < took w -> - 2 ^ 63 <= next_id m < 2 ^ 63 - 1 -> lastcmd (w_client w) = Some c ->
  exists e h, slowlog_manager_push_if_needed w =
      (r ← lift (trim_log (pushed e) h);
       _ ← mod_heap (fun _ => snd r);
       server ← get_server;
       put_server (set_slowlog_manager server (fst r))) (set_w_heap (set_w_ticks w (S (w_ticks w))) h)
    /\ w_heap w ⊆ h /\ se_id e = next_id m /\ all_duration e = took w /\ se_command e = cstr (cmd_name c)
    /\ args_hold h (se_argv e) (slow_texts args) /\ (args = [] -> h = w_heap w)
    /\ (Forall (unshared (w_heap w)) ls -> adds (se_argv e) (w_heap w) h).
Proof.
  intros Hslow Hid Hlast. destruct Hargs as (Hv & Hc & Hh).
  assert (Hcells : exists cells, args <> [] -> argv (w_client w) = Some (map Some ls ++ cells)).
  { destruct (decide (args = [])) as [->|Hne]; [by exists []|]. destruct (Hv Hne) as (cells & ?). by exists cells. }
  destruct Hcells as (cells & Hcells).
  destruct (slowlog_entry_ok w (next_id m) args ls cells c Hcells Hc Hh Hlast Htook) as (e & h & Ee & Hsub & H1 & H2 & H3 & H4 & H5 & H6).
  exists e, h. split; [|done]. rewrite push_start. replace (_ <? took w) with true by lia.
  erewrite bind_Done.
  2:{ rewrite (bind_lift _ _ _ (next_id m + 1)) by (apply checked_i64_Done; lia).
      rewrite (bind_Done _ _ _ _ _ Ee). reflexivity. }
  mstep. reflexivity.
Qed.

Lemma pushed_elems (e : slowlog_entry_t) : list_elems (entries (pushed e)) = es ++ [e].
Proof. cbn [entries pushed set_entries]. apply list_add_node_tail_elems. Qed.

Lemma command_end_slow (c : redis_command_t) :
  time_limit_us m < took w -> - 2 ^ 63 <= next_id m < 2 ^ 63 - 1 -> lastcmd (w_client w) = Some c -> zlen es < max_len m ->
  exists e l h, redis_client_command_end w
      = Done (tt, set_w_heap (with_log w (S (w_ticks w)) (mk_slowlog l (max_len m) (time_limit_us m) (next_id m + 1))
                    (metric_stat_numcommands (w_server w) + 1)) h)
    /\ list_elems l = es ++ [e] /\ w_heap w ⊆ h
    /\ se_id e = next_id m /\ all_duration e = took w /\ se_command e = cstr (cmd_name c)
    /\ args_hold h (se_argv e) (slow_texts args) /\ (args = [] -> h = w_heap w)
    /\ (Forall (unshared (w_heap w)) ls -> adds (se_argv e) (w_heap w) h).
Proof.
  intros Hslow Hid Hlast Hroom.
  destruct (push_slow c Hslow Hid Hlast) as (e & h & Ep & Hsub & H1 & H2 & H3 & H4 & H5 & H6).
  exists e, (entries (pushed e)), h. split; [|split; [apply pushed_elems|by split_and!]].
  unfold redis_client_command_end. erewrite bind_Done.
  2:{ rewrite Ep. rewrite (bind_lift _ _ _ (pushed e, h)); [reflexivity|].
      rewrite trim_log_ok, pushed_elems, zlen_app. change (zlen [e]) with 1. change (max_len (pushed e)) with (max_len m).
      rewrite wrap_u_small by lia. by replace (zlen es + 1 <=? max_len m) with true by lia. }
  mstep. cbn [w_server set_w_server set_slowlog_manager metric_stat_numcommands set_w_heap set_w_ticks].
  rewrite (bind_lift _ _ _ (metric_stat_numcommands (w_server w) + 1)) by (apply checked_i64_Done; lia).
  unfold with_log, pushed. by destruct w as [? ? [] ? ?].
Qed.

Lemma command_end_full (c : redis_command_t) :
  time_limit_us m < took w -> - 2 ^ 63 <= next_id m < 2 ^ 63 - 1 -> lastcmd (w_client w) = Some c -> max_len m <= zlen es ->
  redis_client_command_end w = Fault InvalidFree.
Proof.
  intros Hslow Hid Hlast Hfull. destruct (push_slow c Hslow Hid Hlast) as (e & h & Ep & _).
  unfold redis_client_command_end. apply bind_Fault. rewrite Ep. apply bind_Fault.
  unfold lift. rewrite trim_log_ok, pushed_elems, zlen_app. change (zlen [e]) with 1. change (max_len (pushed e)) with (max_len m).
  rewrite wrap_u_small by lia. by replace (zlen es + 1 <=? max_len m) with false by lia.
Qed.

Lemma command_end_no_command :
  time_limit_us m < took w -> - 2 ^ 63 <= next_id m < 2 ^ 63 - 1 -> lastcmd (w_client w) = None ->
  redis_client_command_end w = Fault NullDeref.
Proof.
  intros Hslow Hid Hlast. unfold redis_client_command_end. apply bind_Fault. rewrite push_start.
  replace (_ <? took w) with true by lia.
  apply bind_Fault. rewrite (bind_lift _ _ _ (next_id m + 1)) by (apply checked_i64_Done; lia). apply bind_Fault.
  unfold slowlog_entry_new. rewrite (bind_Done read_ustime _ w _ (ustime (w_ticks w))) by reflexivity. mstep.
  rewrite (bind_lift _ _ _ (took w)) by (by apply checked_i64_Done). apply bind_Fault.
  unfold lift. cbn. by rewrite Hlast.
Qed.
End Push.

(** ** The theorems *)

(** C28: an entry of the slow log keeps copies of the arguments: each argument
    whole up to 128 bytes, otherwise its first 128 bytes and the number of
    bytes left out, up to 32 of them; of a longer command it keeps the first
    31 and a last line that always claims one more argument, however many were
    left out.  The objects of the client stay as they are. *)
Theorem slowlog_entry_new_correct (w : world) (id : Z) (args : list bytes) (ls : list loc)
    (cells : list (option loc)) (c : redis_command_t) :
  (args <> [] -> argv (w_client w) = Some (map Some ls ++ cells)) -> argc (w_client w) = zlen args ->
  args_hold (w_heap w) ls args -> lastcmd (w_client w) = Some c -> - 2 ^ 63 <= took w < 2 ^ 63 ->
  exists e h, slowlog_entry_new id w = Done (e, set_w_heap (set_w_ticks w (S (w_ticks w))) h)
    /\ w_heap w ⊆ h /\ se_id e = id /\ all_duration e = took w /\ se_command e = cstr (cmd_name c)
    /\ args_hold h (se_argv e) (slow_texts args).
Proof.
  intros Ha Hc Hh Hl Ht. destruct (slowlog_entry_ok w id args ls cells c Ha Hc Hh Hl Ht) as (e & h & E & ? & ? & ? & ? & ? & _ & _).
  by exists e, h.
Qed.

(** C27: at the end of a command of a client that holds the arguments [args] (none
    if it has been reset), with a log within its maximum: a command within the
    limit leaves the log alone; a slow one appends an entry with the next
    identifier, its duration, the name of the command and the texts an entry
    keeps of the arguments, in new objects if the arguments are not shared ones,
    and changes no other object; when the log is full the new entry is deleted,
    which gives the name of the command, an sds, to [zfree]: an invalid free; and
    a slow command that was unknown dereferences NULL.  Otherwise the counter of
    commands grows by one. *)
Theorem redis_client_command_end_correct (w : world) (ls : list loc) (args : list bytes) :
  let m := slowlog_manager (w_server w) in
  let es := list_elems (entries m) in
  0 <= max_len m < 2 ^ 63 -> 0 <= time_limit_us m -> - 2 ^ 63 <= took w < 2 ^ 63 -> ended_with w ls args ->
  - 2 ^ 63 <= metric_stat_numcommands (w_server w) < 2 ^ 63 - 1 -> - 2 ^ 63 <= next_id m < 2 ^ 63 - 1 ->
  zlen es <= max_len m ->
  let n := metric_stat_numcommands (w_server w) + 1 in
  if took w <=? time_limit_us m then redis_client_command_end w = Done (tt, with_log w (w_ticks w) m n)
  else match lastcmd (w_client w) with
       | None => redis_client_command_end w = Fault NullDeref
       | Some c =>
           if zlen es <? max_len m then
             exists e l h, redis_client_command_end w
                 = Done (tt, set_w_heap (with_log w (S (w_ticks w)) (mk_slowlog l (max_len m) (time_limit_us m) (next_id m + 1)) n) h)
               /\ list_elems l = es ++ [e] /\ w_heap w ⊆ h
               /\ se_id e = next_id m /\ all_duration e = took w /\ se_command e = cstr (cmd_name c)
               /\ args_hold h (se_argv e) (slow_texts args) /\ (args = [] -> h = w_heap w)
               /\ (Forall (unshared (w_heap w)) ls -> adds (se_argv e) (w_heap w) h)
           else redis_client_command_end w = Fault InvalidFree
       end.
Proof.
  intros m es Hmax Hlim Ht Hargs Hcount Hid Hlen n. destruct (Z.leb_spec (took w) (time_limit_us m)).
  - by apply command_end_fast.
  - destruct (lastcmd (w_client w)) as [c|] eqn:Hl; [|by eapply command_end_no_command].
    destruct (Z.ltb_spec (zlen es) (max_len m)).
    + by apply (command_end_slow w ls args).
    + by eapply (command_end_full w ls args).
Qed.

(** C29: setting the maximum length of the log: when the entries fit, nothing else
    changes, and a negative maximum fits any log, since the length is compared as
    an unsigned number; when one has to go, its deletion gives the name of its
    command, an sds, to [zfree], so that a log can never be shortened; for the
    same reason the manager can only be deleted while its log is empty. *)
Theorem slowlog_manager_set_max_len_correct (m : slowlog_manager_t) (max : Z) (h : heap) :
  - 2 ^ 63 <= max < 2 ^ 63 -> zlen (list_elems (entries m)) < 2 ^ 63 ->
  slowlog_manager_set_max_len m max h
  = (if (max <? 0) || (zlen (list_elems (entries m)) <=? max)
     then Done (mk_slowlog (entries m) max (time_limit_us m) (next_id m), h) else Fault InvalidFree)
  /\ slowlog_manager_delete m h = (if zlen (list_elems (entries m)) =? 0 then Done h else Fault InvalidFree).
Proof.
  intros Hmax Hlen. split.
  - unfold slowlog_manager_set_max_len. rewrite trim_log_ok. change (entries (set_max_len m max)) with (entries m).
    change (max_len (set_max_len m max)) with max. change (set_max_len m max) with (mk_slowlog (entries m) max (time_limit_us m) (next_id m)).
    destruct (Z.ltb_spec max 0) as [Hneg|Hpos]; simpl orb.
    + assert (u64 max = max + 2 ^ 64) as -> by (unfold wrap_u; symmetry; apply Z.mod_unique with (q := -1); lia).
      by replace (zlen (list_elems (entries m)) <=? max + 2 ^ 64) with true by lia.
    + by rewrite wrap_u_small by lia.
  - rewrite manager_delete_ok. destruct (list_elems (entries m)) as [|e es]; [done|]. rewrite decide_False by done.
    rewrite zlen_cons. pose proof (zlen_nonneg es). by replace (1 + zlen es =? 0) with false by lia.
Qed.

End Slowlog.

(** ** Concrete runs *)

#[local] Existing Instance model_latte.
#[local] Existing Instance model_latte_laws.

Definition ex_ping_command : redis_command_t :=
  mk_command (bs "ping") ping_proc (-2) (bs "admin") 0 None 0 0 0 0 0 0 0 0 0.

(** A client that has just run a command of 20 ms. *)
Definition ex_ended (args : list loc) (last : option redis_command_t) (max : Z) : world :=
  let w := ex_idle [] args in
  set_w_server
    (set_w_client w (set_lastcmd (set_client (w_client w) (mk_latte_client [] 0 0 list_new true 1000 21000 [])) last))
    (set_slowlog_manager ex_server (slowlog_manager_new max 10000)).

Lemma ex_ended_args (last : option redis_command_t) (max : Z) :
  args_hold (w_heap (ex_ended [1%positive; 3%positive] last max)) [1%positive; 3%positive] [bs "foo"; bs "baz"].
Proof.
  change (w_heap (ex_ended _ _ _)) with (w_heap ex_world).
  repeat constructor; [exists (ex_str "foo")|exists (ex_str "baz")]; (split; [vm_compute; reflexivity|apply ex_str_obj]).
Qed.

Lemma slowlog_entry_new_correct_witness :
  exists e h, slowlog_entry_new 5 (ex_ended [1%positive; 3%positive] (Some ex_ping_command) 1)
      = Done (e, set_w_heap (set_w_ticks (ex_ended [1%positive; 3%positive] (Some ex_ping_command) 1) 1) h)
    /\ all_duration e = 20000 /\ args_hold h (se_argv e) [bs "foo"; bs "baz"].
Proof.
  destruct (slowlog_entry_new_correct (ex_ended [1%positive; 3%positive] (Some ex_ping_command) 1) 5
    [bs "foo"; bs "baz"] [1%positive; 3%positive] [] ex_ping_command) as (e & h & E & _ & _ & Hd & _ & Ha).
  - reflexivity.
  - reflexivity.
  - exact (ex_ended_args _ _).
  - reflexivity.
  - split; [discriminate|reflexivity].
  - exists e, h. split; [exact E|]. split; [exact Hd|exact Ha].
Defined.

(** What the theorem asks for, of a log of at most [max] entries. *)
Lemma ex_ended_ranges (last : option redis_command_t) (max : Z) :
  0 <= max < 100 ->
  let w := ex_ended [] last max in
  let m := slowlog_manager (w_server w) in
  0 <= max_len m < 2 ^ 63 /\ 0 <= time_limit_us m /\ - 2 ^ 63 <= took w < 2 ^ 63 /\ ended_with w [] []
  /\ - 2 ^ 63 <= metric_stat_numcommands (w_server w) < 2 ^ 63 - 1
  /\ - 2 ^ 63 <= next_id m < 2 ^ 63 - 1 /\ zlen (list_elems (entries m)) <= max_len m.
Proof.
  intros Hm. cbv zeta. change (max_len (slowlog_manager (w_server (ex_ended [] last max)))) with max.
  split; [lia|]. split; [discriminate|].
  split; [split; [discriminate|reflexivity]|]. split; [split; [by intros []|]; split; [reflexivity|constructor]|].
  split; [split; [discriminate|reflexivity]|]. split; [split; [discriminate|reflexivity]|].
  change (zlen (list_elems (entries (slowlog_manager (w_server (ex_ended [] last max)))))) with 0. lia.
Qed.

Lemma ex_ended_slow (last : option redis_command_t) (max : Z) :
  (took (ex_ended [] last max) <=? time_limit_us (slowlog_manager (w_server (ex_ended [] last max)))) = false.
Proof. reflexivity. Qed.

(** A log with room, a log without, and a command that was unknown. *)
Lemma redis_client_command_end_correct_witness :
  (exists e l w', redis_client_command_end (ex_ended [] (Some ex_ping_command) 1) = Done (tt, w')
     /\ slowlog_manager (w_server w') = mk_slowlog l 1 10000 1 /\ list_elems l = [e] /\ all_duration e = 20000)
  /\ redis_client_command_end (ex_ended [] (Some ex_ping_command) 0) = Fault InvalidFree
  /\ redis_client_command_end (ex_ended [] None 1) = Fault NullDeref.
Proof.
  split; [|split].
  - destruct (ex_ended_ranges (Some ex_ping_command) 1 ltac:(lia)) as (H1 & H2 & H3 & H4 & H5 & H6 & H7).
    pose proof (redis_client_command_end_correct (ex_ended [] (Some ex_ping_command) 1) [] [] H1 H2 H3 H4 H5 H6 H7) as H.
    cbv zeta in H. rewrite ex_ended_slow in H.
    change (lastcmd (w_client (ex_ended [] (Some ex_ping_command) 1))) with (Some ex_ping_command) in H.
    destruct H as (e & l & h & E & Hl & _ & _ & Hd & _). eexists e, l, _. split; [exact E|]. split; [reflexivity|].
    split; [exact Hl|exact Hd].
  - destruct (ex_ended_ranges (Some ex_ping_command) 0 ltac:(lia)) as (H1 & H2 & H3 & H4 & H5 & H6 & H7).
    pose proof (redis_client_command_end_correct (ex_ended [] (Some ex_ping_command) 0) [] [] H1 H2 H3 H4 H5 H6 H7) as H.
    cbv zeta in H. rewrite ex_ended_slow in H. exact H.
  - destruct (ex_ended_ranges None 1 ltac:(lia)) as (H1 & H2 & H3 & H4 & H5 & H6 & H7).
    pose proof (redis_client_command_end_correct (ex_ended [] None 1) [] [] H1 H2 H3 H4 H5 H6 H7) as H.
    cbv zeta in H. rewrite ex_ended_slow in H. exact H.
Defined.

(** A log of one entry. *)
Definition ex_entry : slowlog_entry_t := mk_slowlog_entry 0 0 20000 0 0 0 (bs "ping") None (bs "127.0.0.1:7000") [].

Definition ex_log : slowlog_manager_t := set_entries (slowlog_manager_new 10 10000) (list_add_node_tail list_new ex_entry).

(** It can be kept, and cannot be shortened or deleted. *)
Lemma slowlog_manager_set_max_len_correct_witness :
  slowlog_manager_set_max_len ex_log 1 ex_heap = Done (mk_slowlog (entries ex_log) 1 10000 0, ex_heap)
  /\ slowlog_manager_set_max_len ex_log 0 ex_heap = Fault InvalidFree
  /\ slowlog_manager_delete ex_log ex_heap = Fault InvalidFree.
Proof.
  split; [|split].
  - apply (slowlog_manager_set_max_len_correct ex_log 1 ex_heap); [split; [discriminate|reflexivity]|reflexivity].
  - apply (slowlog_manager_set_max_len_correct ex_log 0 ex_heap); [split; [discriminate|reflexivity]|reflexivity].
  - apply (slowlog_manager_set_max_len_correct ex_log 0 ex_heap); [split; [discriminate|reflexivity]|reflexivity].
Defined.
