(* ===== verification/EventLoop.v ===== *)
(** * The event loop: requests, ends of commands and cron jobs (src/redis/crons.c, src/redis/client.c)

    [start_redis_server] registers two cron jobs with the cron manager of the
    library and hands over to its event loop, which then runs the callbacks of
    the clients ([redis_client_handle] and [redis_client_command_end]) and the
    cron jobs in an order the server does not control.  This file adds the ends
    of commands and the jobs to the system of Sessions.v: whatever the order,
    the clients see the sequential server, every end of a command is counted, the
    slow log keeps its entries and the metric of commands is sampled once per run
    of its job.  [may_run] says which ends of commands are covered. *)

From S2P Require Import Prelude LatteC LatteCModel KvStore State Db Reply Protocol CommandManager Module.
From S2P Require Import StringModule Commands Client Service Streams Sessions Metric Slowlog.

Section EventLoop.
Context {L : LatteC}.

Definition update_cache_time_cron : M unit := update_cache_time.

(** A job and the period it is registered with. *)
Record cron_t := mk_cron {
  cron_fn : M unit;
  cron_period : Z
}.

Definition init_redis_server_crons (cron_manager : list cron_t) : Z * list cron_t :=
  let cron_manager := cron_manager ++ [mk_cron update_cache_time_cron 1] in
  let cron_manager := cron_manager ++ [mk_cron update_metric_cron 100] in
  (0, cron_manager).

(** The jobs of the server. *)
Definition crons : list cron_t := snd (init_redis_server_crons []).

Context (files : bytes -> module_file).

Inductive activity :=
  | Readable (e : event)
  | Ended (i : cid) (start stop : Z)  (* the library has noted the times of a command and calls [end] *)
  | Tick (j : nat).                   (* job number [j] runs *)

Definition set_times (c : redis_client_t) (start stop : Z) : redis_client_t :=
  let lc := client c in
  set_client c (mk_latte_client (querybuf lc) (qb_pos lc) (cflags lc) (reply lc) (conn lc) start stop (client_priv lc)).

Definition run_end (i : cid) (start stop : Z) (n : system) : outcome system :=
  c ← deref (sys_clients n !! i);
  '(_, w) ← redis_client_command_end (client_world n (set_times c start stop));
  Done (mk_system w (<[i := w_client w]> (sys_clients n))).

Definition run_cron (j : nat) (n : system) : outcome system :=
  job ← deref (crons !! j);
  '(_, w) ← cron_fn job (sys_world n);
  Done (mk_system w (sys_clients n)).

Definition run_activity (fuel : nat) (a : activity) (n : system) : outcome system :=
  match a with
  | Readable e => serve_event files fuel e n
  | Ended i start stop => run_end i start stop n
  | Tick j => run_cron j n
  end.

Fixpoint run_activities (fuel : nat) (l : list activity) (n : system) : outcome system :=
  match l with
  | [] => Done n
  | a :: l => n ← run_activity fuel a n; run_activities fuel l n
  end.

(** ** Specification *)

(** A job reads the clock once. *)
Definition tick (s : sstate) : sstate := mk_sstate (s_vals s) (s_times s) (S (s_reads s)).

(** The items as in Streams.v; the clock is also read by every job and for every
    entry of the slow log, whose limit is [limit]; [bulk] is the limit of the
    protocol. *)
Fixpoint spec_activities (bulk limit : Z) (s : sstate) (ps : gmap cid peer) (l : list activity) :
    sstate * list (cid * bytes) * gmap cid peer :=
  match l with
  | [] => (s, [], ps)
  | Tick _ :: l => spec_activities bulk limit (tick s) ps l
  | Ended _ start stop :: l => spec_activities bulk limit (if limit <? stop - start then tick s else s) ps l
  | Readable e :: l =>
      match ps !! ev_client e with
      | None => spec_activities bulk limit s ps l
      | Some p =>
          let '(its, p') := peer_step bulk (ev_bytes e) p in
          let '(s, log) := spec_run s (pair (ev_client e) <$> its) in
          let '(s, log', ps) := spec_activities bulk limit s (<[ev_client e := p']> ps) l in
          (s, log ++ log', ps)
      end
  end.

Definition reads (l : list activity) : list event :=
  omap (fun a => match a with Readable e => Some e | _ => None end) l.

Definition is_sample (a : activity) : bool := match a with Tick 1 => true | _ => false end.
Definition is_end (a : activity) : bool := match a with Ended _ _ _ => true | _ => false end.

(** How often the metric is sampled in [l], how many commands end. *)
Definition samples_in (l : list activity) : nat := length (filter (fun a => is_sample a = true) l).
Definition ends_in (l : list activity) : nat := length (filter (fun a => is_end a = true) l).

(** When the theorems below let the library run an activity: a command within the
    time limit ends at any moment, a slow one between two requests of its client,
    after the client has had a command and while there is room in the slow log.
    These are restrictions of the theorems, the sources do not say when the
    library calls [end]: what happens otherwise is in Slowlog.v (a slow end
    without a command dereferences NULL, with a full log it is an invalid free,
    and in the middle of a request the entry keeps copies of the arguments). *)
Definition may_run (limit : Z) (a : activity) (n : system) : Prop :=
  match a with
  | Readable _ => True
  | Ended i start stop => - 2 ^ 63 <= stop - start < 2 ^ 63 /\ exists c, sys_clients n !! i = Some c
      /\ (limit < stop - start -> argc c = 0 /\ lastcmd c <> None
          /\ zlen (list_elems (entries (slowlog_manager (w_server (sys_world n)))))
             < max_len (slowlog_manager (w_server (sys_world n))))
  | Tick j => (j < 2)%nat
  end.

Fixpoint may_run_all (fuel : nat) (limit : Z) (l : list activity) (n : system) : Prop :=
  match l with
  | [] => True
  | a :: l => may_run limit a n /\ forall n', run_activity fuel a n = Done n' -> may_run_all fuel limit l n'
  end.

(** Counts of commands for which the arithmetic of a rate cannot overflow. *)
Definition MAX_COMMANDS : Z := 2 ^ 39.

Definition command_reading : reading -> Prop := small_reading 16 1000000 MAX_COMMANDS.

(** The metric of commands: never sampled, or a ring of rates. *)
Definition metric_ok (m : metric_t) : Prop :=
  m = metric_new 16 \/ exists p hist, command_reading p /\ tracked 16 (bs "command") p hist m.

Context {LL : LatteCLaws}.

Lemma track_ok (m : metric_t) (q : reading) :
  metric_ok m -> command_reading q ->
  exists m', metric_track_instantaneous m (bs "command") (fst q) (snd q) 1000000 = Done m' /\ metric_ok m'.
Proof.
  intros [->|(p & hist & Hp & Ht)] Hq.
  - destruct (track_first 16 (bs "command") 1000000 ltac:(lia) q) as (m' & E & Ht). exists m'. split; [exact E|].
    right. by exists q, [].
  - destruct (track_next 16 (bs "command") 1000000 MAX_COMMANDS ltac:(lia) ltac:(lia) ltac:(done) ltac:(done) m p q hist
      Hp Hq Ht) as (m' & E & Ht'). exists m'. split; [exact E|]. right. eauto.
Qed.

(** A system does not notice that a job has changed the time, the metric or
    the clock. *)
Lemma system_ok_server (n : system) (db : redis_db_t) (s : sstate) (ps : gmap cid peer) (w : world) :
  system_ok n db s ps ->
  w_heap w = w_heap (sys_world n) -> w_shared w = w_shared (sys_world n) ->
  dbs (w_server w) = dbs (w_server (sys_world n)) -> hz (w_server w) = hz (w_server (sys_world n)) ->
  command_manager (w_server w) = command_manager (w_server (sys_world n)) ->
  proto_max_bulk_len (w_server w) = proto_max_bulk_len (w_server (sys_world n)) ->
  system_ok (mk_system w (sys_clients n)) db (mk_sstate (s_vals s) (s_times s) (w_ticks w)) ps.
Proof.
  intros [[] Hc Hdom Hcl Hdis] Eh Esh Ed Ehz Ec El. split; cbn [sys_world sys_clients]; try done.
  - split; rewrite ?Eh, ?Esh, ?Ed, ?Ehz; done.
  - by eapply commands_ok_same.
  - intros i c p Hi Hp. unfold client_world in *. cbn [sys_world]. apply (connected_frame (sys_world n) w c db db p); try done.
    + by apply (Hcl i).
    + intros l Hl. rewrite Eh. split; [done|]. intros Hk. by apply (co_keys _ _ _ (Hcl i c p Hi Hp) l).
Qed.

Abbreviation server_of n := (w_server (sys_world n)).
Abbreviation log_of n := (slowlog_manager (server_of n)).
Abbreviation commands_of n := (metric_stat_numcommands (server_of n)).

(** Between [n] and [n'] the metric has been sampled [k] times, each time with
    the count of commands and a reading of the clock, [e] commands have ended,
    and the slow log has at most grown at its end. *)
Record accounted (k e : nat) (n n' : system) : Prop := {
  ac_commands : commands_of n' = commands_of n + Z.of_nat e;
  ac_samples : exists qs, length qs = k
    /\ Forall (fun q => commands_of n <= fst q <= commands_of n' /\ exists t, snd q = ustime t) qs
    /\ track_all (metric (server_of n)) (bs "command") 1000000 qs = Done (metric (server_of n'));
  ac_log : list_elems (entries (log_of n)) `prefix_of` list_elems (entries (log_of n'));
  ac_max : max_len (log_of n') = max_len (log_of n)
}.

(** What is known between two activities when [k] commands are still to end. *)
Record books (limit : Z) (k : nat) (n : system) : Prop := {
  bk_metric : metric_ok (metric (server_of n));
  bk_commands : 0 <= commands_of n /\ commands_of n + Z.of_nat k <= MAX_COMMANDS;
  bk_limit : time_limit_us (log_of n) = limit /\ 0 <= limit;
  bk_max : 0 <= max_len (log_of n) < 2 ^ 63;
  bk_id : 0 <= next_id (log_of n) /\ next_id (log_of n) + Z.of_nat k < 2 ^ 62;
  bk_len : zlen (list_elems (entries (log_of n))) <= max_len (log_of n)
}.

Lemma track_all_app (name : bytes) (f : Z) (a b : list reading) (m m1 : metric_t) :
  track_all m name f a = Done m1 -> track_all m name f (a ++ b) = track_all m1 name f b.
Proof.
  revert m. induction a as [|[v t] a IH]; intros m; [by intros [= ->]|]. cbn [app track_all].
  destruct (metric_track_instantaneous m name v t f); [apply IH|done].
Qed.

Lemma accounted_none (n n' : system) : counters (server_of n') = counters (server_of n) -> accounted 0 0 n n'.
Proof. intros [= Em Ec El]. split; rewrite ?El, ?Ec; [lia| |done|done]. exists []. rewrite Em. by split_and!. Qed.

Lemma accounted_trans (j k e f : nat) (n1 n2 n3 : system) :
  accounted j e n1 n2 -> accounted k f n2 n3 -> accounted (j + k) (e + f) n1 n3.
Proof.
  intros [C1 (a & La & Ha & Ta) P1 M1] [C2 (b & Lb & Hb & Tb) P2 M2]. split; [lia| |by etrans|congruence]. exists (a ++ b).
  rewrite length_app, (track_all_app _ _ _ _ _ _ Ta), Forall_app. split; [lia|]. split; [split|done].
  - eapply Forall_impl; [exact Ha|]. intros q [? ?]. split; [lia|done].
  - eapply Forall_impl; [exact Hb|]. intros q [? ?]. split; [lia|done].
Qed.

Lemma books_same (limit : Z) (k : nat) (n n' : system) :
  counters (server_of n') = counters (server_of n) -> books limit k n -> books limit k n'.
Proof. intros [= Em Ec El] []. split; by rewrite ?Em, ?Ec, ?El. Qed.

(** Activities that are no business of the clients. *)
Record apart (n n' : system) : Prop := {
  ap_dom : dom (sys_clients n') = dom (sys_clients n);
  ap_client : forall i c, sys_clients n !! i = Some c -> exists c', sys_clients n' !! i = Some c'
    /\ client_segs (client c') = client_segs (client c) /\ querybuf (client c') = querybuf (client c)
    /\ arg_locs c' = arg_locs c;
  ap_heap : w_heap (sys_world n') = w_heap (sys_world n);
  ap_limit : proto_max_bulk_len (server_of n') = proto_max_bulk_len (server_of n)
}.

Lemma apart_no_leaks (n n' : system) (db : redis_db_t) : apart n n' -> no_leaks n db n' db.
Proof.
  intros [Hd Hc Hh _] l. rewrite Hh. split; [|done]. unfold stray. rewrite Hh.
  split; intros (? & ? & Ha); split_and!; try done; intros i c Hi.
  - destruct (Hc i c Hi) as (c' & Hi' & _ & _ & <-). by apply (Ha i).
  - assert (Hci : is_Some (sys_clients n !! i)) by (apply elem_of_dom; rewrite <- Hd; apply elem_of_dom; eauto).
    destruct Hci as [c0 Hi0]. destruct (Hc i c0 Hi0) as (c' & Hi' & _ & _ & E).
    assert (c' = c) as -> by congruence. rewrite E. by apply (Ha i).
Qed.

Lemma run_cron_ok (limit : Z) (k : nat) (j : nat) (n : system) (db : redis_db_t) (s : sstate) (ps : gmap cid peer) :
  (j < 2)%nat -> system_ok n db s ps -> books limit k n ->
  exists n', run_cron j n = Done n' /\ apart n n' /\ system_ok n' db (tick s) ps
    /\ books limit k n' /\ accounted (samples_in [Tick j]) 0 n n'.
Proof.
  intros Hj Hok Hbk.
  assert (Hap : forall w', w_heap w' = w_heap (sys_world n) ->
    proto_max_bulk_len (w_server w') = proto_max_bulk_len (server_of n) -> apart n (mk_system w' (sys_clients n))).
  { intros w' Eh El. split; try done. intros i c Hi. by exists c. }
  unfold tick. rewrite <- (sv_reads _ _ _ (so_serving _ _ _ _ Hok)). set (w := sys_world n) in *.
  destruct j as [|[|j]]; [..|lia].
  - eexists. split; [reflexivity|]. split; [by apply Hap|]. split; [|split; [by apply (books_same limit k n)|by apply accounted_none]].
    by apply (system_ok_server n db s ps
      (set_w_server (set_w_ticks w (S (w_ticks w))) (set_unixtime (w_server w) (ustime (w_ticks w))))).
  - destruct Hbk as [Hm Hc Hl Hx Hi Hz]. fold w in Hm, Hc, Hl, Hx, Hi, Hz.
    destruct (track_ok (metric (w_server w)) (metric_stat_numcommands (w_server w), ustime (w_ticks w)) Hm) as (m' & E & Hm').
    { split; cbn [fst snd]; [lia|apply ustime_range]. }
    cbn [fst snd] in E. set (w' := set_w_server (set_w_ticks w (S (w_ticks w))) (set_metric (w_server w) m')).
    exists (mk_system w' (sys_clients n)). split.
    + assert (Eu : update_metric_cron w = Done (tt, w')).
      { unfold update_metric_cron. rewrite (bind_Done read_ustime _ w _ _ eq_refl). mstep. by rewrite (bind_lift _ _ _ m' E). }
      change (run_cron 1 n) with ('(_, w) ← update_metric_cron w; Done (mk_system w (sys_clients n))). by rewrite Eu.
    + split; [by apply Hap|]. split; [by apply (system_ok_server n db s ps w')|]. split; [by split|]. split; [by rewrite Z.add_0_r| |done|done].
      exists [(metric_stat_numcommands (w_server w), ustime (w_ticks w))]. split; [done|].
      split; [apply Forall_singleton; split; [split; apply Z.le_refl|by eexists]|]. cbn [track_all]. fold w. by rewrite E.
Qed.

(** Noting the times of a command changes nothing else of a client. *)
Lemma connected_times (w : world) (c : redis_client_t) (a b : Z) (db : redis_db_t) (p : peer) :
  connected (set_w_client w c) db p -> connected (set_w_client w (set_times c a b)) db p.
Proof.
  intros [[Hm Hl] Hrep Hd Hk Hs Hst]. split; try done. unfold represents in *. destruct (pr_phase p); [|..|done].
  - destruct Hst as ([] & ? & ? & ?). by split_and!.
  - destruct Hst as ([] & ? & ? & ?). by split_and!.
Qed.

Lemma system_ok_times (n : system) (db : redis_db_t) (s : sstate) (ps : gmap cid peer) (i : cid) (c : redis_client_t) (x : redis_client_t) (a b : Z) :
  system_ok n db s ps -> sys_clients n !! i = Some c ->
  system_ok (mk_system (set_w_client (sys_world n) x) (<[i := set_times c a b]> (sys_clients n))) db s ps.
Proof.
  intros [Hs Hc Hdom Hcl Hdis] Hi. split; cbn [sys_world sys_clients]; try done.
  - eapply serving_mono; [..|exact Hs]; done.
  - rewrite dom_insert_lookup_L; [done|eauto].
  - intros j cj pj. destruct (decide (j = i)) as [->|Hne].
    + rewrite lookup_insert_eq. intros [= <-] Hp. exact (connected_times _ c a b db pj (Hcl i c pj Hi Hp)).
    + rewrite lookup_insert_ne by done. intros Hj Hp. exact (Hcl j cj pj Hj Hp).
  - intros j k cj ck l Hne. destruct (decide (j = i)) as [->|Hji], (decide (k = i)) as [->|Hki]; try done.
    + rewrite lookup_insert_eq, lookup_insert_ne by done. intros [= <-] Hck. by apply (Hdis i k c ck).
    + rewrite lookup_insert_eq, lookup_insert_ne by done. intros Hj [= <-]. by apply (Hdis j i cj c).
    + rewrite !lookup_insert_ne by done. by apply (Hdis j k cj ck).
Qed.

Lemma run_end_ok (limit : Z) (k : nat) (i : cid) (a b : Z) (n : system) (db : redis_db_t) (s : sstate) (ps : gmap cid peer) :
  may_run limit (Ended i a b) n -> system_ok n db s ps -> books limit (S k) n ->
  exists n', run_end i a b n = Done n' /\ system_ok n' db (if limit <? b - a then tick s else s) ps
    /\ books limit k n' /\ accounted 0 1 n n' /\ apart n n'.
Proof.
  intros (Hrange & c & Hc & Hlast) Hok [Hm Hcm [El Hl] Hx Hi Hz]. unfold run_end. rewrite Hc. cbn [deref mbind outcome_bind].
  set (c' := set_times c a b). set (w := client_world n c').
  assert (Hcl : forall w', w_client w' = c' -> w_heap w' = w_heap (sys_world n) ->
    proto_max_bulk_len (w_server w') = proto_max_bulk_len (server_of n) ->
    apart n (mk_system w' (<[i := w_client w']> (sys_clients n)))).
  { intros w' -> Eh El'. split; try done; [by apply dom_insert_lookup_L; eauto|].
    intros j cj Hj. cbn [sys_clients]. destruct (decide (i = j)) as [<-|Hne].
    - rewrite lookup_insert_eq. exists c'. split; [done|]. by assert (cj = c) as -> by congruence.
    - rewrite lookup_insert_ne by done. eauto. }
  pose proof (system_ok_server n db s ps) as Hsrv. pose proof (sv_reads _ _ _ (so_serving _ _ _ _ Hok)) as Et.
  assert (MC : MAX_COMMANDS < 2 ^ 62) by done.
  assert (F1 : 0 <= max_len (slowlog_manager (w_server w)) < 2 ^ 63) by exact Hx.
  assert (F2 : 0 <= time_limit_us (slowlog_manager (w_server w))) by (rewrite <- El in Hl; exact Hl).
  assert (F3 : - 2 ^ 63 <= took w < 2 ^ 63) by exact Hrange.
  assert (F5 : - 2 ^ 63 <= metric_stat_numcommands (w_server w) < 2 ^ 63 - 1).
  { change (w_server w) with (server_of n). lia. }
  assert (F6 : - 2 ^ 63 <= next_id (slowlog_manager (w_server w)) < 2 ^ 63 - 1).
  { change (w_server w) with (server_of n). lia. }
  destruct (Z.ltb_spec limit (b - a)) as [Hslow|Hfast].
  - destruct (Hlast Hslow) as (Hargc & Hcmd & Hfree).
    assert (F4 : ended_with w [] []) by (split; [by intros []|]; split; [exact Hargc|constructor]).
    destruct (lastcmd c) as [cmd|] eqn:Ecmd; [|done].
    destruct (command_end_slow w [] [] F1 F2 F3 F4 F5 Hz cmd) as (e & l & h & E & Hel & _ & _ & _ & _ & _ & Hh & _).
    { rewrite <- El in Hslow. exact Hslow. } { exact F6. } { exact Ecmd. } { exact Hfree. }
    rewrite (Hh eq_refl) in E. change (w_server w) with (server_of n) in Hel, Hfree. rewrite E. cbn [mbind outcome_bind]. eexists. split; [reflexivity|].
    set (w1 := with_log (sys_world n) (S (w_ticks (sys_world n))) (mk_slowlog l (max_len (log_of n)) (time_limit_us (log_of n)) (next_id (log_of n) + 1)) (commands_of n + 1)).
    split; [|split; [|split; [|by apply Hcl]]].
    + unfold tick. rewrite <- Et. exact (system_ok_times (mk_system w1 (sys_clients n)) db _ ps i c c' a b
        (Hsrv w1 Hok eq_refl eq_refl eq_refl eq_refl eq_refl eq_refl) Hc).
    + split; cbn; try done; [lia|lia|]. rewrite Hel, zlen_app. change (zlen [e]) with 1. lia.
    + split; cbn; [lia|by exists []| |done]. rewrite Hel. by apply prefix_app_r.
  - rewrite (command_end_fast w F1 F2 F3 F5 Hz); [|rewrite <- El in Hfast; exact Hfast].
    cbn [mbind outcome_bind]. eexists. split; [reflexivity|].
    set (w1 := with_log (sys_world n) (w_ticks (sys_world n)) (log_of n) (commands_of n + 1)).
    split; [|split; [|split; [|by apply Hcl]]].
    + assert (Es : mk_sstate (s_vals s) (s_times s) (w_ticks w1) = s) by (destruct s; cbn in *; by rewrite Et).
      rewrite <- Es. exact (system_ok_times (mk_system w1 (sys_clients n)) db _ ps i c c' a b
        (Hsrv w1 Hok eq_refl eq_refl eq_refl eq_refl eq_refl eq_refl) Hc).
    + split; cbn; try done; lia.
    + split; cbn; [lia|by exists []|done|done].
Qed.

Lemma samples_in_cons (a : activity) (l : list activity) : samples_in (a :: l) = (samples_in [a] + samples_in l)%nat.
Proof. unfold samples_in. rewrite !filter_cons, filter_nil. by destruct (decide (is_sample a = true)). Qed.

Lemma ends_in_cons (a : activity) (l : list activity) : ends_in (a :: l) = (ends_in [a] + ends_in l)%nat.
Proof. unfold ends_in. rewrite !filter_cons, filter_nil. by destruct (decide (is_end a = true)). Qed.

Lemma accounted_cons (a : activity) (l : list activity) (n1 n2 n3 : system) :
  accounted (samples_in [a]) (ends_in [a]) n1 n2 -> accounted (samples_in l) (ends_in l) n2 n3 ->
  accounted (samples_in (a :: l)) (ends_in (a :: l)) n1 n3.
Proof. rewrite (samples_in_cons a l), (ends_in_cons a l). apply accounted_trans. Qed.

(** Does the schedule fail the assertion of the parser? *)
Definition crashes (tr : list (cid * item)) : bool := existsb (fun x => aborts (snd x)) tr.

Lemma crashes_app (a b : list (cid * item)) : crashes (a ++ b) = crashes a || crashes b.
Proof. apply existsb_app. Qed.

Lemma crashes_tagged (i : cid) (its : list item) (tr : list (cid * item)) :
  crashes ((pair i <$> its) ++ tr) = existsb aborts its || crashes tr.
Proof.
  unfold crashes. rewrite existsb_app. f_equal. induction its as [|it its IH]; [done|].
  rewrite fmap_cons. simpl. by f_equal.
Qed.

(** What the activities [l], with [k] items and the replies [log], do besides
    their effect on the state: the replies go to their clients, query buffers
    grow by the bytes that arrive, the database by an entry per item, and no
    object is lost. *)
Record loop_effect (l : list activity) (k : Z) (log : list (cid * bytes)) (n : system) (db : redis_db_t) (n' : system) (db' : redis_db_t) : Prop := {
  le_accounted : accounted (samples_in l) (ends_in l) n n';
  le_output : forall i c, sys_clients n !! i = Some c -> exists c', sys_clients n' !! i = Some c'
    /\ client_segs (client c') = append_last (client_segs (client c)) (replies_to i log)
    /\ zlen (querybuf (client c')) <= zlen (querybuf (client c)) + zlen (sent i (reads l));
  le_dom : dom (sys_clients n') = dom (sys_clients n);
  le_leaks : no_leaks n db n' db';
  le_grows : grows_by k db db';
  le_limit : proto_max_bulk_len (server_of n') = proto_max_bulk_len (server_of n)
}.

Lemma loop_effect_nil (n : system) (db : redis_db_t) : loop_effect [] 0 [] n db n db.
Proof.
  split; try done; [by apply accounted_none| |unfold grows_by; lia]. intros i c Hc. exists c. split; [done|].
  split; [symmetry; apply append_last_nil; auto with latte|]. change (zlen (sent i (reads []))) with 0. lia.
Qed.

Lemma reads_cons (a : activity) (l : list activity) : reads (a :: l) = reads [a] ++ reads l.
Proof. by destruct a. Qed.

Lemma loop_effect_cons (a : activity) (l : list activity) (j k : Z) (log log' : list (cid * bytes)) (n n1 n2 : system) (db db1 db2 : redis_db_t) :
  loop_effect [a] j log n db n1 db1 -> loop_effect l k log' n1 db1 n2 db2 ->
  loop_effect (a :: l) (j + k) (log ++ log') n db n2 db2.
Proof.
  intros [A1 O1 D1 L1 G1 M1] [A2 O2 D2 L2 G2 M2]. split; [by eapply accounted_cons| |congruence|by eapply no_leaks_trans|unfold grows_by in *; lia|congruence].
  intros i c Hc. destruct (O1 i c Hc) as (c1 & H1 & S1 & Z1). destruct (O2 i c1 H1) as (c2 & H2 & S2 & Z2). exists c2. split; [done|].
  split; [rewrite S2, S1, append_last_app, replies_to_app by auto with latte; done|].
  rewrite reads_cons, sent_app, zlen_app. lia.
Qed.

Lemma loop_effect_apart (a : activity) (n n' : system) (db : redis_db_t) :
  reads [a] = [] -> apart n n' -> accounted (samples_in [a]) (ends_in [a]) n n' -> loop_effect [a] 0 [] n db n' db.
Proof.
  intros Ea Hap Hac. split; [done| |apply Hap|by apply apart_no_leaks|unfold grows_by; lia|apply Hap]. rewrite Ea. intros i c Hi.
  destruct (ap_client _ _ Hap i c Hi) as (c1 & Hi1 & Es & Eq & _). exists c1. split; [done|]. rewrite Es, Eq.
  split; [symmetry; apply append_last_nil; auto with latte|]. change (zlen (sent i [])) with 0. lia.
Qed.

Lemma loop_effect_event (e : event) (its : list item) (s : sstate) (n n' : system) (db db' : redis_db_t) :
  event_effect e its s n db n' db' ->
  loop_effect [Readable e] (zlen its) (snd (spec_run s (pair (ev_client e) <$> its))) n db n' db'.
Proof.
  intros [Ho Hd Hl Hg Hm Hc]. split; try done; [by apply accounted_none|]. intros i c Hi. destruct (Ho i c Hi) as (c' & Hi' & Es & Hz).
  exists c'. split; [done|]. rewrite replies_to_tagged. split; [done|]. change (reads [Readable e]) with [e].
  rewrite sent_cons, zlen_app. change (zlen (sent i [])) with 0. destruct (decide (ev_client e = i)); change (zlen []) with 0 in *; lia.
Qed.

(** One activity, when [k] commands are to end behind it. *)
Lemma run_activity_ok (fuel : nat) (limit : Z) (k : nat) (a : activity) (n : system) (db : redis_db_t) (s : sstate) (ps : gmap cid peer) :
  let bulk := proto_max_bulk_len (server_of n) in
  let tr := fst (schedule bulk ps (reads [a])) in
  system_ok n db s ps -> books limit (ends_in [a] + k) n -> may_run limit a n ->
  ample fuel n (reads [a]) -> Forall (fun x => item_ok files (snd x)) tr -> rooms (zlen tr) db ->
  if crashes tr then run_activity fuel a n = Fault ASSERT_ARGC
  else let '(s', log, ps') := spec_activities bulk limit s ps [a] in
    exists n' db', run_activity fuel a n = Done n' /\ system_ok n' db' s' ps' /\ books limit k n'
      /\ loop_effect [a] (zlen tr) log n db n' db'.
Proof.
  cbv zeta. intros Hok Hbk Hmay Ham Hits Hroom. destruct a as [e|i start stop|j]; cbn [spec_activities run_activity].
  - change (reads [Readable e]) with [e] in *. destruct (ample_here _ _ _ _ Ham) as (c & Hc & Hsz).
    assert (Hp : exists p, ps !! ev_client e = Some p).
    { apply elem_of_dom. rewrite (so_dom _ _ _ _ Hok). apply elem_of_dom. eauto. }
    destruct Hp as (p & Hp). rewrite (schedule_cons _ _ _ _ _ Hp) in *. rewrite Hp.
    pose proof (serve_event_ok files fuel e n db s ps p c Hok Hp Hc Hsz) as H. cbv zeta in *.
    destruct (peer_step _ (ev_bytes e) p) as [its p']. cbn [fst snd schedule] in *. rewrite app_nil_r in *.
    rewrite Forall_fmap in Hits. rewrite zlen_tagged in *. specialize (H Hits Hroom).
    rewrite <- (app_nil_r (pair (ev_client e) <$> its)), crashes_tagged, app_nil_r, orb_false_r.
    destruct (existsb aborts its); [done|]. destruct H as (n' & db' & E & Hok' & Hef). pose proof (loop_effect_event _ _ _ _ _ _ _ Hef) as Hle.
    destruct (spec_run s _) as [s1 log]. cbn [fst snd] in *. rewrite app_nil_r. exists n', db'. split_and!; try done.
    exact (books_same _ _ _ _ (ee_counters _ _ _ _ _ _ _ Hef) Hbk).
  - destruct (run_end_ok limit k i start stop n db s ps Hmay Hok Hbk) as (n1 & E1 & Hok1 & Hbk1 & Hac1 & Hap).
    exists n1, db. split_and!; try done. by apply loop_effect_apart.
  - destruct (run_cron_ok limit k j n db s ps Hmay Hok Hbk) as (n1 & E1 & Hap & Hok1 & Hbk1 & Hac1).
    exists n1, db. split_and!; try done. by apply loop_effect_apart.
Qed.

Lemma spec_activities_cons (bulk limit : Z) (s : sstate) (ps : gmap cid peer) (a : activity) (l : list activity) :
  spec_activities bulk limit s ps (a :: l) =
  let '(s1, log1, ps1) := spec_activities bulk limit s ps [a] in
  let '(s2, log2, ps2) := spec_activities bulk limit s1 ps1 l in
  (s2, log1 ++ log2, ps2).
Proof.
  destruct a as [e|i start stop|j]; cbn [spec_activities].
  - destruct (ps !! ev_client e) as [p|]; [|by destruct (spec_activities bulk limit s ps l) as [[? ?] ?]].
    destruct (peer_step bulk (ev_bytes e) p) as [its p']. destruct (spec_run s _) as [s1 log1]. by rewrite app_nil_r.
  - by destruct (spec_activities _ _ _ ps l) as [[? ?] ?].
  - by destruct (spec_activities _ _ _ ps l) as [[? ?] ?].
Qed.

(** The states of the clients do not depend on the ends of commands and the jobs. *)
Lemma spec_activities_peers (bulk limit : Z) (l : list activity) (s : sstate) (ps : gmap cid peer) :
  snd (spec_activities bulk limit s ps l) = snd (schedule bulk ps (reads l)).
Proof.
  revert s ps. induction l as [|a l IH]; intros s ps; [done|].
  destruct a as [e|i start stop|j]; cbn [spec_activities]; try apply IH.
  change (reads (Readable e :: l)) with (e :: reads l). cbn [schedule]. destruct (ps !! ev_client e) as [p|]; [|apply IH].
  destruct (peer_step bulk (ev_bytes e) p) as [its p']. destruct (spec_run s _) as [s1 log1].
  specialize (IH s1 (<[ev_client e := p']> ps)). destruct (spec_activities _ _ _ _ l) as [[s2 log2] ps2]. cbn [snd] in *.
  by destruct (schedule _ _ (reads l)).
Qed.

Lemma run_activities_ok (fuel : nat) (limit : Z) (k : nat) (l : list activity) (n : system) (db : redis_db_t) (s : sstate) (ps : gmap cid peer) :
  let bulk := proto_max_bulk_len (server_of n) in
  let tr := fst (schedule bulk ps (reads l)) in
  system_ok n db s ps -> books limit (ends_in l + k) n -> may_run_all fuel limit l n ->
  ample fuel n (reads l) -> Forall (fun x => item_ok files (snd x)) tr -> rooms (zlen tr) db ->
  if crashes tr then run_activities fuel l n = Fault ASSERT_ARGC
  else let '(s', log, ps') := spec_activities bulk limit s ps l in
    exists n' db', run_activities fuel l n = Done n' /\ system_ok n' db' s' ps' /\ books limit k n'
      /\ loop_effect l (zlen tr) log n db n' db'.
Proof.
  cbv zeta. revert n db s ps. induction l as [|a l IH]; intros n db s ps Hok Hbk Hrun Ham Hits Hroom.
  { exists n, db. split_and!; try done. apply loop_effect_nil. }
  destruct Hrun as [Hmay Hrun]. rewrite ends_in_cons, <- Nat.add_assoc in Hbk. rewrite spec_activities_cons.
  rewrite reads_cons, schedule_app in *. cbn [fst] in *. rewrite Forall_app in Hits. destruct Hits as [Hi1 Hi2].
  rewrite crashes_app, zlen_app in *. set (tr1 := fst (schedule _ ps (reads [a]))) in *. set (tr2 := fst (schedule _ _ (reads l))) in *.
  pose proof (zlen_nonneg tr2). assert (Hr1 : rooms (zlen tr1) db) by (unfold rooms in *; lia).
  pose proof (run_activity_ok fuel limit _ a n db s ps Hok Hbk Hmay (ample_app_l _ _ _ _ Ham) Hi1 Hr1) as H1. cbv zeta in H1. fold tr1 in H1.
  pose proof (spec_activities_peers (proto_max_bulk_len (server_of n)) limit [a] s ps) as Eps.
  cbn [run_activities]. destruct (crashes tr1); cbn [orb]; [by rewrite H1|].
  destruct (spec_activities _ limit s ps [a]) as [[s1 log1] ps1]. cbn [snd] in Eps. subst ps1.
  destruct H1 as (n1 & db1 & E1 & Hok1 & Hbk1 & Hle). rewrite E1. cbn [mbind outcome_bind].
  assert (Ham1 : ample fuel n1 (reads l)).
  { apply (ample_mono fuel n n1 (reads [a] ++ reads l) (fun i => zlen (sent i (reads [a])))); try done; [apply Hle|destruct Ham as [[_ ?]%Forall_app _]; done| |].
    - intros i c Hi. destruct (le_output _ _ _ _ _ _ _ Hle i c Hi) as (c' & ? & _ & ?). eauto.
    - intros i. rewrite sent_app, zlen_app. lia. }
  pose proof (le_grows _ _ _ _ _ _ _ Hle) as Hg. specialize (IH n1 db1 s1 _ Hok1 Hbk1 (Hrun n1 E1) Ham1).
  rewrite (le_limit _ _ _ _ _ _ _ Hle) in IH. fold tr2 in IH. specialize (IH Hi2 ltac:(unfold rooms, grows_by in *; lia)).
  destruct (crashes tr2); [done|]. destruct (spec_activities _ limit s1 _ l) as [[s2 log2] ps2].
  destruct IH as (n2 & db2 & E2 & Hok2 & Hbk2 & Hle2). exists n2, db2. split_and!; try done. by eapply loop_effect_cons.
Qed.

Lemma books_now (limit : Z) (k : nat) (n : system) : books limit k n -> books limit (k + 0) n.
Proof. by rewrite Nat.add_0_r. Qed.

Lemma books_fresh (k : nat) (n : system) (max limit : Z) :
  counters (server_of n) = (metric_new 16, 0, slowlog_manager_new max limit) -> 0 <= max < 2 ^ 63 -> 0 <= limit ->
  Z.of_nat k <= MAX_COMMANDS -> books limit k n.
Proof.
  intros [= Em Ec El] Hmax Hlim Hk. assert (MAX_COMMANDS < 2 ^ 62) by done.
  split; rewrite ?Em, ?Ec, ?El; cbn [slowlog_manager_new time_limit_us max_len next_id entries]; try lia; [by left|].
  rewrite list_new_elems. change (zlen []) with 0. lia.
Qed.

(** A server of which only the metric and the slow log are replaced. *)
Definition with_books (w : world) (m : metric_t) (lm : slowlog_manager_t) : world :=
  set_w_server w (set_slowlog_manager (set_metric (w_server w) m) lm).

Lemma system_ok_books (w : world) (cs : gmap cid redis_client_t) (db : redis_db_t) (s : sstate) (ps : gmap cid peer) m lm :
  system_ok (mk_system w cs) db s ps -> system_ok (mk_system (with_books w m lm) cs) db s ps.
Proof.
  intros Hok. pose proof (sv_reads _ _ _ (so_serving _ _ _ _ Hok)) as E. cbn in E.
  pose proof (system_ok_server (mk_system w cs) db s ps (with_books w m lm) Hok) as H.
  cbn in H. rewrite E in H. destruct s. by apply H.
Qed.

Lemma books_set (k : nat) (w : world) (cs : gmap cid redis_client_t) (max limit : Z) :
  metric_stat_numcommands (w_server w) = 0 -> 0 <= max < 2 ^ 63 -> 0 <= limit -> Z.of_nat k <= MAX_COMMANDS ->
  books limit k (mk_system (with_books w (metric_new 16) (slowlog_manager_new max limit)) cs).
Proof. intros E. apply books_fresh. unfold counters. cbn. by rewrite E. Qed.

Lemma may_run_app (fuel : nat) (limit : Z) (l1 l2 : list activity) (n : system) :
  may_run_all fuel limit l1 n -> (forall n', run_activities fuel l1 n = Done n' -> may_run_all fuel limit l2 n') ->
  may_run_all fuel limit (l1 ++ l2) n.
Proof.
  revert n. induction l1 as [|a l1 IH]; intros n H1 H2; [by apply H2|]. destruct H1 as [Ha H1]. split; [done|].
  intros n' E. apply IH; [by apply H1|]. intros n2 E2. apply H2. cbn [run_activities]. by rewrite E.
Qed.

(** Reads and jobs may always run. *)
Lemma may_run_free (fuel : nat) (limit : Z) (l : list activity) (n : system) :
  Forall (fun a => match a with Readable _ => True | Tick j => (j < 2)%nat | Ended _ _ _ => False end) l ->
  may_run_all fuel limit l n.
Proof. intros H. revert n. induction H as [|a l Ha H IH]; intros n; [done|]. split; [by destruct a|]. intros n' _. apply IH. Qed.

(** *** The objects of the store *)

(** A fresh system: nothing in the database, no arguments. *)
Definition unused (n : system) (db : redis_db_t) : Prop :=
  keys_map db = ∅ /\ forall i c, sys_clients n !! i = Some c -> arg_locs c = [].

Lemma unused_stray (n : system) (db : redis_db_t) (l : loc) :
  unused n db -> stray n db l <-> l ∈ dom (w_heap (sys_world n)).
Proof.
  intros [Hk Ha]. unfold stray. split; [by intros (? & _)|]. intros Hl. split_and!; [done| |].
  - intros (k & Hkl). by rewrite Hk, lookup_empty in Hkl.
  - intros i c Hi. rewrite (Ha i c Hi). apply not_elem_of_nil.
Qed.

(** Every object is owned or stray; what is owned is in the store. *)
Lemma stray_or_owned (n : system) (db : redis_db_t) (x : loc) :
  x ∈ dom (w_heap (sys_world n)) ->
  stray n db x \/ key_loc db x \/ exists i c, sys_clients n !! i = Some c /\ x ∈ arg_locs c.
Proof.
  intros Hx. destruct (decide (x ∈ (map_img (keys_map db) : gset loc))) as [Hk|Hk]; [right; left; by apply elem_of_map_img in Hk|].
  destruct (decide (map_Forall (fun _ c => x ∉ arg_locs c) (sys_clients n))) as [Ha|Ha].
  - left. split_and!; try done. intros Hkl. by apply Hk, elem_of_map_img.
  - right. right. apply map_not_Forall in Ha as (i & c & Hi & Hn); [|intros ? ?; apply _].
    exists i, c. split; [done|]. by apply dec_stable.
Qed.

Lemma owned_in_store (n : system) (db : redis_db_t) (s : sstate) (ps : gmap cid peer) (x : loc) :
  system_ok n db s ps -> key_loc db x \/ (exists i c, sys_clients n !! i = Some c /\ x ∈ arg_locs c) ->
  x ∈ dom (w_heap (sys_world n)).
Proof.
  intros Hok [(k & Hk)|(i & c & Hi & Hx)].
  - destruct (serving_key _ _ _ _ _ (so_serving _ _ _ _ Hok) Hk) as (v & o & _ & Ho & _). apply elem_of_dom. eauto.
  - assert (Hp : exists p, ps !! i = Some p).
    { apply elem_of_dom. rewrite (so_dom _ _ _ _ Hok). apply elem_of_dom. eauto. }
    destruct Hp as (p & Hp). exact (args_in_store _ _ _ _ (so_client _ _ _ _ Hok i c p Hi Hp) Hx).
Qed.

(** The values of a map without repetitions are as many as its keys. *)
Lemma size_img_inj (m : gmap bytes loc) :
  (forall k k' l, m !! k = Some l -> m !! k' = Some l -> k = k') -> size (map_img m : gset loc) = size m.
Proof.
  induction m as [|k l m Hk Hf IH] using map_first_key_ind; intros Hinj; [by rewrite map_img_empty_L|].
  assert (Hm : forall a x, m !! a = Some x -> <[k := l]> m !! a = Some x) by (intros a x Ha; rewrite lookup_insert_ne; congruence).
  rewrite map_img_insert_notin_L, map_size_insert_None by done. rewrite size_union, size_singleton, IH.
  - done.
  - intros a b x Ha Hb. by apply (Hinj a b x); apply Hm.
  - intros x. rewrite elem_of_singleton, elem_of_map_img. intros -> (k' & Hk').
    assert (k' = k) as -> by (apply (Hinj k' k l); [by apply Hm|apply lookup_insert_eq]). congruence.
Qed.

Lemma store_size (D : gset loc) (h : heap) (m : gmap bytes loc) :
  (forall k k' l, m !! k = Some l -> m !! k' = Some l -> k = k') ->
  (forall l, l ∈ dom h <-> l ∈ D \/ exists k, m !! k = Some l) ->
  (forall k l, m !! k = Some l -> l ∉ D) -> size h = (size D + size m)%nat.
Proof.
  intros Hinj Hdom Hnew. rewrite <- (size_dom (D := gset loc) h), <- (size_img_inj m Hinj).
  assert (E : dom h = D ∪ map_img m).
  { apply set_eq. intros l. rewrite Hdom, elem_of_union, elem_of_map_img. done. }
  rewrite E. apply size_union. intros l Hl. rewrite elem_of_map_img. intros (k & Hk). by eapply Hnew.
Qed.

(** *** The theorems *)

Section Loop.
Context (fuel : nat) (limit : Z) (l : list activity) (n : system) (db : redis_db_t) (s : sstate) (ps : gmap cid peer).
Let bulk := proto_max_bulk_len (server_of n).
Let tr := fst (schedule bulk ps (reads l)).
Hypothesis Hok : system_ok n db s ps.
Hypothesis Hbk : books limit (ends_in l) n.
Hypothesis Hrun : may_run_all fuel limit l n.
Hypothesis Ham : ample fuel n (reads l).
Hypothesis Hits : Forall (fun x => item_ok files (snd x)) tr.
Hypothesis Hroom : rooms (zlen tr) db.

(** C1: the event loop with any number of clients on one server. Bytes arrive in
    pieces of any sizes and in any interleaving, with ends of commands and cron
    jobs between them. The bytes are those of [item_ok]: multibulk requests, whole
    or broken at any place, but no line that would begin an inline request, no
    command name or key of a SET with a NUL, no EXPIRE of 2^62 milliseconds or
    more, no MODULE without a subcommand and no MODULE LOAD of a file that is a
    module. Ends of slow commands come between two requests of their client, after
    it has had a command and while the slow log has room ([may_run]); fewer than
    2^62 bytes arrive per client and at most 2^39 commands end. Then, unless there
    are bytes behind an unknown command, processing completes without a failed
    assertion, an overflow or an access out of bounds, whatever the stack
    contains. The effect is that of a sequential server: the requests (SET, GET,
    PING, EXPIRE, INFO and QUIT with any number of arguments, in any spelling,
    MODULE, and unknown commands) are executed one after the other, each at the
    moment its last byte arrives, every client receives exactly the replies to its
    own requests and the reports of its own protocol errors in order, and the
    database, the times to live and the clock readings are those of the sequential
    execution; every stored value keeps exactly one reference and no client
    touches the arguments of another. Every end of a command is counted, the slow
    log keeps its entries and stays within its maximum, and the metric of commands
    is sampled exactly once per run of its job, with the count of commands and the
    time of the run. *)
Theorem event_loop_linearizable :
  crashes tr = false ->
  let '(s', log, ps') := spec_activities bulk limit s ps l in
  exists n' db', run_activities fuel l n = Done n' /\ system_ok n' db' s' ps' /\ books limit 0 n'
    /\ accounted (samples_in l) (ends_in l) n n'
    /\ forall i c, sys_clients n !! i = Some c -> exists c', sys_clients n' !! i = Some c'
         /\ client_segs (client c') = append_last (client_segs (client c)) (replies_to i log).
Proof.
  intros Hcr. pose proof (run_activities_ok fuel limit 0 l n db s ps Hok (books_now _ _ _ Hbk) Hrun Ham Hits Hroom) as H.
  cbv zeta in H. fold bulk in H. fold tr in H. rewrite Hcr in H. destruct (spec_activities bulk limit s ps l) as [[s' log] ps'].
  destruct H as (n' & db' & ? & ? & ? & [? Ho _ _ _ _]). exists n', db'. split_and!; try done.
  intros i c Hi. destruct (Ho i c Hi) as (c' & ? & ? & _). eauto.
Qed.

(** C8: one client stops the server for all. The bytes are those of [item_ok]:
    multibulk requests, whole or broken at any place, but no line that would begin
    an inline request, no command name or key of a SET with a NUL, no EXPIRE of
    2^62 milliseconds or more, no MODULE without a subcommand and no MODULE LOAD
    of a file that is a module. Ends of slow commands come between two requests of
    their client, after it has had a command and while the slow log has room
    ([may_run]); fewer than 2^62 bytes arrive per client and at most 2^39 commands
    end. With such traffic the event loop ends in the failed assertion of the
    parser that argc is 0 exactly when a byte arrives behind a command nobody has
    registered; otherwise it completes. (Outside this scope there are other ways
    to stop: MODULE alone reads out of bounds, and an empty inline line may be
    read for ever.) *)
Theorem unknown_command_stops_server :
  run_activities fuel l n = Fault ASSERT_ARGC <-> crashes tr = true.
Proof.
  pose proof (run_activities_ok fuel limit 0 l n db s ps Hok (books_now _ _ _ Hbk) Hrun Ham Hits Hroom) as H.
  cbv zeta in H. fold bulk in H. fold tr in H. destruct (crashes tr); [done|].
  destruct (spec_activities bulk limit s ps l) as [[s' log] ps']. destruct H as (n' & db' & E & _). split; congruence.
Qed.

(** C7: no object is lost or taken. From a server without keys and clients without
    arguments, after any run of the event loop in which no byte follows an unknown
    command, the store holds the objects it held in the beginning, unchanged, the
    values of the keys and the arguments of the requests that are being received,
    and nothing else; when all clients are between two requests it has grown by
    exactly the number of keys. The bytes are those of [item_ok]: multibulk
    requests, whole or broken at any place, but no line that would begin an inline
    request, no command name or key of a SET with a NUL, no EXPIRE of 2^62
    milliseconds or more, no MODULE without a subcommand and no MODULE LOAD of a
    file that is a module. Ends of slow commands come between two requests of
    their client, after it has had a command and while the slow log has room
    ([may_run]); fewer than 2^62 bytes arrive per client and at most 2^39 commands
    end. *)
Theorem event_loop_no_leaks :
  crashes tr = false -> unused n db ->
  exists n' db', run_activities fuel l n = Done n'
    /\ (forall x, x ∈ dom (w_heap (sys_world n')) <->
          x ∈ dom (w_heap (sys_world n)) \/ key_loc db' x
          \/ exists i c, sys_clients n' !! i = Some c /\ x ∈ arg_locs c)
    /\ (forall x, x ∈ dom (w_heap (sys_world n)) -> w_heap (sys_world n') !! x = w_heap (sys_world n) !! x)
    /\ ((forall i c, sys_clients n' !! i = Some c -> argc c = 0) ->
        size (w_heap (sys_world n')) = (size (w_heap (sys_world n)) + size (keys_map db'))%nat).
Proof.
  intros Hcr Hun. pose proof (run_activities_ok fuel limit 0 l n db s ps Hok (books_now _ _ _ Hbk) Hrun Ham Hits Hroom) as H.
  cbv zeta in H. fold bulk in H. fold tr in H. rewrite Hcr in H. destruct (spec_activities bulk limit s ps l) as [[s' log] ps'].
  destruct H as (n' & db' & E & Hok' & _ & [_ _ _ Hl _ _]). exists n', db'. split; [done|].
  assert (Hst : forall x, stray n' db' x <-> x ∈ dom (w_heap (sys_world n))).
  { intros x. rewrite (proj1 (Hl x)). by apply unused_stray. }
  assert (Hdom : forall x, x ∈ dom (w_heap (sys_world n')) <-> x ∈ dom (w_heap (sys_world n)) \/ key_loc db' x
          \/ exists i c, sys_clients n' !! i = Some c /\ x ∈ arg_locs c).
  { intros x. rewrite <- Hst. split; [by apply stray_or_owned|]. intros [(? & _)|Hx]; [done|]. by eapply owned_in_store. }
  split; [done|]. split; [intros x Hx; by apply (Hl x), unused_stray|].
  intros Hidle. rewrite <- (size_dom (D := gset loc) (w_heap (sys_world n))). apply store_size; [apply (sv_inj _ _ _ (so_serving _ _ _ _ Hok'))| |].
  - intros x. rewrite Hdom. split; [|by intros [?|?]; [left|right; left]]. intros [?|[?|(i & c & Hi & Hx)]]; [by left|by right|].
    rewrite (arg_locs_none c (Hidle i c Hi)) in Hx. by apply elem_of_nil in Hx.
  - intros k x Hk Hx. apply Hst in Hx as (_ & Hn & _). apply Hn. by exists k.
Qed.

(** C9: no request is lost. A client sends the encodings of requests with known
    commands, in pieces of any sizes, interleaved with the traffic of other
    clients. Nobody, this client or another, has sent bytes behind an unknown
    command: such a byte stops the server for all. The bytes are those of
    [item_ok]: multibulk requests, whole or broken at any place, but no line that
    would begin an inline request, no command name or key of a SET with a NUL, no
    EXPIRE of 2^62 milliseconds or more, no MODULE without a subcommand and no
    MODULE LOAD of a file that is a module. Ends of slow commands come between two
    requests of their client, after it has had a command and while the slow log
    has room ([may_run]); fewer than 2^62 bytes arrive per client and at most 2^39
    commands end. Then exactly these requests are executed, in order and up to
    QUIT; when all bytes have arrived the client is between two requests with an
    empty buffer, or marked for closing if it has quit. *)
Theorem event_loop_answers_all (i : cid) (p : peer) (rs : list (list bytes)) :
  crashes tr = false -> ps !! i = Some p -> pieces i (reads l) <> [] ->
  streams p rs (sent i (reads l)) -> Forall (sendable bulk) rs -> bulk < 2 ^ 62 ->
  items_of i tr = Execute <$> until_quit rs
  /\ exists n' c', run_activities fuel l n = Done n' /\ sys_clients n' !! i = Some c'
     /\ if existsb quits rs then closed (client_world n' c') else represents (client_world n' c') new_peer.
Proof.
  intros Hcr Hp Hne Hst Hrs Hlim. destruct (schedule_items bulk (reads l) ps i p Hp) as [Hit Hfin].
  destruct (feed_all_stream bulk (pieces i (reads l)) rs p Hlim Hrs Hst Hne) as [Hex Hph].
  split; [unfold tr; by rewrite Hit|].
  pose proof (run_activities_ok fuel limit 0 l n db s ps Hok (books_now _ _ _ Hbk) Hrun Ham Hits Hroom) as H.
  cbv zeta in H. fold bulk in H. fold tr in H. rewrite Hcr in H. pose proof (spec_activities_peers bulk limit l s ps) as Eps.
  destruct (spec_activities bulk limit s ps l) as [[s' log] ps']. cbn [snd] in Eps. subst ps'.
  destruct H as (n' & db' & E & Hok' & _). exists n'. set (p' := snd (feed_all bulk (pieces i (reads l)) p)) in *.
  assert (Hc : exists c', sys_clients n' !! i = Some c').
  { apply elem_of_dom. rewrite <- (so_dom _ _ _ _ Hok'). apply elem_of_dom. eauto. }
  destruct Hc as (c' & Hc'). exists c'. split_and!; try done.
  pose proof (co_state _ _ _ (so_client _ _ _ _ Hok' i c' p' Hc' Hfin)) as Hre.
  destruct (existsb quits rs); [unfold represents in Hre; by rewrite Hph in Hre|by rewrite Hph in Hre].
Qed.
End Loop.
End EventLoop.

(** ** Concrete runs *)

#[local] Existing Instance model_latte.
#[local] Existing Instance model_latte_laws.

(** The metric is sampled between two pieces of a request; in the end client 1
    is told that its last command was slow. *)
Definition ex_loop : list activity :=
  Tick 0 :: match ex_events with e :: es => Readable e :: Tick 1 :: map Readable es | [] => [] end.

Definition ex_activities : list activity := ex_loop ++ [Ended 1 1000 9000; Tick 1].

Definition ex_start : system :=
  mk_system (with_books (ex_boot_world []) (metric_new 16) (slowlog_manager_new 10 5000)) (sys_clients ex_system).

Lemma ex_start_ok : system_ok ex_start ex_db0 (mk_sstate ∅ ∅ 0) (fresh_peers ex_clients).
Proof. apply system_ok_books. exact ex_system_ok. Qed.

Lemma ex_start_commands : metric_stat_numcommands (w_server (ex_boot_world [])) = 0.
Proof. vm_compute. reflexivity. Qed.

Lemma ex_start_limit : proto_max_bulk_len (w_server (sys_world ex_start)) = 1024 * 1024.
Proof. vm_compute. reflexivity. Qed.

Lemma ex_start_books (l : list activity) : (ends_in l <= 5)%nat -> books 5000 (ends_in l) ex_start.
Proof.
  intros Hl. apply (books_set (ends_in l) (ex_boot_world []) (sys_clients ex_system) 10 5000 ex_start_commands); [lia|lia|].
  unfold MAX_COMMANDS. lia.
Qed.

Lemma ex_start_ample : ample 200 ex_start (reads ex_activities).
Proof. exact ex_ample. Qed.

(** Client 1 has had a command and is between two requests, and there is room in
    the slow log. *)
Lemma ex_loop_idle :
  match run_activities ex_files 200 ex_loop ex_start with
  | Done n' => match sys_clients n' !! 1%nat with
               | Some c => (argc c =? 0) && match lastcmd c with Some _ => true | None => false end
                   && (zlen (list_elems (entries (slowlog_manager (w_server (sys_world n')))))
                       <? max_len (slowlog_manager (w_server (sys_world n'))))
               | None => false
               end
  | Fault _ => false
  end = true.
Proof. vm_compute. reflexivity. Qed.

Lemma ex_may_run : may_run_all ex_files 200 5000 ex_activities ex_start.
Proof.
  apply may_run_app; [apply may_run_free; repeat constructor|]. intros n' E. pose proof ex_loop_idle as H. rewrite E in H.
  destruct (sys_clients n' !! 1%nat) as [c|] eqn:Ec; [|done]. apply andb_true_iff in H as [[H0 H1]%andb_true_iff H2]. split.
  - split; [split; [discriminate|reflexivity]|]. exists c. split; [exact Ec|]. intros _.
    split; [by apply Z.eqb_eq|]. split; [by destruct (lastcmd c)|]. by apply Z.ltb_lt.
  - intros n2 _. split; [simpl; lia|done].
Qed.

Lemma ex_start_trace : fst (schedule (proto_max_bulk_len (w_server (sys_world ex_start))) (fresh_peers ex_clients) (reads ex_activities)) = ex_trace.
Proof. rewrite ex_start_limit. exact ex_schedule. Qed.

Lemma ex_start_items : Forall (fun x => item_ok ex_files (snd x))
  (fst (schedule (proto_max_bulk_len (w_server (sys_world ex_start))) (fresh_peers ex_clients) (reads ex_activities))).
Proof. rewrite ex_start_trace. exact ex_trace_ok. Qed.

Lemma ex_start_rooms : rooms (zlen
  (fst (schedule (proto_max_bulk_len (w_server (sys_world ex_start))) (fresh_peers ex_clients) (reads ex_activities)))) ex_db0.
Proof. rewrite ex_start_trace. split; vm_compute; reflexivity. Qed.

Lemma ex_start_runs : crashes
  (fst (schedule (proto_max_bulk_len (w_server (sys_world ex_start))) (fresh_peers ex_clients) (reads ex_activities))) = false.
Proof. rewrite ex_start_trace. reflexivity. Qed.

Lemma ex_start_client (i : cid) : i ∈ [1%nat; 2%nat; 3%nat] -> sys_clients ex_start !! i = Some (w_client (ex_idle [] [])).
Proof. rewrite !elem_of_cons, elem_of_nil. intros [->|[->|[->|[]]]]; reflexivity. Qed.

(** Client 2 does not see the value at its first request and sees it at the
    second one; client 3 is told that it made a mistake. *)
Lemma event_loop_linearizable_witness :
  exists n' c1 c2 c3, run_activities ex_files 200 ex_activities ex_start = Done n' /\ accounted 2 1 ex_start n'
    /\ sys_clients n' !! 1%nat = Some c1 /\ sys_clients n' !! 2%nat = Some c2 /\ sys_clients n' !! 3%nat = Some c3
    /\ client_segs (client c1) = [bs "+OK" ++ CRLF ++ bs "+PONG" ++ CRLF]
    /\ client_segs (client c2) = [bs "*-1" ++ CRLF ++ bs "$3" ++ CRLF ++ bs "bar" ++ CRLF ++ bs "+OK" ++ CRLF]
    /\ client_segs (client c3) = [bs "-ERR Protocol error: invalid bulk length" ++ CRLF].
Proof.
  pose proof (event_loop_linearizable ex_files 200 5000 ex_activities ex_start ex_db0 (mk_sstate ∅ ∅ 0) (fresh_peers ex_clients)
    ex_start_ok (ex_start_books ex_activities ltac:(vm_compute; lia)) ex_may_run ex_start_ample ex_start_items ex_start_rooms ex_start_runs) as H.
  rewrite ex_start_limit in H.
  assert (El : exists s' ps', spec_activities (1024 * 1024) 5000 (mk_sstate ∅ ∅ 0) (fresh_peers ex_clients) ex_activities
    = (s', [(2%nat, bs "*-1" ++ CRLF); (1%nat, bs "+OK" ++ CRLF); (1%nat, bs "+PONG" ++ CRLF);
            (3%nat, proto_err (bs "invalid bulk length"));
            (2%nat, bs "$3" ++ CRLF ++ bs "bar" ++ CRLF); (2%nat, bs "+OK" ++ CRLF)], ps')).
  { eexists _, _. vm_compute. reflexivity. }
  destruct El as (s' & ps' & El). rewrite El in H. destruct H as (n' & db' & E & _ & _ & Hs & Ho).
  destruct (Ho 1%nat (w_client (ex_idle [] []))) as (c1 & H1 & O1); [apply ex_start_client; left|].
  destruct (Ho 2%nat (w_client (ex_idle [] []))) as (c2 & H2 & O2); [apply ex_start_client; right; left|].
  destruct (Ho 3%nat (w_client (ex_idle [] []))) as (c3 & H3 & O3); [apply ex_start_client; right; right; left|].
  exists n', c1, c2, c3. split; [exact E|]. split; [exact Hs|]. split; [exact H1|]. split; [exact H2|]. split; [exact H3|].
  rewrite O1, O2, O3. split; [|split]; vm_compute; reflexivity.
Defined.

(** Client 1 sends an unknown command; the server goes on serving client 2
    until client 1 sends its next byte. *)
Definition ex_bad_events : list event :=
  [ ex_event 1 (enc_request [bs "FOO"; bs "bar"]); ex_event 2 (enc_request [bs "PING"]); ex_event 1 (bs "*") ].

Definition ex_bad : list activity := map Readable ex_bad_events.

Definition ex_bad_trace : list (cid * item) :=
  [ (1%nat, Execute [bs "FOO"; bs "bar"]); (2%nat, Execute [bs "PING"]); (1%nat, Abort) ].

Lemma ex_bad_schedule :
  fst (schedule (proto_max_bulk_len (w_server (sys_world ex_start))) (fresh_peers ex_clients) (reads ex_bad)) = ex_bad_trace.
Proof. rewrite ex_start_limit. vm_compute. reflexivity. Qed.

Lemma ex_bad_ample : ample 200 ex_start (reads ex_bad).
Proof.
  split; [apply (bool_decide_unpack _); vm_compute; exact I|].
  intros i c. change (sys_clients ex_start) with ex_clients. unfold ex_clients.
  rewrite !lookup_insert_Some, lookup_singleton_Some.
  intros [[<- <-]|[_ [[<- <-]|(_ & <- & <-)]]]; vm_compute; reflexivity.
Qed.

Lemma unknown_command_stops_server_witness :
  run_activities ex_files 200 ex_bad ex_start = Fault (AssertFailed "client argc ! = 0").
Proof.
  apply (unknown_command_stops_server ex_files 200 5000 ex_bad ex_start ex_db0 (mk_sstate ∅ ∅ 0) (fresh_peers ex_clients)).
  - exact ex_start_ok.
  - apply ex_start_books. vm_compute. lia.
  - apply may_run_free. repeat constructor.
  - exact ex_bad_ample.
  - rewrite ex_bad_schedule. valid_items.
  - rewrite ex_bad_schedule. split; vm_compute; reflexivity.
  - rewrite ex_bad_schedule. reflexivity.
Defined.

Lemma ex_start_unused : unused ex_start ex_db0.
Proof.
  split; [vm_compute; reflexivity|]. intros i c Hc. apply arg_locs_none.
  exact (fc_argc _ (ex_clients_fresh i c Hc)).
Qed.

(** Everything the clients have sent is gone, but for the value of "foo". *)
Lemma event_loop_no_leaks_witness :
  exists n' db', run_activities ex_files 200 ex_activities ex_start = Done n'
    /\ ((forall i c, sys_clients n' !! i = Some c -> argc c = 0) ->
        size (w_heap (sys_world n')) = (size (w_heap (sys_world ex_start)) + size (keys_map db'))%nat).
Proof.
  destruct (event_loop_no_leaks ex_files 200 5000 ex_activities ex_start ex_db0 (mk_sstate ∅ ∅ 0) (fresh_peers ex_clients)
    ex_start_ok (ex_start_books ex_activities ltac:(vm_compute; lia)) ex_may_run ex_start_ample ex_start_items ex_start_rooms ex_start_runs
    ex_start_unused) as (n' & db' & E & _ & _ & Hn).
  exists n', db'. split; [exact E|exact Hn].
Defined.

Lemma ex_sendable : Forall (sendable (1024 * 1024)) ex_reqs2.
Proof. repeat constructor; vm_compute; discriminate. Qed.

Lemma event_loop_answers_all_witness :
  exists n' c', run_activities ex_files 200 ex_activities ex_start = Done n' /\ sys_clients n' !! 2%nat = Some c'
    /\ closed (client_world n' c').
Proof.
  destruct (event_loop_answers_all ex_files 200 5000 ex_activities ex_start ex_db0 (mk_sstate ∅ ∅ 0) (fresh_peers ex_clients)
    ex_start_ok (ex_start_books ex_activities ltac:(vm_compute; lia)) ex_may_run ex_start_ample ex_start_items ex_start_rooms
    2%nat new_peer ex_reqs2 ex_start_runs) as (_ & n' & c' & E & Hc & Hcl).
  - vm_compute. reflexivity.
  - vm_compute. discriminate.
  - split; [reflexivity|]. left. split_and!; vm_compute; reflexivity.
  - rewrite ex_start_limit. exact ex_sendable.
  - rewrite ex_start_limit. reflexivity.
  - exists n', c'. split; [exact E|]. split; [exact Hc|exact Hcl].
Defined.
