(* ===== verification/Connections.v ===== *)
(** * Connections that come and go (src/redis/client.c, src/redis/server.c)

    [start_redis_server] registers [create_redis_client] and
    [redis_client_delete] with the library, which calls the one for every
    connection it accepts and the other for every connection that ends.  This
    file adds both to the event loop of EventLoop.v: a server that starts
    without clients, whose clients connect and disconnect at any moments, is
    still the sequential server; but [redis_client_delete] releases only the
    client itself, and the arguments of a request that is being received, or of
    an unknown command, are lost for ever; and [create_redis_client] does not
    clear its memory, so that a connection that is given the block of such a
    client stops the server. *)

From S2P Require Import Prelude LatteC LatteCModel KvStore State Db Reply Protocol CommandManager Module.
From S2P Require Import StringModule Commands Client Service Streams Sessions Metric Slowlog EventLoop.

Section Connections.
Context {L : LatteC}.
Context (files : bytes -> module_file).

(** [zfree] of the client; what its members point to stays. *)
Definition redis_client_delete (i : cid) (n : system) : system :=
  mk_system (sys_world n) (delete i (sys_clients n)).

(** A connection is accepted: the client is made of the memory [mem]. *)
Definition accept_client (i : cid) (mem : redis_client_t) (n : system) : system :=
  mk_system (sys_world n) (<[i := create_redis_client mem]> (sys_clients n)).

Inductive step :=
  | Activity (a : activity)
  | Connect (i : cid) (mem : redis_client_t)
  | Disconnect (i : cid).

Definition run_step (fuel : nat) (st : step) (n : system) : outcome system :=
  match st with
  | Activity a => run_activity files fuel a n
  | Connect i mem => Done (accept_client i mem n)
  | Disconnect i => Done (redis_client_delete i n)
  end.

Fixpoint run_steps (fuel : nat) (l : list step) (n : system) : outcome system :=
  match l with
  | [] => Done n
  | st :: l => n ← run_step fuel st n; run_steps fuel l n
  end.

(** ** Specification *)

Definition activities_of (st : step) : list activity := match st with Activity a => [a] | _ => [] end.

(** The states of the connections. *)
Definition peers_step (bulk : Z) (ps : gmap cid peer) (st : step) : gmap cid peer :=
  match st with
  | Activity a => snd (schedule bulk ps (reads [a]))
  | Connect i _ => <[i := new_peer]> ps
  | Disconnect i => delete i ps
  end.

Definition peers_after (bulk : Z) (ps : gmap cid peer) (l : list step) : gmap cid peer := foldl (peers_step bulk) ps l.

Definition items_at (bulk : Z) (ps : gmap cid peer) (st : step) : list (cid * item) :=
  fst (schedule bulk ps (reads (activities_of st))).

(** The items in the order in which the last bytes they depend on arrive. *)
Fixpoint timetable (bulk : Z) (ps : gmap cid peer) (l : list step) : list (cid * item) :=
  match l with
  | [] => []
  | st :: l => items_at bulk ps st ++ timetable bulk (peers_step bulk ps st) l
  end.

(** The arguments a connection has sent and the server has not used. *)
Definition held (p : peer) : list bytes := match pr_phase p with Closing => [] | _ => pr_acc p end.

Definition lost_at (ps : gmap cid peer) (st : step) : list bytes :=
  match st with Disconnect i => default [] (held <$> ps !! i) | _ => [] end.

(** What the connections that end leave behind. *)
Fixpoint lost_in (bulk : Z) (ps : gmap cid peer) (l : list step) : list bytes :=
  match l with
  | [] => []
  | st :: l => lost_at ps st ++ lost_in bulk (peers_step bulk ps st) l
  end.

(** What every connection has been sent. *)
Definition outputs (n : system) : gmap cid (list bytes) := (fun c => client_segs (client c)) <$> sys_clients n.

Definition deliver_replies (log : list (cid * bytes)) (outs : gmap cid (list bytes)) : gmap cid (list bytes) :=
  map_imap (fun i o => Some (append_last o (replies_to i log))) outs.

Definition outputs_step (log : list (cid * bytes)) (outs : gmap cid (list bytes)) (st : step) : gmap cid (list bytes) :=
  match st with
  | Activity _ => deliver_replies log outs
  | Connect i mem => <[i := client_segs (client (create_redis_client mem))]> outs
  | Disconnect i => delete i outs
  end.

(** The sequential server: its state and what every connection is sent. *)
Fixpoint spec_steps (bulk limit : Z) (s : sstate) (ps : gmap cid peer) (outs : gmap cid (list bytes)) (l : list step) :
    sstate * gmap cid (list bytes) :=
  match l with
  | [] => (s, outs)
  | st :: l =>
      let '(s, log, _) := spec_activities bulk limit s ps (activities_of st) in
      spec_steps bulk limit s (peers_step bulk ps st) (outputs_step log outs st) l
  end.

Definition steps_activities (l : list step) : list activity := l ≫= activities_of.

(** How many bytes arrive. *)
Fixpoint traffic (l : list step) : Z :=
  match l with
  | [] => 0
  | Activity (Readable e) :: l => zlen (ev_bytes e) + traffic l
  | _ :: l => traffic l
  end.

(** The part of a new client that is the library's: nothing has been read or
    replied yet. *)
Definition prepared (lc : latte_client_t client_priv_t) : Prop :=
  querybuf lc = [] /\ qb_pos lc = 0 /\ reply_ok (list_elems (reply lc)).

(** Memory that [create_redis_client] makes a client between two requests of.  It
    sets neither [req_type] nor [argc] nor [argv] nor [flag], and the allocator
    does not clear the block, so what was there before decides.  A block full of
    zeros is usable, and so is the block of a former client that had no arguments
    when it left; the theorems that let clients connect are about these.  The only
    other blocks a client leaves are those with arguments, and [recycled_memory]
    below shows what becomes of a connection that gets one of them. *)
Definition usable_memory (mem : redis_client_t) : Prop :=
  prepared (client mem) /\ no_inline mem /\ argc mem = 0 /\ has_flag (flag mem) CLIENT_MASTER = false.

(** When the library may take a step: bytes arrive on connections there are, a
    new connection has a client of its own, and one that ends has one. *)
Definition may_step (limit : Z) (st : step) (n : system) : Prop :=
  match st with
  | Activity a => may_run limit a n /\ Forall (fun e => is_Some (sys_clients n !! ev_client e)) (reads [a])
  | Connect i mem => sys_clients n !! i = None /\ usable_memory mem
  | Disconnect i => is_Some (sys_clients n !! i)
  end.

Fixpoint may_step_all (fuel : nat) (limit : Z) (l : list step) (n : system) : Prop :=
  match l with
  | [] => True
  | st :: l => may_step limit st n /\ forall n', run_step fuel st n = Done n' -> may_step_all fuel limit l n'
  end.

(** Query buffers stay below the fuel and the width of their sizes. *)
Definition spacious (fuel : nat) (n : system) (k : Z) : Prop :=
  k < Z.min (Z.of_nat fuel) (2 ^ 62)
  /\ forall i c, sys_clients n !! i = Some c -> zlen (querybuf (client c)) + k < Z.min (Z.of_nat fuel) (2 ^ 62).

(** Between [n] and [n'] objects with the contents [lost] and one reference
    each have become stray; what was stray is so still, and has not changed. *)
Definition loses (lost : list bytes) (n : system) (db : redis_db_t) (n' : system) (db' : redis_db_t) : Prop :=
  exists ls, args_own (w_heap (sys_world n')) ls lost
    /\ (forall x, stray n' db' x <-> stray n db x \/ x ∈ ls) /\ (forall x, x ∈ ls -> ~ stray n db x)
    /\ (forall x, stray n db x -> w_heap (sys_world n') !! x = w_heap (sys_world n) !! x).

Abbreviation server_of n := (w_server (sys_world n)).

(** What a step does besides its effect on the state. *)
Record step_effect (l : list activity) (bytes_in k : Z) (lost : list bytes) (n : system) (db : redis_db_t) (n' : system) (db' : redis_db_t) : Prop := {
  se_accounted : accounted (samples_in l) (ends_in l) n n';
  se_buffers : forall i c', sys_clients n' !! i = Some c' ->
    zlen (querybuf (client c')) <= bytes_in \/ exists c, sys_clients n !! i = Some c
      /\ zlen (querybuf (client c')) <= zlen (querybuf (client c)) + bytes_in;
  se_loses : loses lost n db n' db';
  se_grows : grows_by k db db';
  se_limit : proto_max_bulk_len (server_of n') = proto_max_bulk_len (server_of n)
}.

Context {LL : LatteCLaws}.

Lemma loses_nothing (n n' : system) (db db' : redis_db_t) : no_leaks n db n' db' -> loses [] n db n' db'.
Proof.
  intros Hl. exists []. split; [by repeat constructor|]. split; [|split; [by intros x ?%elem_of_nil|intros x; apply Hl]].
  intros x. rewrite (proj1 (Hl x)), elem_of_nil. tauto.
Qed.

Lemma loses_trans (a b : list bytes) (n1 n2 n3 : system) (db1 db2 db3 : redis_db_t) :
  loses a n1 db1 n2 db2 -> loses b n2 db2 n3 db3 -> loses (a ++ b) n1 db1 n3 db3.
Proof.
  intros (la & Ha & S1 & N1 & K1) (lb & [Hnb Hb] & S2 & N2 & K2). exists (la ++ lb).
  assert (Hst : forall x, x ∈ la -> stray n2 db2 x) by (intros x Hx; apply S1; by right).
  destruct (args_own_frame _ (w_heap (sys_world n3)) _ _ Ha) as [Hna Ha3]; [by intros x Hx; apply K2, Hst|]. split_and!.
  - split; [|by apply Forall2_app]. apply NoDup_app. split_and!; try done. intros x Hxa Hxb. by apply (N2 x Hxb), Hst.
  - intros x. rewrite S2, S1, elem_of_app. tauto.
  - intros x. rewrite elem_of_app. intros [?|Hx] Hs; [by apply (N1 x)|]. apply (N2 x Hx), S1. by left.
  - intros x Hx. rewrite K2, K1; [done..|]. apply S1. by left.
Qed.

(** ** One step *)

Lemma connect_ok (i : cid) (mem : redis_client_t) (n : system) (db : redis_db_t) (s : sstate) (ps : gmap cid peer) :
  system_ok n db s ps -> proto_max_bulk_len (server_of n) < 2 ^ 62 -> sys_clients n !! i = None -> usable_memory mem ->
  system_ok (accept_client i mem n) db s (<[i := new_peer]> ps) /\ no_leaks n db (accept_client i mem n) db.
Proof.
  intros [Hs Hc Hdom Hcl Hdis] Hlim Hi ((Hq & Hp & Hr) & Ht & Ha & Hf). set (c := create_redis_client mem).
  assert (Hfr : fresh_client c) by (by apply create_redis_client_fresh). assert (Hno : arg_locs c = []) by (apply arg_locs_none, Hfr).
  split; [split; cbn [accept_client sys_world sys_clients]; try done|].
  - by rewrite !dom_insert_L, Hdom.
  - intros j cj pj. destruct (decide (j = i)) as [->|Hne].
    + rewrite !lookup_insert_eq. intros [= <-] [= <-]. by apply fresh_connected.
    + rewrite !lookup_insert_ne by done. by apply Hcl.
  - intros j k cj ck l Hne. destruct (decide (j = i)) as [->|Hji], (decide (k = i)) as [->|Hki]; try done;
      rewrite ?lookup_insert_eq, ?lookup_insert_ne by done.
    + intros [= <-]. fold c. rewrite Hno. by intros _ ?%elem_of_nil.
    + intros _ [= <-] _. fold c. rewrite Hno. apply not_elem_of_nil.
    + by apply Hdis.
  - intros l. split; [|done]. unfold stray. cbn [accept_client sys_world sys_clients]. split; intros (? & ? & Hx); split_and!; try done.
    + intros j cj Hj. apply (Hx j). rewrite lookup_insert_ne; [done|]. congruence.
    + intros j cj. destruct (decide (j = i)) as [->|Hne]; [|rewrite lookup_insert_ne by done; by apply Hx].
      rewrite lookup_insert_eq. intros [= <-]. fold c. rewrite Hno. apply not_elem_of_nil.
Qed.

Lemma disconnect_ok (i : cid) (n : system) (db : redis_db_t) (s : sstate) (ps : gmap cid peer) :
  system_ok n db s ps -> system_ok (redis_client_delete i n) db s (delete i ps).
Proof.
  intros [Hs Hc Hdom Hcl Hdis]. split; cbn [redis_client_delete sys_world sys_clients]; try done.
  - by rewrite !dom_delete_L, Hdom.
  - intros j cj pj. rewrite !lookup_delete_Some. intros [_ ?] [_ ?]. by apply (Hcl j).
  - intros j k cj ck l Hne. rewrite !lookup_delete_Some. intros [_ ?] [_ ?]. by apply (Hdis j k).
Qed.

(** The arguments a client holds are those the specification knows of. *)
Lemma held_owned (w : world) (db : redis_db_t) (p : peer) :
  connected w db p -> args_own (w_heap w) (arg_locs (w_client w)) (held p).
Proof.
  intros [_ _ _ _ _ Hst]. unfold represents, held in *. destruct (pr_phase p).
  - by apply (parsing_args _ _ _ _ _ _ (proj1 Hst)).
  - by apply (parsing_args _ _ _ _ _ _ (proj1 Hst)).
  - rewrite (arg_locs_none _ (proj1 Hst)). by repeat constructor.
Qed.

(** A client that is deleted leaves its arguments behind. *)
Lemma disconnect_loses (i : cid) (c : redis_client_t) (p : peer) (n : system) (db : redis_db_t) (s : sstate) (ps : gmap cid peer) :
  system_ok n db s ps -> sys_clients n !! i = Some c -> ps !! i = Some p ->
  loses (held p) n db (redis_client_delete i n) db.
Proof.
  intros Hok Hi Hp. pose proof (so_client _ _ _ _ Hok i c p Hi Hp) as Hco. exists (arg_locs c). split; [exact (held_owned _ _ _ Hco)|].
  split; [|split; [|done]].
  - intros x. unfold stray. cbn [redis_client_delete sys_world sys_clients]. split.
    + intros (? & ? & Hx). destruct (decide (x ∈ arg_locs c)) as [|Hn]; [by right|]. left. split_and!; try done.
      intros j cj Hj. destruct (decide (j = i)) as [->|Hne]; [congruence|]. apply (Hx j). by rewrite lookup_delete_ne.
    + intros [(? & ? & Hx)|Hx]; split_and!; try done.
      * intros j cj. rewrite lookup_delete_Some. intros [_ ?]. by apply (Hx j).
      * exact (args_in_store _ _ _ _ Hco Hx).
      * intros Hk. by apply (co_keys _ _ _ Hco x Hk).
      * intros j cj. rewrite lookup_delete_Some. intros [Hne Hj] Hxj. by apply (so_disjoint _ _ _ _ Hok i j c cj x Hne Hi Hj Hx).
  - intros x Hx (_ & _ & Hn). by apply (Hn i c Hi).
Qed.
Lemma step_effect_idle (lost : list bytes) (n n' : system) (db : redis_db_t) :
  sys_world n' = sys_world n ->
  (forall i c', sys_clients n' !! i = Some c' -> querybuf (client c') = [] \/ sys_clients n !! i = Some c') ->
  loses lost n db n' db -> step_effect [] 0 0 lost n db n' db.
Proof.
  intros Ew Hb Hl. split; rewrite ?Ew; try done; [apply accounted_none; by rewrite Ew| |unfold grows_by; lia].
  intros i c' Hi. destruct (Hb i c' Hi) as [->|?]; [by left|]. right. exists c'. split; [done|lia].
Qed.

Lemma outputs_delivered (l : list activity) (k : Z) (log : list (cid * bytes)) (n n' : system) (db db' : redis_db_t) :
  loop_effect l k log n db n' db' -> outputs n' = deliver_replies log (outputs n).
Proof.
  intros [_ Ho Hd _ _ _]. apply map_eq. intros i. unfold outputs, deliver_replies. rewrite map_lookup_imap, !lookup_fmap.
  destruct (sys_clients n !! i) as [c|] eqn:Hi; cbn.
  - destruct (Ho i c Hi) as (c' & -> & Es & _). cbn. by rewrite Es.
  - apply not_elem_of_dom in Hi. rewrite <- Hd in Hi. by apply not_elem_of_dom in Hi as ->.
Qed.

Lemma loop_step_effect (a : activity) (k : Z) (log : list (cid * bytes)) (n n' : system) (db db' : redis_db_t) :
  loop_effect [a] k log n db n' db' -> step_effect [a] (traffic [Activity a]) k [] n db n' db'.
Proof.
  intros [Ha Ho Hd Hl Hg Hm]. split; try done; [|by apply loses_nothing]. intros i c' Hi'. right.
  assert (Hi : is_Some (sys_clients n !! i)) by (apply elem_of_dom; rewrite <- Hd; apply elem_of_dom; eauto).
  destruct Hi as [c Hi]. exists c. split; [done|]. destruct (Ho i c Hi) as (c2 & Hi2 & _ & Hz). assert (c2 = c') as -> by congruence.
  etrans; [exact Hz|]. apply Zplus_le_compat_l. destruct a as [e| |]; try (vm_compute; discriminate).
  change (reads [Readable e]) with [e]. rewrite sent_cons, zlen_app. cbn [traffic]. change (zlen (sent i [])) with 0.
  pose proof (zlen_nonneg (ev_bytes e)). destruct (decide (ev_client e = i)); change (zlen []) with 0; lia.
Qed.

Lemma run_step_ok (fuel : nat) (limit : Z) (k : nat) (st : step) (n : system) (db : redis_db_t) (s : sstate) (ps : gmap cid peer) :
  let bulk := proto_max_bulk_len (server_of n) in
  let tr := items_at bulk ps st in
  bulk < 2 ^ 62 -> system_ok n db s ps -> books limit (ends_in (activities_of st) + k) n -> may_step limit st n ->
  spacious fuel n (traffic [st]) -> Forall (fun x => item_ok files (snd x)) tr -> rooms (zlen tr) db ->
  if crashes tr then run_step fuel st n = Fault ASSERT_ARGC
  else let '(s', log, _) := spec_activities bulk limit s ps (activities_of st) in
    exists n' db', run_step fuel st n = Done n' /\ system_ok n' db' s' (peers_step bulk ps st) /\ books limit k n'
      /\ outputs n' = outputs_step log (outputs n) st
      /\ step_effect (activities_of st) (traffic [st]) (zlen tr) (lost_at ps st) n db n' db'.
Proof.
  intros bulk tr Hlim Hok Hbk Hmay [_ Hsp] Hits Hroom. destruct st as [a|i mem|i].
  - destruct Hmay as [Hmay Hex]. cbn [activities_of run_step peers_step outputs_step lost_at] in *. unfold items_at in tr. cbn [activities_of] in tr.
    assert (Ham : ample fuel n (reads [a])).
    { split; [done|]. intros i c Hi. specialize (Hsp i c Hi). destruct a as [e| |]; [|exact Hsp..]. cbn [traffic] in Hsp.
      change (reads [Readable e]) with [e]. rewrite sent_cons, zlen_app. change (zlen (sent i [])) with 0.
      pose proof (zlen_nonneg (ev_bytes e)). destruct (decide (ev_client e = i)); change (zlen []) with 0; lia. }
    pose proof (run_activity_ok files fuel limit k a n db s ps Hok Hbk Hmay Ham Hits Hroom) as H. fold bulk in H. fold tr in H.
    pose proof (spec_activities_peers bulk limit [a] s ps) as Eps. cbv zeta in H. fold bulk tr in H. destruct (crashes tr); [done|].
    destruct (spec_activities bulk limit s ps [a]) as [[s' log] ps']. cbn [snd] in Eps. subst ps'.
    destruct H as (n' & db' & E & Hok' & Hbk' & Hle). exists n', db'. split_and!; try done; [by eapply outputs_delivered|by eapply loop_step_effect].
  - destruct Hmay as [Hi Hmem]. destruct (connect_ok i mem n db s ps Hok Hlim Hi Hmem) as [Hok' Hl].
    eexists _, db. split; [reflexivity|]. split; [done|]. split; [by apply (books_same limit k n)|]. split; [unfold outputs; cbn [accept_client sys_clients]; by rewrite fmap_insert|].
    apply step_effect_idle; [done| |by apply loses_nothing]. cbn [accept_client sys_clients]. intros j cj.
    destruct (decide (j = i)) as [->|Hne]; [|rewrite lookup_insert_ne by done; by right]. rewrite lookup_insert_eq. intros [= <-]. left. apply Hmem.
  - destruct Hmay as [c Hi]. assert (Hp : is_Some (ps !! i)) by (apply elem_of_dom; rewrite (so_dom _ _ _ _ Hok); apply elem_of_dom; eauto).
    destruct Hp as [p Hp]. eexists _, db. split; [reflexivity|]. split; [by apply disconnect_ok|]. split; [by apply (books_same limit k n)|].
    split; [unfold outputs; cbn [redis_client_delete sys_clients]; by rewrite fmap_delete|]. cbn [lost_at]. rewrite Hp. apply step_effect_idle; [done| |by eapply disconnect_loses].
    cbn [redis_client_delete sys_clients]. intros j cj. rewrite lookup_delete_Some. intros [_ ?]. by right.
Qed.

(** ** All steps *)

Lemma traffic_cons (st : step) (l : list step) : traffic (st :: l) = traffic [st] + traffic l.
Proof. destruct st as [[]| |]; cbn [traffic]; lia. Qed.

Lemma traffic_nonneg (l : list step) : 0 <= traffic l.
Proof.
  induction l as [|st l IH]; [done|]. rewrite traffic_cons.
  destruct st as [[e| |]| |]; cbn [traffic]; try lia. pose proof (zlen_nonneg (ev_bytes e)). lia.
Qed.

Lemma ends_in_app (a b : list activity) : ends_in (a ++ b) = (ends_in a + ends_in b)%nat.
Proof. unfold ends_in. by rewrite filter_app, length_app. Qed.

Lemma samples_in_app (a b : list activity) : samples_in (a ++ b) = (samples_in a + samples_in b)%nat.
Proof. unfold samples_in. by rewrite filter_app, length_app. Qed.

Lemma spacious_step (fuel : nat) (n n' : system) (acts : list activity) (a b k : Z) (lost : list bytes) (db db' : redis_db_t) :
  0 <= a -> 0 <= b -> spacious fuel n (a + b) -> step_effect acts a k lost n db n' db' -> spacious fuel n' b.
Proof.
  intros Ha Hb [H1 H2] [_ Hbuf _ _ _]. split; [lia|]. intros i c' Hi. destruct (Hbuf i c' Hi) as [?|(c & Hc & ?)]; [lia|].
  specialize (H2 i c Hc). lia.
Qed.

Lemma step_effect_trans (la lb : list activity) (a b j k : Z) (x y : list bytes) (n1 n2 n3 : system) (db1 db2 db3 : redis_db_t) :
  0 <= a -> step_effect la a j x n1 db1 n2 db2 -> step_effect lb b k y n2 db2 n3 db3 ->
  step_effect (la ++ lb) (a + b) (j + k) (x ++ y) n1 db1 n3 db3.
Proof.
  intros Hpos [A1 B1 L1 G1 M1] [A2 B2 L2 G2 M2]. split; [| |by eapply loses_trans|unfold grows_by in *; lia|congruence].
  - rewrite samples_in_app, ends_in_app. by eapply accounted_trans.
  - intros i c3 H3. destruct (B2 i c3 H3) as [?|(c2 & H2 & ?)]; [left; lia|].
    destruct (B1 i c2 H2) as [?|(c1 & H1 & ?)]; [left; lia|]. right. exists c1. split; [done|lia].
Qed.

Lemma step_effect_refl (n : system) (db : redis_db_t) : step_effect [] 0 0 [] n db n db.
Proof. apply step_effect_idle; [done|by right|]. apply loses_nothing, no_leaks_refl. Qed.

Lemma run_steps_ok (fuel : nat) (limit : Z) (l : list step) (n : system) (db : redis_db_t) (s : sstate) (ps : gmap cid peer) :
  let bulk := proto_max_bulk_len (server_of n) in
  let tr := timetable bulk ps l in
  bulk < 2 ^ 62 -> system_ok n db s ps -> books limit (ends_in (steps_activities l)) n -> may_step_all fuel limit l n ->
  spacious fuel n (traffic l) -> Forall (fun x => item_ok files (snd x)) tr -> rooms (zlen tr) db ->
  if crashes tr then run_steps fuel l n = Fault ASSERT_ARGC
  else let '(s', outs) := spec_steps bulk limit s ps (outputs n) l in
    exists n' db', run_steps fuel l n = Done n' /\ system_ok n' db' s' (peers_after bulk ps l) /\ books limit 0 n' /\ outputs n' = outs
      /\ step_effect (steps_activities l) (traffic l) (zlen tr) (lost_in bulk ps l) n db n' db'.
Proof.
  cbv zeta. revert n db s ps. induction l as [|st l IH]; intros n db s ps Hlim Hok Hbk Hmay Hsp Hits Hroom.
  { exists n, db. split_and!; try done. apply step_effect_refl. }
  destruct Hmay as [Hmay Hrun]. change (steps_activities (st :: l)) with (activities_of st ++ steps_activities l) in *.
  rewrite ends_in_app in Hbk. cbn [timetable spec_steps run_steps lost_in] in *. rewrite Forall_app in Hits. destruct Hits as [Hi1 Hi2].
  rewrite zlen_app in *. rewrite crashes_app. rewrite (traffic_cons st l) in *. set (bulk := proto_max_bulk_len (server_of n)) in *.
  set (tr1 := items_at bulk ps st) in *. set (tr2 := timetable bulk _ l) in *. pose proof (traffic_nonneg [st]) as Ht1. pose proof (traffic_nonneg l) as Ht2.
  assert (Hr1 : rooms (zlen tr1) db) by (pose proof (zlen_nonneg tr2); unfold rooms in *; lia).
  assert (Hs1 : spacious fuel n (traffic [st])) by (destruct Hsp as [? H2]; split; [lia|intros i c Hc; specialize (H2 i c Hc); lia]).
  pose proof (run_step_ok fuel limit _ st n db s ps Hlim Hok Hbk Hmay Hs1 Hi1 Hr1) as H1. cbv zeta in H1. fold bulk tr1 in H1.
  destruct (crashes tr1); cbn [orb]; [by rewrite H1|]. destruct (spec_activities bulk limit s ps (activities_of st)) as [[s1 log1] ps1].
  destruct H1 as (n1 & db1 & E1 & Hok1 & Hbk1 & Eo & Hef). rewrite E1. cbn [mbind outcome_bind].
  pose proof (se_limit _ _ _ _ _ _ _ _ Hef) as El. fold bulk in El. pose proof (se_grows _ _ _ _ _ _ _ _ Hef) as Hg.
  specialize (IH n1 db1 s1 (peers_step bulk ps st)). rewrite El, Eo in IH. fold tr2 in IH.
  specialize (IH Hlim Hok1 Hbk1 (Hrun n1 E1) (spacious_step _ _ _ _ _ _ _ _ _ _ Ht1 Ht2 Hsp Hef) Hi2 ltac:(unfold rooms, grows_by in *; lia)).
  destruct (crashes tr2); [done|]. destruct (spec_steps bulk limit s1 _ _ l) as [s2 outs].
  destruct IH as (n2 & db2 & E2 & Hok2 & Hbk2 & Eo2 & Hef2). exists n2, db2. split_and!; try done. by eapply step_effect_trans.
Qed.
Lemma fresh_peers_empty : fresh_peers ∅ = ∅.
Proof. apply fmap_empty. Qed.

(** What the store holds when the objects [lost] have been left behind. *)
Lemma loses_store (lost : list bytes) (n n' : system) (db db' : redis_db_t) (s' : sstate) (ps' : gmap cid peer) :
  unused n db -> system_ok n' db' s' ps' -> loses lost n db n' db' ->
  exists ls, args_own (w_heap (sys_world n')) ls lost
    /\ (forall x, x ∈ dom (w_heap (sys_world n')) <->
          x ∈ dom (w_heap (sys_world n)) \/ x ∈ ls \/ key_loc db' x
          \/ exists i c, sys_clients n' !! i = Some c /\ x ∈ arg_locs c)
    /\ (forall x, x ∈ ls -> ~ key_loc db' x /\ forall i c, sys_clients n' !! i = Some c -> x ∉ arg_locs c)
    /\ ((forall i c, sys_clients n' !! i = Some c -> argc c = 0) ->
        size (w_heap (sys_world n')) = (size (w_heap (sys_world n)) + length lost + size (keys_map db'))%nat).
Proof.
  intros Hun Hok' (ls & Hown & Hst & Hnew & _). exists ls. split; [done|].
  assert (Hst' : forall x, stray n' db' x <-> x ∈ dom (w_heap (sys_world n)) \/ x ∈ ls).
  { intros x. by rewrite Hst, unused_stray. }
  assert (Hdom : forall x, x ∈ dom (w_heap (sys_world n')) <-> x ∈ dom (w_heap (sys_world n)) \/ x ∈ ls \/ key_loc db' x
          \/ exists i c, sys_clients n' !! i = Some c /\ x ∈ arg_locs c).
  { intros x. rewrite assoc, <- Hst' by apply _. split; [by apply stray_or_owned|]. intros [(? & _)|Hx]; [done|]. by eapply owned_in_store. }
  split; [done|]. split; [intros x Hx; apply (Hst' x); by right|]. intros Hidle.
  rewrite <- (Forall2_length _ _ _ (proj2 Hown)), <- (size_dom (D := gset loc) (w_heap (sys_world n))), <- (size_list_to_set (C := gset loc) ls) by apply Hown.
  rewrite <- size_union by (intros x Hx Hl%elem_of_list_to_set; by apply (Hnew x Hl), unused_stray).
  apply store_size; [apply (sv_inj _ _ _ (so_serving _ _ _ _ Hok'))| |].
  - intros x. rewrite Hdom, elem_of_union, elem_of_list_to_set. split; [|by intros [[?|?]|?]; eauto].
    intros [?|[?|[?|(i & c & Hi & Hx)]]]; [by left; left|by left; right|by right|].
    rewrite (arg_locs_none c (Hidle i c Hi)) in Hx. by apply elem_of_nil in Hx.
  - intros k x Hk. rewrite elem_of_union, elem_of_list_to_set, <- Hst'. intros (_ & Hn & _). apply Hn. by exists k.
Qed.

(** ** Recycled memory *)

(** A connection whose client has arguments: nothing it can be sent first but the
    failed assertion. *)
Lemma stale_client_faults (fuel : nat) (e : event) (n : system) (c : redis_client_t) :
  sys_clients n !! ev_client e = Some c -> argc c <> 0 -> multi_bulk_len c = 0 -> req_type c = PROTO_REQ_MULTIBULK ->
  querybuf (client c) = [] -> qb_pos (client c) = 0 -> not_closing c -> has_flag (flag c) CLIENT_MASTER = false ->
  ev_bytes e <> [] -> zlen (ev_bytes e) < 2 ^ 62 -> serve_event files (S fuel) e n = Fault ASSERT_ARGC.
Proof.
  intros Hc Ha Hm Ht Hq Hp Hncl Hma Hne Hsz. unfold serve_event. rewrite Hc. cbn [deref mbind outcome_bind].
  unfold read_event. set (w := client_world n c).
  set (c' := set_client c (set_qb_pos (set_querybuf (client c) (ev_bytes e)) 0)).
  assert (E : deliver (ev_trim e) (ev_bytes e) w = Done (tt, set_w_client w c')).
  { unfold deliver, c', w. destruct c as [[]]. cbn in Hq, Hp. subst. by destruct (ev_trim e). }
  rewrite (bind_Done _ _ _ _ _ E).
  assert (Eh : redis_client_handle files (ev_garbage e) (S fuel) (zlen (ev_bytes e)) (set_w_client w c')
    = input_loop files (ev_garbage e) (S fuel) (set_w_client w c')).
  { unfold redis_client_handle, redis_process_input_buffer. mstep. cbn [w_client set_w_client c' flag set_client]. by rewrite Hma. }
  rewrite Eh, (input_wedged files (ev_garbage e) fuel _ (ev_bytes e)); try done.
  unfold qb_ok. cbn [w_client set_w_client c' client set_client qb_pos querybuf set_qb_pos set_querybuf]. pose proof (zlen_nonneg (ev_bytes e)).
  split_and!; [lia|lia|done|done].
Qed.

(** Who holds arguments is in the middle of a multibulk request. *)
Lemma held_multibulk (w : world) (db : redis_db_t) (p : peer) :
  connected w db p -> held p <> [] -> argc (w_client w) <> 0 /\ req_type (w_client w) = PROTO_REQ_MULTIBULK.
Proof.
  intros [_ _ _ _ _ Hst] Hne. unfold represents, held in *.
  assert (Hacc : pr_acc p <> [] -> zlen (pr_acc p) <> 0).
  { destruct (pr_acc p) as [|a acc]; [done|]. rewrite zlen_cons. pose proof (zlen_nonneg acc). lia. }
  destruct (pr_phase p); [|destruct Hst as (Hp & Hn & Ht & _); split; [rewrite (p_argc _ _ _ _ _ _ Hp); by apply Hacc|done]|done].
  destruct Hst as (Hp & Hb & Hty & _). split; [rewrite (p_argc _ _ _ _ _ _ Hp); by apply Hacc|].
  destruct Hty as [[_ H0]|?]; [|done]. by destruct (bd_zero _ _ _ _ Hb H0).
Qed.

(** ** Which steps fit together *)

(** Who is connected does not depend on what the clients do. *)
Lemma run_activity_dom (fuel : nat) (a : activity) (n n' : system) :
  run_activity files fuel a n = Done n' -> dom (sys_clients n') = dom (sys_clients n).
Proof.
  destruct a as [e|i start stop|j]; cbn [run_activity].
  - unfold serve_event. destruct (sys_clients n !! ev_client e) as [c|] eqn:Hc; [|done]. cbn [deref mbind outcome_bind].
    destruct (read_event _ _ _ _) as [[x w]|]; [|done]. intros [= <-]. apply dom_insert_lookup_L. eauto.
  - unfold run_end. destruct (sys_clients n !! i) as [c|] eqn:Hc; [|done]. cbn [deref mbind outcome_bind].
    destruct (redis_client_command_end _) as [[x w]|]; [|done]. intros [= <-]. apply dom_insert_lookup_L. eauto.
  - unfold run_cron. destruct (crons !! j) as [job|]; [|done]. cbn [deref mbind outcome_bind].
    destruct (cron_fn job _) as [[x w]|]; [|done]. by intros [= <-].
Qed.

(** Reads, jobs and connections fit when the numbers [D] are in use. *)
Fixpoint fits (D : gset cid) (l : list step) : Prop :=
  match l with
  | [] => True
  | Activity (Readable e) :: l => ev_client e ∈ D /\ fits D l
  | Activity (Tick j) :: l => (j < 2)%nat /\ fits D l
  | Activity (Ended _ _ _) :: l => False
  | Connect i mem :: l => (i ∉ D) /\ usable_memory mem /\ fits ({[i]} ∪ D) l
  | Disconnect i :: l => i ∈ D /\ fits (D ∖ {[i]}) l
  end.

Lemma fits_may_step (fuel : nat) (limit : Z) (l : list step) (n : system) :
  fits (dom (sys_clients n)) l -> may_step_all fuel limit l n.
Proof.
  revert n. induction l as [|st l IH]; intros n Hf; [done|]. destruct st as [[e| |j]|i mem|i]; cbn [fits] in Hf; [|done|..].
  - destruct Hf as [He Hf]. split; [split; [done|]; apply Forall_singleton; by apply elem_of_dom|].
    intros n' E. apply IH. cbn [run_step] in E. by rewrite (run_activity_dom _ _ _ _ E).
  - destruct Hf as [Hj Hf]. split; [by split|]. intros n' E. apply IH. cbn [run_step] in E. by rewrite (run_activity_dom _ _ _ _ E).
  - destruct Hf as (Hi & Hm & Hf). split; [split; [by apply not_elem_of_dom|done]|]. intros n' [= <-]. apply IH.
    cbn [accept_client sys_clients]. by rewrite dom_insert_L.
  - destruct Hf as [Hi Hf]. split; [by apply elem_of_dom|]. intros n' [= <-]. apply IH.
    cbn [redis_client_delete sys_clients]. by rewrite dom_delete_L.
Qed.

(** ** The theorems *)

Section Steps.
Context (fuel : nat) (limit : Z) (l : list step) (n : system) (db : redis_db_t) (s : sstate) (ps : gmap cid peer).
Let bulk := proto_max_bulk_len (server_of n).
Let tr := timetable bulk ps l.
Hypothesis Hlim : bulk < 2 ^ 62.
Hypothesis Hok : system_ok n db s ps.
Hypothesis Hbk : books limit (ends_in (steps_activities l)) n.
Hypothesis Hmay : may_step_all fuel limit l n.
Hypothesis Hsp : spacious fuel n (traffic l).
Hypothesis Hits : Forall (fun x => item_ok files (snd x)) tr.
Hypothesis Hroom : rooms (zlen tr) db.

(** C3: connections come and go. Clients connect and disconnect at any moments,
    between the bytes that arrive, the ends of commands and the cron jobs, and a
    number that is free again may be given to a new connection. The bytes are
    those of [item_ok]: multibulk requests, whole or broken at any place, but no
    line that would begin an inline request, no command name or key of a SET with
    a NUL, no EXPIRE of 2^62 milliseconds or more, no MODULE without a subcommand
    and no MODULE LOAD of a file that is a module. Ends of slow commands come
    between two requests of their client, after it has had a command and while the
    slow log has room ([may_run]); fewer than 2^62 bytes arrive per client and at
    most 2^39 commands end. New clients are made of usable memory:
    [create_redis_client] leaves req_type, argc, argv and flag as the allocator
    returns them, so this covers clear blocks and those of former clients without
    arguments ([usable_memory]); the remaining blocks of former clients stop the
    server, which is [recycled_memory]. If no byte follows an unknown command,
    everything completes; at any moment every connection there is has been sent
    exactly what the sequential server has replied to the requests that arrived on
    this connection, nothing of what was sent to earlier connections with its
    number, and the database and the states of the parsers are those of the
    sequential server. A disconnection changes nothing for the others. *)
Theorem connections_linearizable :
  crashes tr = false ->
  let '(s', outs) := spec_steps bulk limit s ps (outputs n) l in
  exists n' db', run_steps fuel l n = Done n' /\ system_ok n' db' s' (peers_after bulk ps l) /\ outputs n' = outs
    /\ accounted (samples_in (steps_activities l)) (ends_in (steps_activities l)) n n'.
Proof.
  intros Hcr. pose proof (run_steps_ok fuel limit l n db s ps Hlim Hok Hbk Hmay Hsp Hits Hroom) as H. cbv zeta in H. fold bulk tr in H.
  rewrite Hcr in H. destruct (spec_steps bulk limit s ps (outputs n) l) as [s' outs].
  destruct H as (n' & db' & E & Hok' & _ & Eo & [Hac _ _ _ _]). by exists n', db'.
Qed.

(** C6: a connection that ends in the middle of a request, or after an unknown
    command, leaks: the objects of the arguments the server has received are
    neither freed nor reachable any more. From a server without keys and clients
    without arguments, after any steps in which no byte follows an unknown command
    (in the scope of [connections_linearizable]: bytes of [item_ok], ends of
    [may_run], clients of usable memory) the store holds, besides what it held in
    the beginning, the values of the keys and the arguments that are being
    received, exactly the arguments of the connections that have ended so, each
    with one reference for ever; between two requests the store has grown by the
    keys and by these. Connections that end between two requests lose nothing. *)
Theorem disconnections_leak_arguments :
  let lost := lost_in bulk ps l in
  crashes tr = false -> unused n db ->
  exists n' db', run_steps fuel l n = Done n'
    /\ exists ls, args_own (w_heap (sys_world n')) ls lost
      /\ (forall x, x ∈ dom (w_heap (sys_world n')) <->
              x ∈ dom (w_heap (sys_world n)) \/ x ∈ ls \/ key_loc db' x
              \/ exists i c, sys_clients n' !! i = Some c /\ x ∈ arg_locs c)
      /\ (forall x, x ∈ ls -> ~ key_loc db' x /\ forall i c, sys_clients n' !! i = Some c -> x ∉ arg_locs c)
      /\ ((forall i c, sys_clients n' !! i = Some c -> argc c = 0) ->
            size (w_heap (sys_world n')) = (size (w_heap (sys_world n)) + length lost + size (keys_map db'))%nat).
Proof.
  intros lost Hcr Hun. pose proof (run_steps_ok fuel limit l n db s ps Hlim Hok Hbk Hmay Hsp Hits Hroom) as H. cbv zeta in H. fold bulk tr lost in H.
  rewrite Hcr in H. destruct (spec_steps bulk limit s ps (outputs n) l) as [s' outs].
  destruct H as (n' & db' & E & Hok' & _ & _ & [_ _ Hl _ _]). exists n', db'. split; [done|]. by eapply loses_store.
Qed.
End Steps.

(** Who holds no arguments leaves a usable block. *)
Lemma held_none (w : world) (db : redis_db_t) (p : peer) :
  connected w db p -> held p = [] -> argc (w_client w) = 0 /\ no_inline (w_client w).
Proof.
  intros [_ _ _ _ _ Hst] Hn. unfold represents, held in *. destruct (pr_phase p).
  - destruct Hst as (Hp & _ & Hty & _). split; [by rewrite (p_argc _ _ _ _ _ _ Hp), Hn|]. by destruct Hty as [[? _]|?]; [left|right].
  - by destruct Hst as (_ & ? & _).
  - by destruct Hst as (? & ? & _).
Qed.

End Connections.

(** ** Concrete runs *)

#[local] Existing Instance model_latte.
#[local] Existing Instance model_latte_laws.

(** A server without clients. *)
Definition ex_open : system := mk_system (sys_world ex_start) ∅.

Definition ex_memory : redis_client_t := w_client (ex_idle [] []).

(** Client 1 stores a value and leaves; client 2 leaves in the middle of a
    request, and another client with the same number finds the value. *)
Definition ex_steps : list step :=
  [ Connect 1 ex_memory; Activity (Readable (ex_event 1 (enc_request [bs "SET"; bs "foo"; bs "bar"])));
    Connect 2 ex_memory; Activity (Tick 1); Activity (Readable (ex_event 2 (take 20 (enc_request [bs "GET"; bs "foo"]))));
    Disconnect 1; Disconnect 2; Connect 2 ex_memory;
    Activity (Readable (ex_event 2 (enc_request [bs "GET"; bs "foo"]))) ].

Definition ex_steps_trace : list (cid * item) :=
  [ (1%nat, Execute [bs "SET"; bs "foo"; bs "bar"]); (2%nat, Execute [bs "GET"; bs "foo"]) ].

Lemma ex_open_ok : system_ok ex_open ex_db0 (mk_sstate ∅ ∅ 0) ∅.
Proof.
  rewrite <- fresh_peers_empty. apply (system_ok_books (ex_boot_world [])).
  apply system_fresh; [apply ex_boot_serving|exact ex_boot_commands|by rewrite ex_boot_max|by intros i c ?].
Qed.

Lemma ex_open_limit : proto_max_bulk_len (w_server (sys_world ex_open)) = 1024 * 1024.
Proof. exact ex_start_limit. Qed.

Lemma ex_memory_usable : usable_memory ex_memory.
Proof. split; [split; [reflexivity|split; [reflexivity|constructor]]|]. split; [by left|by split]. Qed.

Ltac fits_steps :=
  repeat match goal with |- _ /\ _ => split end; solve [exact I | assumption | lia | apply (bool_decide_unpack _); vm_compute; exact I].

Lemma ex_steps_fit : fits ∅ ex_steps.
Proof.
  pose proof ex_memory_usable. unfold ex_steps. cbn [fits].
  fits_steps.
Qed.

Lemma ex_steps_timetable : timetable (1024 * 1024) ∅ ex_steps = ex_steps_trace.
Proof. vm_compute. reflexivity. Qed.

Lemma ex_steps_items : Forall (fun x => item_ok ex_files (snd x)) ex_steps_trace.
Proof. valid_items. Qed.

Lemma ex_open_spacious : spacious 200 ex_open (traffic ex_steps).
Proof. split; [vm_compute; reflexivity|]. intros i c Hi. cbn in Hi. by rewrite lookup_empty in Hi. Qed.

Lemma ex_open_books : books 5000 (ends_in (steps_activities ex_steps)) ex_open.
Proof. apply (books_set 0 (ex_boot_world []) ∅ 10 5000 ex_start_commands); [lia|lia|]. unfold MAX_COMMANDS. lia. Qed.

(** The new client 2 sees the value; nothing else is left of the others... *)
Lemma connections_linearizable_witness :
  exists n', run_steps ex_files 200 ex_steps ex_open = Done n'
    /\ outputs n' = {[ 2%nat := [bs "$3" ++ CRLF ++ bs "bar" ++ CRLF] ]}.
Proof.
  pose proof (connections_linearizable ex_files 200 5000 ex_steps ex_open ex_db0 (mk_sstate ∅ ∅ 0) ∅) as H.
  rewrite ex_open_limit, ex_steps_timetable in H.
  specialize (H ltac:(reflexivity) ex_open_ok ex_open_books (fits_may_step ex_files _ _ _ ex_open ex_steps_fit) ex_open_spacious ex_steps_items
    ltac:(split; vm_compute; reflexivity) ltac:(reflexivity)).
  assert (Es : exists s', spec_steps (1024 * 1024) 5000 (mk_sstate ∅ ∅ 0) ∅ (outputs ex_open) ex_steps
    = (s', {[ 2%nat := [bs "$3" ++ CRLF ++ bs "bar" ++ CRLF] ]})).
  { eexists. vm_compute. reflexivity. }
  destruct Es as (s' & Es). rewrite Es in H. destruct H as (n' & db' & E & _ & Eo & _). exists n'. split; [exact E|exact Eo].
Defined.

Lemma ex_open_unused : unused ex_open ex_db0.
Proof. split; [vm_compute; reflexivity|]. intros i c Hi. cbn in Hi. by rewrite lookup_empty in Hi. Qed.

(** ... but the word "GET" of the request that was never finished. *)
Lemma disconnections_leak_arguments_witness :
  exists n' ls, run_steps ex_files 200 ex_steps ex_open = Done n' /\ args_own (w_heap (sys_world n')) ls [bs "GET"].
Proof.
  pose proof (disconnections_leak_arguments ex_files 200 5000 ex_steps ex_open ex_db0 (mk_sstate ∅ ∅ 0) ∅) as H.
  rewrite ex_open_limit, ex_steps_timetable in H.
  specialize (H ltac:(reflexivity) ex_open_ok ex_open_books (fits_may_step ex_files _ _ _ ex_open ex_steps_fit) ex_open_spacious ex_steps_items
    ltac:(split; vm_compute; reflexivity) ltac:(reflexivity) ex_open_unused).
  assert (El : lost_in (1024 * 1024) ∅ ex_steps = [bs "GET"]) by (vm_compute; reflexivity).
  cbv zeta in H. rewrite El in H. destruct H as (n' & db' & E & ls & Ho & _). exists n', ls. split; [exact E|exact Ho].
Defined.

(** A client leaves when the word "GET" of its request has arrived, and its block
    becomes client 5. *)
Definition ex_half : list step :=
  [ Connect 2 ex_memory; Activity (Readable (ex_event 2 (take 20 (enc_request [bs "GET"; bs "foo"])))) ].

Lemma ex_half_fit : fits ∅ ex_half.
Proof. pose proof ex_memory_usable. unfold ex_half. cbn [fits]. fits_steps. Qed.

Lemma ex_half_spacious : spacious 200 ex_open (traffic ex_half).
Proof. split; [vm_compute; reflexivity|]. intros i c Hi. cbn in Hi. by rewrite lookup_empty in Hi. Qed.

Lemma ex_half_books : books 5000 (ends_in (steps_activities ex_half)) ex_open.
Proof. apply (books_set 0 (ex_boot_world []) ∅ 10 5000 ex_start_commands); [lia|lia|]. unfold MAX_COMMANDS. lia. Qed.

Lemma ex_half_peer : exists p, peers_after (1024 * 1024) ∅ ex_half !! 2%nat = Some p /\ held p = [bs "GET"].
Proof. eexists. split; [vm_compute; reflexivity|]. vm_compute. reflexivity. Qed.

Lemma ex_half_runs : exists n db s, run_steps ex_files 200 ex_half ex_open = Done n
  /\ system_ok n db s (peers_after (1024 * 1024) ∅ ex_half).
Proof.
  pose proof (run_steps_ok ex_files 200 5000 ex_half ex_open ex_db0 (mk_sstate ∅ ∅ 0) ∅) as H. cbv zeta in H.
  rewrite ex_open_limit in H.
  assert (Et : timetable (1024 * 1024) ∅ ex_half = []) by (vm_compute; reflexivity). rewrite Et in H.
  specialize (H ltac:(reflexivity) ex_open_ok ex_half_books (fits_may_step ex_files _ _ _ ex_open ex_half_fit) ex_half_spacious
    ltac:(constructor) ltac:(split; vm_compute; reflexivity)).
  cbn [crashes existsb] in H. destruct (spec_steps _ _ _ _ _ ex_half) as [s' outs].
  destruct H as (n & db & E & Hok & _). exists n, db, s'. split; [exact E|exact Hok].
Qed.

