(* ===== verification/Histories.v ===== *)
(** * What clients may rely on

    The sequential server of Service.v, seen from the outside: over the whole
    history of requests that reached the server, on whatever connections, a key
    behaves like a register.  A GET is answered with the value of the last SET
    of its key, or, when somebody has given the key a time to live, possibly
    with nil; never with an older value, nor with the value of another key. *)

From S2P Require Import Prelude LatteC LatteCModel KvStore State Db Reply Protocol CommandManager Module.
From S2P Require Import StringModule Commands Client Service Streams Sessions Metric Slowlog EventLoop Connections.

Section Histories.
Context {L : LatteC}.

(** The value a request writes to [k]. *)
Definition writes_to (k : bytes) (it : item) : option bytes :=
  match it with
  | Execute ([_; k'; v] as args) =>
      if bool_decide (verb_of args = Some VSet /\ k' = k) then Some v else None
  | _ => None
  end.

(** Does a request give [k] a time to live? *)
Definition limits (k : bytes) (it : item) : bool :=
  match it with
  | Execute ([_; k'; _] as args) => bool_decide (verb_of args = Some VExpire /\ k' = k)
  | _ => false
  end.

Definition write_step (k : bytes) (w : option bytes) (it : item) : option bytes :=
  match writes_to k it with Some v => Some v | None => w end.

(** The value of the last SET of [k]. *)
Definition last_write (k : bytes) (h : list item) : option bytes := foldl (write_step k) None h.

Definition nil_reply : bytes := bs "*-1" ++ CRLF.

Definition get_reply (v : option bytes) : bytes := match v with Some v => bulk_reply v | None => nil_reply end.

(** The key [k] is a register: it holds its last value, or nothing if it may
    have expired. *)
Record register (k : bytes) (h : list item) (s : sstate) : Prop := {
  rg_value : s_vals s !! k = last_write k h \/ (s_vals s !! k = None /\ existsb (limits k) h = true);
  rg_time : existsb (limits k) h = false -> s_times s !! k = None
}.

Lemma last_write_snoc (k : bytes) (h : list item) (it : item) : last_write k (h ++ [it]) = write_step k (last_write k h) it.
Proof. unfold last_write. by rewrite foldl_app. Qed.

Lemma limits_snoc (k : bytes) (h : list item) (it : item) :
  existsb (limits k) (h ++ [it]) = existsb (limits k) h || limits k it.
Proof. rewrite existsb_app. cbn. by rewrite orb_false_r. Qed.

(** A request that writes nothing to [k] and leaves its value and its time. *)
Lemma register_keep (k : bytes) (h : list item) (s s' : sstate) (it : item) :
  register k h s -> writes_to k it = None -> s_vals s' !! k = s_vals s !! k -> (limits k it = false -> s_times s' !! k = s_times s !! k) ->
  register k (h ++ [it]) s'.
Proof.
  intros [Hv Ht] Hw Ev Et. split; rewrite ?last_write_snoc, ?limits_snoc; unfold write_step; rewrite ?Hw, ?Ev.
  - destruct Hv as [|[? ->]]; [by left|by right].
  - intros [Hh Hl]%orb_false_iff. by rewrite Et, Ht.
Qed.

(** Looking up any key: [k] keeps its value, or loses it because its time has come. *)
Lemma register_touch (k k' : bytes) (h : list item) (s : sstate) : register k h s -> register k h (touch s k').
Proof.
  intros [Hv Ht]. unfold touch. destruct (due s k') eqn:Hd; [|by split]. destruct (decide (k' = k)) as [->|Hne].
  - assert (Hl : existsb (limits k) h = true).
    { apply not_false_iff_true. intros Hl. unfold due in Hd. by rewrite (Ht Hl) in Hd. }
    split; cbn; rewrite ?lookup_delete_eq; [by right|by rewrite Hl].
  - split; cbn; by rewrite lookup_delete_ne.
Qed.

Lemma register_quiet (k : bytes) (h : list item) (s : sstate) (it : item) :
  register k h s -> writes_to k it = None -> register k (h ++ [it]) s.
Proof. intros Hr Hw. by eapply register_keep. Qed.

Lemma register_set (k k' v : bytes) (c : bytes) (h : list item) (s : sstate) :
  verb_of [c; k'; v] = Some VSet -> register k h s -> register k (h ++ [Execute [c; k'; v]]) (spec_set s k' v).
Proof.
  intros Hv Hr. pose proof (register_touch k k' h s Hr) as Ht.
  assert (Hl : limits k (Execute [c; k'; v]) = false) by (cbn; apply bool_decide_eq_false; rewrite Hv; by intros [? _]).
  destruct (decide (k' = k)) as [->|Hne].
  - split; rewrite ?last_write_snoc, ?limits_snoc, ?Hl, ?orb_false_r; unfold spec_set; cbn [s_vals s_times].
    + left. rewrite lookup_insert_eq. unfold write_step, writes_to. by rewrite bool_decide_true.
    + apply Ht.
  - apply (register_keep k h (touch s k')); unfold spec_set; cbn [s_vals s_times]; try done.
    + cbn. rewrite bool_decide_false; [done|]. by intros [_ ?].
    + by rewrite lookup_insert_ne.
Qed.

Lemma register_expire (k k' a c : bytes) (n : Z) (h : list item) (s : sstate) :
  verb_of [c; k'; a] = Some VExpire -> register k h s -> register k (h ++ [Execute [c; k'; a]]) (fst (spec_expire s k' n)).
Proof.
  intros Hv Hr.
  assert (Hw : writes_to k (Execute [c; k'; a]) = None).
  { cbn. rewrite bool_decide_false; [done|]. rewrite Hv. by intros [? _]. }
  unfold spec_expire. destruct (s_vals s !! k'); [|by apply register_quiet].
  destruct (s_times s !! k'); [by apply (register_keep k h s)|]. apply (register_keep k h s); try done.
  cbn [limits fst s_times]. rewrite bool_decide_eq_false. intros Hl. rewrite lookup_insert_ne; [done|]. intros ->. by apply Hl.
Qed.

(** Every request leaves every key a register. *)
Lemma register_item (k : bytes) (h : list item) (s : sstate) (it : item) :
  register k h s -> register k (h ++ [it]) (fst (spec_item s it)).
Proof.
  intros Hr. destruct it as [args|out| |]; [|by apply register_quiet..]. cbn [spec_item].
  assert (Hq : verb_of args <> Some VSet -> register k (h ++ [Execute args]) s).
  { intros Hv. apply register_quiet; [done|]. cbn. destruct args as [|? [|? [|? []]]]; try done.
    rewrite bool_decide_false; [done|]. by intros [? _]. }
  assert (Ht : forall k', verb_of args <> Some VSet -> register k (h ++ [Execute args]) (touch s k')).
  { intros k' Hv. apply register_quiet; [by apply register_touch|]. cbn. destruct args as [|? [|? [|? []]]]; try done.
    rewrite bool_decide_false; [done|]. by intros [? _]. }
  unfold spec_exec. destruct (verb_of args) as [[]|] eqn:Hv; try (apply Hq; done).
  - destruct args as [|c [|k' [|v [|]]]]; try (by apply register_quiet). by apply register_set.
  - destruct args as [|c [|k' [|]]]; try (by apply Hq). by apply Ht.
  - destruct args as [|c [|m [|]]]; by apply Hq.
  - destruct args as [|c [|k' [|a [|]]]]; try (by apply Hq). destruct (string2ll a) as [n|]; [|by apply Hq].
    destruct (n <? 0); [by apply Hq|]. by apply register_expire.
  - destruct args as [|c [|sub [|]]]; by apply Hq.
Qed.

(** ** Times to live *)

(** The key [k] is gone or will be at [D]. *)
Definition mortal (k : bytes) (D : Z) (s : sstate) : Prop :=
  s_vals s !! k = None \/ exists t, s_times s !! k = Some t /\ t <= D.

Lemma mortal_touch (k k' : bytes) (D : Z) (s : sstate) : mortal k D s -> mortal k D (touch s k').
Proof.
  unfold mortal, touch. destruct (due s k'); [|done]. cbn. destruct (decide (k' = k)) as [->|Hne].
  - rewrite lookup_delete_eq. by left.
  - by rewrite !lookup_delete_ne.
Qed.

Lemma mortal_due (k : bytes) (D : Z) (s : sstate) :
  mortal k D s -> D <= mstime (s_reads s) -> s_vals (touch s k) !! k = None.
Proof.
  intros [Hv|(t & Ht & Hle)] Hd; unfold touch, due.
  - destruct (match _ with Some _ => _ | None => _ end); cbn; [apply lookup_delete_eq|done].
  - rewrite Ht. destruct (Z.ltb_spec (mstime (s_reads s)) t); [lia|]. cbn. apply lookup_delete_eq.
Qed.

(** Only a SET of [k] can give it more time. *)
Lemma mortal_item (k : bytes) (D : Z) (s : sstate) (it : item) :
  writes_to k it = None -> mortal k D s -> mortal k D (fst (spec_item s it)).
Proof.
  intros Hw Hm. destruct it as [args|out| |]; try done. cbn [spec_item]. unfold spec_exec.
  destruct (verb_of args) as [[]|] eqn:Hv; try done.
  - destruct args as [|c [|k' [|v [|]]]]; try done. cbn in Hw. rewrite Hv in Hw.
    destruct (bool_decide_reflect (Some VSet = Some VSet /\ k' = k)) as [|Hne]; [done|].
    pose proof (mortal_touch k k' D s Hm) as Ht. unfold mortal, spec_set in *. cbn [fst s_vals s_times].
    rewrite lookup_insert_ne; [done|]. intros ->. by apply Hne.
  - destruct args as [|c [|k' [|]]]; try done. by apply mortal_touch.
  - by destruct args as [|c [|m [|]]].
  - destruct args as [|c [|k' [|a [|]]]]; try done. destruct (string2ll a) as [n|]; [|done]. destruct (n <? 0); [done|].
    unfold spec_expire. destruct (s_vals s !! k') eqn:Ek; [|done]. destruct (s_times s !! k') eqn:Et; [done|]. cbn [fst].
    destruct Hm as [Hm|(t & Ht & ?)]; [by left|]. right. exists t. split; [|done]. cbn. rewrite lookup_insert_ne; [done|]. congruence.
  - by destruct args as [|c [|sub [|]]].
Qed.

(** An EXPIRE that is answered with 1 has set the time. *)
Lemma expire_mortal (k x a : bytes) (z : Z) (s : sstate) :
  verb_of [x; k; a] = Some VExpire -> string2ll a = Some z -> snd (spec_exec s [x; k; a]) = int_reply 1 ->
  mortal k (mstime (s_reads s) + z * 1000) (fst (spec_exec s [x; k; a])).
Proof.
  intros Hv Hz. unfold spec_exec. rewrite Hv, Hz. destruct (z <? 0); [by vm_compute|]. unfold spec_expire.
  destruct (s_vals s !! k); [|by vm_compute]. destruct (s_times s !! k); [by vm_compute|].
  intros _. right. eexists. split; [apply lookup_insert_eq|lia].
Qed.

(** ** Histories of runs *)

(** What every request and every job preserves holds after any steps, of the
    requests in the order in which they are executed. *)
Section Invariant.
Context (I : list item -> sstate -> Prop).
Hypothesis I_item : forall h s it, I h s -> I (h ++ [it]) (fst (spec_item s it)).
Hypothesis I_tick : forall h s, I h s -> I h (tick s).

Lemma spec_run_inv (h : list item) (s : sstate) (tr : list (cid * item)) :
  I h s -> I (h ++ (snd <$> tr)) (fst (spec_run s tr)).
Proof.
  revert h s. induction tr as [|[i it] tr IH]; intros h s Hi; [by rewrite app_nil_r|]. rewrite spec_run_cons. cbn [fst].
  specialize (IH (h ++ [it]) _ (I_item h s it Hi)). by rewrite <- app_assoc in IH.
Qed.

Lemma spec_activity_inv (bulk limit : Z) (h : list item) (s : sstate) (ps : gmap cid peer) (a : activity) :
  I h s -> I (h ++ (snd <$> fst (schedule bulk ps (reads [a])))) (fst (fst (spec_activities bulk limit s ps [a]))).
Proof.
  intros Hi. destruct a as [e|i start stop|j]; cbn [spec_activities].
  - change (reads [Readable e]) with [e]. cbn [schedule]. destruct (ps !! ev_client e) as [p|]; [|by rewrite app_nil_r].
    destruct (peer_step bulk (ev_bytes e) p) as [its p']. cbn [fst]. rewrite app_nil_r.
    pose proof (spec_run_inv h s (pair (ev_client e) <$> its) Hi) as H. by destruct (spec_run s _).
  - rewrite app_nil_r. cbn [fst]. destruct (_ <? _); [by apply I_tick|done].
  - rewrite app_nil_r. by apply I_tick.
Qed.

Lemma spec_steps_inv (bulk limit : Z) (l : list step) (h : list item) (s : sstate) (ps : gmap cid peer) (outs : gmap cid (list bytes)) :
  I h s -> I (h ++ (snd <$> timetable bulk ps l)) (fst (spec_steps bulk limit s ps outs l)).
Proof.
  revert h s ps outs. induction l as [|st l IH]; intros h s ps outs Hi; [by rewrite app_nil_r|]. cbn [timetable spec_steps].
  rewrite fmap_app, app_assoc. destruct st as [a|i mem|i].
  - pose proof (spec_activity_inv bulk limit h s ps a Hi) as H. unfold items_at. cbn [activities_of].
    destruct (spec_activities bulk limit s ps [a]) as [[s1 log] ps1]. by apply IH.
  - cbn. rewrite app_nil_r. by apply IH.
  - cbn. rewrite app_nil_r. by apply IH.
Qed.
End Invariant.
(** What the piece of bytes of [e] asks for, when that is one request. *)
Lemma one_request (bulk limit : Z) (s : sstate) (ps : gmap cid peer) (e : event) (it : item) :
  items_at bulk ps (Activity (Readable e)) = [(ev_client e, it)] ->
  fst (spec_activities bulk limit s ps [Readable e]) = (fst (spec_item s it), [(ev_client e, snd (spec_item s it))]).
Proof.
  unfold items_at. cbn [activities_of spec_activities]. change (reads [Readable e]) with [e]. cbn [schedule].
  destruct (ps !! ev_client e) as [p|]; [|done]. destruct (peer_step bulk (ev_bytes e) p) as [its p']. cbn [fst snd]. rewrite app_nil_r.
  destruct its as [|it' [|]]; cbn; try done. intros [= ->]. by destruct (spec_item s it).
Qed.

Lemma spec_steps_app (bulk limit : Z) (s : sstate) (ps : gmap cid peer) (outs : gmap cid (list bytes)) (a b : list step) :
  spec_steps bulk limit s ps outs (a ++ b) =
  let r := spec_steps bulk limit s ps outs a in spec_steps bulk limit (fst r) (peers_after bulk ps a) (snd r) b.
Proof.
  revert s ps outs. induction a as [|st a IH]; intros s ps outs; [done|]. cbn [app spec_steps].
  destruct (spec_activities bulk limit s ps (activities_of st)) as [[s1 log] ps1]. apply IH.
Qed.

(** A time to live holds for all steps that do not set the key. *)
Lemma mortal_steps (bulk limit : Z) (s : sstate) (ps : gmap cid peer) (outs : gmap cid (list bytes)) (e : event) (l : list step)
    (x k a : bytes) (z : Z) :
  items_at bulk ps (Activity (Readable e)) = [(ev_client e, Execute [x; k; a])] ->
  verb_of [x; k; a] = Some VExpire -> string2ll a = Some z -> snd (spec_exec s [x; k; a]) = int_reply 1 ->
  Forall (fun y => writes_to k (snd y) = None) (timetable bulk (peers_step bulk ps (Activity (Readable e))) l) ->
  mortal k (mstime (s_reads s) + z * 1000) (fst (spec_steps bulk limit s ps outs (Activity (Readable e) :: l))).
Proof.
  intros Hone Hx Hz H1 Hno. pose proof (one_request bulk limit s ps e _ Hone) as E. cbn [spec_steps activities_of].
  destruct (spec_activities bulk limit s ps [Readable e]) as [[s1 log] ps1]. cbn [fst] in E. injection E as -> _.
  set (D := mstime (s_reads s) + z * 1000).
  apply (spec_steps_inv (fun h s => Forall (fun it => writes_to k it = None) h -> mortal k D s)) with (h := []).
  - intros h s1 it IH [Hh Hit]%Forall_app. apply mortal_item; [by inversion Hit|by apply IH].
  - intros h s1 IH Hh. exact (IH Hh).
  - intros _. by apply expire_mortal.
  - cbn [app]. by apply Forall_fmap.
Qed.

Lemma register_new (k : bytes) (s : sstate) : s_vals s = ∅ -> s_times s = ∅ -> register k [] s.
Proof. intros Ev Et. split; rewrite ?Ev, ?Et; [by left; rewrite lookup_empty|by rewrite lookup_empty]. Qed.

Lemma register_tick (k : bytes) (h : list item) (s : sstate) : register k h s -> register k h (tick s).
Proof. by intros []. Qed.

(** A GET is answered from the register. *)
Lemma register_get (k g : bytes) (h : list item) (s : sstate) :
  verb_of [g; k] = Some VGet -> register k h s ->
  exists v, snd (spec_item s (Execute [g; k])) = get_reply v
    /\ (v = last_write k h \/ (v = None /\ existsb (limits k) h = true)).
Proof.
  intros Hv Hr. exists (s_vals (touch s k) !! k). split; [cbn [spec_item]; unfold spec_exec; by rewrite Hv|].
  apply (register_touch k k h s Hr).
Qed.

(** ** The theorem *)

Context {LL : LatteCLaws}.
Context (files : bytes -> module_file).

Lemma may_step_app (fuel : nat) (limit : Z) (a b : list step) (n : system) :
  may_step_all files fuel limit (a ++ b) n ->
  may_step_all files fuel limit a n /\ forall n', run_steps files fuel a n = Done n' -> may_step_all files fuel limit b n'.
Proof.
  revert n. induction a as [|st a IH]; intros n H; [split; [done|]; by intros n' [= <-]|]. destruct H as [Hst H]. split.
  - split; [done|]. intros n' E. by apply (IH n' (H n' E)).
  - intros n'. cbn [run_steps]. destruct (run_step files fuel st n) as [n1|] eqn:E; [|done]. cbn [mbind outcome_bind]. by apply (IH n1 (H n1 eq_refl)).
Qed.

Lemma replies_to_one (i : cid) (r : bytes) : replies_to i [(i, r)] = r.
Proof. unfold replies_to. rewrite filter_cons, decide_True by done. apply app_nil_r. Qed.

Abbreviation server_of n := (w_server (sys_world n)).

Section Steps.
Context (fuel : nat) (limit : Z) (l : list step) (e : event) (n : system) (db : redis_db_t) (s : sstate) (ps : gmap cid peer).
Let bulk := proto_max_bulk_len (server_of n).
Let s1 := fst (spec_steps bulk limit s ps (outputs n) l).
Hypothesis Hlim : bulk < 2 ^ 62.
Hypothesis Hok : system_ok n db s ps.
Hypothesis Hbk : books limit (ends_in (steps_activities l)) n.
Hypothesis Hmay : may_step_all files fuel limit (l ++ [Activity (Readable e)]) n.
Hypothesis Hsp : spacious fuel n (traffic l + zlen (ev_bytes e)).
Hypothesis Hits : Forall (fun x => item_ok files (snd x)) (timetable bulk ps l).
Hypothesis Hroom : rooms (zlen (timetable bulk ps l) + 1) db.
Hypothesis Hcr : crashes (timetable bulk ps l) = false.

(** The steps [l], then a piece of bytes that completes one request: it is
    answered from the state of the sequential server. *)
Lemma ask_ok (args : list bytes) :
  command_valid files args -> items_at bulk (peers_after bulk ps l) (Activity (Readable e)) = [(ev_client e, Execute args)] ->
  exists n1 n2 o, run_steps files fuel l n = Done n1 /\ outputs n1 !! ev_client e = Some o /\ w_ticks (sys_world n1) = s_reads s1
    /\ run_step files fuel (Activity (Readable e)) n1 = Done n2
    /\ outputs n2 !! ev_client e = Some (append_last o (snd (spec_exec s1 args))).
Proof.
  intros Hval Hone. destruct (may_step_app _ _ _ _ _ Hmay) as [Hm1 Hm2].
  pose proof (traffic_nonneg l) as Ht1. pose proof (zlen_nonneg (ev_bytes e)) as Ht2.
  assert (Hsp1 : spacious fuel n (traffic l)) by (destruct Hsp as [? H2]; split; [lia|intros i c Hc; specialize (H2 i c Hc); lia]).
  assert (Hroom1 : rooms (zlen (timetable bulk ps l)) db) by (unfold rooms in *; lia).
  pose proof (run_steps_ok files fuel limit l n db s ps Hlim Hok Hbk Hm1 Hsp1 Hits Hroom1) as H1. cbv zeta in H1. fold bulk in H1. rewrite Hcr in H1.
  unfold s1. destruct (spec_steps bulk limit s ps (outputs n) l) as [s1' outs]. cbn [fst]. destruct H1 as (n1 & db1 & E1 & Hok1 & Hbk1 & Eo1 & Hef).
  pose proof (se_limit _ _ _ _ _ _ _ _ Hef) as El. pose proof (se_grows _ _ _ _ _ _ _ _ Hef) as Hg. fold bulk in El.
  destruct (Hm2 n1 E1) as [Hst _]. assert (Hb : traffic [Activity (Readable e)] = zlen (ev_bytes e)) by (cbn [traffic]; lia).
  pose proof (run_step_ok files fuel limit 0 (Activity (Readable e)) n1 db1 s1' (peers_after bulk ps l)) as H2. cbv zeta in H2.
  rewrite El, Hone, Hb in H2. specialize (H2 Hlim Hok1 Hbk1 Hst (spacious_step _ _ _ _ _ _ _ _ _ _ Ht1 Ht2 Hsp Hef)).
  specialize (H2 ltac:(by apply Forall_singleton) ltac:(unfold rooms, grows_by in *; change (zlen [_]) with 1; lia)).
  pose proof (one_request bulk limit s1' (peers_after bulk ps l) e _ Hone) as Elog. cbn [activities_of] in H2.
  change (crashes [(ev_client e, Execute args)]) with false in H2. cbv iota in H2.
  destruct (spec_activities bulk limit s1' _ [Readable e]) as [[s2 log] ps2]. cbn [fst snd spec_item] in Elog. injection Elog as -> ->.
  destruct H2 as (n2 & db2 & E2 & _ & _ & Eo2 & _). destruct Hst as [_ [[c Hc] _]%Forall_cons].
  exists n1, n2, (client_segs (client c)). split; [done|]. split; [unfold outputs; by rewrite lookup_fmap, Hc|].
  split; [apply Hok1|]. split; [done|]. rewrite Eo2. cbn [outputs_step]. unfold deliver_replies, outputs.
  rewrite map_lookup_imap, lookup_fmap, Hc. cbn [fmap option_fmap option_map mbind option_bind]. by rewrite replies_to_one.
Qed.

(** C4: registers. A server starts empty, clients connect, send requests and
    disconnect in any order, in the scope of the theorems on connections (bytes of
    [item_ok], none behind an unknown command, ends of [may_run], clients of
    usable memory). When then the bytes arrive that complete a GET of some key on
    some connection, the connection is sent the value of the last SET of this key
    among all requests that have been executed, on whatever connections; or nil,
    if there was none, or if somebody had given the key a time to live. It is
    never sent an older value or that of another key. *)
Theorem get_sees_last_set (g k : bytes) :
  s_vals s = ∅ -> s_times s = ∅ -> verb_of [g; k] = Some VGet -> (NUL ∉ g) ->
  items_at bulk (peers_after bulk ps l) (Activity (Readable e)) = [(ev_client e, Execute [g; k])] ->
  let h := snd <$> timetable bulk ps l in
  exists n1 n2 o v, run_steps files fuel l n = Done n1 /\ outputs n1 !! ev_client e = Some o
    /\ run_step files fuel (Activity (Readable e)) n1 = Done n2
    /\ outputs n2 !! ev_client e = Some (append_last o (get_reply v))
    /\ (v = last_write k h \/ (v = None /\ existsb (limits k) h = true)).
Proof.
  intros Ev Et Hg Hnul Hone h.
  pose proof (spec_steps_inv (register k) (register_item k) (register_tick k) bulk limit l [] s ps (outputs n) (register_new k s Ev Et)) as Hreg.
  destruct (register_get k g h s1 Hg Hreg) as (v & Er & Hv).
  destruct (ask_ok [g; k]) as (n1 & n2 & o & ? & ? & _ & ? & Eo); [split; [done|by rewrite Hg]|done|].
  exists n1, n2, o, v. rewrite <- Er. by split_and!.
Qed.

(** C5: times to live. When an EXPIRE of a key has been answered with 1 and nobody
    sets the key any more, then a GET at a time the time to live has run out (by
    the clock reading the server has reached) is answered with nil, whatever else
    has happened on whatever connections, in the same scope: the server serves no
    key that is due. *)
Theorem expired_key_is_gone (l0 l1 : list step) (e0 : event) (x k a g : bytes) (z : Z) :
  l = l0 ++ Activity (Readable e0) :: l1 ->
  let s0 := fst (spec_steps bulk limit s ps (outputs n) l0) in
  let ps0 := peers_after bulk ps l0 in
  items_at bulk ps0 (Activity (Readable e0)) = [(ev_client e0, Execute [x; k; a])] ->
  verb_of [x; k; a] = Some VExpire -> string2ll a = Some z -> snd (spec_exec s0 [x; k; a]) = int_reply 1 ->
  Forall (fun y => writes_to k (snd y) = None) (timetable bulk (peers_step bulk ps0 (Activity (Readable e0))) l1) ->
  verb_of [g; k] = Some VGet -> (NUL ∉ g) ->
  items_at bulk (peers_after bulk ps l) (Activity (Readable e)) = [(ev_client e, Execute [g; k])] ->
  mstime (s_reads s0) + z * 1000 <= mstime (s_reads s1) ->
  exists n1 n2 o, run_steps files fuel l n = Done n1 /\ outputs n1 !! ev_client e = Some o /\ w_ticks (sys_world n1) = s_reads s1
    /\ run_step files fuel (Activity (Readable e)) n1 = Done n2
    /\ outputs n2 !! ev_client e = Some (append_last o nil_reply).
Proof.
  intros Hl s0 ps0 Hone0 Hx Hz H1 Hno Hg Hnul Hone Hdue.
  assert (Hm : mortal k (mstime (s_reads s0) + z * 1000) s1).
  { unfold s1. rewrite Hl, spec_steps_app. by eapply mortal_steps. }
  destruct (ask_ok [g; k]) as (n1 & n2 & o & ? & ? & Et & ? & Eo); [split; [done|by rewrite Hg]|done|].
  exists n1, n2, o. split_and!; try done. rewrite Eo. do 2 f_equal.
  unfold spec_exec. rewrite Hg. cbn [snd]. by rewrite (mortal_due _ _ _ Hm).
Qed.
End Steps.
End Histories.

(** ** Concrete runs *)

#[local] Existing Instance model_latte.
#[local] Existing Instance model_latte_laws.

(** Client 1 stores a value and leaves, client 2 leaves in the middle of a
    request; the next client asks for the value. *)
Definition ex_before : list step := take 8 ex_steps.

Definition ex_get : event := ex_event 2 (enc_request [bs "GET"; bs "foo"]).

Lemma ex_before_get : ex_steps = ex_before ++ [Activity (Readable ex_get)].
Proof. reflexivity. Qed.

Lemma ex_before_fits : may_step_all ex_files 200 5000 (ex_before ++ [Activity (Readable ex_get)]) ex_open.
Proof. rewrite <- ex_before_get. exact (fits_may_step ex_files _ _ _ ex_open ex_steps_fit). Qed.

Lemma get_sees_last_set_witness :
  exists n1 n2 o, run_steps ex_files 200 ex_before ex_open = Done n1
    /\ run_step ex_files 200 (Activity (Readable ex_get)) n1 = Done n2
    /\ outputs n1 !! 2%nat = Some o
    /\ outputs n2 !! 2%nat = Some (append_last o (bs "$3" ++ CRLF ++ bs "bar" ++ CRLF)).
Proof.
  pose proof (get_sees_last_set ex_files 200 5000 ex_before ex_get ex_open ex_db0 (mk_sstate ∅ ∅ 0) ∅) as H.
  rewrite ex_open_limit in H.
  assert (Et : timetable (1024 * 1024) ∅ ex_before = take 1 ex_steps_trace) by (vm_compute; reflexivity). rewrite Et in H.
  destruct (H ltac:(reflexivity) ex_open_ok ex_open_books ex_before_fits ex_open_spacious ltac:(valid_items) ltac:(split; vm_compute; reflexivity)
    ltac:(reflexivity) (bs "GET") (bs "foo")) as (n1 & n2 & o & v & E1 & Eo & E2 & E3 & Hv).
  - reflexivity.
  - reflexivity.
  - vm_compute. reflexivity.
  - apply (bool_decide_unpack _). vm_compute. exact I.
  - vm_compute. reflexivity.
  - exists n1, n2, o. split; [exact E1|]. split; [exact E2|]. split; [exact Eo|].
    assert (Ev : v = Some (bs "bar")) by (destruct Hv as [->|[_ Hx]]; [vm_compute; reflexivity|vm_compute in Hx; discriminate Hx]).
    rewrite Ev in E3. exact E3.
Defined.

(** A key that expires at once: stored, given no time, asked for by another client. *)
Definition ex_expire : event := ex_event 1 (enc_request [bs "EXPIRE"; bs "foo"; bs "0"]).

Definition ex_stored : list step :=
  [ Connect 1 ex_memory; Activity (Readable (ex_event 1 (enc_request [bs "SET"; bs "foo"; bs "bar"]))) ].

Definition ex_waited : list step := [ Disconnect 1; Connect 2 ex_memory; Activity (Tick 0) ].

Definition ex_mortal : list step := ex_stored ++ Activity (Readable ex_expire) :: ex_waited.

Lemma ex_mortal_fits : may_step_all ex_files 200 5000 (ex_mortal ++ [Activity (Readable ex_get)]) ex_open.
Proof.
  apply fits_may_step. pose proof ex_memory_usable. change (dom (sys_clients ex_open)) with (∅ : gset cid).
  unfold ex_mortal, ex_stored, ex_waited. cbn [app fits].
  fits_steps.
Qed.

Lemma ex_mortal_items : Forall (fun x => item_ok ex_files (snd x))
  [(1%nat, Execute [bs "SET"; bs "foo"; bs "bar"]); (1%nat, Execute [bs "EXPIRE"; bs "foo"; bs "0"])].
Proof.
  constructor; [split; apply (bool_decide_unpack _); vm_compute; exact I|]. constructor; [|constructor].
  split; [apply (bool_decide_unpack _); vm_compute; exact I|]. change (verb_of _) with (Some VExpire).
  intros z. change (string2ll (bs "0")) with (Some 0). intros [= <-]. reflexivity.
Qed.

Definition ex_bulk : Z := 1024 * 1024.

Definition ex_state (l : list step) : sstate := fst (spec_steps ex_bulk 5000 (mk_sstate ∅ ∅ 0) ∅ (outputs ex_open) l).

Lemma ex_expire_item : items_at ex_bulk (peers_after ex_bulk ∅ ex_stored) (Activity (Readable ex_expire))
  = [(ev_client ex_expire, Execute [bs "EXPIRE"; bs "foo"; bs "0"])].
Proof. vm_compute. reflexivity. Qed.

Lemma ex_expire_reply : snd (spec_exec (ex_state ex_stored) [bs "EXPIRE"; bs "foo"; bs "0"]) = int_reply 1.
Proof. vm_compute. reflexivity. Qed.

Lemma ex_waited_items : timetable ex_bulk (peers_step ex_bulk (peers_after ex_bulk ∅ ex_stored) (Activity (Readable ex_expire))) ex_waited = [].
Proof. vm_compute. reflexivity. Qed.

Lemma ex_get_item : items_at ex_bulk (peers_after ex_bulk ∅ ex_mortal) (Activity (Readable ex_get))
  = [(ev_client ex_get, Execute [bs "GET"; bs "foo"])].
Proof. vm_compute. reflexivity. Qed.

Lemma ex_mortal_due : mstime (s_reads (ex_state ex_stored)) + 0 * 1000 <= mstime (s_reads (ex_state ex_mortal)).
Proof. vm_compute. discriminate. Qed.

Lemma ex_mortal_trace : timetable ex_bulk ∅ ex_mortal
  = [(1%nat, Execute [bs "SET"; bs "foo"; bs "bar"]); (1%nat, Execute [bs "EXPIRE"; bs "foo"; bs "0"])].
Proof. vm_compute. reflexivity. Qed.

Lemma ex_mortal_spacious : spacious 200 ex_open (traffic ex_mortal + zlen (ev_bytes ex_get)).
Proof. split; [vm_compute; reflexivity|]. intros i c Hi. cbn in Hi. by rewrite lookup_empty in Hi. Qed.

Lemma expired_key_is_gone_witness :
  exists n1 n2 o, run_steps ex_files 200 ex_mortal ex_open = Done n1 /\ outputs n1 !! 2%nat = Some o
    /\ run_step ex_files 200 (Activity (Readable ex_get)) n1 = Done n2
    /\ outputs n2 !! 2%nat = Some (append_last o (bs "*-1" ++ CRLF)).
Proof.
  pose proof (expired_key_is_gone ex_files 200 5000 ex_mortal ex_get ex_open ex_db0 (mk_sstate ∅ ∅ 0) ∅) as H.
  rewrite ex_open_limit in H. fold ex_bulk in H. rewrite ex_mortal_trace in H.
  destruct (H ltac:(reflexivity) ex_open_ok ex_open_books ex_mortal_fits ex_mortal_spacious ex_mortal_items ltac:(split; vm_compute; reflexivity)
    eq_refl ex_stored ex_waited ex_expire (bs "EXPIRE") (bs "foo") (bs "0") (bs "GET") 0 eq_refl ex_expire_item eq_refl eq_refl ex_expire_reply)
    as (n1 & n2 & o & E1 & Eo & _ & E2 & E3).
  - rewrite ex_waited_items. constructor.
  - reflexivity.
  - apply (bool_decide_unpack _). vm_compute. exact I.
  - exact ex_get_item.
  - exact ex_mortal_due.
  - exists n1, n2, o. split; [exact E1|]. split; [exact Eo|]. split; [exact E2|exact E3].
Defined.
