(* ===== verification/Evict.v ===== *)
(** * Eviction candidates (src/redis/evict.c)

    A pool of at most 16 keys ordered by idle time, filled from samples of a
    dictionary.  Every entry has a buffer of its own for short keys; the entries
    hold pointers to buffers, which are moved between entries. *)

From S2P Require Import Prelude LatteC LatteCModel State Db.

Definition EVPOOL_SIZE : nat := 16.
Definition EVPOOL_CACHED_SDS_SIZE : Z := 255.

Definition MAXMEMORY_FLAG_LRU : Z := Z.shiftl 1 0.
Definition MAXMEMORY_VOLATILE_TTL : Z := Z.shiftl 2 8.

(** The strings of the pool live in a store of their own: an [sds] is the
    location of a buffer of [sb_size] bytes that holds [sb_text] and a NUL. *)
Record sds_buf := mk_buf {
  sb_text : bytes;
  sb_size : Z
}.

Abbreviation sds_store := (gmap loc sds_buf).

(** A new buffer. *)
Definition sds_alloc (text : bytes) (size : Z) (st : sds_store) : loc * sds_store :=
  let p := fresh (dom st) in (p, <[p := mk_buf text size]> st).

(** [sds_delete(s)]; NULL is allowed, a buffer that is not there is not. *)
Definition sds_free (s : option loc) (st : sds_store) : outcome sds_store :=
  match s with
  | None => Done st
  | Some p => match st !! p with Some _ => Done (delete p st) | None => Fault InvalidFree end
  end.

(** [memcpy(s, text, len + 1); sds_set_len(s, len)] *)
Definition sds_overwrite (s : loc) (text : bytes) (st : sds_store) : outcome sds_store :=
  b ← deref (st !! s);
  if zlen text <=? sb_size b then Done (<[s := mk_buf text (sb_size b)]> st) else Fault OutOfBounds.

(** src/redis/evict.h; [key] is NULL, the same pointer as [cached], or another
    buffer; [slot] is never used. *)
Record eviction_pool_entry_t := mk_pool_entry {
  ep_idle : Z;
  ep_key : option loc;
  ep_cached : loc;
  ep_dbid : Z
}.
Definition set_cached (e : eviction_pool_entry_t) (s : loc) : eviction_pool_entry_t :=
  mk_pool_entry (ep_idle e) (ep_key e) s (ep_dbid e).

Definition key_is_null (e : eviction_pool_entry_t) : bool :=
  match ep_key e with None => true | _ => false end.

(** [memmove(a + dst, a + src, n * sizeof(a[0]))] *)
Definition memmove {A} (a : list A) (dst src n : nat) : outcome (list A) :=
  if decide (dst + n <= length a /\ src + n <= length a)%nat
  then Done (take dst a ++ take n (drop src a) ++ drop (dst + n) a)
  else Fault OutOfBounds.

Section Evict.
Context {L : LatteC}.

(** Not part of the sources: the decayed access counter of an object. *)
Context (LFUDecrAndReturn : latte_object_t -> Z).

Fixpoint alloc_entries (n : nat) (st : sds_store) : list eviction_pool_entry_t * sds_store :=
  match n with
  | O => ([], st)
  | S n =>
      let '(cached, st) := sds_alloc (replicate (Z.to_nat EVPOOL_CACHED_SDS_SIZE) NUL) EVPOOL_CACHED_SDS_SIZE st in
      let '(ep, st) := alloc_entries n st in
      (mk_pool_entry 0 None cached 0 :: ep, st)
  end.

Definition eviction_pool_alloc (st : sds_store) : list eviction_pool_entry_t * sds_store :=
  alloc_entries EVPOOL_SIZE st.

(** evict.c has clock functions of its own, over the global [server]; [now] is
    the value of [mstime()]. *)
Definition evict_get_lru_clock (now : Z) : Z :=
  u32 (Z.land (Z.quot now LRU_CLOCK_RESOLUTION) LRU_CLOCK_MAX).

Definition evict_lru_clock (server : redis_server_t) (now : Z) : outcome Z :=
  if hz server =? 0 then Fault DivByZero
  else if Z.quot 1000 (hz server) <=? LRU_CLOCK_RESOLUTION then Done (lruclock server)
  else Done (evict_get_lru_clock now).

Definition estimate_object_idle_time (server : redis_server_t) (now : Z) (o : latte_object_t) : outcome Z :=
  lruclock ← evict_lru_clock server now;
  if lru o <=? lruclock then Done (u64 ((lruclock - lru o) * LRU_CLOCK_RESOLUTION))
  else Done (u64 ((lruclock + (LRU_CLOCK_MAX - lru o)) * LRU_CLOCK_RESOLUTION)).

(** The value of a sampled entry: an object of the keys, or a time of the expires. *)
Inductive sample_val :=
  | VObj (l : loc)
  | VTime (t : Z).

(** An entry returned by [dict_get_some_keys]: its key and its value. *)
Definition sample : Type := bytes * sample_val.

(** The object of a sampled key; [same] is [sampledict == key_dict]. *)
Definition sample_object (same : bool) (key_dict : dict_t SdsCompare loc) (s : sample) (h : heap) :
    outcome latte_object_t :=
  l ← (if same then match snd s with VObj l => Done l | VTime _ => Fault UninitRead end
       else
         de ← deref (dict_find key_dict (fst s));
         deref (dict_get_entry_val key_dict de));
  deref (h !! l).

(** The score of a sample under the policy of the server. *)
Definition sample_idle (server : redis_server_t) (now : Z) (same : bool) (key_dict : dict_t SdsCompare loc)
    (s : sample) (h : heap) : outcome Z :=
  let policy := maxmemory_policy server in
  if policy =? MAXMEMORY_VOLATILE_TTL then
    (* no object is fetched and neither flag is set in this policy *)
    match snd s with VTime t => Done (u64 (2 ^ 64 - 1 - t)) | VObj _ => Fault UninitRead end
  else
    o ← sample_object same key_dict s h;
    if has_flag policy MAXMEMORY_FLAG_LRU then estimate_object_idle_time server now o
    else if has_flag policy MAXMEMORY_FLAG_LFU then Done (u64 (255 - LFUDecrAndReturn o))
    else Fault (Panicked "Unknow eviction policy in eviction_pool_populate()").

(** [while (k < EVPOOL_SIZE && pool[k].key && pool[k].idle < idle) k++] on
    the rest of the pool. *)
Fixpoint find_slot (pool : list eviction_pool_entry_t) (idle : Z) (k : nat) : nat :=
  match pool with
  | [] => k
  | e :: pool => if negb (key_is_null e) && (ep_idle e <? idle) then find_slot pool idle (S k) else k
  end.

(** Make [pool[k]] available: the entries are moved as they are, pointers
    included, and the entry at [k] gets the buffer of the entry that was
    overwritten; the key of an entry that is given up is released unless it is
    the entry's buffer. *)
Definition make_room (pool : list eviction_pool_entry_t) (k : nat) (st : sds_store) :
    outcome (list eviction_pool_entry_t * nat * sds_store) :=
  last ← array_get pool (Z.of_nat (EVPOOL_SIZE - 1));
  if key_is_null last then
    let cached := ep_cached last in
    pool ← memmove pool (k + 1) k (EVPOOL_SIZE - k - 1);
    e ← array_get pool (Z.of_nat k);
    pool ← array_set pool (Z.of_nat k) (set_cached e cached);
    Done (pool, k, st)
  else
    let k := (k - 1)%nat in
    first ← array_get pool 0;
    let cached := ep_cached first in
    st ← (if bool_decide (ep_key first = Some (ep_cached first)) then Done st else sds_free (ep_key first) st);
    pool ← memmove pool 0 1 k;
    e ← array_get pool (Z.of_nat k);
    pool ← array_set pool (Z.of_nat k) (set_cached e cached);
    Done (pool, k, st).

(** Store the candidate at [k]: a short key goes into the buffer of the entry. *)
Definition store_candidate (pool : list eviction_pool_entry_t) (k : nat) (idle : Z) (key : bytes) (dbid : Z)
    (st : sds_store) : outcome (list eviction_pool_entry_t * sds_store) :=
  e ← array_get pool (Z.of_nat k);
  let klen := i32 (sds_len key) in
  '(p, st) ← (if EVPOOL_CACHED_SDS_SIZE <? klen then Done (sds_alloc (sds_dup key) (zlen key) st)
              else if klen <? 0 then Fault OutOfBounds
              else st ← sds_overwrite (ep_cached e) (take (Z.to_nat klen) key) st; Done (ep_cached e, st));
  pool ← array_set pool (Z.of_nat k) (mk_pool_entry idle (Some p) (ep_cached e) dbid);
  Done (pool, st).

Definition insert_candidate (pool : list eviction_pool_entry_t) (dbid idle : Z) (key : bytes) (st : sds_store) :
    outcome (list eviction_pool_entry_t * sds_store) :=
  let k := find_slot pool idle 0 in
  last ← array_get pool (Z.of_nat (EVPOOL_SIZE - 1));
  if (k =? 0)%nat && negb (key_is_null last) then Done (pool, st)
  else
    free ← (if (k <? EVPOOL_SIZE)%nat then e ← array_get pool (Z.of_nat k); Done (key_is_null e) else Done false);
    '(pool, k, st) ← (if (free : bool) then Done (pool, k, st) else make_room pool k st);
    store_candidate pool k idle key dbid st.

(** [samples] are the entries [dict_get_some_keys] returned. *)
Fixpoint eviction_pool_populate (server : redis_server_t) (now dbid : Z) (same : bool)
    (key_dict : dict_t SdsCompare loc) (h : heap) (samples : list sample) (pool : list eviction_pool_entry_t)
    (st : sds_store) : outcome (list eviction_pool_entry_t * sds_store) :=
  match samples with
  | [] => Done (pool, st)
  | s :: samples =>
      idle ← sample_idle server now same key_dict s h;
      '(pool, st) ← insert_candidate pool dbid idle (fst s) st;
      eviction_pool_populate server now dbid same key_dict h samples pool st
  end.

(** ** Specification *)

(** A candidate: idle time, key, database. *)
Definition candidate : Type := Z * bytes * Z.
Definition cand_idle (c : candidate) : Z := fst (fst c).

(** How many candidates at the front are less idle. *)
Fixpoint rank (v : list candidate) (idle : Z) : nat :=
  match v with
  | [] => 0
  | c :: v => if cand_idle c <? idle then S (rank v idle) else 0
  end.

(** Insert in order, then give up the least idle one if there are too many. *)
Definition spec_insert (v : list candidate) (c : candidate) : list candidate :=
  let k := rank v (cand_idle c) in
  let v' := take k v ++ c :: drop k v in
  if (EVPOOL_SIZE <? length v')%nat then drop 1 v' else v'.

(** What an entry of the pool stands for. *)
Definition buf_text (st : sds_store) (p : loc) : bytes := match st !! p with Some b => sb_text b | None => [] end.

Definition entry_view (st : sds_store) (e : eviction_pool_entry_t) : option candidate :=
  match ep_key e with
  | None => None
  | Some p => Some (ep_idle e, buf_text st p, ep_dbid e)
  end.

(** The buffers of an entry: its own one and, for a long key, the copy. *)
Definition footprint (e : eviction_pool_entry_t) : list loc :=
  ep_cached e ::
  match ep_key e with
  | Some p => if decide (p = ep_cached e) then [] else [p]
  | None => []
  end.

(** The store [st] is that of the rest of the program, [D], and the buffers
    [ls], all different. *)
Definition owns (D st : sds_store) (ls : list loc) : Prop :=
  NoDup ls /\ (forall p, p ∈ ls -> is_Some (st !! p) /\ D !! p = None) /\ (forall p, p ∉ ls -> st !! p = D !! p).

(** The buffer of an entry has room for a short key. *)
Definition has_buffer (st : sds_store) (p : loc) : Prop :=
  exists b, st !! p = Some b /\ sb_size b = EVPOOL_CACHED_SDS_SIZE.

(** The pool holds the candidates [v], in front; no two entries share a buffer,
    and besides the buffers of the entries the store holds just [D]. *)
Record pool_holds (D st : sds_store) (pool : list eviction_pool_entry_t) (v : list candidate) : Prop := {
  ph_len : (length v <= EVPOOL_SIZE)%nat;
  ph_view : entry_view st <$> pool = (Some <$> v) ++ replicate (EVPOOL_SIZE - length v) None;
  ph_owns : owns D st (pool ≫= footprint);
  ph_cached : Forall (fun e => has_buffer st (ep_cached e)) pool
}.

Definition by_idle (a b : candidate) : Prop := cand_idle a <= cand_idle b.

(** [v] is ordered and holds the most idle of [all]. *)
Definition best_of (all v : list candidate) : Prop :=
  StronglySorted by_idle v /\ exists out, all ≡ₚ out ++ v
    /\ (out = [] \/ length v = EVPOOL_SIZE) /\ Forall (fun x => Forall (by_idle x) v) out.

Context {LL : LatteCLaws}.

(** ** The buffers *)

#[local] Instance owns_perm (D st : sds_store) : Proper ((≡ₚ) ==> iff) (owns D st).
Proof. intros l1 l2 Hp. unfold owns. by setoid_rewrite Hp. Qed.

Lemma owns_free (D st : sds_store) (p : loc) (ls : list loc) : owns D st (p :: ls) -> owns D (delete p st) ls.
Proof.
  intros (Hn & Hin & Hout). apply NoDup_cons in Hn as [Hp Hn]. split_and!; [done| |].
  - intros q Hq. rewrite lookup_delete_ne by (intros ->; done). apply Hin. by right.
  - intros q Hq. destruct (decide (q = p)) as [->|Hne].
    + rewrite lookup_delete_eq. symmetry. apply Hin. by left.
    + rewrite lookup_delete_ne by done. apply Hout. by apply not_elem_of_cons.
Qed.

Lemma owns_alloc (D st : sds_store) (ls : list loc) (b : sds_buf) :
  owns D st ls -> let p := fresh (dom st) in (p ∉ ls) /\ owns D (<[p := b]> st) (p :: ls).
Proof.
  intros (Hn & Hin & Hout) p. assert (Hp : st !! p = None) by (apply not_elem_of_dom, is_fresh).
  assert (Hpl : p ∉ ls) by (intros Hp'; destruct (Hin p Hp') as [[? ?] _]; congruence).
  split; [done|]. split_and!; [by apply NoDup_cons| |].
  - intros q [->|Hq]%elem_of_cons.
    + rewrite lookup_insert_eq. split; [by eexists|]. by rewrite <- Hout.
    + rewrite lookup_insert_ne by (intros <-; done). by apply Hin.
  - intros q [Hne Hq]%not_elem_of_cons. rewrite lookup_insert_ne by done. by apply Hout.
Qed.

Lemma owns_write (D st : sds_store) (ls : list loc) (p : loc) (b : sds_buf) :
  owns D st ls -> p ∈ ls -> owns D (<[p := b]> st) ls.
Proof.
  intros (Hn & Hin & Hout) Hp. split_and!; [done| |].
  - intros q Hq. destruct (decide (q = p)) as [->|Hne]; [rewrite lookup_insert_eq|rewrite lookup_insert_ne by done].
    + split; [by eexists|]. by apply Hin.
    + by apply Hin.
  - intros q Hq. rewrite lookup_insert_ne by (intros <-; done). by apply Hout.
Qed.

Lemma footprints_middle (A B : list eviction_pool_entry_t) (e : eviction_pool_entry_t) :
  (A ++ e :: B) ≫= footprint ≡ₚ footprint e ++ ((A ++ B) ≫= footprint).
Proof. rewrite !bind_app, bind_cons, (assoc (++)), (Permutation_app_comm (A ≫= footprint) (footprint e)). by rewrite <- (assoc (++)). Qed.

Lemma null_footprint (e : eviction_pool_entry_t) : key_is_null e = true -> footprint e = [ep_cached e].
Proof. unfold key_is_null, footprint. by destruct (ep_key e). Qed.

(** What does not touch the buffers of some entries does not change them. *)
Lemma entries_frame (st st' : sds_store) (es : list eviction_pool_entry_t) :
  (forall p, p ∈ es ≫= footprint -> st' !! p = st !! p) ->
  entry_view st' <$> es = entry_view st <$> es
  /\ (Forall (fun e => has_buffer st (ep_cached e)) es -> Forall (fun e => has_buffer st' (ep_cached e)) es).
Proof.
  intros Hf. assert (Hf' : forall e p, e ∈ es -> p ∈ footprint e -> st' !! p = st !! p).
  { intros e p He Hp. apply Hf, list_elem_of_bind. by exists e. }
  split.
  - apply list_fmap_ext. intros i e He%list_elem_of_lookup_2. unfold entry_view, buf_text.
    destruct (ep_key e) as [p|] eqn:Ek; [|done]. rewrite (Hf' e p He); [done|]. unfold footprint. rewrite Ek.
    destruct (decide (p = ep_cached e)) as [->|]; [by left|right; by left].
  - rewrite !Forall_forall. intros Hb e He. destruct (Hb e He) as (b & Hs & Hz). exists b. split; [|done].
    rewrite (Hf' e (ep_cached e) He); [done|by left].
Qed.

Lemma array_get_middle {X} (A B : list X) (e : X) : array_get (A ++ e :: B) (Z.of_nat (length A)) = Done e.
Proof. apply array_get_Done; [lia|]. by rewrite Nat2Z.id, list_lookup_middle. Qed.

Lemma array_set_middle {X} (A B : list X) (e x : X) : array_set (A ++ e :: B) (Z.of_nat (length A)) x = Done (A ++ x :: B).
Proof.
  rewrite array_set_Done by (unfold zlen; rewrite length_app; simpl; lia). rewrite Nat2Z.id. f_equal.
  rewrite insert_app_r_alt by lia. by rewrite Nat.sub_diag.
Qed.

(** The candidate takes the place of [e], whose own buffer is all that is left of it. *)
Lemma store_ok (D st : sds_store) (A B : list eviction_pool_entry_t) (e : eviction_pool_entry_t) (idle : Z) (key : bytes) (dbid : Z) :
  owns D st (ep_cached e :: ((A ++ B) ≫= footprint)) ->
  has_buffer st (ep_cached e) -> Forall (fun x => has_buffer st (ep_cached x)) (A ++ B) -> zlen key < 2 ^ 31 ->
  exists e' st', store_candidate (A ++ e :: B) (length A) idle key dbid st = Done (A ++ e' :: B, st')
    /\ owns D st' ((A ++ e' :: B) ≫= footprint) /\ Forall (fun x => has_buffer st' (ep_cached x)) (A ++ e' :: B)
    /\ entry_view st' <$> (A ++ e' :: B) = (entry_view st <$> A) ++ Some (idle, key, dbid) :: (entry_view st <$> B).
Proof.
  intros Ho Hbe Hb Hz. unfold store_candidate. rewrite array_get_middle. cbn [mbind outcome_bind].
  pose proof (zlen_nonneg key). rewrite sds_len_spec, wrap_s_small by lia. unfold EVPOOL_CACHED_SDS_SIZE at 1.
  assert (Hdone : forall p st', (forall q, q ∈ (A ++ B) ≫= footprint -> st' !! q = st !! q) ->
    owns D st' (footprint (mk_pool_entry idle (Some p) (ep_cached e) dbid) ++ ((A ++ B) ≫= footprint)) ->
    has_buffer st' (ep_cached e) -> buf_text st' p = key ->
    exists e' st2, ('(p0, st0) ← Done (p, st'); pool ← array_set (A ++ e :: B) (Z.of_nat (length A)) (mk_pool_entry idle (Some p0) (ep_cached e) dbid);
        Done (pool, st0)) = Done (A ++ e' :: B, st2)
    /\ owns D st2 ((A ++ e' :: B) ≫= footprint) /\ Forall (fun x => has_buffer st2 (ep_cached x)) (A ++ e' :: B)
    /\ entry_view st2 <$> (A ++ e' :: B) = (entry_view st <$> A) ++ Some (idle, key, dbid) :: (entry_view st <$> B)).
  { intros p st' Hf Ho' Hbe' Ht. cbn [mbind outcome_bind]. rewrite array_set_middle. cbn [mbind outcome_bind].
    destruct (entries_frame st st' (A ++ B) Hf) as [Hv Hb']. specialize (Hb' Hb). eexists _, st'. split; [reflexivity|].
    split; [by rewrite footprints_middle|]. rewrite !fmap_app in *. apply app_inj_1 in Hv as [-> HvB]; [|by rewrite !length_fmap].
    split; [rewrite Forall_app in Hb'; rewrite Forall_app, Forall_cons; naive_solver|]. rewrite fmap_cons, HvB.
    change (entry_view st' (mk_pool_entry idle (Some p) (ep_cached e) dbid)) with (Some (idle, buf_text st' p, dbid)). by rewrite Ht. }
  destruct (Z.ltb_spec 255 (zlen key)) as [Hlong|Hshort].
  - destruct (owns_alloc D st _ (mk_buf (sds_dup key) (zlen key)) Ho) as [Hnew Ho']. set (p := fresh (dom st)) in *.
    apply not_elem_of_cons in Hnew as [Hpe Hnew]. apply (Hdone p (<[p := _]> st)).
    + intros q Hq. apply lookup_insert_ne. intros <-. done.
    + unfold footprint at 1. cbn [ep_key ep_cached]. rewrite decide_False by done. simpl. by rewrite Permutation_swap.
    + destruct Hbe as (b & Hs & Hsz). exists b. by rewrite lookup_insert_ne.
    + unfold buf_text. rewrite lookup_insert_eq. cbn. by rewrite sds_dup_spec.
  - replace (zlen key <? 0) with false by lia. destruct Hbe as (b & Hs & Hsz). unfold sds_overwrite. rewrite Hs.
    assert (Etake : take (Z.to_nat (zlen key)) key = key) by (unfold zlen; by rewrite Nat2Z.id, firstn_all).
    cbn [deref mbind outcome_bind]. rewrite Etake, Hsz.
    replace (zlen key <=? EVPOOL_CACHED_SDS_SIZE) with true by (unfold EVPOOL_CACHED_SDS_SIZE; lia). cbn [mbind outcome_bind].
    apply (Hdone (ep_cached e) (<[ep_cached e := _]> st)).
    + intros q Hq. apply lookup_insert_ne. intros <-. destruct Ho as (Hn & _). apply NoDup_cons in Hn as [? _]. done.
    + unfold footprint at 1. cbn [ep_key ep_cached]. rewrite decide_True by done. simpl. apply owns_write; [done|by left].
    + eexists. rewrite lookup_insert_eq. by split.
    + unfold buf_text. by rewrite lookup_insert_eq.
Qed.

(** ** The candidates in the pool *)

Lemma pool_length (D st : sds_store) (pool : list eviction_pool_entry_t) (v : list candidate) :
  pool_holds D st pool v -> length pool = EVPOOL_SIZE.
Proof.
  intros [Hl E _ _]. apply (f_equal length) in E. rewrite length_fmap, length_app, length_fmap, length_replicate in E. lia.
Qed.

Lemma view_null (st : sds_store) (e : eviction_pool_entry_t) : key_is_null e = bool_decide (entry_view st e = None).
Proof. unfold key_is_null, entry_view. by destruct (ep_key e). Qed.

(** The entry number [i], between those before it and those behind it. *)
Lemma pool_split (D st : sds_store) (pool : list eviction_pool_entry_t) (v : list candidate) (i : nat) :
  pool_holds D st pool v -> (i < EVPOOL_SIZE)%nat ->
  exists A e B, pool = A ++ e :: B /\ length A = i /\ entry_view st e = v !! i.
Proof.
  intros Hp Hi. pose proof (pool_length _ _ _ _ Hp) as Hl. destruct (lookup_lt_is_Some_2 pool i ltac:(lia)) as [e He].
  exists (take i pool), e, (drop (S i) pool). split; [by rewrite take_drop_middle|].
  split; [rewrite length_take; lia|].
  assert (Hm : (entry_view st <$> pool) !! i = Some (entry_view st e)) by (by rewrite list_lookup_fmap, He).
  rewrite (ph_view _ _ _ _ Hp) in Hm. destruct (decide (i < length v)%nat) as [Hlt|Hge].
  - rewrite lookup_app_l in Hm by (rewrite length_fmap; lia). rewrite list_lookup_fmap in Hm.
    destruct (v !! i); [|done]. by injection Hm as <-.
  - rewrite lookup_app_r in Hm by (rewrite length_fmap; lia).
    apply lookup_replicate in Hm as [Hm _]. rewrite Hm. symmetry. apply lookup_ge_None_2; lia.
Qed.

Lemma pool_get (D st : sds_store) (pool : list eviction_pool_entry_t) (v : list candidate) (i : nat) :
  pool_holds D st pool v -> (i < EVPOOL_SIZE)%nat ->
  exists e, array_get pool (Z.of_nat i) = Done e /\ key_is_null e = bool_decide (v !! i = None).
Proof.
  intros Hp Hi. destruct (pool_split _ _ _ _ i Hp Hi) as (A & e & B & -> & <- & Hv). exists e.
  by rewrite array_get_middle, (view_null st), Hv.
Qed.

Lemma find_slot_ok (st : sds_store) (pool : list eviction_pool_entry_t) (v : list candidate) (idle : Z) (k n : nat) :
  entry_view st <$> pool = (Some <$> v) ++ replicate n None -> find_slot pool idle k = (k + rank v idle)%nat.
Proof.
  revert pool k. induction v as [|c v IH]; intros pool k E.
  - destruct pool as [|e pool]; simpl in *; [lia|]. destruct n as [|n]; [done|]. injection E as E _.
    rewrite (view_null st), E. simpl. lia.
  - destruct pool as [|e pool]; [done|]. rewrite !fmap_cons in E. simpl. injection E as Ee E. rewrite (view_null st), Ee. simpl.
    assert (ep_idle e = cand_idle c) as ->.
    { unfold entry_view in Ee. destruct (ep_key e); [|done]. by injection Ee as <-. }
    destruct (_ <? _); [|lia]. rewrite IH by done. lia.
Qed.

Lemma rank_le (v : list candidate) (idle : Z) : (rank v idle <= length v)%nat.
Proof. induction v as [|c v IH]; simpl; [lia|]. destruct (_ <? _); lia. Qed.

Lemma memmove_ok {A} (a : list A) (dst src n : nat) :
  (dst + n <= length a)%nat -> (src + n <= length a)%nat ->
  memmove a dst src n = Done (take dst a ++ take n (drop src a) ++ drop (dst + n) a).
Proof. intros ? ?. unfold memmove. by rewrite decide_True. Qed.

(** Moving [M] one cell to the right, over the last entry. *)
Lemma memmove_right {X} (A M : list X) (m last : X) :
  memmove (A ++ (m :: M) ++ [last]) (length A + 1) (length A) (S (length M)) = Done (A ++ m :: m :: M).
Proof.
  assert (Hl : length (A ++ (m :: M) ++ [last]) = (length A + S (length M) + 1)%nat) by (rewrite !length_app; simpl; lia).
  rewrite memmove_ok by lia. f_equal. rewrite drop_app_length, (take_app_length' (m :: M) [last]) by done.
  rewrite (drop_ge (A ++ _)) by lia. rewrite app_nil_r. rewrite take_app_add. simpl. rewrite take_0. by rewrite <- app_assoc.
Qed.

(** Moving [M] one cell to the left, over the first entry. *)
Lemma memmove_left {X} (first : X) (M B : list X) :
  exists x, memmove (first :: M ++ B) 0 1 (length M) = Done (M ++ x :: B).
Proof.
  rewrite memmove_ok by (simpl; rewrite ?length_app; lia). simpl (drop 1 _). rewrite drop_0, take_app_length. simpl.
  destruct (exists_last (l := first :: M)) as (N & x & E); [done|]. exists x. f_equal. f_equal.
  assert (Hl : length N = length M). { apply (f_equal length) in E. rewrite length_app in E. simpl in E. lia. }
  change (first :: M ++ B) with ((first :: M) ++ B). rewrite E, <- app_assoc, <- Hl. by rewrite drop_app_length.
Qed.

Lemma take_drop_1 {A} (k : nat) (v : list A) : take k (drop 1 v) = drop 1 (take (S k) v).
Proof. destruct v; simpl; [by rewrite take_nil|by rewrite !drop_0]. Qed.

Section Candidate.
Context (D st : sds_store) (pool : list eviction_pool_entry_t) (v : list candidate) (idle : Z) (key : bytes) (dbid : Z).
Abbreviation c := ((idle, key, dbid) : candidate).
Hypothesis Hp : pool_holds D st pool v.
Hypothesis Hz : zlen key < 2 ^ 31.

(** A free cell after the last candidate. *)
Lemma insert_at_end :
  (length v < EVPOOL_SIZE)%nat ->
  exists pool' st', store_candidate pool (length v) idle key dbid st = Done (pool', st') /\ pool_holds D st' pool' (v ++ [c]).
Proof.
  intros Hl. destruct (pool_split _ _ _ _ (length v) Hp Hl) as (A & e & B & Epool & Hla & Hve).
  rewrite lookup_ge_None_2 in Hve by lia.
  assert (Hn : key_is_null e = true) by (rewrite (view_null st), Hve; done).
  destruct Hp as [_ Ev Ho Hb]. rewrite Epool in Ev, Ho, Hb. rewrite footprints_middle, null_footprint in Ho by done.
  assert (Hb2 : has_buffer st (ep_cached e) /\ Forall (fun x => has_buffer st (ep_cached x)) (A ++ B)).
  { rewrite Forall_app, Forall_cons in Hb. rewrite Forall_app. naive_solver. }
  destruct Hb2 as [Hbe HbAB].
  destruct (store_ok D st A B e idle key dbid Ho Hbe HbAB Hz) as (e' & st' & E & Ho' & Hb' & Hv').
  rewrite Epool, <- Hla. exists (A ++ e' :: B), st'. split; [exact E|].
  rewrite fmap_app, fmap_cons in Ev. apply app_inj_1 in Ev as [EA EB]; [|by rewrite !length_fmap].
  split; [rewrite length_app; simpl; lia| |done|done]. rewrite Hv', EA, fmap_app, length_app, <- app_assoc. f_equal. simpl.
  replace (EVPOOL_SIZE - length v)%nat with (S (EVPOOL_SIZE - (length v + 1))) in EB by lia. by injection EB as _ ->.
Qed.

(** Shift the more idle candidates to the right, into the buffer of the last entry. *)
Lemma insert_shift_right (k : nat) :
  (k < length v)%nat -> (length v < EVPOOL_SIZE)%nat ->
  exists pool' st', ('(pool, k, st) ← make_room pool k st; store_candidate pool k idle key dbid st) = Done (pool', st')
    /\ pool_holds D st' pool' (take k v ++ c :: drop k v).
Proof.
  intros Hk Hl. pose proof (pool_length _ _ _ _ Hp) as Hpl.
  destruct (pool_split _ _ _ _ (EVPOOL_SIZE - 1) Hp ltac:(unfold EVPOOL_SIZE; lia)) as (F & last & B & Epool & HlF & Hlast).
  rewrite lookup_ge_None_2 in Hlast by lia.
  assert (Hn : key_is_null last = true) by (rewrite (view_null st), Hlast; done).
  assert (B = []) as -> by (rewrite Epool, length_app in Hpl; simpl in Hpl; destruct B; [done|simpl in Hpl; unfold EVPOOL_SIZE in *; lia]).
  assert (HM : exists A m M, F = A ++ m :: M /\ length A = k).
  { destruct (lookup_lt_is_Some_2 F k ltac:(lia)) as [m Hm]. exists (take k F), m, (drop (S k) F).
    split; [by rewrite take_drop_middle|rewrite length_take; lia]. }
  destruct HM as (A & m & M & -> & HlA). rewrite <- app_assoc in Epool.
  assert (HlM : S (length M) = (EVPOOL_SIZE - k - 1)%nat) by (rewrite length_app in HlF; simpl in HlF; unfold EVPOOL_SIZE in *; lia).
  destruct Hp as [_ Ev Ho Hb]. rewrite Epool in Ev, Ho, Hb.
  (* the run *)
  assert (El : array_get (A ++ (m :: M) ++ [last]) (Z.of_nat (EVPOOL_SIZE - 1)) = Done last).
  { rewrite (assoc (++)), <- HlF. apply array_get_middle. }
  unfold make_room. rewrite Epool, El. cbn [mbind outcome_bind]. rewrite Hn, <- HlM, <- HlA, memmove_right. cbn [mbind outcome_bind].
  rewrite array_get_middle. cbn [mbind outcome_bind]. rewrite array_set_middle. cbn [mbind outcome_bind].
  (* the buffers *)
  assert (Ho1 : owns D st (ep_cached last :: ((A ++ m :: M) ≫= footprint))).
  { revert Ho. rewrite (assoc (++)), footprints_middle, null_footprint, app_nil_r by done. done. }
  assert (Hb1 : has_buffer st (ep_cached last) /\ Forall (fun x => has_buffer st (ep_cached x)) (A ++ m :: M)).
  { rewrite !Forall_app, !Forall_cons in *. naive_solver. }
  destruct Hb1 as [Hbl HbAM].
  destruct (store_ok D st A (m :: M) (set_cached m (ep_cached last)) idle key dbid Ho1 Hbl HbAM Hz) as (e' & st' & E & Ho' & Hb' & Hv').
  exists (A ++ e' :: m :: M), st'. split; [exact E|]. rewrite HlA.
  (* the candidates *)
  assert (Hsplit : (Some <$> v) ++ replicate (EVPOOL_SIZE - length v) None
    = (Some <$> take k v) ++ ((Some <$> drop k v) ++ replicate (EVPOOL_SIZE - length v - 1) None) ++ [None]).
  { rewrite <- (take_drop k v) at 1. rewrite fmap_app, <- !app_assoc. do 2 f_equal.
    replace (EVPOOL_SIZE - length v)%nat with ((EVPOOL_SIZE - length v - 1) + 1)%nat at 1 by lia. by rewrite replicate_add. }
  rewrite Hsplit, !fmap_app in Ev. apply app_inj_1 in Ev as [EA EM]; [|rewrite !length_fmap, length_take; lia].
  apply app_inj_2 in EM as [EM _]; [|done].
  assert (Hlen : length (take k v ++ c :: drop k v) = S (length v)) by (rewrite length_app, length_take; simpl; rewrite length_drop; lia).
  split; [lia| |done|done]. rewrite Hv', EA, EM, Hlen, fmap_app, fmap_cons, <- app_assoc.
  by replace (EVPOOL_SIZE - S (length v))%nat with (EVPOOL_SIZE - length v - 1)%nat by lia.
Qed.

(** Give up the least idle candidate and shift the others to the left; its
    buffer is used again, the copy of a long key is released. *)
Lemma insert_shift_left (k : nat) :
  (0 < k <= length v)%nat -> length v = EVPOOL_SIZE ->
  exists pool' st', ('(pool, k, st) ← make_room pool k st; store_candidate pool k idle key dbid st) = Done (pool', st')
    /\ pool_holds D st' pool' (drop 1 (take k v ++ c :: drop k v)).
Proof.
  intros Hk Hl. pose proof (pool_length _ _ _ _ Hp) as Hpl.
  destruct (pool_get _ _ _ _ (EVPOOL_SIZE - 1) Hp ltac:(unfold EVPOOL_SIZE; lia)) as (last & El & Hlast).
  rewrite bool_decide_false in Hlast by (intros ?%lookup_ge_None; unfold EVPOOL_SIZE in *; lia).
  destruct Hp as [_ Ev Ho Hb]. rewrite Hl, Nat.sub_diag, app_nil_r in Ev.
  assert (HM : exists first M B, pool = first :: M ++ B /\ length M = (k - 1)%nat).
  { destruct pool as [|first rest]; [done|]. exists first, (take (k - 1) rest), (drop (k - 1) rest).
    split; [by rewrite take_drop|]. simpl in Hpl. rewrite length_take. lia. }
  destruct HM as (first & M & B & Epool & HlM). rewrite Epool in Ev, Ho, Hb.
  destruct v as [|y v'] eqn:Ey; [done|]. rewrite !fmap_cons in Ev. injection Ev as Efirst Erest.
  unfold make_room. rewrite El. cbn [mbind outcome_bind]. rewrite Hlast.
  replace (array_get pool 0) with (Done first) by (rewrite Epool; done). cbn [mbind outcome_bind].
  change ((first :: M ++ B) ≫= footprint) with (footprint first ++ ((M ++ B) ≫= footprint)) in Ho.
  assert (Hfree : exists st1, (if bool_decide (ep_key first = Some (ep_cached first)) then Done st else sds_free (ep_key first) st) = Done st1
    /\ owns D st1 (ep_cached first :: ((M ++ B) ≫= footprint)) /\ (forall p, p ∈ ep_cached first :: ((M ++ B) ≫= footprint) -> st1 !! p = st !! p)).
  { unfold footprint in Ho at 1. unfold entry_view in Efirst. destruct (ep_key first) as [p|]; [|done].
    case_bool_decide as Ep; [injection Ep as ->; rewrite decide_True in Ho by done; by exists st|].
    rewrite decide_False in Ho by congruence. simpl in Ho. rewrite Permutation_swap in Ho.
    pose proof Ho as (Hn & Hin & _). destruct (Hin p) as [[b Hpb] _]; [by left|]. unfold sds_free. rewrite Hpb.
    exists (delete p st). split; [done|]. split; [by apply owns_free|]. intros q Hq. apply lookup_delete_ne. intros <-.
    by apply NoDup_cons in Hn as [? _]. }
  destruct Hfree as (st1 & Es & Ho1 & Hf1). rewrite Es. cbn [mbind outcome_bind].
  destruct (memmove_left first M B) as (x & Em). rewrite Epool, <- HlM, Em. cbn [mbind outcome_bind].
  rewrite array_get_middle. cbn [mbind outcome_bind]. rewrite array_set_middle. cbn [mbind outcome_bind].
  apply Forall_cons in Hb as [(bf & Hbf & Hzf) Hb].
  destruct (entries_frame st st1 (M ++ B)) as [Hvf Hbuf]; [intros p Hq; apply Hf1; by right|].
  assert (Hbe : has_buffer st1 (ep_cached first)) by (exists bf; split; [rewrite Hf1; [done|by left]|done]).
  destruct (store_ok D st1 M B (set_cached x (ep_cached first)) idle key dbid Ho1 Hbe (Hbuf Hb) Hz) as (e' & st' & E & Ho' & Hb' & Hv').
  exists (M ++ e' :: B), st'. split; [exact E|].
  assert (Hlen : length (drop 1 (take k (y :: v') ++ c :: drop k (y :: v'))) = EVPOOL_SIZE).
  { rewrite length_drop, length_app, length_take. cbn [length]. rewrite length_drop. cbn [length] in *. lia. }
  split; [lia| |done|done]. rewrite Hlen, Nat.sub_diag, app_nil_r, Hv'.
  rewrite !fmap_app in Hvf. apply app_inj_1 in Hvf as [-> ->]; [|by rewrite !length_fmap].
  destruct k as [|k]; [lia|]. replace (S k - 1)%nat with k in HlM by lia. simpl take. simpl drop.
  rewrite <- (take_drop k v'), !fmap_app in Erest. cbn [length] in Hk, Hl.
  apply app_inj_1 in Erest as [-> ->]; [|rewrite !length_fmap, length_take; lia].
  by rewrite drop_0, fmap_app, fmap_cons.
Qed.

Lemma insert_candidate_ok :
  exists pool' st', insert_candidate pool dbid idle key st = Done (pool', st') /\ pool_holds D st' pool' (spec_insert v c).
Proof.
  unfold insert_candidate, spec_insert. change (cand_idle c) with idle.
  rewrite (find_slot_ok st pool v idle 0 _ (ph_view _ _ _ _ Hp)), Nat.add_0_l.
  pose proof (rank_le v idle) as Hr. generalize dependent (rank v idle). intros k Hr. pose proof (ph_len _ _ _ _ Hp) as Hl.
  destruct (pool_get _ _ _ _ (EVPOOL_SIZE - 1) Hp ltac:(unfold EVPOOL_SIZE; lia)) as (last & El & Hlast).
  rewrite El. cbn [mbind outcome_bind]. rewrite Hlast.
  assert (Hlen : length (take k v ++ c :: drop k v) = S (length v)).
  { rewrite length_app, length_take. simpl. rewrite length_drop. lia. }
  rewrite Hlen. destruct (decide (length v = EVPOOL_SIZE)) as [Hfull|Hnot].
  - rewrite bool_decide_false by (intros ?%lookup_ge_None; unfold EVPOOL_SIZE in *; lia).
    replace (EVPOOL_SIZE <? S (length v))%nat with true by (symmetry; apply Nat.ltb_lt; lia).
    destruct k as [|k]; simpl negb; simpl andb; cbv iota.
    { exists pool, st. split; [done|]. simpl. by rewrite drop_0. }
    destruct (Nat.ltb_spec (S k) EVPOOL_SIZE) as [Hlt|Hge].
    + destruct (pool_get _ _ _ _ (S k) Hp Hlt) as (e & Ee & Hve). rewrite Ee. cbn [mbind outcome_bind].
      rewrite Hve, bool_decide_false by (intros ?%lookup_ge_None; lia). apply insert_shift_left; lia.
    + cbn [mbind outcome_bind]. apply insert_shift_left; lia.
  - rewrite lookup_ge_None_2 by lia. rewrite bool_decide_true by done. rewrite andb_false_r.
    replace (EVPOOL_SIZE <? S (length v))%nat with false by (symmetry; apply Nat.ltb_ge; lia).
    replace (k <? EVPOOL_SIZE)%nat with true by (symmetry; apply Nat.ltb_lt; lia).
    destruct (pool_get _ _ _ _ k Hp ltac:(lia)) as (e & Ee & Hve). rewrite Ee. cbn [mbind outcome_bind].
    rewrite Hve. destruct (decide (k = length v)) as [->|Hk].
    + rewrite lookup_ge_None_2, bool_decide_true by done. cbn [mbind outcome_bind].
      rewrite drop_ge, take_ge by done. apply insert_at_end. lia.
    + rewrite bool_decide_false by (intros ?%lookup_ge_None; lia). apply insert_shift_right; lia.
Qed.
End Candidate.

(** An empty pool. *)
Lemma alloc_entries_ok (n : nat) (D st : sds_store) (ls : list loc) :
  owns D st ls ->
  let r := alloc_entries n st in
  owns D (snd r) ((fst r ≫= footprint) ++ ls) /\ entry_view (snd r) <$> fst r = replicate n None
  /\ Forall (fun e => has_buffer (snd r) (ep_cached e)) (fst r) /\ (forall p, p ∈ ls -> snd r !! p = st !! p).
Proof.
  revert st ls. induction n as [|n IH]; intros st ls Ho; [done|]. cbn [alloc_entries sds_alloc].
  set (b := mk_buf (replicate _ NUL) EVPOOL_CACHED_SDS_SIZE). destruct (owns_alloc D st ls b Ho) as [Hnew Ho1]. set (p := fresh (dom st)) in *.
  specialize (IH (<[p := b]> st) (p :: ls) Ho1). destruct (alloc_entries n (<[p := b]> st)) as [ep st']. cbn [fst snd] in *.
  destruct IH as (Ho' & Hv & Hb & Hf). split_and!.
  - rewrite bind_cons. cbn. by rewrite Permutation_middle.
  - rewrite fmap_cons, Hv. done.
  - constructor; [|done]. exists b. split; [|done]. cbn [ep_cached]. rewrite Hf by (by left). apply lookup_insert_eq.
  - intros q Hq. rewrite Hf by (by right). apply lookup_insert_ne. intros <-. done.
Qed.

Lemma pool_alloc_holds (D : sds_store) :
  pool_holds D (snd (eviction_pool_alloc D)) (fst (eviction_pool_alloc D)) [].
Proof.
  destruct (alloc_entries_ok EVPOOL_SIZE D D []) as (Ho & Hv & Hb & _).
  { split_and!; [constructor|by intros p ?%elem_of_nil|done]. }
  rewrite app_nil_r in Ho. split; [simpl; lia|exact Hv|exact Ho|exact Hb].
Qed.

(** ** The most idle candidates *)

Lemma rank_split (v : list candidate) (idle : Z) :
  StronglySorted by_idle v ->
  Forall (fun x => cand_idle x < idle) (take (rank v idle) v) /\ Forall (fun x => idle <= cand_idle x) (drop (rank v idle) v).
Proof.
  induction 1 as [|c v Hs [IH1 IH2] Hc]; simpl; [by split|].
  destruct (Z.ltb_spec (cand_idle c) idle); simpl.
  - split; [by constructor|done].
  - split; [constructor|]. constructor; [done|]. eapply Forall_impl; [exact Hc|]. unfold by_idle. intros; lia.
Qed.

Lemma insert_sorted (v : list candidate) (c : candidate) :
  StronglySorted by_idle v ->
  StronglySorted by_idle (take (rank v (cand_idle c)) v ++ c :: drop (rank v (cand_idle c)) v).
Proof.
  intros Hs. destruct (rank_split v (cand_idle c) Hs) as [H1 H2]. set (k := rank v (cand_idle c)) in *.
  rewrite <- (take_drop k v) in Hs. apply StronglySorted_app in Hs as (Hx & Hs1 & Hs2).
  rewrite Forall_forall in H1, H2. apply StronglySorted_app. split_and!; [|done|].
  - intros a b Ha [->|Hb]%elem_of_cons; [|by apply Hx]. specialize (H1 a Ha). unfold by_idle. lia.
  - constructor; [done|]. apply Forall_forall. intros b Hb. by apply H2.
Qed.

Lemma best_insert (all v : list candidate) (c : candidate) :
  best_of all v -> (length v <= EVPOOL_SIZE)%nat -> best_of (all ++ [c]) (spec_insert v c).
Proof.
  intros (Hs & out & Hperm & Hfull & Hout) Hl. pose proof (insert_sorted v c Hs) as Hs'.
  unfold spec_insert. set (k := rank v (cand_idle c)) in *. set (v' := take k v ++ c :: drop k v) in *.
  assert (Hv' : c :: v ≡ₚ v').
  { unfold v'. rewrite <- (take_drop k v) at 1. by rewrite Permutation_middle. }
  assert (Hlen : length v' = S (length v)) by (by rewrite <- Hv').
  assert (Hall : all ++ [c] ≡ₚ out ++ v').
  { rewrite Hperm, <- Hv', <- app_assoc. f_equiv. by rewrite Permutation_app_comm. }
  destruct (Nat.ltb_spec EVPOOL_SIZE (length v')) as [Hover|Hnot].
  2:{ destruct Hfull as [->|Hfull]; [|lia]. split; [done|]. exists []. split_and!; [done|by left|constructor]. }
  destruct v' as [|x rest] eqn:Ev; [done|]. simpl drop. rewrite drop_0. inversion Hs' as [|? ? Hr Hx]; subst.
  split; [done|]. exists (out ++ [x]). simpl in Hlen, Hover.
  assert (Hor : Forall (fun o => Forall (by_idle o) rest) out).
  { destruct k as [|k]; [unfold v' in Ev; simpl in Ev; by injection Ev as _ <-|].
    destruct v as [|y v]; [simpl in *; unfold EVPOOL_SIZE in *; lia|].
    unfold v' in Ev. simpl in Ev. injection Ev as -> _.
    eapply Forall_impl; [exact Hout|]. intros o Ho. inversion Ho as [|? ? Hox _]; subst.
    eapply Forall_impl; [exact Hx|]. unfold by_idle in *. intros; lia. }
  split_and!.
  - rewrite Hall, <- app_assoc. done.
  - right. lia.
  - apply Forall_app. split; [done|]. by constructor.
Qed.

Lemma spec_insert_length (v : list candidate) (c : candidate) :
  (length v <= EVPOOL_SIZE)%nat -> (length (spec_insert v c) <= EVPOOL_SIZE)%nat.
Proof.
  intros Hl. unfold spec_insert. pose proof (rank_le v (cand_idle c)).
  destruct (Nat.ltb_spec EVPOOL_SIZE (length (take (rank v (cand_idle c)) v ++ c :: drop (rank v (cand_idle c)) v))); [|lia].
  rewrite length_drop, length_app, length_take. cbn [length]. rewrite length_drop. lia.
Qed.

(** ** The theorem *)

(** C20: the eviction pool keeps the best candidates: from a pool that holds, in
    order of idle time, the most idle of the candidates seen so far, adding any
    samples whose keys are shorter than 2^31 bytes (each with the score its policy
    gives it) completes, accesses only cells of the pool, and ends in a pool that
    again holds in order the 16 most idle of all candidates seen.  The entries
    are moved with their pointers, and no two of them ever share a buffer: a
    short key is in the buffer of its entry, a long one in a copy of its own,
    which is released when the entry is given up; besides these buffers the
    strings of the program stay as they are, so none is lost or freed twice. *)
Theorem eviction_pool_keeps_best (server : redis_server_t) (now dbid : Z) (same : bool)
    (key_dict : dict_t SdsCompare loc) (h : heap) (samples : list sample) (idles : list Z)
    (D st : sds_store) (pool : list eviction_pool_entry_t) (all v : list candidate) :
  pool_holds D st pool v -> best_of all v ->
  Forall2 (fun s i => sample_idle server now same key_dict s h = Done i) samples idles ->
  Forall (fun s => zlen (fst s) < 2 ^ 31) samples ->
  exists pool' st' v', eviction_pool_populate server now dbid same key_dict h samples pool st = Done (pool', st')
    /\ pool_holds D st' pool' v'
    /\ best_of (all ++ zip_with (fun (s : sample) i => (i, fst s, dbid)) samples idles) v'.
Proof.
  intros Hp Hb Hs. revert st pool all v Hp Hb.
  induction Hs as [|s i samples idles Hi Hs IH]; intros st pool all v Hp Hb Hk; simpl.
  { exists pool, st, v. rewrite app_nil_r. done. }
  inversion Hk as [|? ? Hk1 Hk2]; subst. rewrite Hi. cbn [mbind outcome_bind].
  destruct (insert_candidate_ok D st pool v i (fst s) dbid Hp Hk1) as (pool1 & st1 & E & Hp1). rewrite E. cbn [mbind outcome_bind].
  destruct (IH st1 pool1 (all ++ [(i, fst s, dbid)]) _ Hp1 (best_insert all v _ Hb (ph_len _ _ _ _ Hp)) Hk2) as (pool' & st' & v' & E' & Hp' & Hb').
  exists pool', st', v'. split; [done|]. split; [done|]. by rewrite <- app_assoc in Hb'.
Qed.

Lemma best_of_nil : best_of [] [].
Proof. split; [constructor|]. exists []. split_and!; [done|by left|constructor]. Qed.

End Evict.

(** ** Concrete runs *)

#[local] Existing Instance model_latte.
#[local] Existing Instance model_latte_laws.

(** A server that evicts the keys that expire first. *)
Definition ex_ttl_server : redis_server_t :=
  mk_server (mk_cm dict_new raxNew 0) list_new 1700000000 10 None dict_new
    (1024 * 1024) MAXMEMORY_VOLATILE_TTL 77 [] 16 (mk_slowlog list_new 128 10000 0) (mk_metric dict_new 16) 0.

Definition ex_samples : list sample := [(bs "late", VTime 9000); (bs "soon", VTime 100); (bs "mid", VTime 500)].

(** The strings of the rest of the program: one, at location 1. *)
Definition ex_strings : sds_store := {[ 1%positive := mk_buf (bs "config") 6 ]}.

Lemma eviction_pool_keeps_best_witness :
  let pool := fst (eviction_pool_alloc ex_strings) in
  let st := snd (eviction_pool_alloc ex_strings) in
  exists pool' st' v', eviction_pool_populate (fun _ => 0) ex_ttl_server 0 0 false dict_new ∅ ex_samples pool st
      = Done (pool', st') /\ pool_holds ex_strings st' pool' v'
    /\ best_of [(2 ^ 64 - 1 - 9000, bs "late", 0); (2 ^ 64 - 1 - 100, bs "soon", 0);
        (2 ^ 64 - 1 - 500, bs "mid", 0)] v'.
Proof.
  apply (eviction_pool_keeps_best (fun _ => 0) ex_ttl_server 0 0 false dict_new ∅ ex_samples
    [2 ^ 64 - 1 - 9000; 2 ^ 64 - 1 - 100; 2 ^ 64 - 1 - 500] ex_strings _ _ [] []).
  - exact (pool_alloc_holds ex_strings).
  - exact best_of_nil.
  - repeat constructor.
  - repeat constructor.
Defined.
