(* ===== verification/Expire.v ===== *)
(** * The active expire cycle (src/redis/expire.c, src/redis/expire.h)

    The periodic scan of the databases for expired keys, as far as it is
    written: the guards of a fast cycle, the computation of the limits and the
    round over the databases.  The file is not part of the build; it uses a
    variable [server], macros and functions that no file declares, which are
    the class [ExpireNames] here.  The members [rs.db] and [rs.dbnum] are read as
    [dbs] and [db_num] of [redis_server_t], the undeclared [time_limit] as the
    declared [timelimit]. *)

From S2P Require Import Prelude LatteC LatteCModel KvStore State Db Reply.

Definition ACTIVE_EXPIRE_CYCLE_KEYS_PER_LOOP : Z := 20.
Definition ACTIVE_EXPIRE_CYCLE_FAST_DURATION : Z := 1000.
Definition ACTIVE_EXPIRE_CYCLE_SLOW_TIME_PERC : Z := 25.
Definition ACTIVE_EXPIRE_CYCLE_ACCEPTABLE_STALE : Z := 10.
Definition HFE_DB_BASE_ACTIVE_EXPIRE_FIELDS_PER_SEC : Z := 10000.

(** The names expire.c uses and nobody declares. *)
Class ExpireNames {L : LatteC} := {
  PAUSE_ACTION_EXPIRE : Z;
  ACTIVE_EXPIRE_CYCLE_FAST : Z;
  CRON_DBS_PER_CALL : Z;
  isPausedActionsWithUpdate : Z -> M bool;
  active_expire_hash_field_cycle : Z -> M unit;
  dictSize : kv_store_t Z heap -> Z;
  server_active_expire_effort : Z;
  server_hz : Z;
  server_dbnum : Z;
  (** [rs.stat_expired_stale_perc < x] *)
  stat_expired_stale_perc_lt : redis_server_t -> Z -> bool
}.

(** The documented ranges of the configuration (redis.conf: [hz],
    [active-expire-effort]).  Nothing is assumed of the functions. *)
Class ExpireLaws {L : LatteC} {EN : ExpireNames} : Prop := {
  server_hz_range : 0 < server_hz < 2 ^ 31;
  server_effort_range : 1 <= server_active_expire_effort <= 10
}.

(** The static variables of [active_expire_cycle]. *)
Record expire_statics := mk_statics {
  current_db_static : Z;
  time_limit_exit : Z;
  last_fast_cycle : Z
}.

Section Expire.
Context {L : LatteC} {LL : LatteCLaws} {EN : ExpireNames}.

(** The limits derived from the configured effort, in unsigned arithmetic. *)
Definition expire_effort : Z := u64 (server_active_expire_effort - 1).
Definition config_keys_per_loop : Z :=
  u64 (ACTIVE_EXPIRE_CYCLE_KEYS_PER_LOOP + ACTIVE_EXPIRE_CYCLE_KEYS_PER_LOOP / 4 * expire_effort).
Definition config_cycle_fast_duration : Z :=
  u64 (ACTIVE_EXPIRE_CYCLE_FAST_DURATION + ACTIVE_EXPIRE_CYCLE_FAST_DURATION / 4 * expire_effort).
Definition config_cycle_slow_time_perc : Z :=
  u64 (ACTIVE_EXPIRE_CYCLE_SLOW_TIME_PERC + 2 * expire_effort).
Definition config_cycle_acceptable_stale : Z :=
  u64 (ACTIVE_EXPIRE_CYCLE_ACCEPTABLE_STALE - expire_effort).

(** The guards of a fast cycle: [None] to return, else the new statics. *)
Definition fast_cycle_gate (rs : redis_server_t) (type start : Z) (st : expire_statics) :
    outcome (option expire_statics) :=
  if type =? ACTIVE_EXPIRE_CYCLE_FAST then
    if (time_limit_exit st =? 0) && stat_expired_stale_perc_lt rs config_cycle_acceptable_stale
    then Done None
    else
      twice ← checked_i64 (i64 config_cycle_fast_duration * 2);
      next ← checked_i64 (last_fast_cycle st + twice);
      if start <? next then Done None
      else Done (Some (mk_statics (current_db_static st) (time_limit_exit st) start))
  else Done (Some st).

(** How long the cycle may take; computed and not used by the loop. *)
Definition cycle_time_limit (type : Z) : outcome Z :=
  q ← checked_div (u64 (config_cycle_slow_time_perc * 1000000)) (u64 server_hz);
  let time_limit := i64 (q / 100) in
  let time_limit := if time_limit <=? 0 then 1 else time_limit in
  Done (if type =? ACTIVE_EXPIRE_CYCLE_FAST then i64 config_cycle_fast_duration else time_limit).

(** One round of the loop: the database at [current_db], counted if it has
    keys that expire. *)
Definition expire_round (type dbs_performed : Z) (st : expire_statics) : M (Z * expire_statics) :=
  rs ← get_server;
  i ← lift (checked_mod (current_db_static st) (u32 (db_num rs)));
  let st := mk_statics (u32 (current_db_static st + 1)) (time_limit_exit st) (last_fast_cycle st) in
  _ ← active_expire_hash_field_cycle type;
  rs ← get_server;
  db ← lift (array_get (dbs rs) i);
  mret (if dictSize (expires db) =? 0 then dbs_performed else dbs_performed + 1, st).

Fixpoint expire_loop (fuel : nat) (type dbs_per_call dbs_performed j : Z) (st : expire_statics) :
    M expire_statics :=
  if (dbs_performed <? dbs_per_call) && (time_limit_exit st =? 0) && (j <? server_dbnum) then
    match fuel with
    | O => fail OutOfFuel
    | S fuel =>
        r ← expire_round type dbs_performed st;
        expire_loop fuel type dbs_per_call (fst r) (j + 1) (snd r)
    end
  else mret st.

Definition active_expire_cycle (type : Z) (st : expire_statics) : M expire_statics :=
  start ← read_ustime;
  paused ← isPausedActionsWithUpdate PAUSE_ACTION_EXPIRE;
  if (paused : bool) then mret st
  else
    rs ← get_server;
    gate ← lift (fast_cycle_gate rs type start st);
    match gate with
    | None => mret st
    | Some st =>
        let dbs_per_call :=
          if (db_num rs <? CRON_DBS_PER_CALL) || negb (time_limit_exit st =? 0) then db_num rs
          else CRON_DBS_PER_CALL in
        _ ← lift (cycle_time_limit type);
        expire_loop (Z.to_nat server_dbnum) type dbs_per_call 0 0
          (mk_statics (current_db_static st) 0 (last_fast_cycle st))
    end.

(** ** Specification *)

(** The database the round number [i] from [cur] on looks at: the counter is a
    32-bit one. *)
Definition visited_at (num cur i : Z) : Z := u32 (cur + i) mod num.

Definition visited (n num cur : Z) : list Z := visited_at num cur <$> seqZ 0 n.

(** Does database [i] have keys that expire? *)
Definition has_expires (ds : list redis_db_t) (i : Z) : bool :=
  match ds !! Z.to_nat i with Some db => negb (dictSize (expires db) =? 0) | None => false end.

Section Scan.
(** [ws i] is the world after [i] calls of [active_expire_hash_field_cycle]. *)
Context (ws : Z -> world) (num cur quota : Z).

(** Does the round number [i] count: are there keys that expire in the database
    it looks at, after its call? *)
Definition counts (i : Z) : bool := has_expires (dbs (w_server (ws (i + 1)))) (visited_at num cur i).

Definition busy (n : Z) : Z := zlen (filter (fun i => counts i = true) (seqZ 0 n)).

(** [n] rounds are the right number for a budget of [quota] busy databases: the
    budget was not used up before, and it is used up or no database is left. *)
Definition scan_ends (n : Z) : Prop :=
  0 <= n <= num /\ (forall k, 0 <= k < n -> busy k < quota) /\ (n = num \/ quota <= busy n).

Lemma busy_snoc (n : Z) : 0 <= n -> busy (n + 1) = busy n + (if counts n then 1 else 0).
Proof.
  intros ?. unfold busy. rewrite (seqZ_app 0 n 1), filter_app, zlen_app by lia. f_equal.
  rewrite Z.add_0_l. replace (seqZ n 1) with [n] by (unfold seqZ; simpl; f_equal; lia). rewrite filter_cons.
  by destruct (counts n).
Qed.
End Scan.

(** ** Lemmas *)
Lemma visited_small (n num cur : Z) :
  0 <= cur -> n <= num -> cur + num <= 2 ^ 32 -> visited n num cur = (fun i => (cur + i) mod num) <$> seqZ 0 n.
Proof.
  intros ? ? ?. apply list_fmap_ext. intros j i Hi%list_elem_of_lookup_2%elem_of_seqZ. unfold visited_at.
  by rewrite wrap_u_small by lia.
Qed.

Lemma visited_NoDup (n num cur : Z) : 0 <= cur -> 0 <= n <= num -> cur + num <= 2 ^ 32 -> NoDup (visited n num cur).
Proof.
  intros Hc Hn Hs. rewrite visited_small by lia. apply NoDup_fmap_2_strong; [|apply NoDup_seqZ].
  intros i k Hi%elem_of_seqZ Hk%elem_of_seqZ E.
  assert (Hd : (i - k) mod num = 0).
  { replace (i - k) with ((cur + i) - (cur + k)) by lia. rewrite Zminus_mod, E, Z.sub_diag. apply Z.mod_0_l. lia. }
  apply Z.mod_divide in Hd; [|lia]. destruct Hd as [q Hq].
  assert (q = 0) by nia. lia.
Qed.

Lemma visited_all (num cur i : Z) :
  0 <= cur -> 0 < num -> cur + num <= 2 ^ 32 -> 0 <= i < num -> i ∈ visited num num cur.
Proof.
  intros Hc Hn Hs Hi. rewrite visited_small by lia. apply list_elem_of_fmap. exists ((i - cur) mod num). split.
  - rewrite Zplus_mod_idemp_r. replace (cur + (i - cur)) with i by lia. by rewrite Z.mod_small.
  - apply elem_of_seqZ. pose proof (Z.mod_pos_bound (i - cur) num). lia.
Qed.

Lemma effort_small : 1 <= server_active_expire_effort <= 10 ->
  0 <= expire_effort <= 9.
Proof. intros. unfold expire_effort. rewrite wrap_u_small; lia. Qed.

(** The calls return; they may change the databases, not their number. *)
Definition cycle_calls (type num : Z) (ws : Z -> world) : Prop :=
  forall i, 0 <= i < num -> active_expire_hash_field_cycle type (ws i) = Done (tt, ws (i + 1))
    /\ db_num (w_server (ws i)) = num /\ zlen (dbs (w_server (ws (i + 1)))) = num.

Section Laws.
Context {EL : ExpireLaws}.

Lemma expire_round_ok (type num p cur j lf : Z) (ws : Z -> world) :
  cycle_calls type num ws -> 0 < num < 2 ^ 31 -> 0 <= j < num -> 0 <= cur < 2 ^ 32 ->
  expire_round type p (mk_statics (u32 (cur + j)) 0 lf) (ws j)
  = Done ((p + (if counts ws num cur j then 1 else 0), mk_statics (u32 (cur + (j + 1))) 0 lf), ws (j + 1)).
Proof.
  intros Hw Hn Hj Hc. destruct (Hw j Hj) as (E & Hnum & Hl). unfold expire_round. mstep.
  cbn [current_db_static time_limit_exit last_fast_cycle]. rewrite Hnum.
  assert (Hm : checked_mod (u32 (cur + j)) (u32 num) = Done (visited_at num cur j)).
  { unfold visited_at. rewrite (wrap_u_small 32 num) by lia. unfold checked_mod. by destruct (Z.eqb_spec num 0); [lia|]. }
  rewrite (bind_lift _ _ _ _ Hm). cbv zeta. rewrite (bind_Done _ _ _ _ _ E). mstep.
  assert (Hi : 0 <= visited_at num cur j < num) by (apply Z.mod_pos_bound; lia).
  destruct (lookup_lt_is_Some_2 (dbs (w_server (ws (j + 1)))) (Z.to_nat (visited_at num cur j))) as [db Hdb]; [unfold zlen in *; lia|].
  rewrite (bind_lift _ _ _ _ (array_get_Done _ _ db (proj1 Hi) Hdb)).
  assert (Ec : u32 (u32 (cur + j) + 1) = u32 (cur + (j + 1))).
  { unfold wrap_u. rewrite Zplus_mod_idemp_l. f_equal. lia. }
  rewrite Ec. unfold counts, has_expires. rewrite Hdb.
  destruct (Z.eqb_spec (dictSize (expires db)) 0); simpl; unfold mret, M_ret; repeat f_equal; lia.
Qed.

Lemma expire_loop_ok (type num quota cur lf : Z) (ws : Z -> world) (fuel : nat) (j : Z) :
  cycle_calls type num ws -> server_dbnum = num -> 0 < num < 2 ^ 31 -> 0 <= cur < 2 ^ 32 ->
  0 <= j <= num -> (Z.to_nat (num - j) <= fuel)%nat -> (forall k, 0 <= k < j -> busy ws num cur k < quota) ->
  exists n, expire_loop fuel type quota (busy ws num cur j) j (mk_statics (u32 (cur + j)) 0 lf) (ws j)
    = Done (mk_statics (u32 (cur + n)) 0 lf, ws n) /\ scan_ends ws num cur quota n.
Proof.
  intros Hw Hdb Hn Hc. revert j. induction fuel as [|fuel IH]; intros j Hj Hf Hb;
    (assert (Hstop : j = num \/ j < num) by lia); simpl; rewrite Hdb;
    (destruct Hstop as [->|Hjlt];
      [ rewrite Z.ltb_irrefl, andb_false_r; exists num; unfold scan_ends; auto with lia |]).
  { lia. }
  destruct (Z.ltb_spec j num) as [_|]; [|lia]. simpl. rewrite !andb_true_r.
  destruct (Z.ltb_spec (busy ws num cur j) quota) as [Hq|Hq].
  2: { exists j. unfold scan_ends. auto with lia. }
  rewrite (bind_Done _ _ _ _ _ (expire_round_ok type num (busy ws num cur j) cur j lf ws Hw Hn ltac:(lia) Hc)).
  cbn [fst snd]. rewrite <- busy_snoc by lia.
  apply IH; [lia|lia|]. intros k Hk. destruct (decide (k = j)) as [->|]; [done|]. apply Hb. lia.
Qed.

Lemma cycle_time_limit_ok (type : Z) : exists t, cycle_time_limit type = Done t /\ 0 < t.
Proof.
  pose proof (server_hz_range) as Hhz.
  pose proof (effort_small (server_effort_range)) as He.
  unfold cycle_time_limit, checked_div, config_cycle_slow_time_perc, config_cycle_fast_duration,
    ACTIVE_EXPIRE_CYCLE_SLOW_TIME_PERC, ACTIVE_EXPIRE_CYCLE_FAST_DURATION.
  rewrite (wrap_u_small 64 server_hz) by lia.
  change (1000 / 4) with 250. rewrite (wrap_u_small 64 (25 + 2 * expire_effort)) by lia.
  rewrite (wrap_u_small 64 (1000 + 250 * expire_effort)) by lia.
  destruct (Z.eqb_spec server_hz 0); [lia|]. cbn [mbind outcome_bind].
  eexists. split; [done|]. destruct (type =? ACTIVE_EXPIRE_CYCLE_FAST).
  - rewrite wrap_s_small; lia.
  - destruct (Z.leb_spec (i64 (u64 ((25 + 2 * expire_effort) * 1000000) / server_hz / 100)) 0); lia.
Qed.

(** The guards let a cycle through, or stop it. *)
Lemma fast_cycle_gate_ok (rs : redis_server_t) (type start : Z) (st : expire_statics) :
  0 <= last_fast_cycle st < 2 ^ 62 ->
  fast_cycle_gate rs type start st
  = Done (if decide (type = ACTIVE_EXPIRE_CYCLE_FAST
              /\ (time_limit_exit st = 0 /\ stat_expired_stale_perc_lt rs config_cycle_acceptable_stale = true
                  \/ start < last_fast_cycle st + 2 * config_cycle_fast_duration))
          then None
          else Some (mk_statics (current_db_static st) (time_limit_exit st)
                      (if type =? ACTIVE_EXPIRE_CYCLE_FAST then start else last_fast_cycle st))).
Proof.
  intros Hlf. pose proof (effort_small (server_effort_range)) as He.
  assert (Hd : 1000 <= config_cycle_fast_duration <= 3250).
  { unfold config_cycle_fast_duration, ACTIVE_EXPIRE_CYCLE_FAST_DURATION.
    change (1000 / 4) with 250. rewrite wrap_u_small; lia. }
  unfold fast_cycle_gate. destruct (Z.eqb_spec type ACTIVE_EXPIRE_CYCLE_FAST) as [Ht|Ht].
  2: { case_decide; [tauto|]. by destruct st. }
  rewrite wrap_s_small by lia.
  rewrite !checked_i64_Done by lia. cbn [mbind outcome_bind]. rewrite checked_i64_Done by lia.
  cbn [mbind outcome_bind].
  destruct (Z.eqb_spec (time_limit_exit st) 0), (stat_expired_stale_perc_lt rs config_cycle_acceptable_stale);
    simpl; try (destruct (Z.ltb_spec start (last_fast_cycle st + config_cycle_fast_duration * 2)));
    case_decide as Hg; try done; try (destruct Hg as [_ [[? ?]|?]]; (done || lia));
    exfalso; apply Hg; (split; [done|]); first [by left | right; lia].
Qed.

(** When a cycle does not scan: it is paused, or it is a fast cycle that is not
    worth it or too early. *)
Definition cycle_skipped (rs : redis_server_t) (paused : bool) (type start : Z) (st : expire_statics) : Prop :=
  paused = true
  \/ type = ACTIVE_EXPIRE_CYCLE_FAST
     /\ (time_limit_exit st = 0 /\ stat_expired_stale_perc_lt rs config_cycle_acceptable_stale = true
         \/ start < last_fast_cycle st + 2 * config_cycle_fast_duration).

(** The number of busy databases one call may look at. *)
Definition scan_quota (rs : redis_server_t) (st : expire_statics) : Z :=
  if decide (time_limit_exit st = 0) then Z.min CRON_DBS_PER_CALL (db_num rs) else db_num rs.


End Laws.
End Expire.

(** ** Concrete runs *)

#[local] Existing Instance model_latte.
#[local] Existing Instance model_latte_laws.

(** Three databases; the second and the third have a key that expires. *)
Definition ex_expire_server : redis_server_t :=
  mk_server (mk_cm dict_new raxNew 0) list_new 1700000000 10 None dict_new
    (1024 * 1024) 0 77 [ex_db0; ex_db2; ex_db2] 3 (mk_slowlog list_new 128 10000 0) (mk_metric dict_new 16) 0.

Definition ex_cycle_world : world := set_w_server ex_world ex_expire_server.

(** At most [per_call] busy databases in a call; the undeclared function reads
    the clock. *)
Definition ex_names (per_call : Z) : ExpireNames := {|
  PAUSE_ACTION_EXPIRE := 1;
  ACTIVE_EXPIRE_CYCLE_FAST := 1;
  CRON_DBS_PER_CALL := per_call;
  isPausedActionsWithUpdate := fun _ w => Done (false, w);
  active_expire_hash_field_cycle := fun _ w => Done (tt, set_w_ticks w (S (w_ticks w)));
  dictSize := fun kvs => key_count kvs;
  server_active_expire_effort := 1;
  server_hz := 10;
  server_dbnum := 3;
  stat_expired_stale_perc_lt := fun _ x => 0 <? x
|}.

#[local] Instance ex_names_laws (n : Z) : ExpireLaws (EN := ex_names n).
Proof. split; [split; reflexivity|]. split; vm_compute; congruence. Qed.

(** The worlds between the calls. *)
Definition ex_worlds (i : Z) : world := set_w_ticks ex_cycle_world (S (w_ticks ex_cycle_world) + Z.to_nat i).

Lemma ex_cycle_calls (n : Z) : cycle_calls (EN := ex_names n) 0 3 ex_worlds.
Proof.
  intros i Hi. split; [|split; vm_compute; reflexivity]. unfold ex_worlds. cbn [active_expire_hash_field_cycle ex_names w_ticks set_w_ticks].
  rewrite Z2Nat.inj_add, Nat.add_assoc by lia. do 2 f_equal. unfold set_w_ticks. f_equal. lia.
Qed.

Lemma ex_worlds_0 : ex_worlds 0 = set_w_ticks ex_cycle_world (S (w_ticks ex_cycle_world)).
Proof. unfold ex_worlds. change (Z.to_nat 0) with 0%nat. by rewrite Nat.add_0_r. Qed.

(** A budget of one: the first call ends at the first busy database, the second call at the next. *)
Example active_expire_cycle_two_calls :
  let run st := active_expire_cycle (EN := ex_names 1) 0 st ex_cycle_world in
  (fst <$> match run (mk_statics 0 0 0) with Done r => Some r | Fault _ => None end) = Some (mk_statics 2 0 0)
  /\ (fst <$> match run (mk_statics 2 0 0) with Done r => Some r | Fault _ => None end) = Some (mk_statics 3 0 0).
Proof. vm_compute. split; reflexivity. Qed.

