(* ===== verification/Server.v ===== *)
(** * Configuration and start of the server
    (src/redis_config/config.c, src/redis/server.c, the end of src/redis/module.c) *)

From S2P Require Import Prelude LatteC LatteCModel KvStore State Db Reply Protocol CommandManager Module.
From S2P Require Import StringModule Commands Client Service Streams Sessions Metric Slowlog EventLoop Connections.

Section Server.
Context {L : LatteC}.

(** ** Paths *)

Definition PATH_BLANKS : bytes := [SP; CR; LF; "009"%char].

(** Walk back from [p] to a slash, counting; [p] decreases, so the length of
    the path is enough fuel. *)
Fixpoint scan_slash (path : bytes) (fuel : nat) (p trimlen : Z) : outcome Z :=
  c ← array_get path p;
  if bool_decide (c = "/"%char) then Done trimlen
  else match fuel with
  | O => Fault OutOfFuel
  | S fuel => scan_slash path fuel (p - 1) (trimlen + 1)
  end.

(** Remove the last element of [abspath], unless it is the root. *)
Definition parent_dir (abspath : bytes) : outcome bytes :=
  if 1 <? sds_len abspath then
    trimlen ← scan_slash abspath (length abspath) (sds_len abspath - 2) 1;
    Done (sds_range abspath 0 (- (trimlen + 1)))
  else Done abspath.

(** One iteration removes three bytes of [relpath]. *)
Fixpoint resolve_dots (fuel : nat) (abspath relpath : bytes) : outcome (bytes * bytes) :=
  if (3 <=? sds_len relpath) && bool_decide (take 3 relpath = bs "../") then
    match fuel with
    | O => Fault OutOfFuel
    | S fuel =>
        let relpath := sds_range relpath 3 (-1) in
        abspath ← parent_dir abspath;
        resolve_dots fuel abspath relpath
    end
  else Done (abspath, relpath).

(** [getcwd] is the answer of the system, NULL when it fails. *)
Definition get_absolute_path (getcwd : option bytes) (filename : bytes) : outcome (option bytes) :=
  let relpath := sds_trim (sds_new filename) PATH_BLANKS in
  if bool_decide (first_byte relpath = "/"%char) then Done (Some relpath)
  else match getcwd with
  | None => Done None
  | Some cwd =>
      let abspath := sds_new cwd in
      let abspath :=
        if negb (sds_len abspath =? 0) && negb (bool_decide (last abspath = Some "/"%char))
        then sds_cat abspath (bs "/") else abspath in
      '(abspath, relpath) ← resolve_dots (length relpath) abspath relpath;
      Done (Some (sds_cat_sds abspath relpath))
  end.

(** ** Modules of the configuration *)

Record module_entry_t := mk_entry {
  entry_path : bytes;
  entry_args : vector_t bytes
}.

Definition module_entry_new (path : bytes) (args : list bytes) : module_entry_t :=
  mk_entry path (fold_left (fun v a => vector_push v (sds_new a)) args vector_new).

(** [while (vector_size(entry->args) > 0) sds_delete(vector_pop(entry->args))]:
    the strings released so far, in order. *)
Fixpoint pop_args (fuel : nat) (v : vector_t bytes) (released : list bytes) : outcome (list bytes) :=
  if 0 <? vector_size v then
    match fuel with
    | O => Fault OutOfFuel
    | S fuel =>
        s ← deref (fst (vector_pop v));
        pop_args fuel (snd (vector_pop v)) (released ++ [s])
    end
  else Done released.

(** The strings [sds_delete] is called with; every iteration shortens the vector. *)
Definition module_entry_delete (e : module_entry_t) : outcome (list bytes) :=
  pop_args (Z.to_nat (vector_size (entry_args e))) (entry_args e) [entry_path e].

Definition config_module_entry_delete (e : module_entry_t) : outcome (list bytes) := module_entry_delete e.

(** [for (int i = 0; i < vector_size(new_modules); i++)]; the size is read
    again in every iteration, and every iteration pops one element. *)
Fixpoint move_modules (fuel : nat) (i : Z) (old new : vector_t module_entry_t) :
    outcome (vector_t module_entry_t) :=
  if i <? vector_size new then
    match fuel with
    | O => Fault OutOfFuel
    | S fuel =>
        x ← deref (fst (vector_pop new));
        move_modules fuel (i + 1) (vector_push old x) (snd (vector_pop new))
    end
  else Done old.

Definition config_load_modules_add (data : option (vector_t module_entry_t)) (new : vector_t module_entry_t) :
    outcome (Z * option (vector_t module_entry_t)) :=
  match data with
  | None => Done (1, Some new)
  | Some old =>
      v ← move_modules (Z.to_nat (vector_size new)) 0 old new;
      Done (1, Some v)
  end.

Definition config_load_modules_load (argv : list bytes) : outcome (vector_t module_entry_t) :=
  path ← array_get argv 0;
  Done (vector_push vector_new (module_entry_new (sds_new path) (drop 1 argv))).

Definition config_load_modules_get (data : option (vector_t module_entry_t)) : option (vector_t module_entry_t) := data.

(** The callbacks that compare, check and print the rule are not written yet:
    each fails its assertion. *)
Definition config_load_modules_cmp (data new : option (vector_t module_entry_t)) : outcome Z :=
  _ ← latte_assert false "config_load_modules_cmp not implemented";
  Done 1.

Definition config_load_modules_is_valid (data new : option (vector_t module_entry_t)) : outcome Z :=
  _ ← latte_assert false "config_load_modules_is_valid not implemented";
  Done 1.

Definition config_load_modules_to_sds (key : bytes) (value : option (vector_t module_entry_t)) : outcome (option bytes) :=
  _ ← latte_assert false "config_load_modules_to_sds not implemented";
  Done None.

(** The entries from number [i] on, [n] of them left. *)
Fixpoint load_entries (files : bytes -> module_file) (n : nat) (i : Z) (v : vector_t module_entry_t)
    (server : redis_server_t) : outcome redis_server_t :=
  match n with
  | O => Done server
  | S n =>
      e ← deref (vector_get v i);
      '(r, server) ← module_load (files (entry_path e)) server;
      _ ← latte_assert (r =? 0) "module load %s failed";
      load_entries files n (i + 1) v server
  end.

Definition init_redis_modules (files : bytes -> module_file) (load_modules : option (vector_t module_entry_t))
    (server : redis_server_t) : outcome redis_server_t :=
  match load_modules with
  | None => Done server
  | Some v => load_entries files (Z.to_nat (vector_size v)) 0 v server
  end.

(** ** The configuration *)

(** src/redis_config/config.h *)
Record server_config_t := mk_config {
  cfg_port : Z;
  cfg_bind : option (vector_t bytes);
  cfg_tcp_backlog : Z;
  cfg_logfile : option bytes;
  cfg_log_level : bytes;
  cfg_max_clients : Z;
  cfg_use_async_io : Z;
  cfg_event_loop_size : Z;
  cfg_hz : Z;
  cfg_db_num : Z;
  cfg_load_modules : option (vector_t module_entry_t);
  cfg_slowlog_log_slower_than : Z;
  cfg_slowlog_max_len : Z
}.

(** The kinds of rules the configuration manager knows, with their limits and
    defaults. *)
Inductive config_rule :=
  | NumericRule (lo hi default : Z)
  | SdsRule (default : option bytes)
  | SdsArrayRule (size : Z) (default : bytes)
  | EnumRule (names : list bytes) (default : bytes)
  | ModulesRule.

Definition DEFAULT_PORT : Z := 6379.
Definition DEFAULT_TCP_BACKLOG : Z := 512.

Definition log_level_enum_list : list bytes :=
  [bs "trace"; bs "debug"; bs "info"; bs "warn"; bs "error"; bs "fatal"].

(** The rules [server_config_new] adds, in order. *)
Definition config_rules : list (bytes * config_rule) :=
  [ (bs "bind", SdsArrayRule (-1) (bs "* -::*"));
    (bs "port", NumericRule 0 65535 DEFAULT_PORT);
    (bs "tcp-backlog", NumericRule 0 65535 DEFAULT_TCP_BACKLOG);
    (bs "log-file", SdsRule None);
    (bs "log-level", EnumRule log_level_enum_list (bs "info"));
    (bs "max-clients", NumericRule 0 65535 10000);
    (bs "use-async-io", NumericRule 0 1 0);
    (bs "event-loop-size", NumericRule 0 65535 1024);
    (bs "hz", NumericRule 0 65535 10);
    (bs "db-num", NumericRule 0 65535 16);
    (bs "load-module", ModulesRule);
    (bs "slowlog-log-slower-than", NumericRule 0 (2 ^ 63 - 1) 10000);
    (bs "slowlog-max-len", NumericRule 0 (2 ^ 63 - 1) 128) ].

Definition config_defaults : server_config_t :=
  mk_config DEFAULT_PORT None DEFAULT_TCP_BACKLOG None (bs "info") 10000 0 1024 10 16 None 10000 128.

(** The configuration manager of latte_c: it writes the members of the
    configuration through the pointers of the rules. *)
Class ConfigOps := {
  (** set every member to the default of its rule; the number of rules *)
  config_init_all_data : list (bytes * config_rule) -> server_config_t -> Z * server_config_t;
  (** 0 on failure *)
  config_load_file : option bytes -> server_config_t -> Z * server_config_t;
  config_load_argv : list bytes -> server_config_t -> Z * server_config_t
}.

Class ConfigLaws {Cfg : ConfigOps} : Prop := {
  config_init_count : forall rules c, fst (config_init_all_data rules c) = zlen rules
}.

Context {Cfg : ConfigOps}.

Definition server_config_new : outcome server_config_t :=
  let '(n, config) := config_init_all_data config_rules config_defaults in
  _ ← latte_assert (n =? 13) "config_init_all_data failed";
  Done config.

(** ** Start *)

(** The server's members that [init_redis_server] does not assign keep what
    they were in the static [redis_server]; the table of the module API is
    [module_register_core_api] of Module.v. *)
Definition init_redis_server (rs : redis_server_t) : outcome redis_server_t :=
  cm ← command_manager_new;
  Done (mk_server cm list_new (unixtime rs) (hz rs) (current_client rs) dict_new (1024 * 1024)
          (maxmemory_policy rs) (lruclock rs) (dbs rs) (db_num rs) (slowlog_manager rs) (metric_new 16) 0).

(** What [start_redis_server] sets up. *)
Record boot_t := mk_boot {
  b_server : redis_server_t;
  b_shared : shared_objects_t;
  b_heap : heap;
  b_ticks : nat;
  b_executable : option bytes;
  b_configfile : option bytes;
  b_config : server_config_t;
  b_crons : list cron_t
}.

(** The arguments after the program's name: a configuration file, options. *)
Definition load_config (getcwd : option bytes) (argv : list bytes) (config : server_config_t) :
    outcome (bool * option bytes * server_config_t) :=
  if 1 <? zlen argv then
    arg1 ← array_get argv 1;
    if negb (bool_decide (first_byte arg1 = "-"%char)) then
      file ← get_absolute_path getcwd arg1;
      let '(r, config) := config_load_file file config in
      if r =? 0 then Done (false, file, config)
      else
        let '(r, config) := config_load_argv (drop 2 argv) config in
        Done (negb (r =? 0), file, config)
    else
      let '(r, config) := config_load_argv (drop 1 argv) config in
      Done (negb (r =? 0), None, config)
  else Done (true, None, config).

(** [init_latte_server], [ae_event_loop_new] and the members of the embedded
    [latte_server_t] belong to the library, among them the cron manager that
    starts with the jobs [cron_manager]; [start_latte_server] runs the event
    loop. *)
Definition configure_server (files : bytes -> module_file) (rs : redis_server_t) (config : server_config_t)
    (cron_manager : list cron_t) (ticks : nat) : outcome (redis_server_t * list cron_t) :=
  rs ← init_redis_modules files (cfg_load_modules config) rs;
  let rs := mk_server (command_manager rs) (clients_to_close rs) (unixtime rs) (i32 (cfg_hz config))
    (current_client rs) (modules rs) (proto_max_bulk_len rs) (maxmemory_policy rs) (lruclock rs) (dbs rs)
    (i32 (cfg_db_num config)) (slowlog_manager rs) (metric rs) (metric_stat_numcommands rs) in
  rs ← init_redis_server_dbs rs;
  let rs := set_unixtime rs (ustime ticks) in
  let '(_, cron_manager) := init_redis_server_crons cron_manager in
  Done (set_slowlog_manager rs
          (slowlog_manager_new (cfg_slowlog_log_slower_than config) (cfg_slowlog_max_len config)), cron_manager).

Definition start_redis_server (files : bytes -> module_file) (getcwd : option bytes) (rs : redis_server_t)
    (h : heap) (cron_manager : list cron_t) (ticks : nat) (argv : list bytes) : outcome (Z * boot_t) :=
  rs ← init_redis_server rs;
  let '(sh, h) := init_shared_objects h in
  arg0 ← array_get argv 0;
  exe ← get_absolute_path getcwd arg0;
  config ← server_config_new;
  '(ok, file, config) ← load_config getcwd argv config;
  if ok : bool then
    '(rs, cron_manager) ← configure_server files rs config cron_manager ticks;
    Done (1, mk_boot rs sh h (S ticks) exe file config cron_manager)
  else Done (0, mk_boot rs sh h ticks exe file config cron_manager).

(** What [stopRedisServer] prints, and its result. *)
Definition stopRedisServer : bytes * Z := (bs "stop latte server !!!!!" ++ [LF], 1).

(** [_redis_panic]: the formatted message, cut to the buffer of 256 bytes, as it
    is given to the log. *)
Definition redis_panic (text : bytes) : bytes := take 255 text.

(** ** Specification: directories as lists of names *)

(** The directory with the elements [cs], with a slash at its end. *)
Definition dir_of (cs : list bytes) : bytes := "/"%char :: mjoin ((fun c => c ++ bs "/") <$> cs).

(** A name of a directory entry. *)
Definition path_name (c : bytes) : Prop := c <> [] /\ ("/"%char ∉ c) /\ (NUL ∉ c).

(** The answer of [getcwd] in the directory [cs]. *)
Definition cwd_of (cs : list bytes) : bytes :=
  match cs with [] => bs "/" | _ => take (length (dir_of cs) - 1) (dir_of cs) end.

Definition dots (k : nat) : bytes := mjoin (replicate k (bs "../")).

Context {LL : LatteCLaws}.

Lemma dir_of_snoc (cs : list bytes) (c : bytes) : dir_of (cs ++ [c]) = dir_of cs ++ c ++ bs "/".
Proof. unfold dir_of. rewrite fmap_app, join_app. simpl. by rewrite app_nil_r. Qed.

Lemma dir_of_last (cs : list bytes) : exists s, dir_of cs = s ++ bs "/".
Proof.
  destruct cs as [|c cs _] using rev_ind; [by exists []|]. exists (dir_of cs ++ c).
  by rewrite dir_of_snoc, <- app_assoc.
Qed.

(** Scanning back over the name [c] finds the slash before it. *)
Lemma scan_slash_name (s c t : bytes) (fuel : nat) (trimlen : Z) :
  "/"%char ∉ c -> (length c < fuel)%nat ->
  scan_slash (s ++ "/"%char :: c ++ t) fuel (zlen s + zlen c) trimlen = Done (trimlen + zlen c).
Proof.
  revert t fuel trimlen. induction c as [|x c IH] using rev_ind; intros t fuel trimlen Hc Hf.
  - destruct fuel as [|fuel]; [simpl in Hf; lia|]. simpl. rewrite (array_get_Done _ _ "/"%char).
    + cbn [mbind outcome_bind]. rewrite bool_decide_true by done. f_equal. unfold zlen. simpl. lia.
    + unfold zlen. simpl. lia.
    + unfold zlen. simpl. rewrite Z.add_0_r, Nat2Z.id, lookup_app_r, Nat.sub_diag by lia. done.
  - rewrite not_elem_of_app, not_elem_of_cons in Hc. destruct Hc as (Hc & Hx & _).
    rewrite length_app in Hf. simpl in Hf. destruct fuel as [|fuel]; [lia|].
    pose proof (zlen_nonneg s). pose proof (zlen_nonneg c). rewrite zlen_app. change (zlen [x]) with 1.
    simpl. rewrite (array_get_Done _ _ x).
    + cbn [mbind outcome_bind]. rewrite bool_decide_false by done.
      replace (zlen s + (zlen c + 1) - 1) with (zlen s + zlen c) by lia.
      rewrite <- app_assoc. rewrite (IH ([x] ++ t)); [f_equal; lia|done|lia].
    + lia.
    + unfold zlen. replace (Z.to_nat _) with (length s + S (length c))%nat by lia.
      rewrite lookup_app_r by lia. replace (_ + _ - _)%nat with (S (length c)) by lia. simpl.
      rewrite <- app_assoc, lookup_app_r, Nat.sub_diag by lia. done.
Qed.

Lemma parent_dir_ok (cs : list bytes) (c : bytes) :
  path_name c -> parent_dir (dir_of (cs ++ [c])) = Done (dir_of cs).
Proof.
  intros (Hne & Hc & _). rewrite dir_of_snoc. destruct (dir_of_last cs) as (s & Es). rewrite Es.
  replace ((s ++ bs "/") ++ c ++ bs "/") with (s ++ "/"%char :: c ++ bs "/") by (by rewrite <- app_assoc).
  unfold parent_dir. rewrite sds_len_spec.
  assert (Hl : zlen (s ++ "/"%char :: c ++ bs "/") = zlen s + zlen c + 2).
  { rewrite zlen_app, zlen_cons, zlen_app. change (zlen (bs "/")) with 1. lia. }
  pose proof (zlen_nonneg s). pose proof (zlen_nonneg c).
  rewrite Hl. replace (1 <? _) with true by lia. replace (zlen s + zlen c + 2 - 2) with (zlen s + zlen c) by lia.
  rewrite scan_slash_name; [|done|rewrite length_app; simpl; rewrite length_app; simpl; lia]. cbn [mbind outcome_bind].
  rewrite sds_range_prefix by lia. rewrite Hl. f_equal.
  replace (Z.to_nat _) with (length (s ++ bs "/")) by (rewrite length_app; unfold zlen; simpl; lia).
  replace (s ++ "/"%char :: c ++ bs "/") with ((s ++ bs "/") ++ c ++ bs "/") by (by rewrite <- app_assoc).
  apply take_app_length.
Qed.

Lemma parent_root : parent_dir (dir_of []) = Done (dir_of []).
Proof. unfold parent_dir. by rewrite sds_len_spec. Qed.

Lemma dots_S (k : nat) : dots (S k) = bs "../" ++ dots k.
Proof. reflexivity. Qed.

Lemma resolve_dots_ok (k : nat) (cs : list bytes) (rest : bytes) (fuel : nat) :
  Forall path_name cs -> take 3 rest <> bs "../" -> (k <= fuel)%nat ->
  resolve_dots fuel (dir_of cs) (dots k ++ rest) = Done (dir_of (take (length cs - k) cs), rest).
Proof.
  intros Hcs Hrest. revert cs fuel Hcs. induction k as [|k IH]; intros cs fuel Hcs Hf.
  - rewrite Nat.sub_0_r, firstn_all. simpl. destruct fuel; simpl; rewrite (bool_decide_false (take 3 rest = _)) by done;
      by rewrite andb_false_r.
  - destruct fuel as [|fuel]; [lia|]. rewrite dots_S, <- app_assoc.
    cbn [resolve_dots]. rewrite sds_len_spec, zlen_app. change (zlen (bs "../")) with 3.
    set (tail := dots k ++ rest). pose proof (zlen_nonneg tail).
    replace (3 <=? 3 + zlen tail) with true by lia. rewrite andb_true_l.
    rewrite bool_decide_true by (by apply take_app_length').
    rewrite sds_range_suffix by (rewrite zlen_app; change (zlen (bs "../")) with 3; lia).
    change (Z.to_nat 3) with (length (bs "../")). rewrite drop_app_length.
    destruct cs as [|c cs _] using rev_ind.
    + rewrite parent_root. cbn [mbind outcome_bind]. rewrite IH by (done || lia). done.
    + apply Forall_app in Hcs as [Hcs Hc]. inversion Hc; subst. rewrite parent_dir_ok by done. cbn [mbind outcome_bind].
      rewrite IH by (done || lia). rewrite length_app. change (length [c]) with 1%nat.
      rewrite take_app_le by lia. by replace (length cs + 1 - S k)%nat with (length cs - k)%nat by lia.
Qed.

Lemma cwd_of_snoc (cs : list bytes) (c : bytes) : cwd_of (cs ++ [c]) = dir_of cs ++ c.
Proof.
  assert (E : cwd_of (cs ++ [c]) = take (length (dir_of (cs ++ [c])) - 1) (dir_of (cs ++ [c]))) by (by destruct cs).
  rewrite E, dir_of_snoc, app_assoc. apply take_app_length'. rewrite length_app. change (length (bs "/")) with 1%nat. lia.
Qed.

Lemma dir_of_no_NUL (cs : list bytes) : Forall path_name cs -> NUL ∉ dir_of cs.
Proof.
  intros Hcs. unfold dir_of. rewrite not_elem_of_cons. split; [done|].
  induction Hcs as [|c cs (_ & _ & Hn) _ IH]; [apply not_elem_of_nil|].
  rewrite fmap_cons, mjoin_cons, !not_elem_of_app. split; [|done]. split; [done|]. by apply (bool_decide_unpack _).
Qed.

Lemma cwd_dir (cs : list bytes) :
  Forall path_name cs ->
  (let abspath := sds_new (cwd_of cs) in
   if negb (sds_len abspath =? 0) && negb (bool_decide (last abspath = Some "/"%char))
   then sds_cat abspath (bs "/") else abspath) = dir_of cs.
Proof.
  intros Hcs. cbv zeta. rewrite !sds_new_spec, sds_len_spec. destruct cs as [|c cs _] using rev_ind; [done|].
  apply Forall_app in Hcs as [Hcs Hc]. inversion Hc as [|? ? (Hne & Hs & Hn) _]; subst.
  rewrite cwd_of_snoc, cstr_line by (rewrite not_elem_of_app; split; [by apply dir_of_no_NUL|done]).
  destruct (exists_last Hne) as (c' & x & ->). rewrite app_assoc, last_snoc.
  rewrite not_elem_of_app, not_elem_of_cons in Hs. destruct Hs as (_ & Hs & _).
  rewrite bool_decide_false by congruence.
  rewrite (proj2 (Z.eqb_neq _ _)).
  2:{ rewrite zlen_app. pose proof (zlen_nonneg (dir_of cs ++ c')). change (zlen [x]) with 1. lia. }
  simpl (negb _ && negb _). cbv iota. rewrite sds_cat_spec. change (cstr (bs "/")) with (bs "/"). by rewrite dir_of_snoc, <- !app_assoc.
Qed.

(** C31: paths: a path that starts with a slash (after trimming blanks) is
    taken as it is; a path that starts with [k] times "../" names the file
    below the directory [k] levels above the current one (the root when there
    are not that many), the search for the slash never leaves the buffer; NULL
    exactly when the current directory of a relative path is not known. *)
Theorem get_absolute_path_correct (getcwd : option (list bytes)) (filename rest : bytes) (k : nat) :
  sds_trim (cstr filename) PATH_BLANKS = dots k ++ rest -> take 3 rest <> bs "../" ->
  (forall cs, getcwd = Some cs -> Forall path_name cs) ->
  get_absolute_path (cwd_of <$> getcwd) filename
  = Done (if bool_decide (k = 0%nat) && bool_decide (first_byte rest = "/"%char) then Some rest
          else cs ← getcwd; Some (dir_of (take (length cs - k) cs) ++ rest)).
Proof.
  intros Ht Hrest Hcs. unfold get_absolute_path. rewrite sds_new_spec, Ht.
  assert (Hf : bool_decide (first_byte (dots k ++ rest) = "/"%char)
    = bool_decide (k = 0%nat) && bool_decide (first_byte rest = "/"%char)).
  { destruct k as [|k]; [by rewrite (bool_decide_true (0 = 0)%nat)|]. by rewrite (bool_decide_false (S k = 0%nat)). }
  rewrite Hf. destruct (bool_decide (k = 0%nat) && _) eqn:E.
  - apply andb_prop in E as [E _]. apply bool_decide_eq_true in E as ->. done.
  - destruct getcwd as [cs|]; [|done]. cbn [fmap option_fmap option_map mbind option_bind].
    pose proof (cwd_dir cs (Hcs cs eq_refl)) as Hd. cbv zeta in Hd |- *. rewrite Hd.
    rewrite resolve_dots_ok; [|by apply Hcs|done|].
    + cbn [mbind outcome_bind]. by rewrite sds_cat_sds_spec.
    + assert (Hdl : length (dots k) = (3 * k)%nat).
      { clear. induction k as [|k IH]; [done|]. rewrite dots_S, length_app, IH. change (length (bs "../")) with 3%nat. lia. }
      rewrite length_app. lia.
Qed.

(** ** Modules of the configuration *)

Lemma pop_args_ok (fuel : nat) (v : vector_t bytes) (released : list bytes) :
  (length (vector_elems v) <= fuel)%nat -> pop_args fuel v released = Done (released ++ rev (vector_elems v)).
Proof.
  revert v released. induction fuel as [|fuel IH]; intros v released Hf; simpl;
    rewrite vector_size_spec; unfold zlen; set (es := vector_elems v) in *.
  - assert (es = []) as -> by (apply length_zero_iff_nil; lia). by rewrite app_nil_r.
  - destruct (decide (es = [])) as [->|Hne]; [by rewrite app_nil_r|]. destruct (exists_last Hne) as (es0 & x & Ees).
    rewrite (proj2 (Z.ltb_lt _ _)) by (rewrite Ees, length_app; simpl; lia).
    destruct (vector_pop_spec _ v es0 x Ees) as [-> Hes0]. cbn [deref mbind outcome_bind].
    rewrite IH, Hes0, Ees, rev_app_distr; [by rewrite <- app_assoc|]. rewrite Hes0. rewrite Ees, length_app in Hf. simpl in Hf. lia.
Qed.

(** An entry that is deleted gives back its path and each of its arguments once. *)
Lemma module_entry_delete_ok (path : bytes) (args : list bytes) :
  module_entry_delete (module_entry_new path args) = Done (path :: rev (cstr <$> args)).
Proof.
  assert (H : forall v, vector_elems (fold_left (fun v a => vector_push v (sds_new a)) args v) = vector_elems v ++ (cstr <$> args)).
  { induction args as [|a args IH]; intros v; simpl; [by rewrite app_nil_r|].
    rewrite IH, vector_push_elems, sds_new_spec, <- app_assoc. done. }
  unfold module_entry_delete. rewrite vector_size_spec, pop_args_ok by (unfold zlen; lia).
  simpl. by rewrite H, vector_new_elems.
Qed.

Lemma move_modules_ok (fuel i : nat) (old new : vector_t module_entry_t) :
  (length (vector_elems new) <= fuel)%nat ->
  exists v, move_modules fuel (Z.of_nat i) old new = Done v
    /\ vector_elems v = vector_elems old
         ++ rev (drop (Nat.min (length (vector_elems new)) ((length (vector_elems new) + i) / 2)) (vector_elems new)).
Proof.
  revert i old new. induction fuel as [|fuel IH]; intros i old new Hf; simpl move_modules;
    rewrite vector_size_spec; unfold zlen; set (es := vector_elems new) in *.
  - rewrite (proj2 (Z.ltb_ge _ _)) by lia. exists old. split; [done|].
    rewrite drop_ge by lia. by rewrite app_nil_r.
  - destruct (Z.ltb_spec (Z.of_nat i) (Z.of_nat (length es))) as [Hlt|Hge].
    + destruct (exists_last (l := es)) as (es0 & x & Ees); [intros ->; simpl in Hlt; lia|].
      destruct (vector_pop_spec _ new es0 x Ees) as [Hx Hes0]. rewrite Hx. cbn [deref mbind outcome_bind].
      destruct (IH (S i) (vector_push old x) (snd (vector_pop new))) as (v & E & Hv).
      { rewrite Hes0. rewrite Ees, length_app in Hf. simpl in Hf. lia. }
      replace (Z.of_nat i + 1) with (Z.of_nat (S i)) by lia. exists v. split; [done|].
      rewrite Hv, Hes0, vector_push_elems, Ees, length_app, <- app_assoc. f_equal.
      rewrite Ees, length_app in Hlt. change (length [x]) with 1%nat in *.
      replace (length es0 + S i)%nat with (length es0 + 1 + i)%nat by lia.
      assert ((length es0 + 1 + i) / 2 <= length es0)%nat.
      { apply Nat.lt_succ_r, Nat.Div0.div_lt_upper_bound. lia. }
      rewrite !Nat.min_r by lia. rewrite drop_app_le by lia. by rewrite rev_app_distr.
    + exists old. split; [done|]. rewrite drop_ge; [by rewrite app_nil_r|].
      apply Nat.min_glb; [lia|]. apply Nat.div_le_lower_bound; lia.
Qed.

(** C36: adding modules to a configuration that has some: because the size is
    read again while elements are popped, only the last half of the new
    modules (the bigger half) is moved, in reverse order, and the rest is
    lost; with a single new module, the only case the loader of the rule
    produces, the module is added.  A configuration without modules takes the new
    vector as it is. *)
Theorem config_load_modules_add_half (old : option (vector_t module_entry_t)) (new : vector_t module_entry_t) :
  exists v, config_load_modules_add old new = Done (1, Some v)
    /\ vector_elems v = match old with
       | None => vector_elems new
       | Some o => vector_elems o ++ rev (drop (length (vector_elems new) / 2) (vector_elems new))
       end.
Proof.
  destruct old as [o|]; simpl; [|by exists new].
  destruct (move_modules_ok (Z.to_nat (vector_size new)) 0 o new) as (v & E & Hv).
  { rewrite vector_size_spec. unfold zlen. lia. }
  change (Z.of_nat 0) with 0 in E. rewrite E. cbn [mbind outcome_bind]. exists v. split; [done|]. rewrite Hv, Nat.add_0_r, Nat.min_r; [done|].
  apply Nat.Div0.div_le_upper_bound. lia.
Qed.

(** ** Start *)

Context {CL : ConfigLaws}.

Lemma server_config_new_ok :
  server_config_new = Done (snd (config_init_all_data config_rules config_defaults)).
Proof.
  unfold server_config_new. pose proof (config_init_count config_rules config_defaults) as H.
  destruct (config_init_all_data config_rules config_defaults) as [n c]. simpl in H. subst n. reflexivity.
Qed.

Lemma strcasecmp_eq_trans (n a b : bytes) : strcasecmp_eq n a = true -> strcasecmp_eq n b = strcasecmp_eq a b.
Proof. unfold strcasecmp_eq. intros H%bool_decide_eq_true. by rewrite H. Qed.

Lemma commands_ok_boot (server : redis_server_t) (m : redis_module_t) (id1 id2 : Z) (cm : command_manager_t) :
  (forall n, NUL ∉ n -> command_manager_lookup cm n = find_command n builtin_commands) ->
  (forall n, NUL ∉ n -> lookup_cmd server n =
     if strcasecmp_eq n (bs "get") then Some (module_cmd (bs "get") CMD_READONLY id2 (Some m) get_command_func)
     else if strcasecmp_eq n (bs "set") then Some (module_cmd (bs "set") set_flags id1 (Some m) set_command_func)
     else command_manager_lookup cm n) ->
  commands_ok server.
Proof.
  intros Hcm Hl. split.
  - intros n v Hn0 Hv. rewrite Hl, Hcm by done. unfold verb_named in Hv. cbn [find_command builtin_commands with_flags_id set_cmd_id set_cmd_flags builtin cmd_name].
    repeat match type of Hv with
    | (if strcasecmp_eq n ?a then _ else _) = _ => destruct (strcasecmp_eq n a) eqn:?
    end; try discriminate Hv; injection Hv as <-;
    match goal with H : strcasecmp_eq n ?a = true |- _ =>
      repeat match goal with |- context [strcasecmp_eq n ?b] => rewrite (strcasecmp_eq_trans n a b H) end end;
    eexists; (split; [reflexivity|]); cbn; eauto.
  - intros n Hn0 Hv. rewrite Hl, Hcm by done. unfold verb_named in Hv.
    repeat match type of Hv with
    | (if strcasecmp_eq n ?a then _ else _) = _ => destruct (strcasecmp_eq n a) eqn:?; [discriminate Hv|]
    end. cbn [find_command builtin_commands with_flags_id set_cmd_id set_cmd_flags builtin cmd_name].
    repeat match goal with H : strcasecmp_eq n _ = false |- _ => rewrite H; clear H end. done.
Qed.

(** A configuration that loads the string module and nothing else. *)
Record string_server_config (files : bytes -> module_file) (config : server_config_t) : Prop := {
  sc_modules : exists v e, cfg_load_modules config = Some v /\ vector_elems v = [e]
    /\ loadable (files (entry_path e)) latte_onload;
  sc_hz : 0 < cfg_hz config < 2 ^ 31;
  sc_db_num : 0 < cfg_db_num config < 2 ^ 31;
  sc_slow : 0 <= cfg_slowlog_log_slower_than config < 2 ^ 63;
  sc_slow_len : 0 <= cfg_slowlog_max_len config < 2 ^ 63
}.

Lemma boot_modules (files : bytes -> module_file) (config : server_config_t) (rs rs1 : redis_server_t) :
  string_server_config files config -> init_redis_server rs = Done rs1 ->
  exists rs2, init_redis_modules files (cfg_load_modules config) rs1 = Done rs2 /\ commands_ok rs2
    /\ proto_max_bulk_len rs2 = 1024 * 1024 /\ metric rs2 = metric_new 16 /\ metric_stat_numcommands rs2 = 0.
Proof.
  intros [(v & e & Hv & He & Hload) _ _ _ _] E. unfold init_redis_server in E.
  destruct command_manager_new_ok as (cm & Ecm & Hcm & Hnx). pose proof (command_manager_new_ids cm Ecm) as Hids.
  rewrite Ecm in E. cbn [mbind outcome_bind] in E. injection E as <-.
  set (rs1 := mk_server _ _ _ _ _ _ _ _ _ _ _ _ _ _).
  destruct (module_load_latte_ok (files (entry_path e)) rs1 Hload) as (rs2 & id1 & id2 & El & Hl & _ & _ & cm2 & ms & Ers); try done.
  - unfold rs1. cbn [command_manager]. rewrite Hnx. lia.
  - unfold rs1. cbn [modules]. by rewrite dict_new_map, lookup_empty.
  - unfold lookup_cmd, rs1. cbn [command_manager]. rewrite Hcm; [reflexivity|by apply (bool_decide_unpack _)].
  - unfold lookup_cmd, rs1. cbn [command_manager]. rewrite Hcm; [reflexivity|by apply (bool_decide_unpack _)].
  - exists rs2. unfold init_redis_modules. rewrite Hv, vector_size_spec, He.
    change (Z.to_nat (zlen [e])) with 1%nat. cbn [load_entries].
    rewrite vector_get_spec by lia. rewrite He. change ([e] !! Z.to_nat 0) with (Some e).
    cbn [deref mbind outcome_bind]. rewrite El. split; [reflexivity|]. split.
    + eapply commands_ok_boot; [exact Hcm|exact Hl].
    + rewrite Ers. by split_and!.
Qed.

Lemma configure_ok (files : bytes -> module_file) (config : server_config_t) (rs rs1 : redis_server_t)
    (cs : list cron_t) (ticks : nat) :
  string_server_config files config -> init_redis_server rs = Done rs1 ->
  exists rs2, configure_server files rs1 config cs ticks = Done (rs2, cs ++ crons) /\ commands_ok rs2
    /\ hz rs2 = cfg_hz config /\ proto_max_bulk_len rs2 = 1024 * 1024
    /\ counters rs2 = (metric_new 16, 0, slowlog_manager_new (cfg_slowlog_log_slower_than config) (cfg_slowlog_max_len config))
    /\ zlen (dbs rs2) = cfg_db_num config
    /\ exists db, dbs rs2 !! 0%nat = Some db /\ db_wf db /\ keys_map db = ∅ /\ expires_map db = ∅
       /\ total_keys (keys db) = 0 /\ total_keys (expires db) = 0.
Proof.
  intros Hc E. pose proof Hc as [_ Hhz Hdb _ _]. destruct (boot_modules files config rs rs1 Hc E) as (rs2 & Em & Hcmd & Hlim & Hmet & Hnum).
  unfold configure_server. rewrite Em. cbn [mbind outcome_bind].
  set (rs3 := mk_server _ _ _ _ _ _ _ _ _ _ _ _ _ _).
  destruct (init_dbs_ok rs3) as (l & -> & Hlen & Hl). cbn [mbind outcome_bind].
  cbn [init_redis_server_crons]. rewrite <- app_assoc. eexists. split; [reflexivity|].
  cbn [db_num rs3] in Hlen. rewrite wrap_s_small in Hlen by lia. split_and!.
  - by apply (commands_ok_same rs2).
  - cbn. apply wrap_s_small; lia.
  - exact Hlim.
  - unfold counters. cbn. by rewrite Hmet, Hnum.
  - cbn [dbs set_slowlog_manager set_unixtime set_dbs]. unfold zlen. lia.
  - destruct (lookup_lt_is_Some_2 l 0 ltac:(lia)) as [db Hdb0]. exists db.
    destruct (Hl 0%nat db Hdb0) as (_ & ? & ? & ? & ? & ?). done.
Qed.

(** A server that is ready for the event loop, with the jobs [cs] of the library. *)
Record boot_ok (config : server_config_t) (cs : list cron_t) (b : boot_t) : Prop := {
  bo_crons : b_crons b = cs ++ crons;
  bo_dbs : zlen (dbs (b_server b)) = cfg_db_num config;
  bo_max_len : max_len (slowlog_manager (b_server b)) = cfg_slowlog_log_slower_than config;
  bo_time_limit : time_limit_us (slowlog_manager (b_server b)) = cfg_slowlog_max_len config;
  bo_bulk : proto_max_bulk_len (b_server b) = 1024 * 1024;
  bo_fresh : exists db, rooms (2 ^ 63) db /\
    forall w mems, w_server w = b_server b -> w_shared w = b_shared b -> b_heap b ⊆ w_heap w ->
    map_Forall (fun _ => usable_memory) mems ->
    let n := mk_system w (create_redis_client <$> mems) in
    system_ok n db (mk_sstate ∅ ∅ (w_ticks w)) (fresh_peers (sys_clients n)) /\ unused n db
    /\ forall k, Z.of_nat k <= MAX_COMMANDS -> books (cfg_slowlog_max_len config) k n
}.

Lemma start_ok (files : bytes -> module_file) (getcwd : option bytes) (rs : redis_server_t)
    (h : heap) (cs : list cron_t) (ticks : nat) (prog : bytes) (args : list bytes) (exe file : option bytes) (config : server_config_t) :
  get_absolute_path getcwd prog = Done exe ->
  load_config getcwd (prog :: args) (snd (config_init_all_data config_rules config_defaults)) = Done (true, file, config) ->
  string_server_config files config ->
  exists b, start_redis_server files getcwd rs h cs ticks (prog :: args) = Done (1, b) /\ boot_ok config cs b.
Proof.
  intros Hexe Hload Hc. unfold start_redis_server.
  destruct command_manager_new_ok as (cm & Ecm & _).
  assert (Hrs : exists rs1, init_redis_server rs = Done rs1) by (unfold init_redis_server; rewrite Ecm; by eexists).
  destruct Hrs as (rs1 & Ers). rewrite Ers. cbn [mbind outcome_bind].
  destruct (init_shared_objects h) as [sh h'] eqn:Esh. destruct (init_shared_ok _ _ _ Esh) as [Hsh _].
  change (array_get (prog :: args) 0) with (Done prog). cbn [mbind outcome_bind]. rewrite Hexe. cbn [mbind outcome_bind].
  rewrite server_config_new_ok. cbn [mbind outcome_bind]. rewrite Hload. cbn [mbind outcome_bind].
  destruct (configure_ok files config rs rs1 cs ticks Hc Ers) as (rs2 & E & Hcmd & Hhz & Hlim & Hct & Hdbs & db & Hdb & Hwf & Hk & He & Htk & Hte).
  rewrite E. cbn [mbind outcome_bind]. eexists. split; [reflexivity|].
  pose proof Hct as [= Hm Hn Hslow]. split; cbn [b_server b_shared b_heap b_crons]; rewrite ?Hslow; try done.
  exists db. split; [unfold rooms; rewrite Htk, Hte; lia|]. intros w mems Ew Eshw Hheap Hmem. set (n := mk_system _ _).
  assert (Hfr : map_Forall (fun _ c => fresh_client c) (create_redis_client <$> mems)).
  { intros i c. rewrite lookup_fmap. destruct (mems !! i) as [mem|] eqn:Em; [|done]. intros [= <-].
    destruct (Hmem i mem Em) as ((? & ? & ?) & ? & ? & ?). by apply create_redis_client_fresh. }
  split_and!.
  - apply system_fresh; rewrite ?Ew, ?Hlim; try done.
    apply serving_empty; rewrite ?Ew, ?Eshw; try done; [by eapply shared_ok_mono|]. rewrite Hhz. apply Hc.
  - split; [done|]. intros i c Hi. by apply arg_locs_none, (Hfr i c Hi).
  - intros k Hmk. eapply books_fresh; [unfold n; cbn [sys_world]; rewrite Ew; exact Hct|apply Hc|apply Hc|exact Hmk].
Qed.


End Server.

(** ** Concrete runs *)

#[local] Existing Instance model_latte.
#[local] Existing Instance model_latte_laws.

(** A configuration manager that takes the modules to load from the command line. *)
#[local] Instance model_config : ConfigOps := {|
  config_init_all_data rules c := (zlen rules, c);
  config_load_file _ c := (0, c);
  config_load_argv args c :=
    (1, mk_config (cfg_port c) (cfg_bind c) (cfg_tcp_backlog c) (cfg_logfile c) (cfg_log_level c) (cfg_max_clients c)
          (cfg_use_async_io c) (cfg_event_loop_size c) (cfg_hz c) (cfg_db_num c)
          (Some (map (fun p => module_entry_new p []) (drop 1 args)))
          (cfg_slowlog_log_slower_than c) (cfg_slowlog_max_len c))
|}.

#[local] Instance model_config_laws : ConfigLaws.
Proof. split. reflexivity. Qed.

Lemma get_absolute_path_correct_witness :
  get_absolute_path (Some (bs "/usr/local")) (bs "../etc/latte.conf") = Done (Some (bs "/usr/etc/latte.conf")).
Proof.
  apply (get_absolute_path_correct (Some [bs "usr"; bs "local"]) (bs "../etc/latte.conf") (bs "etc/latte.conf") 1).
  - vm_compute. reflexivity.
  - discriminate.
  - intros cs [= <-]. repeat constructor; try discriminate; by apply (bool_decide_unpack _).
Defined.

Definition ex_argv : list bytes := [bs "--load-module"; bs "latte.so"].

Lemma ex_string_config : forall config,
  load_config None (bs "/bin/latte" :: ex_argv) (snd (config_init_all_data config_rules config_defaults)) = Done (true, None, config) ->
  string_server_config ex_files config.
Proof.
  intros config [= <-]. split; [|split; reflexivity|split; reflexivity|split; [discriminate|reflexivity]|split; [discriminate|reflexivity]].
  eexists _, (module_entry_new (bs "latte.so") []). split; [reflexivity|]. split; [reflexivity|]. exact ex_loadable.
Qed.


Definition ex_old_modules : vector_t module_entry_t := [module_entry_new (bs "a") []].
Definition ex_new_modules : vector_t module_entry_t :=
  [module_entry_new (bs "b") []; module_entry_new (bs "c") []; module_entry_new (bs "d") []].

(** Of three new modules the last two are added, and the first one is lost. *)
Lemma config_load_modules_add_half_witness :
  exists v, config_load_modules_add (Some ex_old_modules) ex_new_modules = Done (1, Some v)
    /\ map entry_path (vector_elems v) = [bs "a"; bs "d"; bs "c"].
Proof.
  destruct (config_load_modules_add_half (Some ex_old_modules) ex_new_modules) as (v & E & Hv).
  exists v. split; [exact E|]. rewrite Hv. reflexivity.
Defined.
