(* ===== verification/Main.v ===== *)
(** * The program (src/main.c)

    The arguments are copied, the first of them selects what the program does;
    the server is started unless it is one of seven option words. *)

From S2P Require Import Prelude LatteC LatteCModel KvStore State Db Reply Protocol CommandManager Module.
From S2P Require Import StringModule Commands Client Service Streams Sessions Metric Slowlog EventLoop Connections Server.

Section Main.
Context {L : LatteC} {Cfg : ConfigOps}.

(** [argv[j]] is the memory behind the pointer: its string ends at the first
    NUL. *)
Definition parseArgv (argv : list bytes) : list bytes * Z :=
  (map (fun a => sds_new_len a (zlen (cstr a))) argv, zlen argv).

Inductive Mode := HELP | VERSION | TEST_MEMORY | CHECK_SYSTEM | ENV | SERVER.

Definition getMode (argc : Z) (argv : list bytes) : outcome Mode :=
  if argc =? 1 then Done SERVER
  else
    a ← array_get argv 1;
    Done (if strcmp_eq a (bs "--help") || strcmp_eq a (bs "-h") then HELP
          else if strcmp_eq a (bs "-v") || strcmp_eq a (bs "--version") then VERSION
          else if strcmp_eq a (bs "--env") then ENV
          else if strcmp_eq a (bs "--test-memory") then TEST_MEMORY
          else if strcmp_eq a (bs "--check-system") then CHECK_SYSTEM
          else SERVER).

(** *** The texts (src/help.c, src/version.c, src/env.c) *)

Definition line (s : string) : bytes := bs s ++ [LF].

(** The lines [help] prints, and its result. *)
Definition help : list bytes * Z := ([
    line "Usage: ./latte-server [/path/to/latte.conf] [options] [-]";
    line "       ./latte-server - (read config from stdin)";
    line "       ./latte-server -v or --version";
    line "       ./latte-server -h or --help";
    line "       ./latte-server --test-memory <megabytes>";
    line "       ./latte-server --check-system";
    line "";
    line "Examples:";
    line "       ./latte-server (run the server with default conf)";
    line "       echo 'maxmemory 128mb' | ./latte-server -";
    line "       ./latte-server /etc/latte/6379.conf";
    line "       ./latte-server --port 7777";
    line "       ./latte-server --port 7777 --replicaof 127.0.0.1 8888";
    line "       ./latte-server /etc/mylatte.conf --loglevel verbose -";
    line "       ./latte-server /etc/mylatte.conf --loglevel verbose" ++ [LF];
    line "Sentinel mode:";
    line "       ./latte-server /etc/sentinel.conf --sentinel"], 1).

Definition LATTE_VERSION : bytes := bs "0.0.1".

Definition version (sizeof_long : Z) : bytes * Z :=
  (bs "Latte server v=" ++ LATTE_VERSION ++ bs " " ++ bs "bits=" ++ dec (if sizeof_long =? 4 then 32 else 64) ++ bs " " ++ [LF], 1).

(** [ae_get_api_name] is the library's name of the polling interface. *)
Definition env (ae_get_api_name : bytes) : list bytes * Z :=
  ([line "latte_env: "; bs "       " ++ ae_get_api_name ++ [LF]], 1).

Context (ae_get_api_name : bytes) (sizeof_long : Z).

(** What the program has done before it ends. *)
Inductive action :=
  | Printed (text : bytes)             (* help(), env() or version() *)
  | Started (r : Z) (b : boot_t)       (* start_redis_server *)
  | NoAction.

(** The copies of the arguments are released at the end. *)
Definition main (files : bytes -> module_file) (getcwd : option bytes) (rs : redis_server_t) (h : heap)
    (cron_manager : list cron_t) (ticks : nat) (argv : list bytes) : outcome (Z * action) :=
  let '(exec_argv, exec_argc) := parseArgv argv in
  mode ← getMode exec_argc exec_argv;
  done ← match mode with
         | HELP => Done (Printed (mjoin (fst help)))
         | ENV => Done (Printed (mjoin (fst (env ae_get_api_name))))
         | VERSION => Done (Printed (fst (version sizeof_long)))
         | SERVER =>
             '(r, b) ← start_redis_server files getcwd rs h cron_manager ticks exec_argv;
             Done (Started r b)
         | _ => Done NoAction
         end;
  Done (1, done).

(** ** Specification *)

Definition mode_words : list (bytes * Mode) :=
  [ (bs "--help", HELP); (bs "-h", HELP); (bs "-v", VERSION); (bs "--version", VERSION); (bs "--env", ENV);
    (bs "--test-memory", TEST_MEMORY); (bs "--check-system", CHECK_SYSTEM) ].

(** The help text announces all of them; nothing is behind the last two. *)
Definition mode_action (m : Mode) : action :=
  match m with
  | HELP => Printed (mjoin (fst help))
  | VERSION => Printed (fst (version sizeof_long))
  | ENV => Printed (mjoin (fst (env ae_get_api_name)))
  | _ => NoAction
  end.

(** The options a text mentions: its words that start with two dashes. *)
Definition options_in (lines : list bytes) : list bytes :=
  filter (fun w => take 2 w = bs "--") (lines ≫= fun l => split_sp (filter (fun c => c <> LF) l)).

(** Options that mean something: the words of [getMode], and the names of the
    rules of the configuration after the dashes. *)
Definition known_option (w : bytes) : bool :=
  bool_decide (w ∈ fst <$> mode_words) || bool_decide (drop 2 w ∈ fst <$> config_rules).

Context {LL : LatteCLaws}.

(** Of the options the help text mentions, three are unknown: the rule for the
    log level is called log-level, the other two do not exist. *)
Lemma help_mentions_unknown :
  filter (fun w => known_option w = false) (options_in (fst help))
  = [bs "--replicaof"; bs "--loglevel"; bs "--loglevel"; bs "--sentinel"].
Proof. vm_compute. reflexivity. Qed.

Lemma parseArgv_ok (argv : list bytes) : parseArgv argv = (map cstr argv, zlen argv).
Proof.
  unfold parseArgv. f_equal. apply map_ext. intros a. destruct (cstr_prefix a) as [t Ht].
  rewrite sds_new_len_spec.
  - unfold zlen. rewrite Nat2Z.id. rewrite Ht at 2. apply take_app_length.
  - split; [apply zlen_nonneg|]. rewrite Ht at 2. rewrite zlen_app. pose proof (zlen_nonneg t). lia.
Qed.

(** The words are pairwise different, so that the order of the tests does not matter. *)
Lemma getMode_word (n : Z) (prog : bytes) (w : bytes) (m : Mode) (rest : list bytes) :
  n <> 1 -> (w, m) ∈ mode_words -> getMode n (prog :: w :: rest) = Done m.
Proof.
  intros Hn Hw. unfold getMode. rewrite (proj2 (Z.eqb_neq _ _) Hn). unfold mode_words in Hw.
  rewrite !elem_of_cons, elem_of_nil in Hw. naive_solver.
Qed.

Lemma getMode_other (n : Z) (prog : bytes) (w : bytes) (rest : list bytes) :
  n <> 1 -> cstr w ∉ fst <$> mode_words -> getMode n (prog :: w :: rest) = Done SERVER.
Proof.
  intros Hn Hw. unfold getMode. rewrite (proj2 (Z.eqb_neq _ _) Hn).
  change (array_get (prog :: w :: rest) 1) with (Done w). cbn [mbind outcome_bind].
  cbn in Hw. rewrite !not_elem_of_cons in Hw. destruct Hw as (? & ? & ? & ? & ? & ? & ? & _).
  assert (H' : forall t, cstr w <> t -> cstr t = t -> strcmp_eq w t = false).
  { intros t Ht Et. unfold strcmp_eq. rewrite Et. by apply bool_decide_eq_false. }
  by rewrite !H' by done.
Qed.

(** Any other command line starts the server. *)
Lemma main_starts (files : bytes -> module_file) (getcwd : option bytes) (rs : redis_server_t) (h : heap)
    (cs : list cron_t) (ticks : nat) (prog : bytes) (args : list bytes) (r : Z) (b : boot_t) :
  (forall a, head args = Some a -> cstr a ∉ fst <$> mode_words) ->
  start_redis_server files getcwd rs h cs ticks (map cstr (prog :: args)) = Done (r, b) ->
  main files getcwd rs h cs ticks (prog :: args) = Done (1, Started r b).
Proof.
  intros Ha E. unfold main. rewrite parseArgv_ok.
  assert (Em : getMode (zlen (prog :: args)) (map cstr (prog :: args)) = Done SERVER).
  { destruct args as [|a rest]; [done|]. cbn [map]. apply getMode_other.
    - rewrite !zlen_cons. pose proof (zlen_nonneg rest). lia.
    - rewrite cstr_idemp. by apply Ha. }
  rewrite Em. cbn [mbind outcome_bind]. by rewrite E.
Qed.

(** C39: the program: for each of the seven option words it prints the
    corresponding text (nothing for --test-memory and --check-system, which the
    help text announces) and does not start a server; every other command line
    starts the server with copies of all arguments, each up to its NUL.  The
    exit status is 1 in every case, also when the server could not be started.
    Without a program name the argument array is read out of bounds. *)
Theorem main_dispatch (files : bytes -> module_file) (getcwd : option bytes) (rs : redis_server_t) (h : heap)
    (cs : list cron_t) (ticks : nat) (prog : bytes) :
  let run := main files getcwd rs h cs ticks in
  run [] = Fault OutOfBounds
  /\ (forall w m a rest, (w, m) ∈ mode_words -> cstr a = w -> run (prog :: a :: rest) = Done (1, mode_action m))
  /\ (forall args, (forall a, head args = Some a -> cstr a ∉ fst <$> mode_words) ->
      forall r b, start_redis_server files getcwd rs h cs ticks (map cstr (prog :: args)) = Done (r, b) ->
      run (prog :: args) = Done (1, Started r b)).
Proof.
  cbv zeta. split; [done|split].
  - intros w m a rest Hw <-. unfold main. rewrite parseArgv_ok. cbn [map].
    rewrite (getMode_word _ _ _ m) by (rewrite ?zlen_cons; pose proof (zlen_nonneg rest); done || lia).
    cbn [mbind outcome_bind]. unfold mode_words in Hw. rewrite !elem_of_cons, elem_of_nil in Hw. naive_solver.
  - intros args Ha r b E. by apply main_starts.
Qed.
End Main.

(** ** Concrete runs *)

#[local] Existing Instance model_latte.
#[local] Existing Instance model_latte_laws.

#[local] Instance model_config_ops : ConfigOps := {|
  config_init_all_data rules c := (zlen rules, c);
  config_load_file _ c := (0, c);
  config_load_argv _ c := (1, c)
|}.

Lemma main_dispatch_witness :
  main (bs "epoll") 8 ex_files None ex_server ∅ [] 0 [bs "/bin/latte"; bs "--check-system"; bs "x"] = Done (1, NoAction).
Proof.
  apply (proj1 (proj2 (main_dispatch (bs "epoll") 8 ex_files None ex_server ∅ [] 0 (bs "/bin/latte"))) (bs "--check-system") CHECK_SYSTEM).
  - apply list_elem_of_lookup. exists 6%nat. reflexivity.
  - vm_compute. reflexivity.
Defined.
