(* ===== verification/Program.v ===== *)
(** * The whole program

    From the command line to the replies: [main] starts the server
    (src/main.c, src/redis/server.c), the event loop of the library runs its
    callbacks and jobs, clients connect, are served and disconnect.  The theorem
    composes those on the program, the start and the connections. *)

From S2P Require Import Prelude LatteC LatteCModel KvStore State Db Reply Protocol CommandManager Module.
From S2P Require Import StringModule Commands Client Service Streams Sessions Metric Slowlog EventLoop Connections Server Main.

Section Program.
Context {L : LatteC} {LL : LatteCLaws} {Cfg : ConfigOps} {CL : ConfigLaws}.
Context (ae_get_api_name : bytes) (sizeof_long : Z) (files : bytes -> module_file).

(** What the clients are given by the library when the event loop begins: the
    server that was started, its shared objects and everything in its store. *)
Record handed_over (b : boot_t) (w : world) : Prop := {
  ho_server : w_server w = b_server b;
  ho_shared : w_shared w = b_shared b;
  ho_heap : b_heap b ⊆ w_heap w
}.

Lemma rooms_mono (m n : Z) (db : redis_db_t) : m <= n -> rooms n db -> rooms m db.
Proof. unfold rooms. lia. Qed.

(** The event loop of a server that has just been started. *)
Lemma boot_serves (config : server_config_t) (cs : list cron_t) (b : boot_t) (w : world) (fuel : nat) (l : list step) :
  boot_ok config cs b -> handed_over b w ->
  let n := mk_system w ∅ in
  let bulk := 1024 * 1024 in
  let limit := cfg_slowlog_max_len config in
  let tr := timetable bulk ∅ l in
  may_step_all files fuel limit l n -> traffic l < Z.min (Z.of_nat fuel) (2 ^ 62) ->
  Forall (fun x => item_ok files (snd x)) tr -> zlen tr <= 2 ^ 63 -> Z.of_nat (ends_in (steps_activities l)) <= MAX_COMMANDS ->
  if crashes tr then run_steps files fuel l n = Fault ASSERT_ARGC
  else let '(s', outs) := spec_steps bulk limit (mk_sstate ∅ ∅ (w_ticks w)) ∅ ∅ l in
    exists n' db', run_steps files fuel l n = Done n' /\ outputs n' = outs /\ serving (sys_world n') db' s'
      /\ accounted (samples_in (steps_activities l)) (ends_in (steps_activities l)) n n'
      /\ ((forall i c, sys_clients n' !! i = Some c -> argc c = 0) ->
          size (w_heap (sys_world n')) = (size (w_heap w) + length (lost_in bulk ∅ l) + size (keys_map db'))%nat).
Proof.
  intros [_ _ _ _ Hbulk (db & Hroom & Hfresh)] [Es Esh Eh] n bulk limit tr Hmay Htr Hits Hlen Hends.
  destruct (Hfresh w ∅ Es Esh Eh (map_Forall_empty _)) as (Hok & Hun & Hbk).
  rewrite fmap_empty in Hok, Hun, Hbk. cbn [sys_clients] in Hok. rewrite fresh_peers_empty in Hok. fold n in Hok, Hun, Hbk.
  assert (Eb : proto_max_bulk_len (w_server (sys_world n)) = bulk) by (cbn [sys_world n]; by rewrite Es).
  assert (Hsp : spacious fuel n (traffic l)) by (split; [done|]; intros i c Hi; cbn in Hi; by rewrite lookup_empty in Hi).
  pose proof (run_steps_ok files fuel limit l n db (mk_sstate ∅ ∅ (w_ticks w)) ∅) as H.
  cbv zeta in H. rewrite Eb in H. specialize (H ltac:(done) Hok (Hbk _ Hends) Hmay Hsp Hits (rooms_mono _ _ _ Hlen Hroom)). fold tr in H.
  destruct (crashes tr); [exact H|]. assert (Eo : outputs n = ∅) by apply fmap_empty. rewrite Eo in H.
  destruct (spec_steps bulk limit _ ∅ ∅ l) as [s' outs]. destruct H as (n' & db' & E & Hok' & _ & Eo' & [Hacc _ Hl _ _]).
  exists n', db'. split_and!; try done; [apply Hok'|]. by destruct (loses_store _ _ _ _ _ _ _ Hun Hok' Hl) as (ls & _ & _ & _ & ?).
Qed.

End Program.

(** ** Concrete runs *)

#[local] Existing Instance model_latte.
#[local] Existing Instance model_latte_laws.
#[local] Existing Instance model_config.
#[local] Existing Instance model_config_laws.

(** The clients of Connections.v, on the server the program has started. *)
Lemma ex_spec_outputs (limit : Z) :
  snd (spec_steps (1024 * 1024) limit (mk_sstate ∅ ∅ 0) ∅ ∅ ex_steps) = {[ 2%nat := [bs "$3" ++ CRLF ++ bs "bar" ++ CRLF] ]}.
Proof. vm_compute. reflexivity. Qed.

