(* ===== verification/Benchmark.v ===== *)
(** * The benchmark client (src/benchmark.c)

    A separate program that connects to the server and sends it a request.  It
    drives the event loops of the library; what it asks of them is recorded as
    a list of calls, in order.  The functions that a client calls through
    pointers are values of the client: a pointer that was never assigned is
    [None]. *)

From S2P Require Import Prelude LatteC LatteCModel.

(** ** Data *)

(** An event loop is known by its number; [NULL] is [None]. *)
Definition loop_id : Type := nat.

Record benchmarkThread := mk_thread {
  th_index : Z;
  th_el : option loop_id
}.

(** [struct redisContext]; [errstr] and the two function pointers are never used. *)
Record redisContext := mk_context {
  ctx_err : Z;
  ctx_fd : Z
}.

Record bclient := mk_bclient {
  b_context : redisContext;
  b_obuf : bytes;
  b_thread_id : Z;
  b_slots_last_update : Z;
  b_written : Z;
  b_start : Z;
  b_latency : Z;
  b_createWriteContent : option (bytes -> bytes);      (* what it makes of [obuf] *)
  b_writeContext : option (bytes -> Z)                 (* the number of bytes it reports written *)
}.

Record benchmarkConfig := mk_bconfig {
  bc_num_threads : Z;
  bc_el : option loop_id;
  bc_hostip : bytes;
  bc_hostport : Z;
  bc_threads : option (list (option benchmarkThread));
  bc_clients : list nat;
  bc_liveclients : Z;
  bc_slots_last_update : Z
}.

Inductive handler := writeHandler_cb | readHandler_cb | showThroughput_cb.
Inductive ae_mask := AE_READABLE | AE_WRITABLE.

(** The calls of the event library and of pthread. *)
Inductive ae_call :=
  | aeCreateEventLoop (size : Z)
  | aeDeleteEventLoop (el : loop_id)
  | aeCreateTimeEvent (el : option loop_id) (ms : Z) (h : handler)
  | aeCreateFileEvent (el : option loop_id) (fd : Z) (m : ae_mask) (h : handler)
  | aeDeleteFileEvent (el : option loop_id) (fd : Z) (m : ae_mask)
  | aeMain (el : option loop_id)
  | pthread_create (index : Z) (run : list ae_call)
  | pthread_join (index : Z).

(** The state of the program: the configuration, the heap of clients, the
    number of event loops made so far, the calls. *)
Record bstate := mk_bstate {
  s_config : benchmarkConfig;
  s_clients : list bclient;
  s_loops : nat;
  s_calls : list ae_call
}.

(** A part of the program either goes on, or has ended it with [exit]. *)
Inductive ending (A : Type) :=
  | Going (a : A)
  | Exited (code : Z).
Arguments Going {A} a.
Arguments Exited {A} code.

Definition emit (s : bstate) (l : list ae_call) : bstate :=
  mk_bstate (s_config s) (s_clients s) (s_loops s) (s_calls s ++ l).

Definition with_config (s : bstate) (c : benchmarkConfig) : bstate :=
  mk_bstate c (s_clients s) (s_loops s) (s_calls s).

Definition with_threads (c : benchmarkConfig) (t : option (list (option benchmarkThread))) : benchmarkConfig :=
  mk_bconfig (bc_num_threads c) (bc_el c) (bc_hostip c) (bc_hostport c) t (bc_clients c) (bc_liveclients c)
    (bc_slots_last_update c).

Definition set_client (s : bstate) (i : nat) (c : bclient) : bstate :=
  mk_bstate (s_config s) (<[i := c]> (s_clients s)) (s_loops s) (s_calls s).

(** [aeCreateEventLoop] answers a new loop, or NULL when [ok] does not hold. *)
Definition new_loop (ok : nat -> bool) (s : bstate) (size : Z) : option loop_id * bstate :=
  let n := s_loops s in
  (if ok n then Some n else None,
   emit (mk_bstate (s_config s) (s_clients s) (S n) (s_calls s)) [aeCreateEventLoop size]).

Section Benchmark.
Context (ok : nat -> bool).

(** ** Threads *)

Definition freeBenchmarkThread (s : bstate) (t : benchmarkThread) : bstate :=
  match th_el t with Some el => emit s [aeDeleteEventLoop el] | None => s end.

(** [for (; i < config.num_threads; i++)], [n] iterations left. *)
Fixpoint free_threads (n : nat) (i : Z) (ts : list (option benchmarkThread)) (s : bstate) : outcome bstate :=
  match n with
  | O => Done s
  | S n =>
      t ← array_get ts i;
      free_threads n (i + 1) ts (match t with Some t => freeBenchmarkThread s t | None => s end)
  end.

Definition freeBenchmarkThreads (s : bstate) : outcome bstate :=
  s ← (match bc_threads (s_config s) with
       | Some ts => free_threads (Z.to_nat (bc_num_threads (s_config s))) 0 ts s
       | None => if 0 <? bc_num_threads (s_config s) then Fault NullDeref else Done s
       end);
  Done (with_config s (with_threads (s_config s) None)).

(** [zmalloc] does not return NULL. *)
Definition createBenchmarkThread (s : bstate) (index : Z) : option benchmarkThread * bstate :=
  let '(el, s) := new_loop ok s (1024 * 10) in
  (Some (mk_thread index el), emit s [aeCreateTimeEvent el 1 showThroughput_cb]).

Fixpoint create_threads (n : nat) (i : Z) (ts : list (option benchmarkThread)) (s : bstate) :
    list (option benchmarkThread) * bstate :=
  match n with
  | O => (ts, s)
  | S n => let '(t, s) := createBenchmarkThread s i in create_threads n (i + 1) (ts ++ [t]) s
  end.

Definition initBenchmarkThreads (s : bstate) : outcome bstate :=
  s ← (match bc_threads (s_config s) with Some _ => freeBenchmarkThreads s | None => Done s end);
  let '(ts, s) := create_threads (Z.to_nat (bc_num_threads (s_config s))) 0 [] s in
  Done (with_config s (with_threads (s_config s) (Some ts))).

(** ** Clients *)

(** [createContext] allocates and assigns nothing: [mem] is what the block
    contained. *)
Definition createContext (mem : redisContext) (ip : bytes) (port : Z) : redisContext := mem.

Definition thread_at (c : benchmarkConfig) (i : Z) : outcome benchmarkThread :=
  ts ← deref (bc_threads c);
  t ← array_get ts i;
  deref t.

(** A thread runs the event loop it was made with. *)
Definition execBenchmarkThread (t : benchmarkThread) : list ae_call := [aeMain (th_el t)].

(** [starts i]: whether thread [i] could be started; its calls are those of
    [execBenchmarkThread]. *)
Fixpoint start_threads (starts : Z -> bool) (n : nat) (i : Z) (s : bstate) : outcome (ending bstate) :=
  match n with
  | O => Done (Going s)
  | S n =>
      t ← thread_at (s_config s) i;
      if starts i then start_threads starts n (i + 1) (emit s [pthread_create i (execBenchmarkThread t)])
      else Done (Exited 1)
  end.

Definition startBenchmarkThreads (starts : Z -> bool) (s : bstate) : outcome (ending bstate) :=
  let n := Z.to_nat (bc_num_threads (s_config s)) in
  r ← start_threads starts n 0 s;
  match r with
  | Going s => Done (Going (emit s (map (fun i => pthread_join (Z.of_nat i)) (seq 0 n))))
  | Exited c => Done (Exited c)
  end.

(** The macro CLIENT_GET_EVENTLOOP. *)
Definition client_get_eventloop (c : benchmarkConfig) (thread_id : Z) : outcome (option loop_id) :=
  if 0 <=? thread_id then (t ← thread_at c thread_id; Done (th_el t)) else Done (bc_el c).

Definition freeClient (s : bstate) (i : nat) : outcome bstate :=
  c ← deref (s_clients s !! i);
  _ ← client_get_eventloop (s_config s) (b_thread_id c);
  Done s.

(** The clock of the program. *)
Definition bench_ustime (tv_sec tv_usec : Z) : outcome Z :=
  us ← checked_i64 (tv_sec * 1000000);
  checked_i64 (us + tv_usec).

(** [if (c->written == 0) { ... }] *)
Definition init_request (s : bstate) (now : Z * Z) (c : bclient) : outcome bclient :=
  if b_written c =? 0 then
    create ← (match b_createWriteContent c with Some f => Done f | None => Fault UninitRead end);
    start ← bench_ustime (fst now) (snd now);
    Done (mk_bclient (b_context c) (create (b_obuf c)) (b_thread_id c) (bc_slots_last_update (s_config s)) (b_written c)
            start (-1) (b_createWriteContent c) (b_writeContext c))
  else Done c.

(** [c->written += n], back to an int. *)
Definition add_written (c : bclient) (n : Z) : bclient :=
  mk_bclient (b_context c) (b_obuf c) (b_thread_id c) (b_slots_last_update c) (i32 (b_written c + n))
    (b_start c) (b_latency c) (b_createWriteContent c) (b_writeContext c).

(** Every branch of the loop [while(1)] returns, so its body runs once. *)
Definition writeHandler (el : option loop_id) (now : Z * Z) (i : nat) (s : bstate) : outcome bstate :=
  c ← deref (s_clients s !! i);
  c ← init_request s now c;
  let s := set_client s i c in
  let buflen := zlen (b_obuf c) in
  writeLen ← checked_i64 (buflen - b_written c);
  if 0 <? writeLen then
    write ← (match b_writeContext c with Some f => Done f | None => Fault UninitRead end);
    let nwritten := write (drop (Z.to_nat (b_written c)) (b_obuf c)) in
    if negb (nwritten =? writeLen) then freeClient s i
    else if 0 <? nwritten then Done (set_client s i (add_written c nwritten))
    else Done (emit s [aeDeleteFileEvent el (ctx_fd (b_context c)) AE_WRITABLE;
                       aeCreateFileEvent el (ctx_fd (b_context c)) AE_READABLE readHandler_cb])
  else Done s.

(** [mem] and [garbage]: the blocks of the context and of the client before
    they are assigned. *)
Definition createClient (mem : redisContext) (garbage : bclient) (s : bstate) (cmd : bytes) (thread_id : Z) :
    outcome (ending bstate) :=
  let config := s_config s in
  let context := createContext mem (bc_hostip config) (bc_hostport config) in
  if negb (ctx_err context =? 0) then Done (Exited 1)
  else
    el ← (if thread_id <? 0 then Done (bc_el config) else (t ← thread_at config thread_id; Done (th_el t)));
    let s := emit s [aeCreateFileEvent el (ctx_fd context) AE_WRITABLE writeHandler_cb] in
    let c := mk_bclient context [] thread_id (bc_slots_last_update config) 0 (b_start garbage) (b_latency garbage)
               (b_createWriteContent garbage) (b_writeContext garbage) in
    live ← checked_i32 (bc_liveclients config + 1);
    let config := mk_bconfig (bc_num_threads config) (bc_el config) (bc_hostip config) (bc_hostport config)
      (bc_threads config) (bc_clients config ++ [length (s_clients s)]) live (bc_slots_last_update config) in
    Done (Going (mk_bstate config (s_clients s ++ [c]) (s_loops s) (s_calls s))).

Definition benchmark (starts : Z -> bool) (mem : redisContext) (garbage : bclient) (s : bstate) (cmd : bytes) :
    outcome (ending bstate) :=
  s ← (if negb (bc_num_threads (s_config s) =? 0) then initBenchmarkThreads s else Done s);
  let thread_id := if 0 <? bc_num_threads (s_config s) then 0 else -1 in
  r ← createClient mem garbage s cmd thread_id;
  match r with
  | Exited c => Done (Exited c)
  | Going s =>
      if bc_num_threads (s_config s) =? 0 then Done (Going (emit s [aeMain (bc_el (s_config s))]))
      else startBenchmarkThreads starts s
  end.

(** The static configuration starts as zeros. *)
Definition initConfig (s : bstate) : bstate :=
  let '(el, s) := new_loop ok s (1024 * 10) in
  with_config s (mk_bconfig 2 el (bs "127.0.0.1") 6379 None [] 0 (bc_slots_last_update (s_config s))).

Definition bench_main (starts : Z -> bool) (mem : redisContext) (garbage : bclient) (s : bstate) : outcome (ending bstate) :=
  let s := initConfig s in
  let s := emit s [aeCreateTimeEvent (bc_el (s_config s)) 1 showThroughput_cb] in
  benchmark starts mem garbage s (bs "PING" ++ CRLF).

(** ** Specification *)

(** The write handler runs for client [i] at the times [nows]. *)
Fixpoint write_events (el : option loop_id) (nows : list (Z * Z)) (i : nat) (s : bstate) : outcome bstate :=
  match nows with
  | [] => Done s
  | now :: nows => s ← writeHandler el now i s; write_events el nows i s
  end.

Definition time_ok (now : Z * Z) : Prop := 0 <= fst now < 2 ^ 40 /\ 0 <= snd now < 1000000.

(** A client that has not sent anything, or has sent all of its request. *)
Record idle_or_sent (s : bstate) (i : nat) (create : bytes -> bytes) (write : bytes -> Z) (c : bclient) : Prop := {
  is_client : s_clients s !! i = Some c;
  is_create : b_createWriteContent c = Some create;
  is_write : b_writeContext c = Some write;
  is_written : b_written c = 0 \/ 0 < b_written c < 2 ^ 31 /\ b_written c = zlen (b_obuf c);
  is_thread : exists el, client_get_eventloop (s_config s) (b_thread_id c) = Done el
}.

Lemma bench_ustime_ok (now : Z * Z) : time_ok now -> bench_ustime (fst now) (snd now) = Done (fst now * 1000000 + snd now).
Proof.
  intros [H1 H2]. unfold bench_ustime. rewrite checked_i64_Done by lia. cbn [mbind outcome_bind]. by rewrite checked_i64_Done by lia.
Qed.

Lemma set_client_same (s : bstate) (i : nat) (c : bclient) : s_clients s !! i = Some c -> set_client s i c = s.
Proof. intros H. unfold set_client. rewrite list_insert_id by done. by destruct s. Qed.

(** An event after everything is sent does nothing. *)
Lemma write_sent (el : option loop_id) (now : Z * Z) (i : nat) (s : bstate) (c : bclient) :
  s_clients s !! i = Some c -> 0 < b_written c < 2 ^ 31 -> b_written c = zlen (b_obuf c) -> writeHandler el now i s = Done s.
Proof.
  intros Hc Hw He. unfold writeHandler, init_request. rewrite Hc. cbn [deref mbind outcome_bind].
  rewrite (proj2 (Z.eqb_neq _ _)) by lia. cbn [mbind outcome_bind]. rewrite checked_i64_Done by lia. cbn [mbind outcome_bind].
  rewrite (proj2 (Z.ltb_ge _ _)) by lia. by rewrite set_client_same.
Qed.

(** An event before: the request is made anew; it counts as sent when all of
    it was accepted. *)
Lemma write_idle (el : option loop_id) (now : Z * Z) (i : nat) (s : bstate) (c : bclient) (create : bytes -> bytes) (write : bytes -> Z) :
  idle_or_sent s i create write c -> b_written c = 0 -> time_ok now -> (forall b, 0 < zlen (create b) < 2 ^ 31) ->
  let req := create (b_obuf c) in
  exists s' c', writeHandler el now i s = Done s' /\ s_calls s' = s_calls s /\ idle_or_sent s' i create write c'
    /\ b_obuf c' = req /\ b_written c' = if write req =? zlen req then zlen req else 0.
Proof.
  intros [Hc Hcr Hwr _ (el' & Hth)] Hw Ht Hreq req. specialize (Hreq (b_obuf c)). fold req in Hreq.
  unfold writeHandler, init_request. rewrite Hc. cbn [deref mbind outcome_bind]. rewrite Hw, Z.eqb_refl, Hcr.
  cbn [mbind outcome_bind]. rewrite bench_ustime_ok by done. cbn [mbind outcome_bind]. rewrite <- Hcr. set (c1 := mk_bclient _ _ _ _ _ _ _ _ _).
  assert (Hl : (i < length (s_clients s))%nat) by (by eapply lookup_lt_Some).
  change (b_written c1) with 0. change (b_obuf c1) with req. rewrite Z.sub_0_r, checked_i64_Done by lia. cbn [mbind outcome_bind].
  rewrite (proj2 (Z.ltb_lt _ _)) by lia. change (b_writeContext c1) with (b_writeContext c). rewrite Hwr. cbn [mbind outcome_bind].
  rewrite drop_0. destruct (Z.eqb_spec (write req) (zlen req)) as [E|E]; cbn [negb].
  - rewrite E, (proj2 (Z.ltb_lt _ _)) by lia. eexists _, (add_written c1 (zlen req)). split; [reflexivity|]. split; [done|].
    assert (Ew : b_written (add_written c1 (zlen req)) = zlen req) by (cbn; apply wrap_s_small; lia).
    split; [|done]. split; [|done|done| |by exists el'].
    + cbn. by rewrite list_insert_insert_eq, list_lookup_insert_eq.
    + right. rewrite Ew. done.
  - exists (set_client s i c1), c1. split.
    + unfold freeClient. cbn [s_clients set_client]. rewrite list_lookup_insert_eq by done. cbn [deref mbind outcome_bind].
      change (b_thread_id c1) with (b_thread_id c). change (s_config (set_client s i c1)) with (s_config s). by rewrite Hth.
    + split; [done|]. split; [|done]. split; [|done|done|by left|by exists el'].
      cbn. by rewrite list_lookup_insert_eq.
Qed.

Lemma write_unassigned (el : option loop_id) (now : Z * Z) (i : nat) (s : bstate) (c : bclient) (create : bytes -> bytes) :
  s_clients s !! i = Some c -> b_createWriteContent c = Some create -> b_writeContext c = None -> b_written c = 0 ->
  0 < zlen (create (b_obuf c)) < 2 ^ 31 -> time_ok now -> writeHandler el now i s = Fault UninitRead.
Proof.
  intros Hc Hcr Hwr Hw Hreq Ht. unfold writeHandler, init_request. rewrite Hc. cbn [deref mbind outcome_bind].
  rewrite Hw, Z.eqb_refl, Hcr. cbn [mbind outcome_bind]. rewrite bench_ustime_ok by done. cbn [mbind outcome_bind b_obuf b_written b_writeContext].
  rewrite Z.sub_0_r, checked_i64_Done by lia. cbn [mbind outcome_bind]. rewrite (proj2 (Z.ltb_lt _ _)) by lia. by rewrite Hwr.
Qed.

Lemma write_events_ok (el : option loop_id) (nows : list (Z * Z)) (i : nat) (s : bstate) (c : bclient)
    (create : bytes -> bytes) (write : bytes -> Z) :
  idle_or_sent s i create write c -> Forall time_ok nows -> (forall b, 0 < zlen (create b) < 2 ^ 31) ->
  exists s', write_events el nows i s = Done s' /\ s_calls s' = s_calls s.
Proof.
  intros Hi Hn Hreq. revert s c Hi. induction Hn as [|now nows Ht Hn IH]; intros s c Hi; [by exists s|]. cbn [write_events].
  destruct (is_written _ _ _ _ _ Hi) as [Hw|[Hw He]].
  - destruct (write_idle el now i s c create write Hi Hw Ht Hreq) as (s1 & c1 & E & Ec & Hi1 & _). rewrite E. cbn [mbind outcome_bind].
    destruct (IH s1 c1 Hi1) as (s' & E' & Ec'). exists s'. split; [done|congruence].
  - rewrite (write_sent el now i s c) by (done || apply Hi). cbn [mbind outcome_bind]. by apply (IH s c).
Qed.

(** The program before it runs. *)
Definition bench_static : bstate := mk_bstate (mk_bconfig 0 None [] 0 None [] 0 0) [] 0 [].

(** What it asks of the library until all threads have ended. *)
Definition bench_calls (fd : Z) : list ae_call :=
  [ aeCreateEventLoop 10240; aeCreateTimeEvent (Some 0%nat) 1 showThroughput_cb;
    aeCreateEventLoop 10240; aeCreateTimeEvent (Some 1%nat) 1 showThroughput_cb;
    aeCreateEventLoop 10240; aeCreateTimeEvent (Some 2%nat) 1 showThroughput_cb;
    aeCreateFileEvent (Some 1%nat) fd AE_WRITABLE writeHandler_cb;
    pthread_create 0 [aeMain (Some 1%nat)]; pthread_create 1 [aeMain (Some 2%nat)]; pthread_join 0; pthread_join 1 ].

(** Evaluate the start of the program with the facts of the context. *)
Ltac bench_step :=
  repeat (progress (cbn [mbind outcome_bind]; cbn; try change (Z.to_nat 2) with 2%nat;
    repeat match goal with
    | |- context [array_get ?l ?i] => let r := eval vm_compute in (array_get l i) in change (array_get l i) with r
    | |- context [checked_i32 ?z] => let r := eval vm_compute in (checked_i32 z) in change (checked_i32 z) with r
    end;
    repeat match goal with H : forall _, _ = true |- _ => rewrite H end;
    try match goal with H : negb (ctx_err _ =? 0) = _ |- _ => rewrite H end)).

(** C40: the benchmark: when the event loops and threads can be made, what
    happens depends on memory that is never assigned.  If the error code of the
    connection is not 0 the program exits; otherwise it makes three event
    loops, registers the one client for writing in the loop of the first thread
    and runs both threads.  The first write event calls pointers that are not
    assigned.  If both pointers happen to lead to functions that make a request
    and send it, then however the writes go and however many there are, every
    event completes and the event library is asked for nothing more: the
    handler that would read the answer is never installed. *)
Theorem benchmark_never_reads (starts : Z -> bool) (mem : redisContext) (garbage : bclient) :
  (forall n, ok n = true) -> (forall i, starts i = true) ->
  if negb (ctx_err mem =? 0) then bench_main starts mem garbage bench_static = Done (Exited 1)
  else exists s, bench_main starts mem garbage bench_static = Done (Going s) /\ s_calls s = bench_calls (ctx_fd mem)
    /\ match b_createWriteContent garbage, b_writeContext garbage with
       | Some create, Some write =>
           (forall b, 0 < zlen (create b) < 2 ^ 31) -> forall nows, Forall time_ok nows ->
           exists s', write_events (Some 1%nat) nows 0 s = Done s' /\ s_calls s' = s_calls s
       | None, _ => forall now, writeHandler (Some 1%nat) now 0 s = Fault UninitRead
       | Some create, None => 0 < zlen (create []) < 2 ^ 31 -> forall now, time_ok now ->
           writeHandler (Some 1%nat) now 0 s = Fault UninitRead
       end.
Proof.
  intros Hok Hst. destruct (negb (ctx_err mem =? 0)) eqn:Eerr.
  - unfold bench_main, benchmark, initConfig, initBenchmarkThreads, createClient, createContext, new_loop, startBenchmarkThreads.
    bench_step. done.
  - eexists. split; [|split].
    + unfold bench_main, benchmark, initConfig, initBenchmarkThreads, createClient, createContext, new_loop, startBenchmarkThreads.
      bench_step. reflexivity.
    + reflexivity.
    + destruct (b_createWriteContent garbage) as [create|] eqn:Ec; [|intros now; cbn; by rewrite ?Ec].
      destruct (b_writeContext garbage) as [write|] eqn:Ew.
      2: { intros Hreq now Ht. eapply (write_unassigned (Some 1%nat) now 0 _ _ create); [reflexivity|done|done|done|exact Hreq|exact Ht]. }
      intros Hreq nows Hn.
      eapply write_events_ok; [|exact Hn|exact Hreq]. split; [reflexivity|done|done|by left|]. eexists. reflexivity.
Qed.
End Benchmark.

(** ** Concrete runs *)

Definition ex_bench_client : bclient :=
  mk_bclient (mk_context 0 3) [] 0 0 0 0 0 (Some (fun b => bs "PING" ++ CRLF)) (Some zlen).

(** A lucky memory: the request is sent, and nothing happens afterwards. *)
Lemma benchmark_never_reads_witness :
  exists s s', bench_main (fun _ => true) (fun _ => true) (mk_context 0 3) ex_bench_client bench_static = Done (Going s)
    /\ write_events (Some 1%nat) [(1700000000, 5); (1700000001, 7)] 0 s = Done s' /\ s_calls s' = s_calls s.
Proof.
  destruct (benchmark_never_reads (fun _ => true) (fun _ => true) (mk_context 0 3) ex_bench_client
    (fun _ => eq_refl) (fun _ => eq_refl)) as (s & E & _ & H).
  destruct (H (fun b => conj eq_refl eq_refl) [(1700000000, 5); (1700000001, 7)]) as (s' & E' & Ec).
  - repeat constructor; simpl; lia.
  - exists s, s'. split; [exact E|]. split; [exact E'|exact Ec].
Defined.
